(** * QLTOTapeMan / libqltfs: the device-protocol and transfer engine

    A shallow embedding of the SCSI command layer (ScsiCommand.cpp), the
    tape-device controller (TapeDevice.cpp), the block and extent
    bookkeeping of BlockManager.cpp, the transfer loops and the queue of
    TapeIO.cpp, the 64-bit hash of HashCalculator.cpp and the LTFS index
    XML writer and parser (IndexWriter.cpp, IndexParser.cpp), with the
    properties of the specification stated and settled against them, and
    further properties of the same code. *)

From Stdlib Require Import ZArith List String Ascii Bool Lia.
From Stdlib.Strings Require Import Byte.
From Stdlib Require Import DecimalString DecimalN DecimalZ DecimalFacts
  DecimalPos.
From Stdlib Require HexadecimalString HexadecimalN.
Import ListNotations.

Local Open Scope Z_scope.

(** ** Bytes, fixed-width integers and QByteArray *)

(** A QByteArray is the list of its [size()] bytes. *)
Definition QByteArray := list byte.

(** The value of a byte read through a [const quint8 *]. *)
Definition u8 (b : byte) : Z := Z.of_N (Byte.to_N b).

(** [static_cast<char>(v)]: the low eight bits of [v]. *)
Definition to_char (v : Z) : byte :=
  match Byte.of_N (Z.to_N (v mod 256)) with
  | Some b => b
  | None => x00
  end.

Definition wrap8 (v : Z) : Z := v mod 2 ^ 8.
Definition wrap32 (v : Z) : Z := v mod 2 ^ 32.
Definition wrap64 (v : Z) : Z := v mod 2 ^ 64.

(** [static_cast<int>(v)] of a [quint32]. *)
Definition toInt (v : Z) : Z := if v <? 2 ^ 31 then v else v - 2 ^ 32.

(** [data.size()] *)
Definition size (data : QByteArray) : Z := Z.of_nat (List.length data).

(** [bytes[i]] on [data.constData()].  A QByteArray keeps a terminating
    zero byte behind its [size()] bytes, so index [size()] reads 0. *)
Definition byteAt (data : QByteArray) (i : nat) : Z :=
  match nth_error data i with
  | Some b => u8 b
  | None => 0
  end.

(** ** QString helpers

    Models of the Qt string functions the sources call.  Numbers are printed
    the way [QString::number] and [QString::arg] print them in base 10 and
    base 16; the parsers are the models of [toULongLong] and [toLongLong] on
    plain digit strings, which return 0 when the text is not a number of the
    target type. *)
Module QStr.

(** [QString::number(v)] and [QString("%1").arg(v)] for an integer. *)
Definition number (v : Z) : string :=
  NilZero.string_of_int (Z.to_int v).

(** [text.toULongLong()] *)
Definition toULongLong (text : string) : Z :=
  match NilZero.uint_of_string text with
  | Some d => let v := Z.of_N (N.of_uint d) in
              if v <? 2 ^ 64 then v else 0
  | None => 0
  end.

(** [text.toLongLong()] *)
Definition toLongLong (text : string) : Z :=
  match NilZero.int_of_string text with
  | Some d => let v := Z.of_int d in
              if (- 2 ^ 63 <=? v) && (v <? 2 ^ 63) then v else 0
  | None => 0
  end.

(** [QString("%1").arg(v, 2, 16, QLatin1Char('0'))] for [v >= 0]. *)
Definition hex2 (v : Z) : string :=
  let s := HexadecimalString.NilZero.string_of_uint (N.to_hex_uint (Z.to_N v)) in
  if (String.length s <? 2)%nat then String "0" s else s.

(** Lower case of an ASCII character. *)
Definition lowerAscii (c : ascii) : ascii :=
  let n := nat_of_ascii c in
  if (65 <=? n)%nat && (n <=? 90)%nat then ascii_of_nat (n + 32) else c.

(** [text.toLower()], on ASCII text. *)
Fixpoint toLower (s : string) : string :=
  match s with
  | EmptyString => EmptyString
  | String c r => String (lowerAscii c) (toLower r)
  end.

(** [QChar::isSpace] on ASCII: tab to carriage return, and the space. *)
Definition isSpace (c : ascii) : bool :=
  let n := nat_of_ascii c in
  ((9 <=? n)%nat && (n <=? 13)%nat) || (n =? 32)%nat.

Fixpoint trimLeft (s : string) : string :=
  match s with
  | String c r => if isSpace c then trimLeft r else s
  | EmptyString => EmptyString
  end.

Fixpoint reverse (acc s : string) : string :=
  match s with
  | EmptyString => acc
  | String c r => reverse (String c acc) r
  end.

(** [text.trimmed()] *)
Definition trimmed (s : string) : string :=
  reverse EmptyString (trimLeft (reverse EmptyString (trimLeft s))).

(** [text.endsWith(suffix)] *)
Definition endsWith (suffix text : string) : bool :=
  let n := String.length text in
  let k := String.length suffix in
  (k <=? n)%nat && String.eqb (substring (n - k) k text) suffix.

(** [text.chop(k)] *)
Definition chop (k : nat) (text : string) : string :=
  substring 0 (String.length text - k) text.

End QStr.

(** ** Numbers in a fixed count of digits

    The zero-padded fields of a timestamp and the groups of a UUID. *)
Module QText.

(** The character of a digit value below 16, lower case. *)
Definition digitChar (v : Z) : ascii :=
  if v <? 10 then ascii_of_nat (48 + Z.to_nat v)
  else ascii_of_nat (87 + Z.to_nat v).

(** The value of a digit character in base [base] (10 or 16); hexadecimal
    letters count in either case. *)
Definition digitVal (base : Z) (c : ascii) : option Z :=
  let n := nat_of_ascii c in
  let v := if (48 <=? n)%nat && (n <=? 57)%nat then Z.of_nat (n - 48)
           else if (97 <=? n)%nat && (n <=? 102)%nat then Z.of_nat (n - 87)
           else if (65 <=? n)%nat && (n <=? 70)%nat then Z.of_nat (n - 55)
           else base in
  if v <? base then Some v else None.

(** [v] in exactly [n] digits of base [base], most significant first:
    [QString("%1").arg(v, n, base, QLatin1Char('0'))] for
    [0 <= v < base ^ n]. *)
Fixpoint padded (base : Z) (n : nat) (v : Z) : string :=
  match n with
  | O => EmptyString
  | S k => String (digitChar (v / base ^ Z.of_nat k))
                  (padded base k (v mod base ^ Z.of_nat k))
  end.

(** Reads exactly [n] digits of base [base] off the front of [s]. *)
Fixpoint digits (base : Z) (n : nat) (acc : Z) (s : string)
    : option (Z * string) :=
  match n with
  | O => Some (acc, s)
  | S k =>
      match s with
      | EmptyString => None
      | String c r =>
          match digitVal base c with
          | Some d => digits base k (acc * base + d) r
          | None => None
          end
      end
  end.

(** Reads the character [c] off the front of [s]. *)
Definition expect (c : ascii) (s : string) : option string :=
  match s with
  | String c' r => if Ascii.eqb c c' then Some r else None
  | EmptyString => None
  end.

End QText.

(** ** Reads with a record of the indices touched

    [Rd A] is a computation over a byte array that returns a value together
    with the list of the indices it dereferenced, in program order. *)
Module Access.

Definition Rd (A : Type) : Type := QByteArray -> A * list nat.

Definition ret {A} (a : A) : Rd A := fun _ => (a, []).

Definition bind {A B} (m : Rd A) (k : A -> Rd B) : Rd B :=
  fun data =>
    let '(a, l1) := m data in
    let '(b, l2) := k a data in
    (b, l1 ++ l2).

(** [bytes[i]] *)
Definition rd (i : nat) : Rd Z := fun data => (byteAt data i, [i]).

(** [data.size()] touches no element. *)
Definition len : Rd Z := fun data => (size data, []).

End Access.

Declare Scope rd_scope.
Delimit Scope rd_scope with rd.
Notation "x <- m ;; k" := (Access.bind m (fun x => k))
  (at level 61, m at next level, right associativity) : rd_scope.

(** ** ScsiCommand.h / ScsiCommand.cpp *)
Module Scsi.

(** [enum class ScsiSenseKey : quint8].  The value 0x0C has no enumerator;
    a [static_cast] from a nibble can still produce it. *)
Inductive ScsiSenseKey :=
| NoSense | RecoveredError | NotReady | MediumError | HardwareError
| IllegalRequest | UnitAttention | DataProtect | BlankCheck
| VendorSpecific | CopyAborted | AbortedCommand | SenseKey0C
| VolumeOverflow | Miscompare | Completed.

Definition senseKey_code (k : ScsiSenseKey) : Z :=
  match k with
  | NoSense => 0x00 | RecoveredError => 0x01 | NotReady => 0x02
  | MediumError => 0x03 | HardwareError => 0x04 | IllegalRequest => 0x05
  | UnitAttention => 0x06 | DataProtect => 0x07 | BlankCheck => 0x08
  | VendorSpecific => 0x09 | CopyAborted => 0x0A | AbortedCommand => 0x0B
  | SenseKey0C => 0x0C
  | VolumeOverflow => 0x0D | Miscompare => 0x0E | Completed => 0x0F
  end.

(** [static_cast<ScsiSenseKey>(v)] for a nibble [v]. *)
Definition senseKey_of (v : Z) : ScsiSenseKey :=
  match v with
  | 0x00 => NoSense | 0x01 => RecoveredError | 0x02 => NotReady
  | 0x03 => MediumError | 0x04 => HardwareError | 0x05 => IllegalRequest
  | 0x06 => UnitAttention | 0x07 => DataProtect | 0x08 => BlankCheck
  | 0x09 => VendorSpecific | 0x0A => CopyAborted | 0x0B => AbortedCommand
  | 0x0D => VolumeOverflow | 0x0E => Miscompare | 0x0F => Completed
  | _ => SenseKey0C
  end.

Definition senseKey_eqb (a b : ScsiSenseKey) : bool :=
  senseKey_code a =? senseKey_code b.

Record ScsiSenseData := mkSense {
  valid : bool;
  senseKey : ScsiSenseKey;
  additionalSenseCode : Z;
  additionalSenseCodeQualifier : Z;
  information : Z;
  rawData : QByteArray
}.

(** The default-constructed [ScsiSenseData]. *)
Definition noSenseData : ScsiSenseData :=
  mkSense false NoSense 0 0 0 [].

(** [ScsiSenseData::isError] *)
Definition isError (s : ScsiSenseData) : bool :=
  if negb (valid s) then false
  else match senseKey s with
       | NoSense | RecoveredError | Completed => false
       | _ => true
       end.

Local Open Scope rd_scope.

(** [ScsiSenseData::fromRawData], with the element reads recorded. *)
Definition fromRawData_rd : Access.Rd ScsiSenseData :=
  fun data =>
  (n <- Access.len ;;
   if n <? 8 then Access.ret (mkSense false NoSense 0 0 0 data)
   else
     b0 <- Access.rd 0 ;;
     let responseCode := Z.land b0 0x7F in
     if (responseCode =? 0x70) || (responseCode =? 0x71) then
       b0' <- Access.rd 0 ;;
       let valid0 := negb (Z.land b0' 0x80 =? 0) in
       b2 <- Access.rd 2 ;;
       let key := senseKey_of (Z.land b2 0x0F) in
       b3 <- Access.rd 3 ;;
       b4 <- Access.rd 4 ;;
       b5 <- Access.rd 5 ;;
       b6 <- Access.rd 6 ;;
       let info :=
         Z.lor (Z.lor (Z.lor (wrap32 (Z.shiftl b3 24)) (Z.shiftl b4 16))
                      (Z.shiftl b5 8)) b6 in
       additionalLength <- Access.rd 7 ;;
       if (13 <=? n) && (6 <=? additionalLength) then
         asc <- Access.rd 12 ;;
         ascq <- Access.rd 13 ;;
         Access.ret (mkSense true key asc ascq info data)
       else
         Access.ret (mkSense true key 0 0 info data)
     else if (responseCode =? 0x72) || (responseCode =? 0x73) then
       b1 <- Access.rd 1 ;;
       b2 <- Access.rd 2 ;;
       b3 <- Access.rd 3 ;;
       Access.ret (mkSense true (senseKey_of (Z.land b1 0x0F)) b2 b3 0 data)
     else
       Access.ret (mkSense false NoSense 0 0 0 data)) data.

Definition fromRawData (data : QByteArray) : ScsiSenseData :=
  fst (fromRawData_rd data).

(** The indices [fromRawData] dereferences on [data]. *)
Definition fromRawData_reads (data : QByteArray) : list nat :=
  snd (fromRawData_rd data).

Local Close Scope rd_scope.

(** The response code of a sense buffer: bits 0-6 of byte 0. *)
Definition responseCode (data : QByteArray) : Z :=
  Z.land (byteAt data 0) 0x7F.

Definition isFixed (data : QByteArray) : bool :=
  (responseCode data =? 0x70) || (responseCode data =? 0x71).

Definition isDescriptor (data : QByteArray) : bool :=
  (responseCode data =? 0x72) || (responseCode data =? 0x73).

(** The condition under which the fixed-format branch takes ASC and ASCQ
    from the buffer. *)
Definition lengthPermits (data : QByteArray) : bool :=
  (13 <=? size data) && (6 <=? byteAt data 7).

(** A fixed-format sense buffer of exactly 13 bytes with additional
    sense length 6: NotReady, ASC 0x3A. *)
Definition sense13 : QByteArray :=
  [ x70; x00; x02; x00; x00; x00; x00; x06;
    x00; x00; x00; x00; x3a ].

(** A fixed-format sense buffer: MediumError, ASC 0x11, ASCQ 0x00. *)
Definition mediumErrorSense : QByteArray :=
  [ x70; x00; x03; x00; x00; x00; x00; x0a;
    x00; x00; x00; x00; x11; x00; x00; x00; x00; x00 ].


(** *** Command results *)

Inductive ScsiDataDirection := DirNone | ToDevice | FromDevice.

Record ScsiCommandResult := mkResult {
  success : bool;
  hostStatus : Z;
  driverStatus : Z;
  scsiStatus : Z;
  senseData : ScsiSenseData;
  data : QByteArray;
  bytesTransferred : Z;
  residual : Z
}.

(** The default-constructed [ScsiCommandResult]. *)
Definition emptyResult : ScsiCommandResult :=
  mkResult false 0 0 0 noSenseData [] 0 0.

Definition SCSI_STATUS_GOOD : Z := 0x00.
Definition DEFAULT_TIMEOUT : Z := 60.
Definition MAX_CDB_LENGTH : Z := 16.
Definition SENSE_BUFFER_SIZE : Z := 252.

(** [ScsiSenseData::toString] *)
Definition senseKeyStr (k : ScsiSenseKey) : string :=
  match k with
  | NoSense => "No Sense" | RecoveredError => "Recovered Error"
  | NotReady => "Not Ready" | MediumError => "Medium Error"
  | HardwareError => "Hardware Error" | IllegalRequest => "Illegal Request"
  | UnitAttention => "Unit Attention" | DataProtect => "Data Protect"
  | BlankCheck => "Blank Check" | VendorSpecific => "Vendor Specific"
  | CopyAborted => "Copy Aborted" | AbortedCommand => "Aborted Command"
  | SenseKey0C => ""
  | VolumeOverflow => "Volume Overflow" | Miscompare => "Miscompare"
  | Completed => "Completed"
  end%string.

Definition senseToString (s : ScsiSenseData) : string :=
  if negb (valid s) then "No sense data"%string
  else ("Sense Key: " ++ senseKeyStr (senseKey s)
        ++ ", ASC: 0x" ++ QStr.hex2 (additionalSenseCode s)
        ++ ", ASCQ: 0x" ++ QStr.hex2 (additionalSenseCodeQualifier s))%string.

(** [ScsiCommandResult::errorMessage] *)
Definition errorMessage (r : ScsiCommandResult) : string :=
  if success r then ""%string
  else if negb (hostStatus r =? 0) then
    ("Host error: " ++ QStr.number (hostStatus r))%string
  else if negb (driverStatus r =? 0) then
    ("Driver error: " ++ QStr.number (driverStatus r))%string
  else if negb (scsiStatus r =? SCSI_STATUS_GOOD) then
    ("SCSI status: 0x" ++ QStr.hex2 (scsiStatus r)
     ++ (if valid (senseData r)
         then " - " ++ senseToString (senseData r) else ""))%string
  else "Unknown error"%string.

(** *** The pass-through transport (the Linux SG_IO branch)

    [SgIoHdr] is what [execute] hands to [ioctl(fd, SG_IO, &io_hdr)];
    [SgIoReply] is what the kernel and the drive leave behind.  The
    drive is not part of the program: its behaviour is the function
    [Drive], from the commands issued so far and the current one to a
    reply. *)
Record SgIoHdr := mkHdr {
  cmd_len : Z;
  cmdp : QByteArray;
  dxfer_direction : ScsiDataDirection;
  dxfer_len : Z;
  dxferp : QByteArray;
  timeout_ms : Z
}.

Record SgIoReply := mkReply {
  ioctl_ret : Z;
  ioctl_errno : Z;
  host_status : Z;
  driver_status : Z;
  status : Z;
  resid : Z;
  sb_len_wr : Z;
  senseBuffer : QByteArray;
  dataIn : QByteArray
}.

Definition Drive := list SgIoHdr -> SgIoHdr -> SgIoReply.

(** [ScsiCommand::Private] *)
Record Private := mkPrivate {
  fd : Z;
  timeoutSeconds : Z
}.

(** A freshly constructed and successfully opened [ScsiCommand]. *)
Definition opened (fd0 : Z) : Private := mkPrivate fd0 DEFAULT_TIMEOUT.

Definition isOpen (d : Private) : bool := 0 <=? fd d.

(** [QByteArray::resize(n)]: the first [n] bytes; where the array was
    shorter the new bytes are taken as zero.  The callers pass the size
    as [Z.to_nat] of the [int] they hand over, so that a negative size
    gives the empty array, as [resize] does. *)
Definition resize (n : nat) (a : QByteArray) : QByteArray :=
  firstn n a ++ repeat x00 (n - List.length a).

(** [static_cast<unsigned char>(v)] as a number. *)
Definition uchar (v : Z) : Z := v mod 256.

(** The data buffer as [execute] sets it up before the ioctl:
    [data.resize(static_cast<int>(dataLength)); data.fill(0)] for a
    transfer from the device. *)
Definition prepared (direction : ScsiDataDirection) (buf : QByteArray)
    (dataLength : Z) : QByteArray :=
  match direction with
  | FromDevice => repeat x00 (Z.to_nat (toInt dataLength))
  | _ => buf
  end.

(** The [sg_io_hdr_t] that [execute] fills in.  The timeout is the [int]
    product stored in an [unsigned int]. *)
Definition sgHeader (d : Private) (cdb : QByteArray)
    (direction : ScsiDataDirection) (buf1 : QByteArray) : SgIoHdr :=
  let attach :=
    match direction with
    | DirNone => false
    | _ => negb (size buf1 =? 0)
    end in
  mkHdr (uchar (size cdb)) cdb direction
        (if attach then wrap32 (size buf1) else 0)
        (if attach then buf1 else [])
        (wrap32 (timeoutSeconds d * 1000)).

(** What [execute] makes of the reply: the result and the caller's
    buffer. *)
Definition completed (direction : ScsiDataDirection) (buf1 : QByteArray)
    (dataLength : Z) (reply : SgIoReply)
    : ScsiCommandResult * QByteArray :=
  if ioctl_ret reply <? 0 then
    (mkResult false (ioctl_errno reply) 0 0 noSenseData [] 0 0, buf1)
  else
    let transferred := wrap32 (dataLength - resid reply) in
    let sense :=
      if 0 <? sb_len_wr reply
      then fromRawData (resize (Z.to_nat (sb_len_wr reply))
                               (senseBuffer reply))
      else noSenseData in
    let ok := (host_status reply =? 0) && (driver_status reply =? 0)
              && (status reply =? SCSI_STATUS_GOOD) in
    let buf2 :=
      match direction with
      | FromDevice =>
          resize (Z.to_nat (toInt transferred))
                 (if size buf1 =? 0 then buf1 else dataIn reply)
      | _ => buf1
      end in
    (mkResult ok (host_status reply) (driver_status reply)
              (status reply) sense
              (match direction with FromDevice => buf2 | _ => [] end)
              transferred (wrap32 (resid reply)),
     buf2).

(** [ScsiCommand::Private::execute].  Returns the result, the data buffer
    as the caller sees it afterwards, and the extended list of issued
    commands.  A command is issued exactly when the device is open;
    nothing else in the function keeps a command from the drive. *)
Definition execute (drive : Drive) (d : Private) (cdb : QByteArray)
    (direction : ScsiDataDirection) (buf : QByteArray) (dataLength : Z)
    (issued : list SgIoHdr)
    : ScsiCommandResult * QByteArray * list SgIoHdr :=
  if negb (isOpen d) then (emptyResult, buf, issued)
  else
    let buf1 := prepared direction buf dataLength in
    let io_hdr := sgHeader d cdb direction buf1 in
    let reply := drive issued io_hdr in
    (completed direction buf1 dataLength reply, issued ++ [io_hdr]).

(** [ScsiCommand::executeRaw] *)
Definition executeRaw (drive : Drive) (d : Private) (cdb : QByteArray)
    (direction : ScsiDataDirection) (buf : QByteArray) (dataLength : Z)
    (issued : list SgIoHdr) :=
  execute drive d cdb direction buf dataLength issued.

(** *** Command descriptor blocks *)

(** [QByteArray cdb(n, 0)] *)
Definition zeroCdb (n : nat) : QByteArray := repeat x00 n.

(** [cdb[i] = static_cast<char>(v)] for an index inside the array. *)
Fixpoint setByte (i : nat) (v : Z) (cdb : QByteArray) : QByteArray :=
  match cdb, i with
  | [], _ => []
  | _ :: t, O => to_char v :: t
  | h :: t, S j => h :: setByte j v t
  end.

Definition OP_TestUnitReady : Z := 0x00.
Definition OP_Read6 : Z := 0x08.
Definition OP_Write6 : Z := 0x0A.
Definition OP_WriteFilemark : Z := 0x10.
Definition OP_Space : Z := 0x11.
Definition OP_Locate16 : Z := 0x92.

Definition b2z (b : bool) (v : Z) : Z := if b then v else 0.

Definition cdb_testUnitReady : QByteArray :=
  setByte 0 OP_TestUnitReady (zeroCdb 6).

Definition cdb_locate16 (partition blockNumber : Z) : QByteArray :=
  setByte 11 (Z.land blockNumber 0xFF)
  (setByte 10 (Z.land (Z.shiftr blockNumber 8) 0xFF)
  (setByte 9 (Z.land (Z.shiftr blockNumber 16) 0xFF)
  (setByte 8 (Z.land (Z.shiftr blockNumber 24) 0xFF)
  (setByte 7 (Z.land (Z.shiftr blockNumber 32) 0xFF)
  (setByte 6 (Z.land (Z.shiftr blockNumber 40) 0xFF)
  (setByte 5 (Z.land (Z.shiftr blockNumber 48) 0xFF)
  (setByte 4 (Z.land (Z.shiftr blockNumber 56) 0xFF)
  (setByte 3 partition
  (setByte 1 0x02
  (setByte 0 OP_Locate16 (zeroCdb 16))))))))))).

Definition cdb_space (code count : Z) : QByteArray :=
  setByte 4 (Z.land count 0xFF)
  (setByte 3 (Z.land (Z.shiftr count 8) 0xFF)
  (setByte 2 (Z.land (Z.shiftr count 16) 0xFF)
  (setByte 1 (Z.land code 0x07)
  (setByte 0 OP_Space (zeroCdb 6))))).

Definition cdb_read6 (blockCount : Z) (fixedBlock : bool) : QByteArray :=
  setByte 4 (Z.land blockCount 0xFF)
  (setByte 3 (Z.land (Z.shiftr blockCount 8) 0xFF)
  (setByte 2 (Z.land (Z.shiftr blockCount 16) 0xFF)
  (setByte 1 (b2z fixedBlock 0x01)
  (setByte 0 OP_Read6 (zeroCdb 6))))).

Definition cdb_write6 (count : Z) (fixedBlock : bool) : QByteArray :=
  setByte 4 (Z.land count 0xFF)
  (setByte 3 (Z.land (Z.shiftr count 8) 0xFF)
  (setByte 2 (Z.land (Z.shiftr count 16) 0xFF)
  (setByte 1 (b2z fixedBlock 0x01)
  (setByte 0 OP_Write6 (zeroCdb 6))))).

Definition cdb_writeFilemark (count : Z) (setMark immediate : bool)
    : QByteArray :=
  setByte 4 (Z.land count 0xFF)
  (setByte 3 (Z.land (Z.shiftr count 8) 0xFF)
  (setByte 2 (Z.land (Z.shiftr count 16) 0xFF)
  (setByte 1 (Z.lor (b2z immediate 0x01) (b2z setMark 0x02))
  (setByte 0 OP_WriteFilemark (zeroCdb 6))))).

(** The commands; each returns the result and the issued list ([read6]
    also the caller's buffer). *)
Definition testUnitReady (drive : Drive) (d : Private) issued :=
  let '(r, _, issued') :=
    execute drive d cdb_testUnitReady DirNone [] 0 issued in
  (r, issued').

Definition locate16 (drive : Drive) (d : Private)
    (partition blockNumber : Z) issued :=
  let '(r, _, issued') :=
    execute drive d (cdb_locate16 partition blockNumber) DirNone [] 0
            issued in
  (r, issued').

Definition space (drive : Drive) (d : Private) (code count : Z) issued :=
  let '(r, _, issued') :=
    execute drive d (cdb_space code count) DirNone [] 0 issued in
  (r, issued').

Definition read6 (drive : Drive) (d : Private) (buffer : QByteArray)
    (blockCount : Z) (fixedBlock : bool) issued :=
  execute drive d (cdb_read6 blockCount fixedBlock) FromDevice buffer
          (wrap32 (size buffer)) issued.

Definition write6 (drive : Drive) (d : Private) (data0 : QByteArray)
    (fixedBlock : bool) issued :=
  let '(r, _, issued') :=
    execute drive d (cdb_write6 (wrap32 (size data0)) fixedBlock) ToDevice
            data0 (wrap32 (size data0)) issued in
  (r, issued').

Definition writeFilemark (drive : Drive) (d : Private) (count : Z)
    (setMark immediate : bool) issued :=
  let '(r, _, issued') :=
    execute drive d (cdb_writeFilemark count setMark immediate) DirNone []
            0 issued in
  (r, issued').

(** *** The other commands of [ScsiCommand] *)

Definition OP_Rewind : Z := 0x01.
Definition OP_RequestSense : Z := 0x03.
Definition OP_FormatMedium : Z := 0x04.
Definition OP_ReadBlockLimits : Z := 0x05.
Definition OP_Inquiry : Z := 0x12.
Definition OP_Erase : Z := 0x19.
Definition OP_LoadUnload : Z := 0x1B.
Definition OP_PreventAllowMediumRemoval : Z := 0x1E.
Definition OP_ReadPosition : Z := 0x34.
Definition OP_ReportDensitySupport : Z := 0x44.
Definition OP_LogSense : Z := 0x4D.
Definition OP_ModeSelect10 : Z := 0x55.
Definition OP_ModeSense10 : Z := 0x5A.
Definition OP_AllowOverwrite : Z := 0x82.
Definition OP_ReadAttribute : Z := 0x8C.
Definition OP_WriteAttribute : Z := 0x8D.

Definition cdb_inquiry (evpd : bool) (pageCode allocationLength : Z)
    : QByteArray :=
  setByte 4 (Z.land allocationLength 0xFF)
  (setByte 3 (Z.land (Z.shiftr allocationLength 8) 0xFF)
  (setByte 2 pageCode
  (setByte 1 (b2z evpd 0x01)
  (setByte 0 OP_Inquiry (zeroCdb 6))))).

Definition cdb_requestSense (allocationLength : Z) : QByteArray :=
  setByte 4 allocationLength
  (setByte 0 OP_RequestSense (zeroCdb 6)).

Definition cdb_readBlockLimits : QByteArray :=
  setByte 0 OP_ReadBlockLimits (zeroCdb 6).

Definition cdb_modeSense10 (pageCode subPageCode allocationLength : Z)
    : QByteArray :=
  setByte 8 (Z.land allocationLength 0xFF)
  (setByte 7 (Z.land (Z.shiftr allocationLength 8) 0xFF)
  (setByte 3 subPageCode
  (setByte 2 (Z.land pageCode 0x3F)
  (setByte 0 OP_ModeSense10 (zeroCdb 10))))).

Definition cdb_modeSelect10 (dataSize : Z) (savePages : bool)
    : QByteArray :=
  setByte 8 (Z.land dataSize 0xFF)
  (setByte 7 (Z.land (Z.shiftr dataSize 8) 0xFF)
  (setByte 1 (Z.lor 0x10 (b2z savePages 0x01))
  (setByte 0 OP_ModeSelect10 (zeroCdb 10)))).

Definition cdb_logSense (pageCode subPageCode allocationLength : Z)
    : QByteArray :=
  setByte 8 (Z.land allocationLength 0xFF)
  (setByte 7 (Z.land (Z.shiftr allocationLength 8) 0xFF)
  (setByte 3 subPageCode
  (setByte 2 (Z.lor 0x40 (Z.land pageCode 0x3F))
  (setByte 0 OP_LogSense (zeroCdb 10))))).

(** The allocation length [readPosition] asks for. *)
Definition positionLength (serviceAction : Z) : Z :=
  if serviceAction =? 0 then 20 else 32.

Definition cdb_readPosition (serviceAction : Z) : QByteArray :=
  setByte 8 (Z.land (positionLength serviceAction) 0xFF)
  (setByte 7 (Z.land (Z.shiftr (positionLength serviceAction) 8) 0xFF)
  (setByte 1 (Z.land serviceAction 0x1F)
  (setByte 0 OP_ReadPosition (zeroCdb 10)))).

Definition cdb_rewind (immediate : bool) : QByteArray :=
  setByte 1 (b2z immediate 0x01)
  (setByte 0 OP_Rewind (zeroCdb 6)).

Definition cdb_loadUnload (load immediate : bool) : QByteArray :=
  setByte 4 (b2z load 0x01)
  (setByte 1 (b2z immediate 0x01)
  (setByte 0 OP_LoadUnload (zeroCdb 6))).

Definition cdb_erase (longErase immediate : bool) : QByteArray :=
  setByte 1 (Z.lor (b2z immediate 0x01) (b2z longErase 0x02))
  (setByte 0 OP_Erase (zeroCdb 6)).

Definition cdb_readAttribute (serviceAction attributeId allocationLength : Z)
    : QByteArray :=
  setByte 13 (Z.land allocationLength 0xFF)
  (setByte 12 (Z.land (Z.shiftr allocationLength 8) 0xFF)
  (setByte 11 (Z.land (Z.shiftr allocationLength 16) 0xFF)
  (setByte 10 (Z.land (Z.shiftr allocationLength 24) 0xFF)
  (setByte 9 (Z.land attributeId 0xFF)
  (setByte 8 (Z.land (Z.shiftr attributeId 8) 0xFF)
  (setByte 1 (Z.land serviceAction 0x1F)
  (setByte 0 OP_ReadAttribute (zeroCdb 16)))))))).

Definition cdb_writeAttribute (paramLength : Z) : QByteArray :=
  setByte 13 (Z.land paramLength 0xFF)
  (setByte 12 (Z.land (Z.shiftr paramLength 8) 0xFF)
  (setByte 11 (Z.land (Z.shiftr paramLength 16) 0xFF)
  (setByte 10 (Z.land (Z.shiftr paramLength 24) 0xFF)
  (setByte 1 0x01
  (setByte 0 OP_WriteAttribute (zeroCdb 16)))))).

Definition cdb_allowOverwrite (mode : Z) : QByteArray :=
  setByte 2 mode
  (setByte 0 OP_AllowOverwrite (zeroCdb 16)).

Definition cdb_preventAllowMediumRemoval (prevent : bool) : QByteArray :=
  setByte 4 (b2z prevent 0x01)
  (setByte 0 OP_PreventAllowMediumRemoval (zeroCdb 6)).

Definition cdb_formatMedium (format : Z) (withPartition : bool)
    : QByteArray :=
  setByte 2 (Z.lor (Z.land format 0x0F) (b2z withPartition 0x10))
  (setByte 0 OP_FormatMedium (zeroCdb 6)).

Definition cdb_reportDensitySupport (mediaType : bool)
    (allocationLength : Z) : QByteArray :=
  setByte 8 (Z.land allocationLength 0xFF)
  (setByte 7 (Z.land (Z.shiftr allocationLength 8) 0xFF)
  (setByte 1 (b2z mediaType 0x01)
  (setByte 0 OP_ReportDensitySupport (zeroCdb 10)))).

(** A command without data, one that reads into a fresh buffer, and one
    that writes [data0]; each returns the result and the issued list. *)
Definition plainCommand (drive : Drive) (d : Private) (cdb : QByteArray)
    issued :=
  let '(r, _, issued') := execute drive d cdb DirNone [] 0 issued in
  (r, issued').

Definition readCommand (drive : Drive) (d : Private) (cdb : QByteArray)
    (allocationLength : Z) issued :=
  let '(r, _, issued') :=
    execute drive d cdb FromDevice [] allocationLength issued in
  (r, issued').

Definition writeCommand (drive : Drive) (d : Private) (cdb : QByteArray)
    (data0 : QByteArray) issued :=
  let '(r, _, issued') :=
    execute drive d cdb ToDevice data0 (wrap32 (size data0)) issued in
  (r, issued').

Definition inquiry drive d (evpd : bool) (pageCode allocationLength : Z) :=
  readCommand drive d (cdb_inquiry evpd pageCode allocationLength)
              allocationLength.
Definition requestSense drive d (allocationLength : Z) :=
  readCommand drive d (cdb_requestSense allocationLength) allocationLength.
Definition readBlockLimits drive d :=
  readCommand drive d cdb_readBlockLimits 6.
Definition modeSense10 drive d (pageCode subPageCode allocationLength : Z) :=
  readCommand drive d (cdb_modeSense10 pageCode subPageCode allocationLength)
              allocationLength.
Definition modeSelect10 drive d (data0 : QByteArray) (savePages : bool) :=
  writeCommand drive d (cdb_modeSelect10 (size data0) savePages) data0.
Definition logSense drive d (pageCode subPageCode allocationLength : Z) :=
  readCommand drive d (cdb_logSense pageCode subPageCode allocationLength)
              allocationLength.
Definition readPosition drive d (serviceAction : Z) :=
  readCommand drive d (cdb_readPosition serviceAction)
              (positionLength serviceAction).
Definition rewind drive d (immediate : bool) :=
  plainCommand drive d (cdb_rewind immediate).
Definition loadUnload drive d (load immediate : bool) :=
  plainCommand drive d (cdb_loadUnload load immediate).
Definition erase drive d (longErase immediate : bool) :=
  plainCommand drive d (cdb_erase longErase immediate).
Definition readAttribute drive d
    (serviceAction attributeId allocationLength : Z) :=
  readCommand drive d
    (cdb_readAttribute serviceAction attributeId allocationLength)
    allocationLength.
Definition writeAttribute drive d (data0 : QByteArray) :=
  writeCommand drive d (cdb_writeAttribute (wrap32 (size data0))) data0.
Definition allowOverwrite drive d (mode : Z) :=
  plainCommand drive d (cdb_allowOverwrite mode).
Definition preventAllowMediumRemoval drive d (prevent : bool) :=
  plainCommand drive d (cdb_preventAllowMediumRemoval prevent).
Definition formatMedium drive d (format : Z) (withPartition : bool) :=
  plainCommand drive d (cdb_formatMedium format withPartition).
Definition reportDensitySupport drive d (mediaType : bool)
    (allocationLength : Z) :=
  readCommand drive d (cdb_reportDensitySupport mediaType allocationLength)
              allocationLength.

(** Every command descriptor block the class builds itself, with the
    operation code it is built for. *)
Inductive BuiltCdb :=
| BuiltTestUnitReady
| BuiltInquiry (evpd : bool) (pageCode allocationLength : Z)
| BuiltRequestSense (allocationLength : Z)
| BuiltReadBlockLimits
| BuiltModeSense10 (pageCode subPageCode allocationLength : Z)
| BuiltModeSelect10 (dataSize : Z) (savePages : bool)
| BuiltLogSense (pageCode subPageCode allocationLength : Z)
| BuiltReadPosition (serviceAction : Z)
| BuiltLocate16 (partition blockNumber : Z)
| BuiltRewind (immediate : bool)
| BuiltLoadUnload (load immediate : bool)
| BuiltSpace (code count : Z)
| BuiltRead6 (blockCount : Z) (fixedBlock : bool)
| BuiltWrite6 (count : Z) (fixedBlock : bool)
| BuiltWriteFilemark (count : Z) (setMark immediate : bool)
| BuiltErase (longErase immediate : bool)
| BuiltReadAttribute (serviceAction attributeId allocationLength : Z)
| BuiltWriteAttribute (paramLength : Z)
| BuiltAllowOverwrite (mode : Z)
| BuiltPreventAllowMediumRemoval (prevent : bool)
| BuiltFormatMedium (format : Z) (withPartition : bool)
| BuiltReportDensitySupport (mediaType : bool) (allocationLength : Z).

Definition builtCdb (b : BuiltCdb) : QByteArray :=
  match b with
  | BuiltTestUnitReady => cdb_testUnitReady
  | BuiltInquiry e p a => cdb_inquiry e p a
  | BuiltRequestSense a => cdb_requestSense a
  | BuiltReadBlockLimits => cdb_readBlockLimits
  | BuiltModeSense10 p s a => cdb_modeSense10 p s a
  | BuiltModeSelect10 n sp => cdb_modeSelect10 n sp
  | BuiltLogSense p s a => cdb_logSense p s a
  | BuiltReadPosition sa => cdb_readPosition sa
  | BuiltLocate16 p b => cdb_locate16 p b
  | BuiltRewind i => cdb_rewind i
  | BuiltLoadUnload l i => cdb_loadUnload l i
  | BuiltSpace c n => cdb_space c n
  | BuiltRead6 n f => cdb_read6 n f
  | BuiltWrite6 n f => cdb_write6 n f
  | BuiltWriteFilemark n s i => cdb_writeFilemark n s i
  | BuiltErase l i => cdb_erase l i
  | BuiltReadAttribute sa id a => cdb_readAttribute sa id a
  | BuiltWriteAttribute n => cdb_writeAttribute n
  | BuiltAllowOverwrite m => cdb_allowOverwrite m
  | BuiltPreventAllowMediumRemoval p => cdb_preventAllowMediumRemoval p
  | BuiltFormatMedium f p => cdb_formatMedium f p
  | BuiltReportDensitySupport m a => cdb_reportDensitySupport m a
  end.

Definition opCode (b : BuiltCdb) : Z :=
  match b with
  | BuiltTestUnitReady => OP_TestUnitReady
  | BuiltInquiry _ _ _ => OP_Inquiry
  | BuiltRequestSense _ => OP_RequestSense
  | BuiltReadBlockLimits => OP_ReadBlockLimits
  | BuiltModeSense10 _ _ _ => OP_ModeSense10
  | BuiltModeSelect10 _ _ => OP_ModeSelect10
  | BuiltLogSense _ _ _ => OP_LogSense
  | BuiltReadPosition _ => OP_ReadPosition
  | BuiltLocate16 _ _ => OP_Locate16
  | BuiltRewind _ => OP_Rewind
  | BuiltLoadUnload _ _ => OP_LoadUnload
  | BuiltSpace _ _ => OP_Space
  | BuiltRead6 _ _ => OP_Read6
  | BuiltWrite6 _ _ => OP_Write6
  | BuiltWriteFilemark _ _ _ => OP_WriteFilemark
  | BuiltErase _ _ => OP_Erase
  | BuiltReadAttribute _ _ _ => OP_ReadAttribute
  | BuiltWriteAttribute _ => OP_WriteAttribute
  | BuiltAllowOverwrite _ => OP_AllowOverwrite
  | BuiltPreventAllowMediumRemoval _ => OP_PreventAllowMediumRemoval
  | BuiltFormatMedium _ _ => OP_FormatMedium
  | BuiltReportDensitySupport _ _ => OP_ReportDensitySupport
  end.

(** The number a run of bytes holds, most significant byte first. *)
Definition bigEndian (bytes : QByteArray) : Z :=
  fold_left (fun acc b => acc * 256 + u8 b) bytes 0.

(** Bytes [first] to [first + count - 1] of [cdb]. *)
Definition field (first count : nat) (cdb : QByteArray) : QByteArray :=
  firstn count (skipn first cdb).

(** A 24-bit field read as a signed number. *)
Definition signed24 (v : Z) : Z := if v <? 2 ^ 23 then v else v - 2 ^ 24.

End Scsi.

(** ** A state monad for the stateful classes *)
Module St.
Definition M (S A : Type) : Type := S -> A * S.
Definition ret {S A} (a : A) : M S A := fun s => (a, s).
Definition bind {S A B} (m : M S A) (k : A -> M S B) : M S B :=
  fun s => let '(a, s') := m s in k a s'.
Definition get {S} : M S S := fun s => (s, s).
Definition modify {S} (f : S -> S) : M S unit := fun s => (tt, f s).
End St.

Declare Scope st_scope.
Delimit Scope st_scope with st.
Notation "x <- m ;; k" := (St.bind m (fun x => k))
  (at level 61, m at next level, right associativity) : st_scope.
Notation "m ;;; k" := (St.bind m (fun _ => k))
  (at level 61, right associativity) : st_scope.

(** ** TapeDevice.h / TapeDevice.cpp *)
Module Tape.
Import Scsi.

(** [enum class TapeStatus] *)
Inductive TapeStatus :=
| Unknown | StNotReady | Ready | NoMedia | Loading | Unloading
| Rewinding | Locating | Writing | Reading | WriteProtected | Error.

Definition status_eqb (a b : TapeStatus) : bool :=
  match a, b with
  | Unknown, Unknown | StNotReady, StNotReady | Ready, Ready
  | NoMedia, NoMedia | Loading, Loading | Unloading, Unloading
  | Rewinding, Rewinding | Locating, Locating | Writing, Writing
  | Reading, Reading | WriteProtected, WriteProtected | Error, Error => true
  | _, _ => false
  end.

(** [TapePosition], with the fields [TapeDevice.cpp] reads and writes. *)
Record TapePosition := mkPosition {
  partition : Z;
  blockNumber : Z;
  fileNumber : Z;
  beginOfPartition : bool;
  endOfPartition : bool;
  blockPositionUnknown : bool
}.

Definition initialPosition : TapePosition :=
  mkPosition 0 0 0 false false false.

(** The Qt signals of [TapeDevice]. *)
Inductive Signal :=
| openChanged (isOpen : bool)
| statusChanged (st : TapeStatus)
| errorOccurred (message : string)
| mediaChanged (present : bool).

(** What an observer of the device sees, in program order: signals
    emitted and commands handed to the transport. *)
Inductive Event :=
| Emitted (s : Signal)
| Issued (h : SgIoHdr).

(** [TapeDevice::Private] together with the transport behind it. *)
Record World := mkWorld {
  drive : Drive;
  issued : list SgIoHdr;
  scsi : option Scsi.Private;
  status : TapeStatus;
  position : TapePosition;
  lastError : string;
  lastSenseData : ScsiSenseData;
  trace : list Event
}.

Definition Dev (A : Type) : Type := St.M World A.

Local Open Scope st_scope.

Definition set_status (st : TapeStatus) (w : World) : World :=
  mkWorld (drive w) (issued w) (scsi w) st (position w) (lastError w)
          (lastSenseData w) (trace w).
Definition set_position (p : TapePosition) (w : World) : World :=
  mkWorld (drive w) (issued w) (scsi w) (status w) p (lastError w)
          (lastSenseData w) (trace w).
Definition set_lastError (e : string) (w : World) : World :=
  mkWorld (drive w) (issued w) (scsi w) (status w) (position w) e
          (lastSenseData w) (trace w).
Definition set_lastSenseData (sd : ScsiSenseData) (w : World) : World :=
  mkWorld (drive w) (issued w) (scsi w) (status w) (position w)
          (lastError w) sd (trace w).
Definition set_scsi (sc : option Scsi.Private) (w : World) : World :=
  mkWorld (drive w) (issued w) sc (status w) (position w) (lastError w)
          (lastSenseData w) (trace w).
Definition log (e : Event) (w : World) : World :=
  mkWorld (drive w) (issued w) (scsi w) (status w) (position w)
          (lastError w) (lastSenseData w) (trace w ++ [e]).

(** [emit sig(...)] *)
Definition emit (s : Signal) : Dev unit := St.modify (log (Emitted s)).

(** A call [d->scsi->cmd(...)]: runs the command on the transport and
    records every header that reached the drive. *)
Definition call {A} (cmd : Drive -> Scsi.Private -> list SgIoHdr ->
                           A * list SgIoHdr)
    (dflt : A) : Dev A :=
  fun w =>
    match scsi w with
    | None => (dflt, w)
    | Some d =>
        let '(a, issued') := cmd (drive w) d (issued w) in
        let new := skipn (List.length (issued w)) issued' in
        (a, mkWorld (drive w) issued' (scsi w) (status w) (position w)
                    (lastError w) (lastSenseData w)
                    (trace w ++ map Issued new))
    end.

(** [TapeDevice::isOpen] *)
Definition isOpen (w : World) : bool :=
  match scsi w with
  | Some d => Scsi.isOpen d
  | None => false
  end.

(** [TapeDevice::setStatus] *)
Definition setStatus (st : TapeStatus) : Dev unit :=
  fun w =>
    if negb (status_eqb (status w) st)
    then emit (statusChanged st) (set_status st w)
    else (tt, w).

(** [TapeDevice::setError] *)
Definition setError (message : string) : Dev unit :=
  St.modify (set_lastError message) ;;;
  setStatus Error ;;;
  emit (errorOccurred message).

(** [TapeDevice::checkOpen] *)
Definition checkOpen (operation : string) : Dev bool :=
  fun w =>
    if negb (isOpen w)
    then (false,
          set_lastError ("Device not open for operation: " ++ operation) w)
    else (true, w).

(** [TapeDevice::setTimeout] *)
Definition setTimeout (seconds : Z) : Dev unit :=
  fun w =>
    match scsi w with
    | Some d => (tt, set_scsi (Some (mkPrivate (fd d) seconds)) w)
    | None => (tt, w)
    end.

(** [d->scsi->testUnitReady()] *)
Definition poll : Dev ScsiCommandResult :=
  call (fun dr d => testUnitReady dr d) emptyResult.

(** The header of a TEST UNIT READY as it reaches the drive. *)
Definition turHdr (d : Scsi.Private) : SgIoHdr :=
  mkHdr 6 cdb_testUnitReady DirNone 0 []
        (wrap32 (timeoutSeconds d * 1000)).

(** [TapeDevice::refreshStatus] *)
Definition refreshStatus : Dev bool :=
  ok <- checkOpen "refreshStatus" ;;
  if negb ok then St.ret false
  else
    result <- poll ;;
    if success result then
      setStatus Ready ;;; St.ret true
    else
      St.modify (set_lastSenseData (senseData result)) ;;;
      (match senseKey (senseData result) with
       | NotReady =>
           if additionalSenseCode (senseData result) =? 0x3A then
             setStatus NoMedia
           else if additionalSenseCode (senseData result) =? 0x04 then
             match additionalSenseCodeQualifier (senseData result) with
             | 0x00 => setStatus StNotReady
             | 0x01 => setStatus Loading
             | 0x02 => setStatus StNotReady
             | _ => setStatus StNotReady
             end
           else
             setStatus StNotReady
       | UnitAttention =>
           result2 <- poll ;;
           if success result2 then
             setStatus Ready ;;; emit (mediaChanged true)
           else
             setStatus StNotReady
       | DataProtect => setStatus WriteProtected
       | _ => setStatus Error
       end) ;;;
      St.ret true.

(** The state of a [TapeDevice] right after a successful
    [ScsiCommand::open] inside [TapeDevice::open], before the first
    status refresh: a fresh command object on descriptor [os_fd]. *)
Definition attached (dr : Drive) (os_fd : Z) : World :=
  mkWorld dr [] (Some (opened os_fd)) Unknown initialPosition ""
          noSenseData [Emitted (openChanged true)].

(** [TapeDevice::open] on a closed device, where the operating system
    grants descriptor [os_fd >= 0]. *)
Definition open (dr : Drive) (os_fd : Z) : World :=
  snd (refreshStatus (attached dr os_fd)).

(** [TapeDevice::locate] *)
Definition locate (part blk : Z) : Dev bool :=
  ok <- checkOpen "locate" ;;
  if negb ok then St.ret false
  else
    setStatus Locating ;;;
    result <- call (fun dr d => locate16 dr d part blk) emptyResult ;;
    St.modify (set_lastSenseData (senseData result)) ;;;
    if negb (success result) then
      setError ("Locate failed: " ++ errorMessage result) ;;;
      _ <- refreshStatus ;;
      St.ret false
    else
      St.modify (fun w =>
        set_position
          (mkPosition part blk (fileNumber (position w))
                      (beginOfPartition (position w))
                      (endOfPartition (position w))
                      (blockPositionUnknown (position w))) w) ;;;
      setStatus Ready ;;;
      St.ret true.

(** [TapeDevice::spaceToEndOfData] *)
Definition spaceToEndOfData : Dev bool :=
  ok <- checkOpen "spaceToEndOfData" ;;
  if negb ok then St.ret false
  else
    result <- call (fun dr d => space dr d 3 0) emptyResult ;;
    St.modify (set_lastSenseData (senseData result)) ;;;
    if negb (success result) then
      setError ("Space to EOD failed: " ++ errorMessage result) ;;;
      St.ret false
    else
      St.modify (fun w =>
        set_position
          (mkPosition (partition (position w)) (blockNumber (position w))
                      (fileNumber (position w))
                      (beginOfPartition (position w)) true
                      (blockPositionUnknown (position w))) w) ;;;
      St.ret true.

(** [TapeDevice::seekToEnd] *)
Definition seekToEnd (part : Z) : Dev bool :=
  ok <- locate part 0 ;;
  if negb ok then St.ret false else spaceToEndOfData.

Definition bump_block (w : World) : World :=
  set_position
    (mkPosition (partition (position w))
                (wrap64 (blockNumber (position w) + 1))
                (fileNumber (position w))
                (beginOfPartition (position w))
                (endOfPartition (position w))
                (blockPositionUnknown (position w))) w.

(** [TapeDevice::readBlock(data, maxSize)]: the return value and the
    caller's [data] afterwards. *)
Definition readBlock (data0 : QByteArray) (maxSize : Z)
    : Dev (Z * QByteArray) :=
  ok <- checkOpen "readBlock" ;;
  if negb ok then St.ret (-1, data0)
  else
    let data1 := resize (Z.to_nat (toInt maxSize)) data0 in
    rb <- call (fun dr d iss =>
                  let '(r, b, iss') := read6 dr d data1 1 false iss in
                  ((r, b), iss'))
               (emptyResult, data1) ;;
    let '(result, data2) := rb in
    St.modify (set_lastSenseData (senseData result)) ;;;
    if negb (success result) then
      if senseKey_eqb (senseKey (senseData result)) BlankCheck then
        St.ret (0, data2)
      else
        setError ("Read failed: " ++ errorMessage result) ;;;
        St.ret (-1, data2)
    else
      St.modify bump_block ;;;
      St.ret (size (Scsi.data result), Scsi.data result).

(** [TapeDevice::writeBlock] *)
Definition writeBlock (data0 : QByteArray) : Dev Z :=
  ok <- checkOpen "writeBlock" ;;
  if negb ok then St.ret (-1)
  else
    setStatus Writing ;;;
    result <- call (fun dr d => write6 dr d data0 false) emptyResult ;;
    St.modify (set_lastSenseData (senseData result)) ;;;
    if negb (success result) then
      setError ("Write failed: " ++ errorMessage result) ;;;
      _ <- refreshStatus ;;
      St.ret (-1)
    else
      St.modify bump_block ;;;
      setStatus Ready ;;;
      St.ret (bytesTransferred result).

(** [TapeDevice::writeFilemark] *)
Definition writeFilemark (count : Z) : Dev bool :=
  ok <- checkOpen "writeFilemark" ;;
  if negb ok then St.ret false
  else
    result <- call (fun dr d => Scsi.writeFilemark dr d count false false)
                   emptyResult ;;
    St.modify (set_lastSenseData (senseData result)) ;;;
    if negb (success result) then
      setError ("Write filemark failed: " ++ errorMessage result) ;;;
      St.ret false
    else
      St.modify (fun w =>
        set_position
          (mkPosition (partition (position w)) (blockNumber (position w))
                      (wrap64 (fileNumber (position w) + count))
                      (beginOfPartition (position w))
                      (endOfPartition (position w))
                      (blockPositionUnknown (position w))) w) ;;;
      St.ret true.

(** *** Outcomes of single commands and example drives *)

(** The outcome of the READ(6) that [readBlock data0 maxSize] issues in
    world [w]. *)
Definition readOutcome (w : World) (d : Scsi.Private)
    (data0 : QByteArray) (maxSize : Z) : ScsiCommandResult :=
  fst (fst (read6 (drive w) d (resize (Z.to_nat (toInt maxSize)) data0) 1
                  false
                  (issued w))).

(** The header of that READ(6): variable-block mode, one block. *)
Definition readHdr (d : Scsi.Private) (data0 : QByteArray) (maxSize : Z)
    : SgIoHdr :=
  let data1 := resize (Z.to_nat (toInt maxSize)) data0 in
  sgHeader d (cdb_read6 1 false) FromDevice
           (prepared FromDevice data1 (wrap32 (size data1))).

(** The outcome of the LOCATE(16) that [locate part blk] issues. *)
Definition locateOutcome (w : World) (d : Scsi.Private) (part blk : Z)
    : ScsiCommandResult :=
  fst (locate16 (drive w) d part blk (issued w)).

Definition locateHdr (d : Scsi.Private) (part blk : Z) : SgIoHdr :=
  sgHeader d (cdb_locate16 part blk) DirNone [].

(** A reply that reports a command as done, with nothing left over. *)
Definition goodReply : SgIoReply := mkReply 0 0 0 0 0 0 0 [] [].

(** A drive that completes every command. *)
Definition goodDrive : Drive := fun _ _ => goodReply.

(** A drive that completes every command and reports a residual of 10
    bytes, whatever the length asked for. *)
Definition overrunDrive : Drive :=
  fun _ _ => mkReply 0 0 0 0 0 10 0 [] [].

(** A CHECK CONDITION reply carrying the sense bytes [sense]. *)
Definition checkCondition (sense : QByteArray) : SgIoReply :=
  mkReply 0 0 0 0 0x02 0 (size sense) sense [].

(** A drive without a cartridge: every command ends in NotReady,
    ASC 0x3A. *)
Definition emptyDrive : Drive :=
  fun _ _ =>
    checkCondition [ x70; x00; x02; x00; x00; x00; x00; x0a;
                     x00; x00; x00; x00; x3a; x00; x00; x00; x00; x00 ].

(** A drive holding a cartridge it cannot use: every command ends in
    NotReady, ASC 0x30. *)
Definition incompatibleDrive : Drive :=
  fun _ _ =>
    checkCondition [ x70; x00; x02; x00; x00; x00; x00; x0a;
                     x00; x00; x00; x00; x30; x00; x00; x00; x00; x00 ].

(** A drive at the end of the recorded data: every command ends in
    BlankCheck. *)
Definition blankDrive : Drive :=
  fun _ _ =>
    checkCondition [ x70; x00; x08; x00; x00; x00; x00; x0a;
                     x00; x00; x00; x00; x00; x05; x00; x00; x00; x00 ].

(** A drive that completes every command with nothing left over. *)
Definition completes (dr : Drive) : Prop :=
  forall hist h,
    ioctl_ret (dr hist h) = 0 /\ host_status (dr hist h) = 0
    /\ driver_status (dr hist h) = 0 /\ Scsi.status (dr hist h) = 0
    /\ resid (dr hist h) = 0.

(** An open device on such a drive. *)
Definition healthy (w : World) (d : Scsi.Private) : Prop :=
  scsi w = Some d /\ Scsi.isOpen d = true /\ completes (drive w).

(** The headers of SPACE and of a variable-block WRITE(6). *)
Definition spaceHdr (d : Scsi.Private) (code count : Z) : SgIoHdr :=
  sgHeader d (cdb_space code count) DirNone [].

Definition writeHdr (d : Scsi.Private) (buf : QByteArray) : SgIoHdr :=
  sgHeader d (cdb_write6 (wrap32 (size buf)) false) ToDevice buf.

(** *** The other operations of [TapeDevice] *)

(** [TapeDevice::close]: the status is assigned, not set through
    [setStatus]. *)
Definition close : Dev unit :=
  fun w =>
    match scsi w with
    | Some _ => emit (openChanged false) (set_status Unknown (set_scsi None w))
    | None => (tt, w)
    end.

(** [TapeDevice::clearError] *)
Definition clearError : Dev unit :=
  St.modify (set_lastError "") ;;;
  St.modify (set_lastSenseData noSenseData).

(** [TapeDevice::testReady] *)
Definition testReady : Dev bool :=
  ok <- checkOpen "testReady" ;;
  if negb ok then St.ret false
  else
    result <- poll ;;
    St.modify (set_lastSenseData (senseData result)) ;;;
    St.ret (success result).

(** [TapeDevice::load] *)
Definition load (wait : bool) : Dev bool :=
  ok <- checkOpen "load" ;;
  if negb ok then St.ret false
  else
    setStatus Loading ;;;
    result <- call (fun dr d => loadUnload dr d true (negb wait))
                   emptyResult ;;
    St.modify (set_lastSenseData (senseData result)) ;;;
    if negb (success result) then
      setError ("Load failed: " ++ errorMessage result) ;;;
      St.ret false
    else
      (if wait then _ <- refreshStatus ;; St.ret tt else St.ret tt) ;;;
      St.ret true.

(** [TapeDevice::unload] *)
Definition unload (wait : bool) : Dev bool :=
  ok <- checkOpen "unload" ;;
  if negb ok then St.ret false
  else
    setStatus Unloading ;;;
    result <- call (fun dr d => loadUnload dr d false (negb wait))
                   emptyResult ;;
    St.modify (set_lastSenseData (senseData result)) ;;;
    if negb (success result) then
      setError ("Unload failed: " ++ errorMessage result) ;;;
      St.ret false
    else
      (if wait then setStatus NoMedia else St.ret tt) ;;;
      St.ret true.

(** [TapeDevice::rewind] *)
Definition rewind (wait : bool) : Dev bool :=
  ok <- checkOpen "rewind" ;;
  if negb ok then St.ret false
  else
    setStatus Rewinding ;;;
    result <- call (fun dr d => Scsi.rewind dr d (negb wait)) emptyResult ;;
    St.modify (set_lastSenseData (senseData result)) ;;;
    if negb (success result) then
      setError ("Rewind failed: " ++ errorMessage result) ;;;
      St.ret false
    else
      (if wait then
         setStatus Ready ;;;
         St.modify (fun w =>
           set_position
             (mkPosition (partition (position w)) 0 0 true false
                         (blockPositionUnknown (position w))) w)
       else St.ret tt) ;;;
      St.ret true.

(** [TapeDevice::lockMedia] and [TapeDevice::unlockMedia] *)
Definition lockMedia : Dev bool :=
  ok <- checkOpen "lockMedia" ;;
  if negb ok then St.ret false
  else
    result <- call (fun dr d => preventAllowMediumRemoval dr d true)
                   emptyResult ;;
    St.modify (set_lastSenseData (senseData result)) ;;;
    if negb (success result) then
      setError ("Lock media failed: " ++ errorMessage result) ;;;
      St.ret false
    else St.ret true.

Definition unlockMedia : Dev bool :=
  ok <- checkOpen "unlockMedia" ;;
  if negb ok then St.ret false
  else
    result <- call (fun dr d => preventAllowMediumRemoval dr d false)
                   emptyResult ;;
    St.modify (set_lastSenseData (senseData result)) ;;;
    if negb (success result) then
      setError ("Unlock media failed: " ++ errorMessage result) ;;;
      St.ret false
    else St.ret true.

(** [TapeDevice::spaceBlocks]; the [qint32] count is added to the
    [quint64] block number. *)
Definition spaceBlocks (count : Z) : Dev bool :=
  ok <- checkOpen "spaceBlocks" ;;
  if negb ok then St.ret false
  else
    result <- call (fun dr d => space dr d 0 count) emptyResult ;;
    St.modify (set_lastSenseData (senseData result)) ;;;
    if negb (success result) then
      setError ("Space blocks failed: " ++ errorMessage result) ;;;
      St.ret false
    else
      St.modify (fun w =>
        set_position
          (mkPosition (partition (position w))
                      (wrap64 (blockNumber (position w) + count))
                      (fileNumber (position w))
                      (beginOfPartition (position w))
                      (endOfPartition (position w))
                      (blockPositionUnknown (position w))) w) ;;;
      St.ret true.

(** [TapeDevice::spaceFilemarks] *)
Definition spaceFilemarks (count : Z) : Dev bool :=
  ok <- checkOpen "spaceFilemarks" ;;
  if negb ok then St.ret false
  else
    result <- call (fun dr d => space dr d 1 count) emptyResult ;;
    St.modify (set_lastSenseData (senseData result)) ;;;
    if negb (success result) then
      setError ("Space filemarks failed: " ++ errorMessage result) ;;;
      St.ret false
    else
      St.modify (fun w =>
        set_position
          (mkPosition (partition (position w)) (blockNumber (position w))
                      (wrap64 (fileNumber (position w) + count))
                      (beginOfPartition (position w))
                      (endOfPartition (position w))
                      (blockPositionUnknown (position w))) w) ;;;
      St.ret true.

(** [TapeDevice::seekToBeginning] *)
Definition seekToBeginning (part : Z) : Dev bool := locate part 0.

Definition advance_block (n : Z) (w : World) : World :=
  set_position
    (mkPosition (partition (position w))
                (wrap64 (blockNumber (position w) + n))
                (fileNumber (position w))
                (beginOfPartition (position w))
                (endOfPartition (position w))
                (blockPositionUnknown (position w))) w.

(** [TapeDevice::readBlocks(data, blockCount, blockSize)]: the return
    value and the caller's [data] afterwards.  The product is taken in
    [quint32]; [resize] of a negative size gives the empty array. *)
Definition readBlocks (data0 : QByteArray) (blockCount blockSize : Z)
    : Dev (Z * QByteArray) :=
  ok <- checkOpen "readBlocks" ;;
  if negb ok then St.ret (-1, data0)
  else
    let data1 :=
      resize (Z.to_nat (toInt (wrap32 (blockCount * blockSize)))) data0 in
    rb <- call (fun dr d iss =>
                  let '(r, b, iss') := read6 dr d data1 blockCount true iss in
                  ((r, b), iss'))
               (emptyResult, data1) ;;
    let '(result, data2) := rb in
    St.modify (set_lastSenseData (senseData result)) ;;;
    if negb (success result) then
      if senseKey_eqb (senseKey (senseData result)) BlankCheck then
        St.ret (0, data2)
      else
        setError ("Read blocks failed: " ++ errorMessage result) ;;;
        St.ret (-1, data2)
    else
      St.modify (advance_block blockCount) ;;;
      St.ret (size (Scsi.data result), Scsi.data result).

(** [TapeDevice::writeBlocks(data, blockSize)]; [None] is the division
    by a block size of zero. *)
Definition writeBlocks (data0 : QByteArray) (blockSize : Z)
    : Dev (option Z) :=
  ok <- checkOpen "writeBlocks" ;;
  if negb ok then St.ret (Some (-1))
  else if blockSize =? 0 then St.ret None
  else
    let blockCount := wrap32 (size data0) / blockSize in
    setStatus Writing ;;;
    result <- call (fun dr d => write6 dr d data0 true) emptyResult ;;
    St.modify (set_lastSenseData (senseData result)) ;;;
    if negb (success result) then
      setError ("Write blocks failed: " ++ errorMessage result) ;;;
      _ <- refreshStatus ;;
      St.ret (Some (-1))
    else
      St.modify (advance_block blockCount) ;;;
      setStatus Ready ;;;
      St.ret (Some (bytesTransferred result)).

(** What an operation returns: a flag, a byte count, or nothing defined
    (the division by zero in [writeBlocks]). *)
Inductive Reply :=
| Flag (ok : bool)
| Count (n : Z)
| Undefined.

(** The reply that reports a failure: [false], or [-1]. *)
Definition failure (r : Reply) : bool :=
  match r with
  | Flag ok => negb ok
  | Count n => n =? -1
  | Undefined => false
  end.

(** A call of one of the operations that begin with [checkOpen]. *)
Inductive Operation :=
| DoRefreshStatus
| DoTestReady
| DoLoad (wait : bool)
| DoUnload (wait : bool)
| DoRewind (wait : bool)
| DoLockMedia
| DoUnlockMedia
| DoLocate (part blk : Z)
| DoSpaceBlocks (count : Z)
| DoSpaceFilemarks (count : Z)
| DoSpaceToEndOfData
| DoSeekToBeginning (part : Z)
| DoSeekToEnd (part : Z)
| DoReadBlock (data0 : QByteArray) (maxSize : Z)
| DoWriteBlock (data0 : QByteArray)
| DoReadBlocks (data0 : QByteArray) (blockCount blockSize : Z)
| DoWriteBlocks (data0 : QByteArray) (blockSize : Z)
| DoWriteFilemark (count : Z).

Definition flag (m : Dev bool) : Dev Reply :=
  ok <- m ;; St.ret (Flag ok).

Definition perform (o : Operation) : Dev Reply :=
  match o with
  | DoRefreshStatus => flag refreshStatus
  | DoTestReady => flag testReady
  | DoLoad wait => flag (load wait)
  | DoUnload wait => flag (unload wait)
  | DoRewind wait => flag (rewind wait)
  | DoLockMedia => flag lockMedia
  | DoUnlockMedia => flag unlockMedia
  | DoLocate part blk => flag (locate part blk)
  | DoSpaceBlocks count => flag (spaceBlocks count)
  | DoSpaceFilemarks count => flag (spaceFilemarks count)
  | DoSpaceToEndOfData => flag spaceToEndOfData
  | DoSeekToBeginning part => flag (seekToBeginning part)
  | DoSeekToEnd part => flag (seekToEnd part)
  | DoReadBlock data0 maxSize =>
      r <- readBlock data0 maxSize ;; St.ret (Count (fst r))
  | DoWriteBlock data0 => n <- writeBlock data0 ;; St.ret (Count n)
  | DoReadBlocks data0 blockCount blockSize =>
      r <- readBlocks data0 blockCount blockSize ;; St.ret (Count (fst r))
  | DoWriteBlocks data0 blockSize =>
      r <- writeBlocks data0 blockSize ;;
      St.ret (match r with Some n => Count n | None => Undefined end)
  | DoWriteFilemark count => flag (writeFilemark count)
  end.

(** The name the operation hands to [checkOpen]. *)
Definition operationName (o : Operation) : string :=
  match o with
  | DoRefreshStatus => "refreshStatus"
  | DoTestReady => "testReady"
  | DoLoad _ => "load"
  | DoUnload _ => "unload"
  | DoRewind _ => "rewind"
  | DoLockMedia => "lockMedia"
  | DoUnlockMedia => "unlockMedia"
  | DoLocate _ _ => "locate"
  | DoSpaceBlocks _ => "spaceBlocks"
  | DoSpaceFilemarks _ => "spaceFilemarks"
  | DoSpaceToEndOfData => "spaceToEndOfData"
  | DoSeekToBeginning _ => "locate"
  | DoSeekToEnd _ => "locate"
  | DoReadBlock _ _ => "readBlock"
  | DoWriteBlock _ => "writeBlock"
  | DoReadBlocks _ _ _ => "readBlocks"
  | DoWriteBlocks _ _ => "writeBlocks"
  | DoWriteFilemark _ => "writeFilemark"
  end.

(** Operations one after the other. *)
Fixpoint performAll (os : list Operation) (w : World) : World :=
  match os with
  | [] => w
  | o :: rest => performAll rest (snd (perform o w))
  end.

(** The status the observers of [statusChanged] were last told, [before]
    standing for what they knew when the trace began. *)
Fixpoint lastTold (before : TapeStatus) (tr : list Event) : TapeStatus :=
  match tr with
  | [] => before
  | Emitted (statusChanged st) :: rest => lastTold st rest
  | _ :: rest => lastTold before rest
  end.

(** The headers of REWIND, LOAD UNLOAD and a fixed-block WRITE(6). *)
Definition rewindHdr (d : Scsi.Private) (immediate : bool) : SgIoHdr :=
  sgHeader d (cdb_rewind immediate) DirNone [].

Definition loadUnloadHdr (d : Scsi.Private) (load immediate : bool)
    : SgIoHdr :=
  sgHeader d (cdb_loadUnload load immediate) DirNone [].

Definition writeBlocksHdr (d : Scsi.Private) (buf : QByteArray) : SgIoHdr :=
  sgHeader d (cdb_write6 (wrap32 (size buf)) true) ToDevice buf.

Local Close Scope st_scope.

(** The status is what the observers were last told. *)
Definition inSync (w : World) : Prop :=
  status w = lastTold Unknown (trace w).

(** A step that keeps it so, whatever it returns. *)
Definition syncs {A} (m : Dev A) : Prop :=
  forall w, inSync w -> inSync (snd (m w)).

(** A step that leaves the status in step with the signal when it starts
    from Unknown, whatever the observers were told before. *)
Definition announces {A} (m : Dev A) : Prop :=
  forall w, status w = Unknown -> inSync (snd (m w)).

(** A step that touches neither the status nor the signals. *)
Definition quiet {A} (m : Dev A) : Prop :=
  forall w, status (snd (m w)) = status w
            /\ lastTold Unknown (trace (snd (m w)))
               = lastTold Unknown (trace w).

(** A step that leaves the command object in place. *)
Definition keepsHandle {A} (m : Dev A) : Prop :=
  forall w, isOpen (snd (m w)) = isOpen w.

(** The status of a device at rest: in step with the signal while the
    device is open, Unknown while it is not. *)
Definition settled (w : World) : Prop :=
  if isOpen w then status w = lastTold Unknown (trace w)
  else status w = Unknown.

(** *** The whole life of a [TapeDevice] *)

(** A [TapeDevice] as its constructor leaves it, in front of drive
    [dr]: no command object, status Unknown. *)
Definition created (dr : Drive) : World :=
  mkWorld dr [] None Unknown initialPosition ""
          noSenseData [].

(** [TapeDevice::open], where [::open] on the device path answers
    [os_fd]: a descriptor, or a negative number for a refusal.
    [ScsiCommand::open] stores the answer and reports [fd >= 0]. *)
Definition openDevice (devicePath : string) (os_fd : Z) : Dev bool :=
  fun w =>
    if isOpen w then (true, w)
    else
      let w1 := set_scsi (Some (opened os_fd)) w in
      if negb (Scsi.isOpen (opened os_fd)) then
        (false,
         set_scsi None
           (set_lastError ("Failed to open device: " ++ devicePath) w1))
      else
        let w2 := snd (emit (openChanged true) w1) in
        (true, snd (refreshStatus w2)).

(** A call of a method of [TapeDevice] that changes its state. *)
Inductive Method :=
| Perform (o : Operation)
| DoOpen (os_fd : Z)
| DoClose
| DoSetTimeout (seconds : Z)
| DoClearError.

Definition invoke (devicePath : string) (m : Method) (w : World) : World :=
  match m with
  | Perform o => snd (perform o w)
  | DoOpen os_fd => snd (openDevice devicePath os_fd w)
  | DoClose => snd (close w)
  | DoSetTimeout seconds => snd (setTimeout seconds w)
  | DoClearError => snd (clearError w)
  end.

(** Calls one after the other. *)
Fixpoint invokeAll (devicePath : string) (ms : list Method) (w : World)
    : World :=
  match ms with
  | [] => w
  | m :: rest => invokeAll devicePath rest (invoke devicePath m w)
  end.

End Tape.

(** ** Decoding the READ POSITION data (TapeDevice.cpp) *)
Module TapeDecode.
Import Scsi Tape.
Local Open Scope rd_scope.

(** Four bytes put together with shifts and ors, as a [quint64]. *)
Definition word32 (b0 b1 b2 b3 : Z) : Z :=
  Z.lor (Z.lor (Z.lor (Z.shiftl b0 24) (Z.shiftl b1 16)) (Z.shiftl b2 8)) b3.

(** [TapeDevice::Private::parsePositionData], on the position [p] the
    device holds: the return value and the position afterwards, with the
    indices it reads. *)
Definition parsePositionData_rd (p : TapePosition)
    : Access.Rd (bool * TapePosition) :=
  fun data =>
  (n <- Access.len ;;
   if n <? 20 then Access.ret (false, p)
   else
     b1 <- Access.rd 1 ;;
     b4 <- Access.rd 4 ;;
     b5 <- Access.rd 5 ;;
     b6 <- Access.rd 6 ;;
     b7 <- Access.rd 7 ;;
     b8 <- Access.rd 8 ;;
     b9 <- Access.rd 9 ;;
     b10 <- Access.rd 10 ;;
     b11 <- Access.rd 11 ;;
     f0 <- Access.rd 0 ;;
     f1 <- Access.rd 0 ;;
     f2 <- Access.rd 0 ;;
     Access.ret
       (true,
        mkPosition b1 (word32 b4 b5 b6 b7) (word32 b8 b9 b10 b11)
                   (negb (Z.land f0 0x80 =? 0))
                   (negb (Z.land f1 0x40 =? 0))
                   (negb (Z.land f2 0x04 =? 0)))) data.

Definition parsePositionData (p : TapePosition) (data : QByteArray)
    : bool * TapePosition :=
  fst (parsePositionData_rd p data).

(** The indices [parsePositionData] dereferences on [data]. *)
Definition parsePositionData_reads (p : TapePosition) (data : QByteArray)
    : list nat :=
  snd (parsePositionData_rd p data).

Local Close Scope rd_scope.

End TapeDecode.

(** ** TapeIO.h / TapeIO.cpp *)
Module TapeIO.
Import Scsi.

(** [enum class HashMode] (HashCalculator.h) *)
Inductive HashMode := HashNone | MD5 | SHA1 | SHA256 | SHA512 | XXH64.

(** [enum class TransferStatus] *)
Inductive TransferStatus :=
| Pending | InProgress | Completed | Failed | Skipped | Cancelled.

(** [struct TransferItem] (the [modifiedTime] stamp only feeds the index
    entry that [writeFileToTape] builds and drops, and is left out). *)
Record TransferItem := mkItem {
  sourcePath : string;
  destPath : string;
  relativePath : string;
  itemSize : Z;
  itemStatus : TransferStatus;
  errorMessage : string;
  bytesTransferred : Z;
  sourceHash : string;
  destHash : string;
  hashVerified : bool;
  isDirectory : bool
}.

(** [struct TransferOptions] *)
Record TransferOptions := mkOptions {
  hashMode : HashMode;
  verifyAfterWrite : bool;
  preserveTimestamps : bool;
  skipExisting : bool;
  overwriteExisting : bool;
  createDirectories : bool;
  continueOnError : bool;
  maxRetries : Z;
  blockSize : Z
}.

(** [struct HashResult], the fields [TapeIO] looks at. *)
Record HashResult := mkHash {
  hashSuccess : bool;
  hexString : string
}.

(** The local file system: paths to contents. *)
Definition Fs := list (string * QByteArray).

Fixpoint fs_lookup (path : string) (fs : Fs) : option QByteArray :=
  match fs with
  | [] => None
  | (p, c) :: rest => if String.eqb p path then Some c
                      else fs_lookup path rest
  end.

Fixpoint fs_remove (path : string) (fs : Fs) : Fs :=
  match fs with
  | [] => []
  | (p, c) :: rest => if String.eqb p path then fs_remove path rest
                      else (p, c) :: fs_remove path rest
  end.

Definition fs_store (path : string) (c : QByteArray) (fs : Fs) : Fs :=
  (path, c) :: fs_remove path fs.

(** What other threads and connected slots may do to a running transfer:
    [TapeIO::cancel] and [TapeIO::pause]. *)
Inductive Action := DoCancel | DoPause.

(** What the transfer leaves behind for an observer. *)
Inductive IoEvent :=
| FileProgress (item : TransferItem) (done total : Z)
| FileRemoved (path : string)
| FileHashed (path : string) (hex : string).

(** The parts of the surroundings that are not the program: the digest
    function behind [HashCalculator], the faults of the local disk, and
    the text of [QFile::errorString]. *)
Record Env := mkEnv {
  digest : HashMode -> QByteArray -> string;
  readable : string -> bool;
  destWritable : string -> bool;
  mkpathOk : string -> bool;
  readFault : nat -> bool;
  writeFault : nat -> bool;
  errorString : string
}.

(** [TapeIO::Private], the device it drives, the local disk, and the
    actions still to come from outside: one batch per point where the
    loop lets others run (after each chunk, and in each sleep of the
    pause wait). *)
Record IoWorld := mkIo {
  env : Env;
  device : Tape.World;
  options : TransferOptions;
  running : bool;
  paused : bool;
  cancelled : bool;
  completedBytes : Z;
  files : Fs;
  pending : list (list Action);
  ioLog : list IoEvent
}.

Definition IO (A : Type) : Type := St.M IoWorld A.

Local Open Scope st_scope.

Definition set_device (d : Tape.World) (w : IoWorld) : IoWorld :=
  mkIo (env w) d (options w) (running w) (paused w) (cancelled w)
       (completedBytes w) (files w) (pending w) (ioLog w).
Definition set_flags (p c : bool) (w : IoWorld) : IoWorld :=
  mkIo (env w) (device w) (options w) (running w) p c
       (completedBytes w) (files w) (pending w) (ioLog w).
Definition set_completedBytes (n : Z) (w : IoWorld) : IoWorld :=
  mkIo (env w) (device w) (options w) (running w) (paused w) (cancelled w)
       n (files w) (pending w) (ioLog w).
Definition set_files (fs : Fs) (w : IoWorld) : IoWorld :=
  mkIo (env w) (device w) (options w) (running w) (paused w) (cancelled w)
       (completedBytes w) fs (pending w) (ioLog w).
Definition set_pending (ps : list (list Action)) (w : IoWorld) : IoWorld :=
  mkIo (env w) (device w) (options w) (running w) (paused w) (cancelled w)
       (completedBytes w) (files w) ps (ioLog w).
Definition io_log (e : IoEvent) (w : IoWorld) : IoWorld :=
  mkIo (env w) (device w) (options w) (running w) (paused w) (cancelled w)
       (completedBytes w) (files w) (pending w) (ioLog w ++ [e]).

(** A call on [d->device]. *)
Definition onDevice {A} (m : Tape.Dev A) : IO A :=
  fun w => let '(a, d') := m (device w) in (a, set_device d' w).

(** [TapeIO::cancel] and [TapeIO::pause] *)
Definition act (a : Action) (w : IoWorld) : IoWorld :=
  match a with
  | DoCancel => set_flags false true w
  | DoPause =>
      if running w && negb (paused w) then set_flags true (cancelled w) w
      else w
  end.

(** A point where others run: the next batch of outside actions. *)
Definition yield : IO unit :=
  fun w =>
    match pending w with
    | [] => (tt, w)
    | batch :: rest =>
        (tt, fold_left (fun w' a => act a w') batch (set_pending rest w))
    end.

(** [while (d->paused) { msleep(100); if (d->cancelled) return ...; }]
    The result is [Some true] when the wait ends in a cancel, [Some false]
    when the pause is over, and [None] when the transfer stays paused and
    nothing is left to come from outside (the loop never ends). *)
Fixpoint pauseWait (fuel : nat) : IO (option bool) :=
  fun w =>
    if negb (paused w) then (Some false, w)
    else
      match fuel with
      | O => (None, w)
      | S fuel' =>
          match pending w with
          | [] => (None, w)
          | _ :: _ =>
              let '(_, w1) := yield w in
              if cancelled w1 then (Some true, w1)
              else pauseWait fuel' w1
          end
      end.

Definition set_status (st : TransferStatus) (it : TransferItem) :=
  mkItem (sourcePath it) (destPath it) (relativePath it) (itemSize it) st
         (errorMessage it) (bytesTransferred it) (sourceHash it)
         (destHash it) (hashVerified it) (isDirectory it).
Definition set_error (e : string) (it : TransferItem) :=
  mkItem (sourcePath it) (destPath it) (relativePath it) (itemSize it)
         (itemStatus it) e (bytesTransferred it) (sourceHash it)
         (destHash it) (hashVerified it) (isDirectory it).
Definition set_transferred (n : Z) (it : TransferItem) :=
  mkItem (sourcePath it) (destPath it) (relativePath it) (itemSize it)
         (itemStatus it) (errorMessage it) n (sourceHash it)
         (destHash it) (hashVerified it) (isDirectory it).
Definition set_sourceHash (h : string) (it : TransferItem) :=
  mkItem (sourcePath it) (destPath it) (relativePath it) (itemSize it)
         (itemStatus it) (errorMessage it) (bytesTransferred it) h
         (destHash it) (hashVerified it) (isDirectory it).
Definition set_destHash (h : string) (v : bool) (it : TransferItem) :=
  mkItem (sourcePath it) (destPath it) (relativePath it) (itemSize it)
         (itemStatus it) (errorMessage it) (bytesTransferred it)
         (sourceHash it) h v (isDirectory it).

(** [item.errorMessage = msg; item.status = Failed; return false;] *)
Definition fail (msg : string) (it : TransferItem) : TransferItem :=
  set_status Failed (set_error msg it).

(** [HashCalculator(mode).hashFile(path)] *)
Definition hashFile (path : string) : IO HashResult :=
  fun w =>
    match fs_lookup path (files w) with
    | Some c =>
        if readable (env w) path then
          let hex := digest (env w) (hashMode (options w)) c in
          (mkHash true hex, io_log (FileHashed path hex) w)
        else (mkHash false "", w)
    | None => (mkHash false "", w)
    end.

(** How a transfer loop is left: by a [return false] inside it, by
    falling out of it, or not at all. *)
Inductive LoopExit :=
| Returned (it : TransferItem)
| Fell (it : TransferItem)
| Hung (it : TransferItem).

Definition isEmpty (a : QByteArray) : bool :=
  match a with [] => true | _ => false end.

(** The [while (!file.atEnd())] loop of [TapeIO::writeFileToTape].
    [rest] is the part of the source file not read yet and [n] the
    number of chunks read so far.  Every round that goes on reads at
    least one byte, so [S (length rest)] rounds of fuel are enough. *)
Fixpoint writeLoop (fuel : nat) (rest : QByteArray) (n : nat)
    (totalWritten fileSize : Z) (item : TransferItem) : IO LoopExit :=
  fun w =>
    match fuel with
    | O => (Hung item, w)
    | S fuel' =>
        if isEmpty rest then (Fell item, w)
        else if cancelled w then (Returned (set_status Cancelled item), w)
        else
          let '(pw, w1) := pauseWait (S (List.length (pending w))) w in
          match pw with
          | None => (Hung item, w1)
          | Some true => (Returned (set_status Cancelled item), w1)
          | Some false =>
              let buffer :=
                if readFault (env w1) n then []
                else firstn (Z.to_nat (blockSize (options w1))) rest in
              if isEmpty buffer then
                if readFault (env w1) n then
                  (Returned (fail ("Read error: " ++ errorString (env w1))
                                  item), w1)
                else (Fell item, w1)
              else
                let '(written, w2) :=
                  onDevice (Tape.writeBlock buffer) w1 in
                if written <? 0 then
                  (Returned
                     (fail ("Write error: "
                            ++ Tape.lastError (device w2)) item), w2)
                else
                  let total' := totalWritten + written in
                  let item' := set_transferred total' item in
                  (* emit fileProgress(...); updateStatistics(); *)
                  let w3 :=
                    io_log (FileProgress item' total' fileSize)
                      (set_completedBytes (completedBytes w2 + written)
                                          w2) in
                  let '(_, w4) := yield w3 in
                  writeLoop fuel'
                    (skipn (Z.to_nat (blockSize (options w1))) rest)
                    (S n) total' fileSize item' w4
          end
    end.

(** [TapeIO::writeFileToTape].  [None] when the call never returns.
    (The [LtfsFile] built under [if (d->index)] is a local that is never
    stored, the line adding it to the index being commented out.) *)
Definition writeFileToTape (item : TransferItem)
    : IO (option (bool * TransferItem)) :=
  fun w =>
    if isDirectory item then
      (Some (true, set_status Completed item), w)
    else
      match (if readable (env w) (sourcePath item)
             then fs_lookup (sourcePath item) (files w) else None) with
      | None =>
          (Some (false,
                 fail ("Failed to open source file: "
                       ++ errorString (env w)) item), w)
      | Some content =>
          let '(item1, w1) :=
            if verifyAfterWrite (options w) then
              let '(h, w') := hashFile (sourcePath item) w in
              if hashSuccess h then (set_sourceHash (hexString h) item, w')
              else (item, w')
            else (item, w) in
          let '(ok, w2) := onDevice (Tape.seekToEnd 1) w1 in
          if negb ok then
            (Some (false, fail "Failed to seek to end of data" item1), w2)
          else
            let '(ex, w3) :=
              writeLoop (S (List.length content)) content 0 0
                        (size content) item1 w2 in
            match ex with
            | Hung _ => (None, w3)
            | Returned it => (Some (false, it), w3)
            | Fell it =>
                let '(fm, w4) := onDevice (Tape.writeFilemark 1) w3 in
                if negb fm then
                  (Some (false, fail "Failed to write filemark" it), w4)
                else
                  (Some (true, set_status Completed it), w4)
            end
      end.

(** [file.close(); QFile::remove(item.destPath);] *)
Definition removeDest (item : TransferItem) (w : IoWorld) : IoWorld :=
  io_log (FileRemoved (destPath item))
         (set_files (fs_remove (destPath item) (files w)) w).

(** [qMin] *)
Definition qMin (a b : Z) : Z := if b <? a then b else a.

(** The [while (totalRead < expectedSize)] loop of
    [TapeIO::readFileFromTape]; [n] counts the blocks written to the
    destination so far.  Every round that goes on adds at least one byte
    to [totalRead]. *)
Fixpoint readLoop (fuel : nat) (n : nat) (totalRead expectedSize : Z)
    (buffer : QByteArray) (item : TransferItem) : IO LoopExit :=
  fun w =>
    match fuel with
    | O => (Hung item, w)
    | S fuel' =>
        if negb (totalRead <? expectedSize) then (Fell item, w)
        else if cancelled w then
          (Returned (set_status Cancelled item), removeDest item w)
        else
          let '(pw, w1) := pauseWait (S (List.length (pending w))) w in
          match pw with
          | None => (Hung item, w1)
          | Some true =>
              (Returned (set_status Cancelled item), removeDest item w1)
          | Some false =>
              let toRead := qMin (blockSize (options w1))
                                 (expectedSize - totalRead) in
              let '(rb, w2) :=
                onDevice (Tape.readBlock buffer (wrap32 toRead)) w1 in
              let '(bytesRead, buffer') := rb in
              if bytesRead <? 0 then
                (Returned
                   (fail ("Read error: " ++ Tape.lastError (device w2))
                         item),
                 removeDest item w2)
              else if bytesRead =? 0 then (Fell item, w2)
              else if writeFault (env w2) n then
                (Returned
                   (fail ("Write error: " ++ errorString (env w2)) item),
                 removeDest item w2)
              else
                let old := match fs_lookup (destPath item) (files w2) with
                           | Some c => c
                           | None => []
                           end in
                let total' := totalRead + bytesRead in
                let item' := set_transferred total' item in
                let w3 :=
                  io_log (FileProgress item' total' expectedSize)
                    (set_completedBytes (completedBytes w2 + bytesRead)
                       (set_files (fs_store (destPath item)
                                            (old ++ buffer') (files w2))
                                  w2)) in
                let '(_, w4) := yield w3 in
                readLoop fuel' (S n) total' expectedSize buffer' item' w4
          end
    end.

(** [a.compare(b, Qt::CaseInsensitive) == 0] *)
Definition sameHash (a b : string) : bool :=
  String.eqb (QStr.toLower a) (QStr.toLower b).

(** [TapeIO::verifyFileHash] *)
Definition verifyFileHash (item : TransferItem)
    : IO (bool * TransferItem) :=
  r <- hashFile (destPath item) ;;
  if negb (hashSuccess r) then
    St.ret (false, fail "Hash calculation failed" item)
  else
    let item1 :=
      set_destHash (hexString r)
                   (sameHash (sourceHash item) (hexString r)) item in
    if negb (hashVerified item1) then
      St.ret (false, fail "Hash verification failed" item1)
    else St.ret (true, item1).

(** The first part of [TapeIO::readFileFromTape], up to and including
    the [file.close()] behind the loop. *)
Definition receiveFile (item : TransferItem) : IO LoopExit :=
  fun w =>
    if createDirectories (options w)
       && negb (mkpathOk (env w) (destPath item)) then
      (Returned (fail "Failed to create directory" item), w)
    else if negb (destWritable (env w) (destPath item)) then
      (Returned (fail ("Failed to create destination file: "
                       ++ errorString (env w)) item), w)
    else
      let w1 := set_files (fs_store (destPath item) [] (files w)) w in
      readLoop (S (Z.to_nat (itemSize item))) 0 0 (itemSize item) []
               item w1.

(** [TapeIO::readFileFromTape].  [None] when the call never returns. *)
Definition readFileFromTape (item : TransferItem)
    : IO (option (bool * TransferItem)) :=
  ex <- receiveFile item ;;
  match ex with
  | Hung _ => St.ret None
  | Returned it => St.ret (Some (false, it))
  | Fell it =>
      fun w =>
        if verifyAfterWrite (options w)
           && negb (String.eqb (sourceHash it) "") then
          let '(v, w1) := verifyFileHash it w in
          if negb (fst v) then (Some (false, snd v), w1)
          else (Some (true, set_status Completed (snd v)), w1)
        else (Some (true, set_status Completed it), w)
  end.

(** The world after one chunk has gone to tape: the device after the
    write, the byte count, the progress event, then whatever others do
    at that point. *)
Definition stepWorld (w : IoWorld) (buffer : QByteArray)
    (item' : TransferItem) (total' fileSize : Z) : IoWorld :=
  snd (yield
         (io_log (FileProgress item' total' fileSize)
            (set_completedBytes (completedBytes w + size buffer)
               (set_device (snd (Tape.writeBlock buffer (device w))) w)))).

(** A WRITE FILEMARKS command, by its operation code. *)
Definition isFilemarkCmd (h : SgIoHdr) : bool :=
  byteAt (cmdp h) 0 =? OP_WriteFilemark.

Definition KiB : Z := 1024.
Definition MiB : Z := 1024 * 1024.

(** The [k]-th chunk of [n] bytes of a file. *)
Definition chunk (n : Z) (k : nat) (content : QByteArray) : QByteArray :=
  firstn (Z.to_nat n) (Nat.iter k (skipn (Z.to_nat n)) content).

(** How [receiveFile] and the read loop can end, seen from outside. *)
Definition readExit (item : TransferItem) (w0 : IoWorld)
    (ex : LoopExit) (w' : IoWorld) : Prop :=
  env w' = env w0 /\ options w' = options w0
  /\ exists new,
       ioLog w' = ioLog w0 ++ new
       /\ match ex with
          | Fell it =>
              destPath it = destPath item
              /\ sourceHash it = sourceHash item
              /\ ~ In (FileRemoved (destPath item)) new
          | Returned it =>
              destPath it = destPath item
              /\ sourceHash it = sourceHash item
              /\ (In (FileRemoved (destPath item)) new ->
                  itemStatus it = Cancelled
                  \/ (itemStatus it = Failed
                      /\ exists reason,
                           errorMessage it
                             = ("Read error: " ++ reason)%string
                           \/ errorMessage it
                             = ("Write error: " ++ reason)%string))
          | Hung _ => ~ In (FileRemoved (destPath item)) new
          end.

(** The text [verifyFileHash] reports for a digest that differs. *)
Definition hashFailed : string := "Hash verification failed".

(** *** Example worlds *)

(** Surroundings without faults; every digest is ["bb"]. *)
Definition quietEnv : Env :=
  mkEnv (fun _ _ => "bb"%string) (fun _ => true) (fun _ => true)
        (fun _ => true) (fun _ => false) (fun _ => false) "".

(** The default-constructed [TransferOptions]. *)
Definition defaultOptions : TransferOptions :=
  mkOptions SHA256 true true false true true true 3 (512 * KiB).

Definition uncheckedOptions : TransferOptions :=
  mkOptions SHA256 false true false true true true 3 (512 * KiB).

(** A 10 MiB source file. *)
Definition tenMiB : QByteArray := repeat x00 (Z.to_nat (10 * MiB)).

(** A write in progress on a drive that completes every command, with
    [cancel()] arriving after the third chunk. *)
Definition cancelWorld : IoWorld :=
  mkIo quietEnv (Tape.open Tape.goodDrive 3) defaultOptions true false
       false 0 [("/data/a.bin"%string, tenMiB)]
       [[]; []; [DoCancel]] [].

Definition cancelItem : TransferItem :=
  mkItem "/data/a.bin" "a.bin" "a.bin" (10 * MiB) InProgress "" 0 "" ""
         false false.

(** A 4-byte file to read back whose stored source hash is ["aa"]. *)
Definition mismatchItem : TransferItem :=
  mkItem "a.bin" "/restore/a.bin" "a.bin" 4 InProgress "" 0 "aa" ""
         false false.

Definition mismatchWorld (opts : TransferOptions) : IoWorld :=
  mkIo quietEnv (Tape.open Tape.goodDrive 3) opts true false false 0 []
       [] [].

Local Close Scope st_scope.

End TapeIO.

(** ** BlockManager.h / BlockManager.cpp *)
Module BlockManager.

Definition DEFAULT_BLOCK_SIZE : Z := 512 * 1024.
Definition MAX_BLOCK_SIZE : Z := 4 * 1024 * 1024.
Definition MIN_BLOCK_SIZE : Z := 4 * 1024.

(** [struct BlockAllocation] *)
Record BlockAllocation := mkAllocation {
  startBlock : Z;
  blockCount : Z;
  partition : Z;
  fileOffset : Z;
  byteCount : Z
}.

(** The data members of [class BlockManager]. *)
Record t := mkManager {
  m_blockSize : Z;
  m_currentPartition : Z;
  m_currentBlock : Z;
  m_currentExtent : BlockAllocation;
  m_extentActive : bool;
  m_extents : list BlockAllocation;
  m_totalBlocksWritten : Z;
  m_totalBytesWritten : Z
}.

(** [BlockManager::isValidBlockSize(uint32_t size)]; [size - 1] is
    computed in [uint32_t]. *)
Definition isValidBlockSize (size : Z) : bool :=
  if (size <? MIN_BLOCK_SIZE) || (MAX_BLOCK_SIZE <? size) then false
  else if Z.land size (wrap32 (size - 1)) =? 0 then true
  else size mod MIN_BLOCK_SIZE =? 0.

(** [BlockManager::BlockManager(uint32_t blockSize)] *)
Definition create (blockSize : Z) : t :=
  mkManager (if isValidBlockSize blockSize then blockSize
             else DEFAULT_BLOCK_SIZE)
            0 0 (mkAllocation 0 0 0 0 0) false [] 0 0.

(** [BlockManager::setBlockSize]: the return value and the manager
    afterwards. *)
Definition setBlockSize (size : Z) (m : t) : bool * t :=
  if negb (isValidBlockSize size) then (false, m)
  else
    (true,
     mkManager size (m_currentPartition m) (m_currentBlock m)
               (m_currentExtent m) (m_extentActive m) (m_extents m)
               (m_totalBlocksWritten m) (m_totalBytesWritten m)).

(** [BlockManager::blockSize] *)
Definition blockSize (m : t) : Z := m_blockSize m.

(** The other member functions of [BlockManager].  Each gives the manager
    afterwards, and the return value where there is one. *)

Definition zeroAllocation : BlockAllocation := mkAllocation 0 0 0 0 0.

(** [static_cast<int>(v)] of a [uint32_t]. *)
Definition toInt (v : Z) : Z := if v <? 2 ^ 31 then v else v - 2 ^ 32.

(** [qBound(lo, v, hi)] *)
Definition qBound (lo v hi : Z) : Z := Z.max lo (Z.min hi v).

(** [BlockManager::setPartition] *)
Definition setPartition (p : Z) (m : t) : t :=
  mkManager (m_blockSize m) p (m_currentBlock m) (m_currentExtent m)
            (m_extentActive m) (m_extents m) (m_totalBlocksWritten m)
            (m_totalBytesWritten m).

(** [BlockManager::setBlockPosition] *)
Definition setBlockPosition (blockNumber : Z) (m : t) : t :=
  mkManager (m_blockSize m) (m_currentPartition m) blockNumber
            (m_currentExtent m) (m_extentActive m) (m_extents m)
            (m_totalBlocksWritten m) (m_totalBytesWritten m).

(** [BlockManager::advanceBlocks] *)
Definition advanceBlocks (blocks : Z) (m : t) : t :=
  setBlockPosition (wrap64 (m_currentBlock m + blocks)) m.

(** [BlockManager::allocateBuffer]: [QByteArray(n, 0)] is empty for
    [n <= 0]. *)
Definition allocateBuffer (m : t) : QByteArray :=
  repeat x00 (Z.to_nat (toInt (m_blockSize m))).

(** [BlockManager::allocateBuffers] *)
Definition allocateBuffers (count : Z) (m : t) : list QByteArray :=
  repeat (allocateBuffer m) (Z.to_nat count).

(** [BlockManager::recommendedBufferCount]; [None] is the division by a
    block size of zero. *)
Definition recommendedBufferCount (m : t) : option Z :=
  if m_blockSize m =? 0 then None
  else Some (qBound 4 (toInt (wrap32 (32 * 1024 * 1024 / m_blockSize m)))
                    64).

(** [BlockManager::endExtent] *)
Definition endExtent (m : t) : BlockAllocation * t :=
  let result := m_currentExtent m in
  if m_extentActive m then
    (result,
     mkManager (m_blockSize m) (m_currentPartition m) (m_currentBlock m)
               zeroAllocation false (m_extents m ++ [m_currentExtent m])
               (m_totalBlocksWritten m) (m_totalBytesWritten m))
  else (result, m).

(** [BlockManager::beginExtent] *)
Definition beginExtent (m : t) : Z * t :=
  let m1 := if m_extentActive m then snd (endExtent m) else m in
  (Z.of_nat (List.length (m_extents m1)),
   mkManager (m_blockSize m1) (m_currentPartition m1) (m_currentBlock m1)
             (mkAllocation (m_currentBlock m1) 0 (m_currentPartition m1)
                           0 0)
             true (m_extents m1) (m_totalBlocksWritten m1)
             (m_totalBytesWritten m1)).

(** [BlockManager::addToExtent] *)
Definition addToExtent (blocks bytes : Z) (m : t) : t :=
  if negb (m_extentActive m) then m
  else
    let e := m_currentExtent m in
    mkManager (m_blockSize m) (m_currentPartition m)
              (wrap64 (m_currentBlock m + blocks))
              (mkAllocation (startBlock e) (wrap64 (blockCount e + blocks))
                            (partition e) (fileOffset e)
                            (wrap64 (byteCount e + bytes)))
              true (m_extents m)
              (wrap64 (m_totalBlocksWritten m + blocks))
              (wrap64 (m_totalBytesWritten m + bytes)).

(** [BlockManager::clearExtents] *)
Definition clearExtents (m : t) : t :=
  mkManager (m_blockSize m) (m_currentPartition m) (m_currentBlock m)
            zeroAllocation false [] (m_totalBlocksWritten m)
            (m_totalBytesWritten m).

(** [BlockManager::resetStatistics] *)
Definition resetStatistics (m : t) : t :=
  mkManager (m_blockSize m) (m_currentPartition m) (m_currentBlock m)
            (m_currentExtent m) (m_extentActive m) (m_extents m) 0 0.

(** [BlockManager::bytesToBlocks]; the sum is taken in [uint64_t]. *)
Definition bytesToBlocks (bytes : Z) (m : t) : Z :=
  if m_blockSize m =? 0 then 0
  else wrap64 (bytes + m_blockSize m - 1) / m_blockSize m.

(** [BlockManager::blocksToBytes] *)
Definition blocksToBytes (blocks : Z) (m : t) : Z :=
  wrap64 (blocks * m_blockSize m).

(** A call of one of the member functions that change the manager, and a
    sequence of such calls. *)
Inductive Call :=
| CallSetBlockSize (size : Z)
| CallSetPartition (p : Z)
| CallSetBlockPosition (blockNumber : Z)
| CallAdvanceBlocks (blocks : Z)
| CallBeginExtent
| CallAddToExtent (blocks bytes : Z)
| CallEndExtent
| CallClearExtents
| CallResetStatistics.

Definition perform (m : t) (c : Call) : t :=
  match c with
  | CallSetBlockSize size => snd (setBlockSize size m)
  | CallSetPartition p => setPartition p m
  | CallSetBlockPosition b => setBlockPosition b m
  | CallAdvanceBlocks n => advanceBlocks n m
  | CallBeginExtent => snd (beginExtent m)
  | CallAddToExtent blocks bytes => addToExtent blocks bytes m
  | CallEndExtent => snd (endExtent m)
  | CallClearExtents => clearExtents m
  | CallResetStatistics => resetStatistics m
  end.

Definition performAll (calls : list Call) (m : t) : t :=
  fold_left perform calls m.

(** The calls that neither drop extents nor reset the counters. *)
Definition keepsRecords (c : Call) : bool :=
  match c with
  | CallClearExtents | CallResetStatistics => false
  | _ => true
  end.

(** The blocks and bytes on record: in the list of extents and in the
    extent being written. *)
Definition recordedBlocks (m : t) : Z :=
  fold_right (fun e acc => blockCount e + acc) 0 (m_extents m)
  + blockCount (m_currentExtent m).

Definition recordedBytes (m : t) : Z :=
  fold_right (fun e acc => byteCount e + acc) 0 (m_extents m)
  + byteCount (m_currentExtent m).

(** What the counters and the extent records have in common. *)
Definition accounted (m : t) : Prop :=
  (m_extentActive m = false -> m_currentExtent m = zeroAllocation)
  /\ wrap64 (recordedBlocks m) = m_totalBlocksWritten m
  /\ wrap64 (recordedBytes m) = m_totalBytesWritten m.

(** The sums of a list of writes. *)
Definition blocksOf (writes : list (Z * Z)) : Z :=
  fold_right (fun w acc => fst w + acc) 0 writes.
Definition bytesOf (writes : list (Z * Z)) : Z :=
  fold_right (fun w acc => snd w + acc) 0 writes.

Definition addAll (writes : list (Z * Z)) (m : t) : t :=
  fold_left (fun m w => addToExtent (fst w) (snd w) m) writes m.

End BlockManager.

(** ** XXHash64 (HashCalculator.cpp)

    The 64-bit hash the calculator runs in [HashMode::XXH64].  The object
    keeps four lanes, the number of bytes seen and a 32-byte array of which
    the first [m_bufferSize] bytes wait for the next full block. *)
Module XXHash64.

Definition PRIME1 : Z := 0x9E3779B185EBCA87.
Definition PRIME2 : Z := 0xC2B2AE3D27D4EB4F.
Definition PRIME3 : Z := 0x165667B19E3779F9.
Definition PRIME4 : Z := 0x85EBCA77C2B2AE63.
Definition PRIME5 : Z := 0x27D4EB2F165667C5.

(** The members of [class XXHash64]; [m_buffer] is the [quint8[32]]
    array. *)
Record t := mk {
  m_seed : Z;
  m_v1 : Z;
  m_v2 : Z;
  m_v3 : Z;
  m_v4 : Z;
  m_totalLen : Z;
  m_buffer : QByteArray;
  m_bufferSize : Z
}.

(** [rotl64]: [(x << r) | (x >> (64 - r))] on a [quint64]. *)
Definition rotl64 (x r : Z) : Z :=
  Z.lor (wrap64 (Z.shiftl x r)) (Z.shiftr x (64 - r)).

(** [readLE64]; [p] is the memory from the pointer onwards. *)
Definition readLE64 (p : QByteArray) : Z :=
  Z.lor (Z.lor (Z.lor (Z.lor (Z.lor (Z.lor (Z.lor
    (byteAt p 0)
    (Z.shiftl (byteAt p 1) 8))
    (Z.shiftl (byteAt p 2) 16))
    (Z.shiftl (byteAt p 3) 24))
    (Z.shiftl (byteAt p 4) 32))
    (Z.shiftl (byteAt p 5) 40))
    (Z.shiftl (byteAt p 6) 48))
    (Z.shiftl (byteAt p 7) 56).

(** [readLE32] *)
Definition readLE32 (p : QByteArray) : Z :=
  Z.lor (Z.lor (Z.lor
    (byteAt p 0)
    (Z.shiftl (byteAt p 1) 8))
    (Z.shiftl (byteAt p 2) 16))
    (Z.shiftl (byteAt p 3) 24).

(** [round] *)
Definition round (acc input : Z) : Z :=
  let acc := wrap64 (acc + wrap64 (input * PRIME2)) in
  let acc := rotl64 acc 31 in
  wrap64 (acc * PRIME1).

(** [mergeRound] *)
Definition mergeRound (acc val : Z) : Z :=
  let val := round 0 val in
  let acc := Z.lxor acc val in
  wrap64 (wrap64 (acc * PRIME1) + PRIME4).

(** [processBlock(p)]: one 32-byte block into the four lanes. *)
Definition processBlock (p : QByteArray) (s : t) : t :=
  mk (m_seed s)
     (round (m_v1 s) (readLE64 p))
     (round (m_v2 s) (readLE64 (skipn 8 p)))
     (round (m_v3 s) (readLE64 (skipn 16 p)))
     (round (m_v4 s) (readLE64 (skipn 24 p)))
     (m_totalLen s) (m_buffer s) (m_bufferSize s).

(** [reset()] leaves the array as it is. *)
Definition reset (s : t) : t :=
  mk (m_seed s)
     (wrap64 (wrap64 (m_seed s + PRIME1) + PRIME2))
     (wrap64 (m_seed s + PRIME2))
     (m_seed s)
     (wrap64 (m_seed s - PRIME1))
     0 (m_buffer s) 0.

(** The constructor: the seed is stored and the object reset.  The array is
    not initialised; [raw] is what its memory holds. *)
Definition create (seed : Z) (raw : QByteArray) : t :=
  reset (mk seed 0 0 0 0 0 raw 0).

(** [memcpy(dst + at, src, n)] on an array [dst]. *)
Definition memcpy (dst : QByteArray) (at_ : Z) (src : QByteArray) (n : Z)
  : QByteArray :=
  firstn (Z.to_nat at_) dst ++ firstn (Z.to_nat n) src
    ++ skipn (Z.to_nat (at_ + n)) dst.

Definition setTotalLen (v : Z) (s : t) : t :=
  mk (m_seed s) (m_v1 s) (m_v2 s) (m_v3 s) (m_v4 s) v (m_buffer s)
     (m_bufferSize s).

Definition setBuffer (b : QByteArray) (s : t) : t :=
  mk (m_seed s) (m_v1 s) (m_v2 s) (m_v3 s) (m_v4 s) (m_totalLen s) b
     (m_bufferSize s).

Definition setBufferSize (v : Z) (s : t) : t :=
  mk (m_seed s) (m_v1 s) (m_v2 s) (m_v3 s) (m_v4 s) (m_totalLen s)
     (m_buffer s) v.

(** [while (p + 32 <= end) { processBlock(p); p += 32; }]: every turn
    takes 32 bytes, so as many turns as there are bytes are enough. *)
Fixpoint blocks (fuel : nat) (p : QByteArray) (s : t) : QByteArray * t :=
  match fuel with
  | O => (p, s)
  | S fuel =>
      if 32 <=? size p then blocks fuel (skipn 32 p) (processBlock p s)
      else (p, s)
  end.

(** [update(data, length)] with [data] the [length] bytes passed. *)
Definition update (data : QByteArray) (s : t) : t :=
  let length := size data in
  let s := setTotalLen (wrap64 (m_totalLen s + length)) s in
  if m_bufferSize s + length <? 32 then
    setBufferSize (m_bufferSize s + length)
      (setBuffer (memcpy (m_buffer s) (m_bufferSize s) data length) s)
  else
    let '(p, s) :=
      if 0 <? m_bufferSize s then
        let fillLen := 32 - m_bufferSize s in
        let s :=
          setBuffer (memcpy (m_buffer s) (m_bufferSize s) data fillLen) s in
        (skipn (Z.to_nat fillLen) data,
         setBufferSize 0 (processBlock (m_buffer s) s))
      else (data, s) in
    let '(p, s) := blocks (List.length p) p s in
    if 0 <? size p then
      let s := setBufferSize (size p) s in
      setBuffer (memcpy (m_buffer s) 0 p (m_bufferSize s)) s
    else s.

(** The three loops of [finalize] over the waiting bytes. *)
Fixpoint tail8 (fuel : nat) (p : QByteArray) (h64 : Z) : QByteArray * Z :=
  match fuel with
  | O => (p, h64)
  | S fuel =>
      if 8 <=? size p then
        let k1 := readLE64 p in
        let k1 := wrap64 (k1 * PRIME2) in
        let k1 := rotl64 k1 31 in
        let k1 := wrap64 (k1 * PRIME1) in
        let h64 := Z.lxor h64 k1 in
        let h64 := wrap64 (wrap64 (rotl64 h64 27 * PRIME1) + PRIME4) in
        tail8 fuel (skipn 8 p) h64
      else (p, h64)
  end.

Fixpoint tail4 (fuel : nat) (p : QByteArray) (h64 : Z) : QByteArray * Z :=
  match fuel with
  | O => (p, h64)
  | S fuel =>
      if 4 <=? size p then
        let h64 := Z.lxor h64 (wrap64 (readLE32 p * PRIME1)) in
        let h64 := wrap64 (wrap64 (rotl64 h64 23 * PRIME2) + PRIME3) in
        tail4 fuel (skipn 4 p) h64
      else (p, h64)
  end.

Fixpoint tail1 (p : QByteArray) (h64 : Z) : Z :=
  match p with
  | [] => h64
  | b :: p =>
      let h64 := Z.lxor h64 (wrap64 (u8 b * PRIME5)) in
      let h64 := wrap64 (rotl64 h64 11 * PRIME1) in
      tail1 p h64
  end.

(** [finalize()] *)
Definition finalize (s : t) : Z :=
  let h64 :=
    if 32 <=? m_totalLen s then
      let h64 :=
        wrap64 (wrap64 (wrap64 (rotl64 (m_v1 s) 1 + rotl64 (m_v2 s) 7)
                        + rotl64 (m_v3 s) 12) + rotl64 (m_v4 s) 18) in
      let h64 := mergeRound h64 (m_v1 s) in
      let h64 := mergeRound h64 (m_v2 s) in
      let h64 := mergeRound h64 (m_v3 s) in
      mergeRound h64 (m_v4 s)
    else wrap64 (m_seed s + PRIME5) in
  let h64 := wrap64 (h64 + m_totalLen s) in
  let p := firstn (Z.to_nat (m_bufferSize s)) (m_buffer s) in
  let '(p, h64) := tail8 (List.length p) p h64 in
  let '(p, h64) := tail4 (List.length p) p h64 in
  let h64 := tail1 p h64 in
  let h64 := Z.lxor h64 (Z.shiftr h64 33) in
  let h64 := wrap64 (h64 * PRIME2) in
  let h64 := Z.lxor h64 (Z.shiftr h64 29) in
  let h64 := wrap64 (h64 * PRIME3) in
  Z.lxor h64 (Z.shiftr h64 32).

(** [XXHash64::hash(data, length, seed)] on a fresh object. *)
Definition hash (data : QByteArray) (seed : Z) (raw : QByteArray) : Z :=
  finalize (update data (create seed raw)).

(** All chunks of a list passed to [update] one after another, as
    [HashCalculator::hashFile] does with the chunks it reads. *)
Definition updateAll (chunks : list QByteArray) (s : t) : t :=
  fold_left (fun s data => update data s) chunks s.

(** What [finalize] can see of the object: the seed, the lanes, the length
    and the waiting bytes. *)
Definition visible (s : t) : Z * (Z * Z * Z * Z) * Z * QByteArray :=
  (m_seed s, (m_v1 s, m_v2 s, m_v3 s, m_v4 s), m_totalLen s,
   firstn (Z.to_nat (m_bufferSize s)) (m_buffer s)).

(** The state between two calls: a 32-byte array with fewer than 32 bytes
    waiting, and a length that fits 64 bits. *)
Definition settled (s : t) : Prop :=
  List.length (m_buffer s) = 32%nat /\ 0 <= m_bufferSize s < 32 /\
  0 <= m_totalLen s < 2 ^ 64.

End XXHash64.

(** The same on the part of the object that [finalize] reads. *)
Module XXHashModel.
Import XXHash64.

(** The four lanes after one 32-byte block. *)
Definition laneStep (p : QByteArray) (v : Z * Z * Z * Z) : Z * Z * Z * Z :=
  let '(v1, v2, v3, v4) := v in
  (round v1 (readLE64 p), round v2 (readLE64 (skipn 8 p)),
   round v3 (readLE64 (skipn 16 p)), round v4 (readLE64 (skipn 24 p))).

(** The block loop on the lanes alone. *)
Fixpoint laneBlocks (fuel : nat) (p : QByteArray) (v : Z * Z * Z * Z)
  : QByteArray * (Z * Z * Z * Z) :=
  match fuel with
  | O => (p, v)
  | S fuel =>
      if 32 <=? size p then laneBlocks fuel (skipn 32 p) (laneStep p v)
      else (p, v)
  end.

(** What one [update] does to the visible part of the object: the waiting
    bytes and the new ones are cut into blocks from the front, and what is
    left waits. *)
Definition absorb (data : QByteArray)
  (x : Z * (Z * Z * Z * Z) * Z * QByteArray)
  : Z * (Z * Z * Z * Z) * Z * QByteArray :=
  let '(seed, v, total, waiting) := x in
  let all := waiting ++ data in
  let '(rest, v) := laneBlocks (List.length all) all v in
  (seed, v, wrap64 (total + size data), rest).

End XXHashModel.

(** ** HashCalculator: the names of the hash modes (HashCalculator.cpp) *)
Module HashCalculator.
Import TapeIO.

(** [HashCalculator::modeToString] *)
Definition modeToString (mode : HashMode) : string :=
  match mode with
  | HashNone => "none"
  | MD5 => "md5"
  | SHA1 => "sha1"
  | SHA256 => "sha256"
  | SHA512 => "sha512"
  | XXH64 => "xxh64"
  end.

(** [HashCalculator::stringToMode] *)
Definition stringToMode (str : string) : HashMode :=
  let lower := QStr.trimmed (QStr.toLower str) in
  if String.eqb lower "md5" then MD5
  else if String.eqb lower "sha1" then SHA1
  else if String.eqb lower "sha256" || String.eqb lower "sha-256" then SHA256
  else if String.eqb lower "sha512" || String.eqb lower "sha-512" then SHA512
  else if String.eqb lower "xxh64" || String.eqb lower "xxhash64" then XXH64
  else HashNone.

End HashCalculator.

(** ** TransferStats (TapeIO.cpp) *)
Module TransferStats.

(** [struct TransferStats]; [bytesPerSecond], a [double], is left out. *)
Record t := mk {
  totalFiles : Z;
  totalBytes : Z;
  completedFiles : Z;
  completedBytes : Z;
  failedFiles : Z;
  skippedFiles : Z;
  elapsedMs : Z;
  estimatedRemainingMs : Z
}.

(** [v * 100] on [qint64]; [None] when the product leaves the type, which
    the language leaves undefined. *)
Definition times100 (v : Z) : option Z :=
  let p := v * 100 in
  if (- 2 ^ 63 <=? p) && (p <? 2 ^ 63) then Some p else None.

(** [static_cast<int>(v)] of a [qint64]. *)
Definition toInt (v : Z) : Z :=
  let r := v mod 2 ^ 32 in if r <? 2 ^ 31 then r else r - 2 ^ 32.

(** [TransferStats::progressPercent]; the division by a positive count
    rounds towards zero. *)
Definition progressPercent (s : t) : option Z :=
  if totalBytes s <=? 0 then
    if 0 <? totalFiles s then
      match times100 (completedFiles s) with
      | Some p => Some (toInt (Z.quot p (totalFiles s)))
      | None => None
      end
    else Some 0
  else
    match times100 (completedBytes s) with
    | Some p => Some (toInt (Z.quot p (totalBytes s)))
    | None => None
    end.

(** What the percentage is taken of: the bytes when a total is known, the
    files otherwise. *)
Definition measured (s : t) : Z * Z :=
  if totalBytes s <=? 0 then (completedFiles s, totalFiles s)
  else (completedBytes s, totalBytes s).

End TransferStats.

(** ** A whole file on its way to tape

    What [TapeIO::writeFileToTape] sends when nothing disturbs it. *)
Module WriteModel.
Import Scsi TapeIO.

(** The header of the WRITE FILEMARKS that [TapeDevice::writeFilemark]
    issues. *)
Definition filemarkHdr (d : Scsi.Private) (count : Z) : SgIoHdr :=
  sgHeader d (cdb_writeFilemark count false false) DirNone [].

(** The chunks the write loop cuts a file into: [n] bytes each, the last
    one what is left. *)
Fixpoint chunks (fuel : nat) (n : Z) (rest : QByteArray)
    : list QByteArray :=
  match fuel with
  | O => []
  | S fuel' =>
      if isEmpty rest then []
      else firstn (Z.to_nat n) rest
           :: chunks fuel' n (skipn (Z.to_nat n) rest)
  end.

(** A transfer that is neither cancelled nor paused, with no action to
    come from outside, a disk without read faults and a block size that
    fits the command. *)
Definition undisturbed (w : IoWorld) : Prop :=
  cancelled w = false /\ paused w = false /\ pending w = []
  /\ (forall n, readFault (env w) n = false)
  /\ 0 < blockSize (options w) < 2 ^ 32.

End WriteModel.

(** ** The transfer queue (TapeIO.cpp)

    [TapeIO::processQueue], the caller of [writeFileToTape]: the queue
    of items, the counters of completed and failed files, and the signals
    the loop emits. *)
Module Queue.
Import TapeIO.

(** The signals of [processQueue].  [progressChanged] carries the
    percentage; the statistics the signals also carry are left out. *)
Inductive Signal :=
| FileStarted (item : TransferItem)
| FileCompleted (item : TransferItem)
| FileError (item : TransferItem) (message : string)
| ProgressChanged (percent : option Z)
| TransferCompleted
| RunningChanged (on : bool).

(** [TapeIO::Private] around the part the transfer loops use: the queue,
    the file counters of [stats] and [currentItemIndex]. *)
Record World := mk {
  io : IoWorld;
  queue : list TransferItem;
  totalFiles : Z;
  totalBytes : Z;
  completedFiles : Z;
  failedFiles : Z;
  currentItemIndex : Z;
  signals : list Signal
}.

Definition set_io (w : IoWorld) (q : World) : World :=
  mk w (queue q) (totalFiles q) (totalBytes q) (completedFiles q)
     (failedFiles q) (currentItemIndex q) (signals q).
Definition set_queue (l : list TransferItem) (q : World) : World :=
  mk (io q) l (totalFiles q) (totalBytes q) (completedFiles q)
     (failedFiles q) (currentItemIndex q) (signals q).
Definition set_completedFiles (n : Z) (q : World) : World :=
  mk (io q) (queue q) (totalFiles q) (totalBytes q) n (failedFiles q)
     (currentItemIndex q) (signals q).
Definition set_failedFiles (n : Z) (q : World) : World :=
  mk (io q) (queue q) (totalFiles q) (totalBytes q) (completedFiles q) n
     (currentItemIndex q) (signals q).
Definition set_currentItemIndex (n : Z) (q : World) : World :=
  mk (io q) (queue q) (totalFiles q) (totalBytes q) (completedFiles q)
     (failedFiles q) n (signals q).
Definition emit (s : Signal) (q : World) : World :=
  mk (io q) (queue q) (totalFiles q) (totalBytes q) (completedFiles q)
     (failedFiles q) (currentItemIndex q) (signals q ++ [s]).

(** [d->running = v] *)
Definition set_running (v : bool) (w : IoWorld) : IoWorld :=
  mkIo (env w) (device w) (options w) v (paused w) (cancelled w)
       (completedBytes w) (files w) (pending w) (ioLog w).

(** [d->queue[i] = item], for [i] inside the queue. *)
Definition store (i : nat) (item : TransferItem) (l : list TransferItem)
    : list TransferItem :=
  firstn i l ++ item :: skipn (S i) l.

(** [status == TransferStatus::Pending] *)
Definition isPending (st : TransferStatus) : bool :=
  match st with Pending => true | _ => false end.

(** [TapeIO::updateStatistics]: besides the fields taken from the clock,
    which are left out, it emits [progressChanged] with the percentage
    of the statistics. *)
Definition updateStatistics (q : World) : World :=
  emit (ProgressChanged
          (TransferStats.progressPercent
             (TransferStats.mk (totalFiles q) (totalBytes q)
                (completedFiles q) (completedBytes (io q)) (failedFiles q)
                0 0 0))) q.

(** The [for] loop of [TapeIO::processQueue] from index [i] on; [None]
    when it never ends.  The loop runs at most once for each item. *)
Fixpoint queueLoop (fuel i : nat) (q : World) : option World :=
  match fuel with
  | O => Some q
  | S fuel' =>
      match nth_error (queue q) i with
      | None => Some q
      | Some item =>
          if cancelled (io q) then Some q
          else
            let '(pw, io1) :=
              pauseWait (S (List.length (pending (io q)))) (io q) in
            let q1 := set_io io1 q in
            match pw with
            | None => None
            | Some _ =>
                if cancelled io1 then Some q1
                else if negb (isPending (itemStatus item)) then
                  queueLoop fuel' (S i) q1
                else
                  let started := set_status InProgress item in
                  let q2 :=
                    emit (FileStarted started)
                      (set_queue (store i started (queue q1))
                         (set_currentItemIndex (Z.of_nat i) q1)) in
                  match writeFileToTape started (io q2) with
                  | (None, _) => None
                  | (Some (success, item'), io3) =>
                      let q3 :=
                        set_queue (store i item' (queue q2))
                                  (set_io io3 q2) in
                      if success then
                        queueLoop fuel' (S i)
                          (updateStatistics
                             (emit (FileCompleted item')
                                (set_completedFiles (completedFiles q3 + 1)
                                                    q3)))
                      else
                        let q4 :=
                          emit (FileError item' (errorMessage item'))
                            (set_failedFiles (failedFiles q3 + 1) q3) in
                        if negb (continueOnError (options (io q4))) then
                          Some q4
                        else queueLoop fuel' (S i) (updateStatistics q4)
                  end
            end
      end
  end.

(** [TapeIO::processQueue] *)
Definition processQueue (q : World) : option World :=
  match queueLoop (List.length (queue q)) 0 q with
  | None => None
  | Some q' =>
      Some (emit (RunningChanged false)
              (emit TransferCompleted
                 (set_currentItemIndex (-1)
                    (set_io (set_running false (io q')) q'))))
  end.

(** No pause is on and none is to come: the wait loops end. *)
Definition calm (w : IoWorld) : Prop :=
  paused w = false /\ Forall (fun batch => ~ In DoPause batch) (pending w).

(** What one run of the queue may make of an item: an item that is not
    pending stays as it is; a pending one stays, or ends Completed, Failed
    or Cancelled. *)
Definition step (before after : TransferItem) : Prop :=
  after = before
  \/ (itemStatus before = Pending
      /\ (itemStatus after = Completed \/ itemStatus after = Failed
          \/ itemStatus after = Cancelled)).

(** What an item adds to the counters of completed and of failed files. *)
Definition outcome (before after : TransferItem) : Z * Z :=
  if isPending (itemStatus before) then
    match itemStatus after with
    | Completed => (1, 0)
    | Failed | Cancelled => (0, 1)
    | _ => (0, 0)
    end
  else (0, 0).

Fixpoint tally (before after : list TransferItem) : Z * Z :=
  match before, after with
  | b :: bs, a :: rest =>
      (fst (outcome b a) + fst (tally bs rest),
       snd (outcome b a) + snd (tally bs rest))
  | _, _ => (0, 0)
  end.

(** After an item that failed or was cancelled the rest of the queue is
    as it was. *)
Fixpoint haltsAtFailure (before after : list TransferItem) : Prop :=
  match before, after with
  | b :: bs, a :: rest =>
      (snd (outcome b a) = 1 -> rest = bs) /\ haltsAtFailure bs rest
  | _, _ => True
  end.

End Queue.

(** ** The LTFS index model

    Modelled from the spec: the value types [LtfsIndex], [LtfsDirectory],
    [LtfsFile], [LtfsExtent], [ExtendedAttribute], [LocationData] and
    [PartitionLabel] of core/LtfsIndex.h and core/LtfsTypes.h, which are not
    among the sources.  They are plain records with the fields the spec
    lists and the writer and parser use; a setter stores its argument, and
    the default-constructed values are empty text, zero, false, an invalid
    time and empty lists. *)
Module Ltfs.

(** Modelled from the spec: [PartitionLabel], the index partition and the
    data partition. *)
Inductive PartitionLabel := IndexPartition | DataPartition.

(** Modelled from the spec: [LocationData], a partition and a start
    block ([quint64]). *)
Record LocationData := mkLocation {
  partition : PartitionLabel;
  startBlock : Z
}.

(** Modelled from the spec: a default-constructed [LocationData]. *)
Definition defaultLocation : LocationData := mkLocation IndexPartition 0.

(** A [QDateTime], as the instant it denotes: invalid, or a date and time
    of day in UTC with millisecond precision.  Two [QDateTime] compare
    equal in Qt when they denote the same instant. *)
Inductive QDateTime :=
| InvalidDateTime
| UtcDateTime (year month day hour minute second msec : Z).

(** A [QUuid]: its 128 bits in the five groups of the text form. *)
Record QUuid := mkUuid {
  timeLow : Z;
  timeMid : Z;
  timeHigh : Z;
  clockSeq : Z;
  node : Z
}.

Definition nullUuid : QUuid := mkUuid 0 0 0 0 0.

(** Modelled from the spec: [ExtendedAttribute], a key and a value. *)
Record ExtendedAttribute := mkAttribute {
  key : string;
  value : string
}.

(** Modelled from the spec: [LtfsExtent]; the start block is a [quint64],
    the offsets and the count are [qint64]. *)
Record LtfsExtent := mkExtent {
  extPartition : PartitionLabel;
  extStartBlock : Z;
  fileOffset : Z;
  byteOffset : Z;
  byteCount : Z
}.

(** Modelled from the spec: a default-constructed [LtfsExtent]. *)
Definition defaultExtent : LtfsExtent := mkExtent DataPartition 0 0 0 0.

(** Modelled from the spec: [LtfsFile]; the UID is a [quint64], the length
    a [qint64]. *)
Record LtfsFile := mkFile {
  name : string;
  uid : Z;
  length : Z;
  readonly : bool;
  creationTime : QDateTime;
  changeTime : QDateTime;
  modifyTime : QDateTime;
  accessTime : QDateTime;
  backupTime : QDateTime;
  extendedAttributes : list ExtendedAttribute;
  extentInfo : list LtfsExtent
}.

(** Modelled from the spec: a default-constructed [LtfsFile]. *)
Definition defaultFile : LtfsFile :=
  mkFile "" 0 0 false InvalidDateTime InvalidDateTime InvalidDateTime
         InvalidDateTime InvalidDateTime [] [].

(** Modelled from the spec: [LtfsDirectory], a tree. *)
#[warnings="-register-all"] Inductive LtfsDirectory := mkDirectory {
  dirName : string;
  dirUid : Z;
  dirReadonly : bool;
  dirCreationTime : QDateTime;
  dirChangeTime : QDateTime;
  dirModifyTime : QDateTime;
  dirAccessTime : QDateTime;
  dirBackupTime : QDateTime;
  dirExtendedAttributes : list ExtendedAttribute;
  files : list LtfsFile;
  subdirectories : list LtfsDirectory
}.

(** Modelled from the spec: a default-constructed [LtfsDirectory]. *)
Definition defaultDirectory : LtfsDirectory :=
  mkDirectory "" 0 false InvalidDateTime InvalidDateTime InvalidDateTime
              InvalidDateTime InvalidDateTime [] [] [].

(** Modelled from the spec: [LtfsIndex]. *)
Record LtfsIndex := mkIndex {
  version : string;
  creator : string;
  volumeUuid : QUuid;
  generationNumber : Z;
  updateTime : QDateTime;
  selfLocation : LocationData;
  previousGenerationLocation : LocationData;
  allowPolicyUpdate : bool;
  highestFileUid : Z;
  rootDirectory : LtfsDirectory
}.

(** Modelled from the spec: a default-constructed [LtfsIndex]. *)
Definition defaultIndex : LtfsIndex :=
  mkIndex "" "" nullUuid 0 InvalidDateTime defaultLocation defaultLocation
          false 0 defaultDirectory.

(** *** Dates *)

Definition isLeapYear (y : Z) : bool :=
  (y mod 4 =? 0) && (negb (y mod 100 =? 0) || (y mod 400 =? 0)).

Definition daysInMonth (y m : Z) : Z :=
  match m with
  | 1 | 3 | 5 | 7 | 8 | 10 | 12 => 31
  | 4 | 6 | 9 | 11 => 30
  | 2 => if isLeapYear y then 29 else 28
  | _ => 0
  end.

(** [QDateTime::isValid] *)
Definition isValid (dt : QDateTime) : bool :=
  match dt with
  | InvalidDateTime => false
  | UtcDateTime y mo d h mi s ms =>
      negb (y =? 0) && (1 <=? mo) && (mo <=? 12)
      && (1 <=? d) && (d <=? daysInMonth y mo)
      && (0 <=? h) && (h <? 24) && (0 <=? mi) && (mi <? 60)
      && (0 <=? s) && (s <? 60) && (0 <=? ms) && (ms <? 1000)
  end.

(** *** Setters used by the parser *)

(** Modelled from the spec: [LtfsFile::setName]. *)
Definition setName (v : string) (f : LtfsFile) : LtfsFile :=
  mkFile v (uid f) (length f) (readonly f) (creationTime f) (changeTime f)
         (modifyTime f) (accessTime f) (backupTime f)
         (extendedAttributes f) (extentInfo f).

(** Modelled from the spec: [LtfsFile::setUid]. *)
Definition setUid (v : Z) (f : LtfsFile) : LtfsFile :=
  mkFile (name f) v (length f) (readonly f) (creationTime f) (changeTime f)
         (modifyTime f) (accessTime f) (backupTime f)
         (extendedAttributes f) (extentInfo f).

(** Modelled from the spec: [LtfsFile::setLength]. *)
Definition setLength (v : Z) (f : LtfsFile) : LtfsFile :=
  mkFile (name f) (uid f) v (readonly f) (creationTime f) (changeTime f)
         (modifyTime f) (accessTime f) (backupTime f)
         (extendedAttributes f) (extentInfo f).

(** Modelled from the spec: [LtfsFile::setReadonly]. *)
Definition setReadonly (v : bool) (f : LtfsFile) : LtfsFile :=
  mkFile (name f) (uid f) (length f) v (creationTime f) (changeTime f)
         (modifyTime f) (accessTime f) (backupTime f)
         (extendedAttributes f) (extentInfo f).

(** Modelled from the spec: [LtfsFile::setCreationTime]. *)
Definition setCreationTime (v : QDateTime) (f : LtfsFile) : LtfsFile :=
  mkFile (name f) (uid f) (length f) (readonly f) v (changeTime f)
         (modifyTime f) (accessTime f) (backupTime f)
         (extendedAttributes f) (extentInfo f).

(** Modelled from the spec: [LtfsFile::setChangeTime]. *)
Definition setChangeTime (v : QDateTime) (f : LtfsFile) : LtfsFile :=
  mkFile (name f) (uid f) (length f) (readonly f) (creationTime f) v
         (modifyTime f) (accessTime f) (backupTime f)
         (extendedAttributes f) (extentInfo f).

(** Modelled from the spec: [LtfsFile::setModifyTime]. *)
Definition setModifyTime (v : QDateTime) (f : LtfsFile) : LtfsFile :=
  mkFile (name f) (uid f) (length f) (readonly f) (creationTime f)
         (changeTime f) v (accessTime f) (backupTime f)
         (extendedAttributes f) (extentInfo f).

(** Modelled from the spec: [LtfsFile::setAccessTime]. *)
Definition setAccessTime (v : QDateTime) (f : LtfsFile) : LtfsFile :=
  mkFile (name f) (uid f) (length f) (readonly f) (creationTime f)
         (changeTime f) (modifyTime f) v (backupTime f)
         (extendedAttributes f) (extentInfo f).

(** Modelled from the spec: [LtfsFile::setBackupTime]. *)
Definition setBackupTime (v : QDateTime) (f : LtfsFile) : LtfsFile :=
  mkFile (name f) (uid f) (length f) (readonly f) (creationTime f)
         (changeTime f) (modifyTime f) (accessTime f) v
         (extendedAttributes f) (extentInfo f).

(** Modelled from the spec: [LtfsFile::setExtendedAttributes]. *)
Definition setExtendedAttributes (v : list ExtendedAttribute)
    (f : LtfsFile) : LtfsFile :=
  mkFile (name f) (uid f) (length f) (readonly f) (creationTime f)
         (changeTime f) (modifyTime f) (accessTime f) (backupTime f)
         v (extentInfo f).

(** Modelled from the spec: [LtfsFile::setExtentInfo]. *)
Definition setExtentInfo (v : list LtfsExtent) (f : LtfsFile) : LtfsFile :=
  mkFile (name f) (uid f) (length f) (readonly f) (creationTime f)
         (changeTime f) (modifyTime f) (accessTime f) (backupTime f)
         (extendedAttributes f) v.

(** Modelled from the spec: [LtfsDirectory::setName]. *)
Definition setDirName (v : string) (d : LtfsDirectory) : LtfsDirectory :=
  mkDirectory v (dirUid d) (dirReadonly d) (dirCreationTime d)
    (dirChangeTime d) (dirModifyTime d) (dirAccessTime d) (dirBackupTime d)
    (dirExtendedAttributes d) (files d) (subdirectories d).

(** Modelled from the spec: [LtfsDirectory::setUid]. *)
Definition setDirUid (v : Z) (d : LtfsDirectory) : LtfsDirectory :=
  mkDirectory (dirName d) v (dirReadonly d) (dirCreationTime d)
    (dirChangeTime d) (dirModifyTime d) (dirAccessTime d) (dirBackupTime d)
    (dirExtendedAttributes d) (files d) (subdirectories d).

(** Modelled from the spec: [LtfsDirectory::setReadonly]. *)
Definition setDirReadonly (v : bool) (d : LtfsDirectory) : LtfsDirectory :=
  mkDirectory (dirName d) (dirUid d) v (dirCreationTime d)
    (dirChangeTime d) (dirModifyTime d) (dirAccessTime d) (dirBackupTime d)
    (dirExtendedAttributes d) (files d) (subdirectories d).

(** Modelled from the spec: [LtfsDirectory::setCreationTime]. *)
Definition setDirCreationTime (v : QDateTime) (d : LtfsDirectory) :=
  mkDirectory (dirName d) (dirUid d) (dirReadonly d) v
    (dirChangeTime d) (dirModifyTime d) (dirAccessTime d) (dirBackupTime d)
    (dirExtendedAttributes d) (files d) (subdirectories d).

(** Modelled from the spec: [LtfsDirectory::setChangeTime]. *)
Definition setDirChangeTime (v : QDateTime) (d : LtfsDirectory) :=
  mkDirectory (dirName d) (dirUid d) (dirReadonly d) (dirCreationTime d)
    v (dirModifyTime d) (dirAccessTime d) (dirBackupTime d)
    (dirExtendedAttributes d) (files d) (subdirectories d).

(** Modelled from the spec: [LtfsDirectory::setModifyTime]. *)
Definition setDirModifyTime (v : QDateTime) (d : LtfsDirectory) :=
  mkDirectory (dirName d) (dirUid d) (dirReadonly d) (dirCreationTime d)
    (dirChangeTime d) v (dirAccessTime d) (dirBackupTime d)
    (dirExtendedAttributes d) (files d) (subdirectories d).

(** Modelled from the spec: [LtfsDirectory::setAccessTime]. *)
Definition setDirAccessTime (v : QDateTime) (d : LtfsDirectory) :=
  mkDirectory (dirName d) (dirUid d) (dirReadonly d) (dirCreationTime d)
    (dirChangeTime d) (dirModifyTime d) v (dirBackupTime d)
    (dirExtendedAttributes d) (files d) (subdirectories d).

(** Modelled from the spec: [LtfsDirectory::setBackupTime]. *)
Definition setDirBackupTime (v : QDateTime) (d : LtfsDirectory) :=
  mkDirectory (dirName d) (dirUid d) (dirReadonly d) (dirCreationTime d)
    (dirChangeTime d) (dirModifyTime d) (dirAccessTime d) v
    (dirExtendedAttributes d) (files d) (subdirectories d).

(** Modelled from the spec: [LtfsDirectory::setExtendedAttributes]. *)
Definition setDirExtendedAttributes (v : list ExtendedAttribute)
    (d : LtfsDirectory) :=
  mkDirectory (dirName d) (dirUid d) (dirReadonly d) (dirCreationTime d)
    (dirChangeTime d) (dirModifyTime d) (dirAccessTime d) (dirBackupTime d)
    v (files d) (subdirectories d).

(** Modelled from the spec: [LtfsDirectory::addFile]. *)
Definition addFile (f : LtfsFile) (d : LtfsDirectory) :=
  mkDirectory (dirName d) (dirUid d) (dirReadonly d) (dirCreationTime d)
    (dirChangeTime d) (dirModifyTime d) (dirAccessTime d) (dirBackupTime d)
    (dirExtendedAttributes d) (files d ++ [f]) (subdirectories d).

(** Modelled from the spec: [LtfsDirectory::addSubdirectory]. *)
Definition addSubdirectory (s : LtfsDirectory) (d : LtfsDirectory) :=
  mkDirectory (dirName d) (dirUid d) (dirReadonly d) (dirCreationTime d)
    (dirChangeTime d) (dirModifyTime d) (dirAccessTime d) (dirBackupTime d)
    (dirExtendedAttributes d) (files d) (subdirectories d ++ [s]).

(** Modelled from the spec: [LtfsExtent::setPartition]. *)
Definition setPartition (v : PartitionLabel) (e : LtfsExtent) : LtfsExtent :=
  mkExtent v (extStartBlock e) (fileOffset e) (byteOffset e) (byteCount e).

(** Modelled from the spec: [LtfsExtent::setStartBlock]. *)
Definition setStartBlock (v : Z) (e : LtfsExtent) : LtfsExtent :=
  mkExtent (extPartition e) v (fileOffset e) (byteOffset e) (byteCount e).

(** Modelled from the spec: [LtfsExtent::setFileOffset]. *)
Definition setFileOffset (v : Z) (e : LtfsExtent) : LtfsExtent :=
  mkExtent (extPartition e) (extStartBlock e) v (byteOffset e) (byteCount e).

(** Modelled from the spec: [LtfsExtent::setByteOffset]. *)
Definition setByteOffset (v : Z) (e : LtfsExtent) : LtfsExtent :=
  mkExtent (extPartition e) (extStartBlock e) (fileOffset e) v (byteCount e).

(** Modelled from the spec: [LtfsExtent::setByteCount]. *)
Definition setByteCount (v : Z) (e : LtfsExtent) : LtfsExtent :=
  mkExtent (extPartition e) (extStartBlock e) (fileOffset e) (byteOffset e) v.

(** Modelled from the spec: [LtfsIndex::setVersion]. *)
Definition setVersion (v : string) (i : LtfsIndex) : LtfsIndex :=
  mkIndex v (creator i) (volumeUuid i) (generationNumber i) (updateTime i)
    (selfLocation i) (previousGenerationLocation i) (allowPolicyUpdate i)
    (highestFileUid i) (rootDirectory i).

(** Modelled from the spec: [LtfsIndex::setCreator]. *)
Definition setCreator (v : string) (i : LtfsIndex) : LtfsIndex :=
  mkIndex (version i) v (volumeUuid i) (generationNumber i) (updateTime i)
    (selfLocation i) (previousGenerationLocation i) (allowPolicyUpdate i)
    (highestFileUid i) (rootDirectory i).

(** Modelled from the spec: [LtfsIndex::setVolumeUuid]. *)
Definition setVolumeUuid (v : QUuid) (i : LtfsIndex) : LtfsIndex :=
  mkIndex (version i) (creator i) v (generationNumber i) (updateTime i)
    (selfLocation i) (previousGenerationLocation i) (allowPolicyUpdate i)
    (highestFileUid i) (rootDirectory i).

(** Modelled from the spec: [LtfsIndex::setGenerationNumber]. *)
Definition setGenerationNumber (v : Z) (i : LtfsIndex) : LtfsIndex :=
  mkIndex (version i) (creator i) (volumeUuid i) v (updateTime i)
    (selfLocation i) (previousGenerationLocation i) (allowPolicyUpdate i)
    (highestFileUid i) (rootDirectory i).

(** Modelled from the spec: [LtfsIndex::setUpdateTime]. *)
Definition setUpdateTime (v : QDateTime) (i : LtfsIndex) : LtfsIndex :=
  mkIndex (version i) (creator i) (volumeUuid i) (generationNumber i) v
    (selfLocation i) (previousGenerationLocation i) (allowPolicyUpdate i)
    (highestFileUid i) (rootDirectory i).

(** Modelled from the spec: [LtfsIndex::setSelfLocation]. *)
Definition setSelfLocation (v : LocationData) (i : LtfsIndex) : LtfsIndex :=
  mkIndex (version i) (creator i) (volumeUuid i) (generationNumber i)
    (updateTime i) v (previousGenerationLocation i) (allowPolicyUpdate i)
    (highestFileUid i) (rootDirectory i).

(** Modelled from the spec: [LtfsIndex::setPreviousGenerationLocation]. *)
Definition setPreviousGenerationLocation (v : LocationData)
    (i : LtfsIndex) : LtfsIndex :=
  mkIndex (version i) (creator i) (volumeUuid i) (generationNumber i)
    (updateTime i) (selfLocation i) v (allowPolicyUpdate i)
    (highestFileUid i) (rootDirectory i).

(** Modelled from the spec: [LtfsIndex::setAllowPolicyUpdate]. *)
Definition setAllowPolicyUpdate (v : bool) (i : LtfsIndex) : LtfsIndex :=
  mkIndex (version i) (creator i) (volumeUuid i) (generationNumber i)
    (updateTime i) (selfLocation i) (previousGenerationLocation i) v
    (highestFileUid i) (rootDirectory i).

(** Modelled from the spec: [LtfsIndex::setHighestFileUid]. *)
Definition setHighestFileUid (v : Z) (i : LtfsIndex) : LtfsIndex :=
  mkIndex (version i) (creator i) (volumeUuid i) (generationNumber i)
    (updateTime i) (selfLocation i) (previousGenerationLocation i)
    (allowPolicyUpdate i) v (rootDirectory i).

(** Modelled from the spec: [LtfsIndex::setRootDirectory]. *)
Definition setRootDirectory (v : LtfsDirectory) (i : LtfsIndex) : LtfsIndex :=
  mkIndex (version i) (creator i) (volumeUuid i) (generationNumber i)
    (updateTime i) (selfLocation i) (previousGenerationLocation i)
    (allowPolicyUpdate i) (highestFileUid i) v.

End Ltfs.


(** ** The XML stream between writer and parser

    [QXmlStreamWriter] and [QXmlStreamReader] are taken at the level of
    what the reader reports: a document is the list of the tokens that
    [readNext()] returns on it, one after the other.  On a well-formed
    document the list ends in [EndDocument].  Where the reader finds the
    document not well formed (a tag that does not match, a character
    that XML does not allow, the document breaking off) it reports
    [Invalid] and stays in error; a list that stops without either
    stands for a document that breaks off there.

    A start element carries its local name ([xml.name()]) and its
    attributes ([xml.attributes()]; a namespace declaration is not one of
    them).  With auto-formatting the writer puts a line break and
    indentation in front of every nested start tag and in front of the
    end tag of an element that has child elements, which the reader
    reports as [Characters].

    Of a text handed to the writer the reader reports what the writer's
    escaping and its own handling of line ends leave of it: [escaped]
    and [lineEnds] below.  Characters are those of Latin-1, one [ascii]
    each. *)
Module Xml.

Inductive Token :=
| StartDocument
| EndDocument
| StartElement (name : string) (attributes : list (string * string))
| EndElement (name : string)
| Characters (text : string)
| Invalid.

(** Where the reader stands: in the document, behind [EndDocument], or
    in error. *)
Inductive Phase := Underway | Ended | Erred.

(** The reader: the tokens not reported yet, and where it stands. *)
Definition Reader : Type := list Token * Phase.

(** [xml.atEnd()]: the end of the document has been reported, or an
    error. *)
Definition atEnd (xml : Reader) : bool :=
  match snd xml with
  | Underway => false
  | _ => true
  end.

(** [xml.hasError()] *)
Definition hasError (xml : Reader) : bool :=
  match snd xml with
  | Erred => true
  | _ => false
  end.

(** [xml.readNext()]: the next token.  Reading where nothing is left,
    the end of the document not reported, is the error of a premature
    end; so is reading on behind the end of the document.  After an
    error every read reports [Invalid]. *)
Definition readNext (xml : Reader) : Token * Reader :=
  match xml with
  | (tok :: rest, Underway) =>
      match tok with
      | EndDocument => (EndDocument, (rest, Ended))
      | Invalid => (Invalid, (rest, Erred))
      | _ => (tok, (rest, Underway))
      end
  | (toks, _) => (Invalid, (toks, Erred))
  end.

(** The characters [QXmlStreamWriter] lets through when it escapes a
    text or an attribute value: of the characters up to 0x1F only tab,
    line feed and carriage return.  It leaves the others out, and notes
    an encoding error that [IndexWriter] does not ask for. *)
Definition writable (c : ascii) : bool :=
  let n := nat_of_ascii c in
  (n =? 9)%nat || (n =? 10)%nat || (n =? 13)%nat || (32 <=? n)%nat.

(** What the writer puts into the document for [text]: the markup
    characters and, in an attribute value, tab, line feed and carriage
    return go out as references, which the reader resolves; the
    characters that are not [writable] are gone. *)
Fixpoint escaped (text : string) : string :=
  match text with
  | EmptyString => EmptyString
  | String c rest =>
      if writable c then String c (escaped rest) else escaped rest
  end.

Definition carriageReturn : ascii := ascii_of_nat 13.
Definition lineFeed : ascii := ascii_of_nat 10.

(** Character data as [QXmlStreamReader] reports it: a carriage return
    together with a line feed that follows it, and a carriage return on
    its own, are reported as one line feed. *)
Fixpoint lineEnds (text : string) : string :=
  match text with
  | EmptyString => EmptyString
  | String c rest =>
      if Ascii.eqb c carriageReturn then
        String lineFeed
               (match rest with
                | String c' rest' =>
                    if Ascii.eqb c' lineFeed then lineEnds rest'
                    else lineEnds rest
                | EmptyString => EmptyString
                end)
      else String c (lineEnds rest)
  end.

(** What the reader reports for the character data the writer wrote for
    [text]. *)
Definition received (text : string) : string := lineEnds (escaped text).

Fixpoint spaces (n : nat) : string :=
  match n with
  | O => EmptyString
  | S k => String " " (spaces k)
  end.

(** The line break and indentation of auto-formatting at nesting [depth]
    ([setAutoFormattingIndent(2)]). *)
Definition indent (formatted : bool) (depth : nat) : list Token :=
  if formatted
  then [Characters (String (ascii_of_nat 10) (spaces (2 * depth)))]
  else [].

Definition isEmptyText (s : string) : bool :=
  match s with EmptyString => true | _ => false end.

(** [xml.writeTextElement(name, text)] at nesting [depth]: no character
    data is reported where nothing of the text is written. *)
Definition writeTextElement (formatted : bool) (depth : nat)
    (name text : string) : list Token :=
  indent formatted depth
  ++ [StartElement name []]
  ++ (if isEmptyText (received text) then []
      else [Characters (received text)])
  ++ [EndElement name].

(** [xml.attributes().value(name).toString()] *)
Fixpoint attributeValue (name : string) (attrs : list (string * string))
    : string :=
  match attrs with
  | [] => EmptyString
  | (n, v) :: rest => if String.eqb n name then v
                      else attributeValue name rest
  end.

(** [xml.readElementText(QXmlStreamReader::SkipChildElements)] with the
    reader on a start element: the character data up to the matching end
    element, child elements skipped with [skipCurrentElement]
    ([skipping] counts the open child elements).  An error ends it with
    the text read so far; the end of the document is read over, and the
    read behind it is an error. *)
Fixpoint readText (skipping : nat) (acc : string) (toks : list Token)
    : string * Reader :=
  match toks with
  | [] => (acc, ([], Erred))
  | tok :: rest =>
      match tok, skipping with
      | Invalid, _ => (acc, (rest, Erred))
      | EndDocument, _ => (acc, (rest, Erred))
      | Characters t, O => readText O (acc ++ t) rest
      | EndElement _, O => (acc, (rest, Underway))
      | EndElement _, S k => readText k acc rest
      | StartElement _ _, _ => readText (S skipping) acc rest
      | _, _ => readText skipping acc rest
      end
  end.

Definition readElementText (xml : Reader) : string * Reader :=
  match snd xml with
  | Underway => readText O EmptyString (fst xml)
  | _ => (EmptyString, xml)
  end.

End Xml.

(** ** IndexWriter.cpp *)
Module IndexWriter.
Import Ltfs Xml.

(** [IndexWriter::formatPartition] *)
Definition formatPartition (p : PartitionLabel) : string :=
  match p with
  | IndexPartition => "a"
  | DataPartition => "b"
  end.

(** [IndexWriter::formatBoolean] *)
Definition formatBoolean (v : bool) : string :=
  if v then "true" else "false".

(** [utc.toString("yyyy-MM-ddTHH:mm:ss")]: the year in four digits (more
    when it does not fit), the other fields in two. *)
Definition formatYear (y : Z) : string :=
  if (0 <=? y) && (y <=? 9999) then QText.padded 10 4 y else QStr.number y.

(** [IndexWriter::formatTimestamp]; [now] is
    [QDateTime::currentDateTimeUtc()], a valid time. *)
Definition formatTimestamp (now dt : QDateTime) : string :=
  match (if isValid dt then dt else now) with
  | InvalidDateTime => EmptyString
  | UtcDateTime y mo d h mi s ms =>
      (formatYear y ++ "-" ++ QText.padded 10 2 mo ++ "-"
       ++ QText.padded 10 2 d ++ "T" ++ QText.padded 10 2 h ++ ":"
       ++ QText.padded 10 2 mi ++ ":" ++ QText.padded 10 2 s
       ++ (if (0 <? ms)%Z then "." ++ QText.padded 10 3 ms else "")
       ++ "Z")%string
  end.

(** [uuid.toString(QUuid::WithoutBraces)] *)
Definition uuidToString (u : QUuid) : string :=
  (QText.padded 16 8 (timeLow u) ++ "-" ++ QText.padded 16 4 (timeMid u)
   ++ "-" ++ QText.padded 16 4 (timeHigh u) ++ "-"
   ++ QText.padded 16 4 (clockSeq u) ++ "-"
   ++ QText.padded 16 12 (node u))%string.

(** [IndexWriter::writeLocation] *)
Definition writeLocation (fmt : bool) (depth : nat) (elementName : string)
    (location : LocationData) : list Token :=
  indent fmt depth ++ [StartElement elementName []]
  ++ writeTextElement fmt (S depth) "partition"
       (formatPartition (partition location))
  ++ writeTextElement fmt (S depth) "startblock"
       (QStr.number (startBlock location))
  ++ indent fmt depth ++ [EndElement elementName].

(** [IndexWriter::writeExtendedAttribute] *)
Definition writeExtendedAttribute (fmt : bool) (depth : nat)
    (attr : ExtendedAttribute) : list Token :=
  indent fmt depth ++ [StartElement "extendedattribute" []]
  ++ writeTextElement fmt (S depth) "key" (key attr)
  ++ writeTextElement fmt (S depth) "value" (value attr)
  ++ indent fmt depth ++ [EndElement "extendedattribute"].

(** [IndexWriter::writeExtent] *)
Definition writeExtent (fmt : bool) (depth : nat) (extent : LtfsExtent)
    : list Token :=
  indent fmt depth ++ [StartElement "extent" []]
  ++ writeTextElement fmt (S depth) "partition"
       (formatPartition (extPartition extent))
  ++ writeTextElement fmt (S depth) "startblock"
       (QStr.number (extStartBlock extent))
  ++ writeTextElement fmt (S depth) "fileoffset"
       (QStr.number (fileOffset extent))
  ++ writeTextElement fmt (S depth) "byteoffset"
       (QStr.number (byteOffset extent))
  ++ writeTextElement fmt (S depth) "bytecount"
       (QStr.number (byteCount extent))
  ++ indent fmt depth ++ [EndElement "extent"].

(** [IndexWriter::writeFile(QXmlStreamWriter &, const LtfsFile &)] *)
Definition writeFile (fmt : bool) (now : QDateTime) (depth : nat)
    (file : LtfsFile) : list Token :=
  indent fmt depth ++ [StartElement "file" []]
  ++ writeTextElement fmt (S depth) "name" (name file)
  ++ (if 0 <? uid file
      then writeTextElement fmt (S depth) "uid" (QStr.number (uid file))
      else [])
  ++ writeTextElement fmt (S depth) "length" (QStr.number (length file))
  ++ writeTextElement fmt (S depth) "readonly"
       (formatBoolean (readonly file))
  ++ writeTextElement fmt (S depth) "creationtime"
       (formatTimestamp now (creationTime file))
  ++ writeTextElement fmt (S depth) "changetime"
       (formatTimestamp now (changeTime file))
  ++ writeTextElement fmt (S depth) "modifytime"
       (formatTimestamp now (modifyTime file))
  ++ writeTextElement fmt (S depth) "accesstime"
       (formatTimestamp now (accessTime file))
  ++ (if isValid (backupTime file)
      then writeTextElement fmt (S depth) "backuptime"
             (formatTimestamp now (backupTime file))
      else [])
  ++ flat_map (writeExtendedAttribute fmt (S depth))
              (extendedAttributes file)
  ++ (match extentInfo file with
      | [] => []
      | extents =>
          indent fmt (S depth) ++ [StartElement "extentinfo" []]
          ++ flat_map (writeExtent fmt (S (S depth))) extents
          ++ indent fmt (S depth) ++ [EndElement "extentinfo"]
      end)
  ++ indent fmt depth ++ [EndElement "file"].

(** [IndexWriter::writeDirectory] *)
Fixpoint writeDirectory (fmt : bool) (now : QDateTime) (depth : nat)
    (directory : LtfsDirectory) : list Token :=
  indent fmt depth ++ [StartElement "directory" []]
  ++ writeTextElement fmt (S depth) "name" (dirName directory)
  ++ (if 0 <? dirUid directory
      then writeTextElement fmt (S depth) "uid"
             (QStr.number (dirUid directory))
      else [])
  ++ writeTextElement fmt (S depth) "readonly"
       (formatBoolean (dirReadonly directory))
  ++ writeTextElement fmt (S depth) "creationtime"
       (formatTimestamp now (dirCreationTime directory))
  ++ writeTextElement fmt (S depth) "changetime"
       (formatTimestamp now (dirChangeTime directory))
  ++ writeTextElement fmt (S depth) "modifytime"
       (formatTimestamp now (dirModifyTime directory))
  ++ writeTextElement fmt (S depth) "accesstime"
       (formatTimestamp now (dirAccessTime directory))
  ++ (if isValid (dirBackupTime directory)
      then writeTextElement fmt (S depth) "backuptime"
             (formatTimestamp now (dirBackupTime directory))
      else [])
  ++ flat_map (writeExtendedAttribute fmt (S depth))
              (dirExtendedAttributes directory)
  ++ flat_map (writeFile fmt now (S depth)) (files directory)
  ++ flat_map (writeDirectory fmt now (S depth)) (subdirectories directory)
  ++ indent fmt depth ++ [EndElement "directory"].

(** [IndexWriter::writeIndex]; the root element carries the version
    attribute. *)
Definition writeIndex (fmt : bool) (now : QDateTime) (index : LtfsIndex)
    : list Token :=
  [StartElement "ltfsindex"
     [("version"%string,
       escaped (if isEmptyText (version index) then "2.4.0"%string
                else version index))]]
  ++ writeTextElement fmt 1 "creator" (creator index)
  ++ writeTextElement fmt 1 "volumeuuid" (uuidToString (volumeUuid index))
  ++ writeTextElement fmt 1 "generationnumber"
       (QStr.number (generationNumber index))
  ++ writeTextElement fmt 1 "updatetime"
       (formatTimestamp now (updateTime index))
  ++ writeLocation fmt 1 "location" (selfLocation index)
  ++ (if 0 <? startBlock (previousGenerationLocation index)
      then writeLocation fmt 1 "previousgenerationlocation"
             (previousGenerationLocation index)
      else [])
  ++ writeTextElement fmt 1 "allowpolicyupdate"
       (formatBoolean (allowPolicyUpdate index))
  ++ writeTextElement fmt 1 "highestfileuid"
       (QStr.number (highestFileUid index))
  ++ writeDirectory fmt now 1 (rootDirectory index)
  ++ indent fmt 0 ++ [EndElement "ltfsindex"].

(** [IndexWriter::write(const LtfsIndex &)]: the document as the reader
    will see it. *)
Definition write (fmt : bool) (now : QDateTime) (index : LtfsIndex)
    : list Token :=
  [StartDocument] ++ writeIndex fmt now index ++ [EndDocument].

End IndexWriter.

(** ** IndexParser.cpp *)
Module IndexParser.
Import Ltfs Xml.

(** The loop every parsing function of [IndexParser] is built on:
    [while (!xml.atEnd() && !xml.hasError())], read the next token, return
    on the end element that [closes] the element being parsed, hand a
    start element to [handle], pass over anything else.  One unit of
    [fuel] per round; a round reads a token or ends in error.  [None]
    when the fuel runs out. *)
Fixpoint elementLoop {A : Type} (closes : string -> bool) (finish : A -> A)
    (handle : nat -> string -> list (string * string) -> Reader -> A ->
              option (Reader * A))
    (fuel : nat) (xml : Reader) (acc : A) : option (Reader * A) :=
  match fuel with
  | O => None
  | S fuel' =>
      if atEnd xml || hasError xml then Some (xml, acc)
      else
        match readNext xml with
        | (EndElement n, xml1) =>
            if closes n then Some (xml1, finish acc)
            else elementLoop closes finish handle fuel' xml1 acc
        | (StartElement n attrs, xml1) =>
            match handle fuel' n attrs xml1 acc with
            | Some (xml', acc') =>
                elementLoop closes finish handle fuel' xml' acc'
            | None => None
            end
        | (_, xml1) => elementLoop closes finish handle fuel' xml1 acc
        end
  end.

(** [f(readElementText(xml))] stored by [set]. *)
Definition textField {A : Type} (set : string -> A -> A) (xml : Reader)
    (acc : A) : option (Reader * A) :=
  let '(text, xml') := readElementText xml in Some (xml', set text acc).

(** [IndexParser::parsePartition] *)
Definition parsePartition (text : string) : PartitionLabel :=
  let lower := QStr.trimmed (QStr.toLower text) in
  if String.eqb lower "a" || String.eqb lower "0" then IndexPartition
  else if String.eqb lower "b" || String.eqb lower "1" then DataPartition
  else DataPartition.

(** [text.toLower() == QLatin1String("true")] *)
Definition parseBoolean (text : string) : bool :=
  String.eqb (QStr.toLower text) "true".

(** The date and time of a text of the form [yyyy-MM-ddTHH:mm:ss] or
    [yyyy-MM-ddTHH:mm:ss.zzz], if it is one and denotes a valid time. *)
Definition civilTime (s : string) : option QDateTime :=
  match QText.digits 10 4 0 s with
  | None => None
  | Some (y, s1) =>
  match QText.expect "-" s1 with None => None | Some s2 =>
  match QText.digits 10 2 0 s2 with None => None | Some (mo, s3) =>
  match QText.expect "-" s3 with None => None | Some s4 =>
  match QText.digits 10 2 0 s4 with None => None | Some (d, s5) =>
  match QText.expect "T" s5 with None => None | Some s6 =>
  match QText.digits 10 2 0 s6 with None => None | Some (h, s7) =>
  match QText.expect ":" s7 with None => None | Some s8 =>
  match QText.digits 10 2 0 s8 with None => None | Some (mi, s9) =>
  match QText.expect ":" s9 with None => None | Some s10 =>
  match QText.digits 10 2 0 s10 with None => None | Some (sec, s11) =>
  let finish ms rest :=
    if isEmptyText rest && isValid (UtcDateTime y mo d h mi sec ms)
    then Some (UtcDateTime y mo d h mi sec ms) else None in
  match s11 with
  | EmptyString => finish 0 s11
  | _ =>
      match QText.expect "." s11 with None => None | Some s12 =>
      match QText.digits 10 3 0 s12 with None => None | Some (ms, s13) =>
      finish ms s13
      end end
  end
  end end end end end end end end end end end.

(** [IndexParser::parseTimestamp].  The two ISO attempts are modelled on
    texts that end in [Z], which they read as UTC; the two attempts with a
    format string read the text without its [Z], as UTC.  On a text with
    [Z] all four read the same fields, so one reading stands for them.
    Texts in local time or with a UTC offset, which only the ISO attempts
    tell apart, are outside the model.  The fallback is the current time
    [now]. *)
Definition parseTimestamp (now : QDateTime) (text : string) : QDateTime :=
  let modified := if QStr.endsWith "Z" text then QStr.chop 1 text else text in
  match civilTime modified with
  | Some dt => dt
  | None => now
  end.

(** [QUuid::fromString] on the text form without braces; the null UUID
    for any other text. *)
Definition uuidFromString (text : string) : QUuid :=
  match QText.digits 16 8 0 text with None => nullUuid | Some (a, s1) =>
  match QText.expect "-" s1 with None => nullUuid | Some s2 =>
  match QText.digits 16 4 0 s2 with None => nullUuid | Some (b, s3) =>
  match QText.expect "-" s3 with None => nullUuid | Some s4 =>
  match QText.digits 16 4 0 s4 with None => nullUuid | Some (c, s5) =>
  match QText.expect "-" s5 with None => nullUuid | Some s6 =>
  match QText.digits 16 4 0 s6 with None => nullUuid | Some (d, s7) =>
  match QText.expect "-" s7 with None => nullUuid | Some s8 =>
  match QText.digits 16 12 0 s8 with None => nullUuid | Some (e, s9) =>
  if isEmptyText s9 then mkUuid a b c d e else nullUuid
  end end end end end end end end end.

(** [IndexParser::parseExtent]: what it does on a start element, and the
    function. *)
Definition extentElement (_ : nat) (name : string)
    (_ : list (string * string)) (xml : Reader) (extent : LtfsExtent)
    : option (Reader * LtfsExtent) :=
  if String.eqb name "partition" then
    textField (fun t => setPartition (parsePartition t)) xml extent
  else if String.eqb name "startblock" then
    textField (fun t => setStartBlock (QStr.toULongLong t)) xml extent
  else if String.eqb name "fileoffset" then
    textField (fun t => setFileOffset (QStr.toLongLong t)) xml extent
  else if String.eqb name "byteoffset" then
    textField (fun t => setByteOffset (QStr.toLongLong t)) xml extent
  else if String.eqb name "bytecount" then
    textField (fun t => setByteCount (QStr.toLongLong t)) xml extent
  else Some (xml, extent).

Definition parseExtent : nat -> Reader -> LtfsExtent ->
                         option (Reader * LtfsExtent) :=
  elementLoop (String.eqb "extent") (fun e => e) extentElement.

(** [IndexParser::parseExtendedAttribute] *)
Definition attributeElement (_ : nat) (name : string)
    (_ : list (string * string)) (xml : Reader) (attr : ExtendedAttribute)
    : option (Reader * ExtendedAttribute) :=
  if String.eqb name "key" then
    textField (fun t a => mkAttribute t (value a)) xml attr
  else if String.eqb name "value" then
    textField (fun t a => mkAttribute (key a) t) xml attr
  else Some (xml, attr).

Definition parseExtendedAttribute : nat -> Reader -> ExtendedAttribute ->
                                    option (Reader * ExtendedAttribute) :=
  elementLoop (String.eqb "extendedattribute") (fun a => a) attributeElement.

(** [IndexParser::parseLocation] *)
Definition locationElement (_ : nat) (name : string)
    (_ : list (string * string)) (xml : Reader) (location : LocationData)
    : option (Reader * LocationData) :=
  if String.eqb name "partition" then
    textField (fun t l => mkLocation (parsePartition t) (startBlock l))
              xml location
  else if String.eqb name "startblock" then
    textField (fun t l => mkLocation (partition l) (QStr.toULongLong t))
              xml location
  else Some (xml, location).

Definition closesLocation (n : string) : bool :=
  String.eqb n "location" || String.eqb n "previousgenerationlocation".

Definition parseLocation : nat -> Reader -> LocationData ->
                           option (Reader * LocationData) :=
  elementLoop closesLocation (fun l => l) locationElement.

(** The result of a parsing function called on a fresh [initial] value,
    taken up by [store]. *)
Definition nested {A B : Type}
    (parser : nat -> Reader -> B -> option (Reader * B)) (fuel : nat)
    (xml : Reader) (initial : B) (store : B -> A -> A) (acc : A)
    : option (Reader * A) :=
  match parser fuel xml initial with
  | Some (xml', v) => Some (xml', store v acc)
  | None => None
  end.

(** [IndexParser::parseFile]; the loop works on the file together with the
    local list [extents], stored into the file at the end tag. *)
Definition fileElement (now : QDateTime) (fuel : nat) (name : string)
    (_ : list (string * string)) (xml : Reader)
    (fe : LtfsFile * list LtfsExtent)
    : option (Reader * (LtfsFile * list LtfsExtent)) :=
  let on (set : string -> LtfsFile -> LtfsFile) :=
    textField (fun t fe => (set t (fst fe), snd fe)) xml fe in
  if String.eqb name "name" then on setName
  else if String.eqb name "readonly" then
    on (fun t => setReadonly (parseBoolean t))
  else if String.eqb name "creationtime" then
    on (fun t => setCreationTime (parseTimestamp now t))
  else if String.eqb name "changetime" then
    on (fun t => setChangeTime (parseTimestamp now t))
  else if String.eqb name "modifytime" then
    on (fun t => setModifyTime (parseTimestamp now t))
  else if String.eqb name "accesstime" then
    on (fun t => setAccessTime (parseTimestamp now t))
  else if String.eqb name "backuptime" then
    on (fun t => setBackupTime (parseTimestamp now t))
  else if String.eqb name "length" then
    on (fun t => setLength (QStr.toLongLong t))
  else if String.eqb name "uid" then
    on (fun t => setUid (QStr.toULongLong t))
  else if String.eqb name "extentinfo" then Some (xml, fe)
  else if String.eqb name "extent" then
    nested parseExtent fuel xml defaultExtent
      (fun extent fe => (fst fe, snd fe ++ [extent])) fe
  else if String.eqb name "extendedattribute" then
    nested parseExtendedAttribute fuel xml (mkAttribute "" "")
      (fun attr fe =>
         (setExtendedAttributes (extendedAttributes (fst fe) ++ [attr])
                                (fst fe),
          snd fe)) fe
  else Some (xml, fe).

Definition fileDone (fe : LtfsFile * list LtfsExtent)
    : LtfsFile * list LtfsExtent :=
  (setExtentInfo (snd fe) (fst fe), snd fe).

Definition parseFile (now : QDateTime) (fuel : nat) (xml : Reader)
    (file : LtfsFile) : option (Reader * LtfsFile) :=
  match
    elementLoop (String.eqb "file") fileDone (fileElement now) fuel xml
                (file, [])
  with
  | Some (xml', fe) => Some (xml', fst fe)
  | None => None
  end.

(** [IndexParser::parseDirectory]; [parseSub] is the function itself,
    called on a subdirectory. *)
Definition directoryElement (now : QDateTime)
    (parseSub : nat -> Reader -> LtfsDirectory ->
                option (Reader * LtfsDirectory))
    (fuel : nat) (name : string) (_ : list (string * string))
    (xml : Reader) (d : LtfsDirectory) : option (Reader * LtfsDirectory) :=
  if String.eqb name "name" then textField setDirName xml d
  else if String.eqb name "readonly" then
    textField (fun t => setDirReadonly (parseBoolean t)) xml d
  else if String.eqb name "creationtime" then
    textField (fun t => setDirCreationTime (parseTimestamp now t)) xml d
  else if String.eqb name "changetime" then
    textField (fun t => setDirChangeTime (parseTimestamp now t)) xml d
  else if String.eqb name "modifytime" then
    textField (fun t => setDirModifyTime (parseTimestamp now t)) xml d
  else if String.eqb name "accesstime" then
    textField (fun t => setDirAccessTime (parseTimestamp now t)) xml d
  else if String.eqb name "backuptime" then
    textField (fun t => setDirBackupTime (parseTimestamp now t)) xml d
  else if String.eqb name "uid" then
    textField (fun t => setDirUid (QStr.toULongLong t)) xml d
  else if String.eqb name "file" then
    nested (parseFile now) fuel xml defaultFile addFile d
  else if String.eqb name "directory" then
    nested parseSub fuel xml defaultDirectory addSubdirectory d
  else if String.eqb name "extendedattribute" then
    nested parseExtendedAttribute fuel xml (mkAttribute "" "")
      (fun attr d =>
         setDirExtendedAttributes (dirExtendedAttributes d ++ [attr]) d) d
  else Some (xml, d).

(** [nest] bounds the nesting of the directories still to be entered. *)
Fixpoint parseDirectory (now : QDateTime) (nest : nat)
    : nat -> Reader -> LtfsDirectory -> option (Reader * LtfsDirectory) :=
  match nest with
  | O => fun _ _ _ => None
  | S nest' =>
      elementLoop (String.eqb "directory") (fun d => d)
        (directoryElement now (parseDirectory now nest'))
  end.

(** [IndexParser::parseIndex] *)
Definition indexElement (now : QDateTime) (nest : nat) (fuel : nat)
    (name : string) (_ : list (string * string)) (xml : Reader)
    (i : LtfsIndex) : option (Reader * LtfsIndex) :=
  if String.eqb name "creator" then textField setCreator xml i
  else if String.eqb name "volumeuuid" then
    textField (fun t => setVolumeUuid (uuidFromString t)) xml i
  else if String.eqb name "generationnumber" then
    textField (fun t => setGenerationNumber (QStr.toULongLong t)) xml i
  else if String.eqb name "updatetime" then
    textField (fun t => setUpdateTime (parseTimestamp now t)) xml i
  else if String.eqb name "location" then
    nested parseLocation fuel xml defaultLocation setSelfLocation i
  else if String.eqb name "previousgenerationlocation" then
    nested parseLocation fuel xml defaultLocation
           setPreviousGenerationLocation i
  else if String.eqb name "allowpolicyupdate" then
    textField (fun t => setAllowPolicyUpdate (parseBoolean t)) xml i
  else if String.eqb name "highestfileuid" then
    textField (fun t => setHighestFileUid (QStr.toULongLong t)) xml i
  else if String.eqb name "directory" then
    nested (parseDirectory now nest) fuel xml defaultDirectory
           setRootDirectory i
  else Some (xml, i).

Definition parseIndex (now : QDateTime) (nest : nat)
    : nat -> Reader -> LtfsIndex -> option (Reader * LtfsIndex) :=
  elementLoop (String.eqb "ltfsindex") (fun i => i) (indexElement now nest).

(** What [IndexParser::parse] returns: the index, or a null pointer when
    the reader reports an error.  [OutOfFuel] is the model running out of
    rounds, which the bound in [parse] rules out. *)
Inductive ParseResult :=
| Parsed (index : LtfsIndex)
| NullPointer
| OutOfFuel.

(** [IndexParser::parse]: what its loop does on a start element, and the
    function.  Every round of every loop reads a token or ends in error,
    so two rounds more than there are tokens are enough, and directories
    nest no deeper than there are tokens. *)
Definition documentElement (now : QDateTime) (bound : nat) (fuel : nat)
    (name : string) (attrs : list (string * string)) (xml : Reader)
    (index : LtfsIndex) : option (Reader * LtfsIndex) :=
  if String.eqb name "ltfsindex" then
    parseIndex now bound fuel xml
      (setVersion (attributeValue "version" attrs) index)
  else Some (xml, index).

Definition parse (now : QDateTime) (xmlData : list Token) : ParseResult :=
  let bound := S (S (List.length xmlData)) in
  match
    elementLoop (fun _ => false) (fun i => i) (documentElement now bound)
                bound (xmlData, Underway) defaultIndex
  with
  | Some (xml, index) => if hasError xml then NullPointer else Parsed index
  | None => OutOfFuel
  end.

End IndexParser.

(** ** Indexes the XML form can carry

    What a value must satisfy to come back from the XML form unchanged:
    numbers within their C++ types, times that are valid with a
    four-digit year, a UUID of 128 bits, texts made of characters that
    the writer lets through and the reader reports as they are. *)
Module WellFormed.
Import Ltfs Xml.

Definition inU64 (v : Z) : bool := (0 <=? v) && (v <? 2 ^ 64).
Definition inI64 (v : Z) : bool := (- 2 ^ 63 <=? v) && (v <? 2 ^ 63).

(** A valid time in the years 1 to 9999. *)
Definition wfTime (dt : QDateTime) : bool :=
  match dt with
  | InvalidDateTime => false
  | UtcDateTime y _ _ _ _ _ _ => isValid dt && (1 <=? y) && (y <=? 9999)
  end.

(** A time that may be unset. *)
Definition wfOptTime (dt : QDateTime) : bool :=
  match dt with
  | InvalidDateTime => true
  | _ => wfTime dt
  end.

Definition wfUuid (u : QUuid) : bool :=
  (0 <=? timeLow u) && (timeLow u <? 2 ^ 32)
  && (0 <=? timeMid u) && (timeMid u <? 2 ^ 16)
  && (0 <=? timeHigh u) && (timeHigh u <? 2 ^ 16)
  && (0 <=? clockSeq u) && (clockSeq u <? 2 ^ 16)
  && (0 <=? node u) && (node u <? 2 ^ 48).

Definition wfExtent (e : LtfsExtent) : bool :=
  inU64 (extStartBlock e) && inI64 (fileOffset e) && inI64 (byteOffset e)
  && inI64 (byteCount e).

(** A character that character data carries: tab, line feed, or one from
    0x20 on.  A carriage return comes back as a line feed, and the other
    characters below 0x20 are not written. *)
Definition plainChar (c : ascii) : bool :=
  let n := nat_of_ascii c in
  (n =? 9)%nat || (n =? 10)%nat || (32 <=? n)%nat.

(** A text that the text of an element carries. *)
Fixpoint wfText (s : string) : bool :=
  match s with
  | EmptyString => true
  | String c rest => plainChar c && wfText rest
  end.

(** A text that an attribute value carries: the carriage return as
    well, which is written as a reference. *)
Fixpoint wfAttributeValue (s : string) : bool :=
  match s with
  | EmptyString => true
  | String c rest => writable c && wfAttributeValue rest
  end.

Definition wfExtendedAttribute (a : ExtendedAttribute) : bool :=
  wfText (key a) && wfText (value a).

Definition wfFile (f : LtfsFile) : bool :=
  wfText (name f)
  && inU64 (uid f) && inI64 (length f)
  && wfTime (creationTime f) && wfTime (changeTime f)
  && wfTime (modifyTime f) && wfTime (accessTime f)
  && wfOptTime (backupTime f)
  && forallb wfExtendedAttribute (extendedAttributes f)
  && forallb wfExtent (extentInfo f).

Fixpoint wfDirectory (d : LtfsDirectory) : bool :=
  wfText (dirName d)
  && inU64 (dirUid d)
  && wfTime (dirCreationTime d) && wfTime (dirChangeTime d)
  && wfTime (dirModifyTime d) && wfTime (dirAccessTime d)
  && wfOptTime (dirBackupTime d)
  && forallb wfExtendedAttribute (dirExtendedAttributes d)
  && forallb wfFile (files d)
  && forallb wfDirectory (subdirectories d).

(** A previous-generation location is written only with a start block
    above zero; an unset one is the default-constructed value. *)
Definition wfPrevious (l : LocationData) : bool :=
  match l with
  | mkLocation IndexPartition 0 => true
  | mkLocation _ b => (0 <? b) && inU64 b
  end.

Definition wellFormed (i : LtfsIndex) : bool :=
  negb (isEmptyText (version i))
  && wfAttributeValue (version i)
  && wfText (creator i)
  && wfUuid (volumeUuid i)
  && inU64 (generationNumber i)
  && wfTime (updateTime i)
  && inU64 (startBlock (selfLocation i))
  && wfPrevious (previousGenerationLocation i)
  && inU64 (highestFileUid i)
  && wfDirectory (rootDirectory i).

(** How deep the directories below [d] nest, [d] included. *)
Fixpoint nesting (d : LtfsDirectory) : nat :=
  S (list_max (map nesting (subdirectories d))).

(** One directory holding two files, one of them with two extents: the
    directory is the root directory, or the only entry of the root. *)
Definition twoFiles (d : LtfsDirectory) : bool :=
  match files d, subdirectories d with
  | [f; g], [] =>
      ((List.length (extentInfo f) =? 2)%nat
       || (List.length (extentInfo g) =? 2)%nat)
  | _, _ => false
  end.

Definition roundTripShape (i : LtfsIndex) : bool :=
  twoFiles (rootDirectory i)
  || match files (rootDirectory i), subdirectories (rootDirectory i) with
     | [], [d] => twoFiles d
     | _, _ => false
     end.

End WellFormed.

(** ** Progress of a parsing function over a token list *)
Module Progress.
Import Ltfs Xml IndexParser.

(** Called on [toks] with [acc], the parsing function returns [r] with no
    more tokens left than it was given, whenever it has more rounds than
    there are tokens. *)
Definition returns {A : Type}
    (parser : nat -> Reader -> A -> option (Reader * A))
    (toks : list Token) (acc : A) (r : Reader * A) : Prop :=
  (List.length (fst (fst r)) <= List.length toks)%nat
  /\ forall fuel, (List.length toks < fuel)%nat ->
     parser fuel (toks, Underway) acc = Some r.

(** From [toks] with [acc], the function comes to [toks'] with [acc']. *)
Definition runs {A : Type}
    (parser : nat -> Reader -> A -> option (Reader * A))
    (toks : list Token) (acc : A) (toks' : list Token) (acc' : A) : Prop :=
  (List.length toks' <= List.length toks)%nat
  /\ forall fuel, (List.length toks < fuel)%nat ->
     exists fuel', (List.length toks' < fuel')%nat
       /\ parser fuel (toks, Underway) acc
          = parser fuel' (toks', Underway) acc'.

End Progress.

(** ** Parsing functions that come to an end *)
Module Termination.
Import Xml.

(** The reader comes to the end of the document before it reports any
    error: there is an [EndDocument], and no [Invalid] in front of it. *)
Fixpoint endsCleanly (toks : list Token) : bool :=
  match toks with
  | [] => false
  | EndDocument :: _ => true
  | Invalid :: _ => false
  | _ :: rest => endsCleanly rest
  end.

(** The rest of a well-formed document, read from inside [depth] open
    elements: every end element closes an open element, the end of the
    document comes with no element open, and nothing before it is
    [Invalid]. *)
Fixpoint closesAll (depth : nat) (toks : list Token) : bool :=
  match toks with
  | [] => false
  | EndDocument :: _ => (depth =? 0)%nat
  | Invalid :: _ => false
  | StartElement _ _ :: rest => closesAll (S depth) rest
  | EndElement _ :: rest =>
      match depth with
      | O => false
      | S d => closesAll d rest
      end
  | _ :: rest => closesAll depth rest
  end.

(** What the reader [xml'] that a parsing function leaves says about the
    tokens [toks] it was given, taken as read from inside [low] open
    elements or more.  No more tokens are left than were given.  A
    reader still in the document has passed neither the end of the
    document nor an error, and is left in the rest of a well-formed
    document if it was given one; a reader at the end has come there
    with no error; a reader in error was not given the rest of a
    well-formed document. *)
Definition accounts (low : nat) (toks : list Token) (xml' : Reader)
    : Prop :=
  (List.length (fst xml') <= List.length toks)%nat
  /\ match snd xml' with
     | Underway =>
         endsCleanly (fst xml') = endsCleanly toks
         /\ forall d, (low <= d)%nat -> closesAll d toks = true ->
            exists d', closesAll d' (fst xml') = true
     | Ended => endsCleanly toks = true
     | Erred => forall d, (low <= d)%nat -> closesAll d toks = false
     end.

(** On fewer than [n] tokens behind a start element, and with two rounds
    more than there are tokens, the parsing function returns, and the
    reader it leaves accounts for the tokens. *)
Definition ends {A : Type}
    (parser : nat -> Reader -> A -> option (Reader * A)) (n : nat) : Prop :=
  forall fuel toks acc,
    (List.length toks + 1 < fuel)%nat -> (List.length toks < n)%nat ->
    exists xml' acc',
      parser fuel (toks, Underway) acc = Some (xml', acc')
      /\ accounts 1 toks xml'.

End Termination.

(** ** Example indexes *)
Module IndexExamples.
Import Ltfs.

Definition created : QDateTime := UtcDateTime 2024 1 15 12 30 45 123.
Definition modified : QDateTime := UtcDateTime 2024 2 29 0 0 0 0.

(** The time taken for [QDateTime::currentDateTimeUtc()]. *)
Definition clock : QDateTime := UtcDateTime 2026 1 1 0 0 0 0.

Definition firstExtent : LtfsExtent := mkExtent DataPartition 100 0 0 524288.
Definition secondExtent : LtfsExtent :=
  mkExtent IndexPartition 200 524288 17 1000.

Definition largeFile : LtfsFile :=
  mkFile "a.bin" 2 525288 false created created modified created
         InvalidDateTime [mkAttribute "user.note" "x"]
         [firstExtent; secondExtent].

Definition smallFile : LtfsFile :=
  mkFile "b.txt" 3 0 true created created created created modified [] [].

Definition rootOfTwo : LtfsDirectory :=
  mkDirectory "" 1 false created created created created InvalidDateTime
              [] [largeFile; smallFile] [].

(** One directory with two files, one of them of two extents. *)
Definition exampleIndex : LtfsIndex :=
  mkIndex "2.4.0" "QLTOTapeMan"
          (mkUuid 0x12345678 0xabcd 0xef01 0x2345 0x6789abcdef01)
          7 created (mkLocation IndexPartition 5)
          (mkLocation DataPartition 3) true 3 rootOfTwo.

(** The same index with no version set. *)
Definition unversionedIndex : LtfsIndex := setVersion "" exampleIndex.

End IndexExamples.

(** * Properties *)

(** ** Bytes *)

Lemma u8_range (b : byte) : 0 <= u8 b < 256.
Proof.
  unfold u8. pose proof (Byte.to_N_bounded b) as H. lia.
Qed.

Lemma byteAt_range (data : QByteArray) (i : nat) : 0 <= byteAt data i < 256.
Proof.
  unfold byteAt. destruct (nth_error data i); [apply u8_range | lia].
Qed.

Lemma u8_to_char (v : Z) : 0 <= v < 256 -> u8 (to_char v) = v.
Proof.
  intros Hv. unfold u8, to_char.
  rewrite Z.mod_small by lia.
  destruct (Byte.of_N (Z.to_N v)) as [b|] eqn:E.
  - apply Byte.to_of_N in E. rewrite E. lia.
  - apply Byte.of_N_None_iff in E. lia.
Qed.

(** ** Sense data *)
Module SenseFacts.
Import Scsi.

Lemma fromRawData_short data :
  size data < 8 -> fromRawData data = mkSense false NoSense 0 0 0 data.
Proof.
  intros H. unfold fromRawData, fromRawData_rd, Access.bind, Access.len.
  destruct (Z.ltb_spec (size data) 8); [reflexivity | lia].
Qed.

Lemma fromRawData_fixed data :
  8 <= size data -> isFixed data = true ->
  fromRawData data =
  mkSense true (senseKey_of (Z.land (byteAt data 2) 0x0F))
          (if lengthPermits data then byteAt data 12 else 0)
          (if lengthPermits data then byteAt data 13 else 0)
          (Z.lor (Z.lor (Z.lor (wrap32 (Z.shiftl (byteAt data 3) 24))
                               (Z.shiftl (byteAt data 4) 16))
                        (Z.shiftl (byteAt data 5) 8)) (byteAt data 6))
          data.
Proof.
  intros H Hf. unfold isFixed, responseCode in Hf.
  unfold fromRawData, fromRawData_rd, Access.bind, Access.len, Access.rd,
    Access.ret, lengthPermits.
  destruct (Z.ltb_spec (size data) 8); [lia |].
  simpl. rewrite Hf.
  destruct ((13 <=? size data) && (6 <=? byteAt data 7)); reflexivity.
Qed.

Lemma fromRawData_descriptor data :
  8 <= size data -> isDescriptor data = true ->
  fromRawData data =
  mkSense true (senseKey_of (Z.land (byteAt data 1) 0x0F))
          (byteAt data 2) (byteAt data 3) 0 data.
Proof.
  intros H Hd. unfold isDescriptor, responseCode in Hd.
  unfold fromRawData, fromRawData_rd, Access.bind, Access.len, Access.rd,
    Access.ret.
  destruct (Z.ltb_spec (size data) 8); [lia |].
  simpl.
  destruct ((Z.land (byteAt data 0) 127 =? 112)
            || (Z.land (byteAt data 0) 127 =? 113)) eqn:Ef.
  - exfalso.
    apply orb_true_iff in Ef. apply orb_true_iff in Hd.
    destruct Ef as [E|E]; destruct Hd as [D|D];
      apply Z.eqb_eq in E; apply Z.eqb_eq in D; lia.
  - rewrite Hd. reflexivity.
Qed.



(** Reads stay inside the array except in one case: a fixed-format
    buffer of exactly 13 bytes whose byte 7 is 6 or more. *)
Lemma fromRawData_reads_in_bounds data :
  ~ (size data = 13 /\ isFixed data = true /\ 6 <= byteAt data 7) ->
  Forall (fun i => (i < List.length data)%nat) (fromRawData_reads data).
Proof.
  intros Hn.
  unfold fromRawData_reads, fromRawData_rd, Access.bind, Access.len,
    Access.rd, Access.ret.
  destruct (Z.ltb_spec (size data) 8) as [Hs|Hs]; [constructor |].
  unfold size in *.
  fold (responseCode data). fold (isFixed data). fold (isDescriptor data).
  destruct (isFixed data) eqn:Ef.
  - destruct (Z.leb_spec 13 (Z.of_nat (List.length data))) as [H13|H13];
      destruct (Z.leb_spec 6 (byteAt data 7)) as [H6|H6]; simpl;
      assert (Z.of_nat (List.length data) <> 13 \/ byteAt data 7 < 6)
        by (destruct (Z.eq_dec (Z.of_nat (List.length data)) 13);
            [right | left; assumption];
            destruct (Z.lt_ge_cases (byteAt data 7) 6);
            [assumption | exfalso; apply Hn; auto]);
      repeat (constructor; try lia).
  - destruct (isDescriptor data); simpl; repeat (constructor; try lia).
Qed.

(** C10 (the code departs from the claim).  On the 13-byte fixed-format
    buffer [sense13], whose byte 7 is 6, [fromRawData] dereferences index
    13, which is not below the size of the array. *)
Theorem fromRawData_reads_past_end :
  size sense13 = 13
  /\ isFixed sense13 = true
  /\ byteAt sense13 7 = 6
  /\ In 13%nat (fromRawData_reads sense13)
  /\ ~ Forall (fun i => (i < List.length sense13)%nat)
             (fromRawData_reads sense13).
Proof.
  repeat split; try reflexivity.
  - vm_compute. tauto.
  - intros H. rewrite Forall_forall in H.
    assert (I : In 13%nat (fromRawData_reads sense13))
      by (vm_compute; tauto).
    specialize (H _ I). vm_compute in H. lia.
Qed.

End SenseFacts.

(** ** Block sizes *)
Module BlockFacts.
Import BlockManager.

(** [s & (s - 1) == 0] singles out the powers of two among the positive
    numbers. *)
Lemma land_pred_zero_iff (s : Z) :
  0 < s -> (Z.land s (s - 1) = 0 <-> exists k, 0 <= k /\ s = 2 ^ k).
Proof.
  intros Hs. split.
  - intros Hl. exists (Z.log2 s).
    pose proof (Z.log2_nonneg s) as Hk.
    destruct (Z.log2_spec s Hs) as [Hlo Hhi].
    split; [assumption |].
    destruct (Z.eq_dec s (2 ^ Z.log2 s)) as [E|E]; [assumption | exfalso].
    assert (Hp : 0 < s - 1) by lia.
    assert (Hlog : Z.log2 (s - 1) = Z.log2 s).
    { apply Z.log2_unique; [assumption | lia]. }
    assert (B1 : Z.testbit s (Z.log2 s) = true) by (apply Z.bit_log2; lia).
    assert (B2 : Z.testbit (s - 1) (Z.log2 s) = true).
    { rewrite <- Hlog. apply Z.bit_log2. lia. }
    assert (B : Z.testbit (Z.land s (s - 1)) (Z.log2 s) = true).
    { rewrite Z.land_spec, B1, B2. reflexivity. }
    rewrite Hl, Z.bits_0 in B. discriminate.
  - intros [k [Hk E]]. subst s.
    replace (2 ^ k - 1) with (Z.ones k)
      by (rewrite Z.ones_equiv; lia).
    rewrite Z.land_ones by assumption.
    apply Z.mod_same. pose proof (Z.pow_pos_nonneg 2 k). lia.
Qed.

Lemma pow2_in_range_multiple (k : Z) :
  0 <= k -> MIN_BLOCK_SIZE <= 2 ^ k -> 2 ^ k mod MIN_BLOCK_SIZE = 0.
Proof.
  intros Hk Hge. unfold MIN_BLOCK_SIZE in *.
  assert (12 <= k).
  { destruct (Z.lt_ge_cases k 12) as [L|G]; [| assumption].
    assert (2 ^ k < 2 ^ 12) by (apply Z.pow_lt_mono_r; lia). lia. }
  replace k with (12 + (k - 12)) by lia.
  rewrite Z.pow_add_r by lia.
  change (4 * 1024) with (2 ^ 12).
  rewrite Z.mul_comm. apply Z.mod_mul. lia.
Qed.

Lemma isValidBlockSize_iff (size : Z) :
  0 <= size < 2 ^ 32 ->
  (isValidBlockSize size = true <->
   MIN_BLOCK_SIZE <= size <= MAX_BLOCK_SIZE
   /\ ((exists k, 0 <= k /\ size = 2 ^ k) \/ size mod MIN_BLOCK_SIZE = 0)).
Proof.
  intros Hr. unfold isValidBlockSize.
  destruct (Z.ltb_spec size MIN_BLOCK_SIZE) as [H1|H1]; simpl.
  { split; [discriminate | lia]. }
  destruct (Z.ltb_spec MAX_BLOCK_SIZE size) as [H2|H2]; simpl.
  { split; [discriminate | lia]. }
  assert (Hpos : 0 < size) by (unfold MIN_BLOCK_SIZE in H1; lia).
  assert (Hw : wrap32 (size - 1) = size - 1).
  { unfold wrap32. apply Z.mod_small. lia. }
  rewrite Hw.
  destruct (Z.eqb_spec (Z.land size (size - 1)) 0) as [Hl|Hl].
  - split; [| reflexivity]. intros _. split; [lia |].
    left. apply land_pred_zero_iff; assumption.
  - split.
    + intros Hm. apply Z.eqb_eq in Hm. split; [lia | right; assumption].
    + intros [_ [Hp|Hm]].
      * exfalso. apply Hl. apply land_pred_zero_iff; assumption.
      * apply Z.eqb_eq. assumption.
Qed.

(** C8.  [setBlockSize] accepts a size exactly when it lies in
    [4 KiB, 4 MiB] and is a power of two or a multiple of 4 KiB; an
    accepted size becomes the block size, and for a rejected size the
    call returns false and leaves the manager, and so its block size,
    as it was. *)
Theorem setBlockSize_accepts_iff (size : Z) (m : t) :
  0 <= size < 2 ^ 32 ->
  (fst (setBlockSize size m) = true <->
     4 * 1024 <= size <= 4 * 1024 * 1024
     /\ ((exists k, 0 <= k /\ size = 2 ^ k) \/ size mod (4 * 1024) = 0))
  /\ (fst (setBlockSize size m) = true ->
        blockSize (snd (setBlockSize size m)) = size)
  /\ (fst (setBlockSize size m) = false ->
        snd (setBlockSize size m) = m
        /\ blockSize (snd (setBlockSize size m)) = blockSize m).
Proof.
  intros Hr. pose proof (isValidBlockSize_iff size Hr) as Hv.
  unfold MIN_BLOCK_SIZE, MAX_BLOCK_SIZE in Hv.
  unfold setBlockSize.
  destruct (isValidBlockSize size); simpl.
  - split; [| split].
    + split; intros; [apply Hv; reflexivity | reflexivity].
    + reflexivity.
    + discriminate.
  - split; [| split].
    + split; [discriminate |]. intros H. apply Hv in H. discriminate.
    + discriminate.
    + intros _. split; reflexivity.
Qed.

Lemma setBlockSize_accepts_iff_witness :
  0 <= 6000 < 2 ^ 32
  /\ fst (setBlockSize 6000 (create DEFAULT_BLOCK_SIZE)) = false
  /\ blockSize (snd (setBlockSize 6000 (create DEFAULT_BLOCK_SIZE)))
     = 512 * 1024.
Proof.
  assert (H : 0 <= 6000 < 2 ^ 32) by lia.
  split; [exact H |].
  destruct (setBlockSize_accepts_iff 6000 (create DEFAULT_BLOCK_SIZE) H)
    as (_ & _ & K).
  split; [reflexivity |].
  destruct (K eq_refl) as [_ K2]. rewrite K2. reflexivity.
Defined.

End BlockFacts.

(** ** The tape device controller *)
Module TapeFacts.
Import Scsi Tape.

Lemma status_eqb_eq a b : status_eqb a b = true <-> a = b.
Proof.
  split.
  - destruct a, b; simpl; intros H; try discriminate; reflexivity.
  - intros ->. destruct b; reflexivity.
Qed.

Lemma setStatus_spec st w :
  setStatus st w =
  (tt, mkWorld (drive w) (issued w) (scsi w) st (position w) (lastError w)
               (lastSenseData w)
               (trace w ++ (if status_eqb (status w) st then []
                            else [Emitted (statusChanged st)]))).
Proof.
  unfold setStatus. destruct (status_eqb (status w) st) eqn:E; simpl.
  - apply status_eqb_eq in E. rewrite List.app_nil_r. destruct w; simpl in *.
    subst. reflexivity.
  - reflexivity.
Qed.

Lemma execute_open dr d cdb dir buf len iss :
  Scsi.isOpen d = true ->
  execute dr d cdb dir buf len iss
  = (completed dir (prepared dir buf len) len
               (dr iss (sgHeader d cdb dir (prepared dir buf len))),
     iss ++ [sgHeader d cdb dir (prepared dir buf len)]).
Proof.
  intros Ho. unfold execute. rewrite Ho. reflexivity.
Qed.

Lemma execute_closed dr d cdb dir buf len iss :
  Scsi.isOpen d = false ->
  execute dr d cdb dir buf len iss = (emptyResult, buf, iss).
Proof.
  intros Ho. unfold execute. rewrite Ho. reflexivity.
Qed.

Lemma skipn_app_exact {A} (l l' : list A) :
  skipn (List.length l) (l ++ l') = l'.
Proof. induction l; simpl; auto. Qed.

Lemma tur_open dr d iss :
  Scsi.isOpen d = true ->
  snd (testUnitReady dr d iss) = iss ++ [turHdr d].
Proof.
  intros Ho. unfold testUnitReady.
  rewrite (execute_open _ _ _ _ _ _ _ Ho).
  destruct (completed _ _ _ _). reflexivity.
Qed.

Lemma poll_open w d :
  scsi w = Some d -> Scsi.isOpen d = true ->
  poll w =
  (fst (testUnitReady (drive w) d (issued w)),
   mkWorld (drive w) (issued w ++ [turHdr d]) (scsi w) (status w)
           (position w) (lastError w) (lastSenseData w)
           (trace w ++ [Issued (turHdr d)])).
Proof.
  intros Hs Ho. unfold poll, call. rewrite Hs.
  pose proof (tur_open (drive w) d (issued w) Ho) as Ht.
  destruct (testUnitReady (drive w) d (issued w)) as [r iss']. simpl in *.
  subst iss'. rewrite skipn_app_exact. reflexivity.
Qed.

Ltac settle :=
  repeat split; intros; try discriminate; try congruence; auto;
  try (rewrite <- ?List.app_assoc; cbn [app]; rewrite ?List.app_nil_r;
       reflexivity).

(** C1, as amended.  On an open device [refreshStatus] returns true and
    sets the status from the outcome [r1] of TEST UNIT READY, in every
    case: success gives Ready; NotReady with ASC 0x3A gives NoMedia;
    NotReady with ASC 0x04 gives Loading for ASCQ 0x01 and NotReady for
    any other ASCQ; NotReady with any other ASC gives NotReady;
    UnitAttention issues TEST UNIT READY exactly once more, and the
    outcome [r2] of that retry gives Ready followed by the mediaChanged
    signal on success and NotReady otherwise; DataProtect gives
    WriteProtected; any other sense key gives Error.  Without
    UnitAttention exactly one TEST UNIT READY is issued.  Nothing else
    happens: the sense data of a failed first poll are kept, position,
    last error and command object stay, and what an observer sees is the
    polls, then statusChanged if the status is a new one, then
    mediaChanged after a retry that succeeded. *)
Theorem refreshStatus_mapping (w : World) (d : Scsi.Private) :
  scsi w = Some d -> Scsi.isOpen d = true ->
  let r1 := fst (poll w) in
  let r2 := fst (poll (snd (poll w))) in
  let w' := snd (refreshStatus w) in
  let key := senseKey (senseData r1) in
  let asc := additionalSenseCode (senseData r1) in
  let ascq := additionalSenseCodeQualifier (senseData r1) in
  let retried := negb (success r1) && senseKey_eqb key UnitAttention in
  fst (refreshStatus w) = true
  /\ (success r1 = true -> status w' = Ready)
  /\ (success r1 = false ->
      (key = NotReady -> asc = 0x3A -> status w' = NoMedia)
      /\ (key = NotReady -> asc = 0x04 -> ascq = 0x01 ->
          status w' = Loading)
      /\ (key = NotReady -> asc = 0x04 -> ascq <> 0x01 ->
          status w' = StNotReady)
      /\ (key = NotReady -> asc <> 0x3A -> asc <> 0x04 ->
          status w' = StNotReady)
      /\ (key = UnitAttention ->
          issued w' = issued w ++ [turHdr d; turHdr d]
          /\ (success r2 = true ->
              status w' = Ready
              /\ exists pre,
                   trace w' = trace w ++ pre ++ [Emitted (mediaChanged true)])
          /\ (success r2 = false -> status w' = StNotReady))
      /\ (key = DataProtect -> status w' = WriteProtected)
      /\ (key <> NotReady -> key <> UnitAttention -> key <> DataProtect ->
          status w' = Error))
  /\ (success r1 = true \/ key <> UnitAttention ->
      issued w' = issued w ++ [turHdr d])
  /\ lastSenseData w' = (if success r1 then lastSenseData w else senseData r1)
  /\ position w' = position w
  /\ lastError w' = lastError w
  /\ scsi w' = scsi w
  /\ trace w'
     = trace w
       ++ Issued (turHdr d) :: (if retried then [Issued (turHdr d)] else [])
       ++ (if status_eqb (status w) (status w') then []
           else [Emitted (statusChanged (status w'))])
       ++ (if retried && success r2 then [Emitted (mediaChanged true)]
           else []).
Proof.
  intros Hs Ho.
  assert (Hopen : isOpen w = true) by (unfold isOpen; rewrite Hs; exact Ho).
  pose proof (poll_open w d Hs Ho) as E1.
  set (r1 := fst (testUnitReady (drive w) d (issued w))) in *.
  set (w1 := mkWorld (drive w) (issued w ++ [turHdr d]) (scsi w) (status w)
                (position w) (lastError w) (lastSenseData w)
                (trace w ++ [Issued (turHdr d)])) in *.
  pose proof (poll_open w1 d Hs Ho) as E2.
  pose proof (poll_open (set_lastSenseData (senseData r1) w1) d Hs Ho) as E3.
  cbn [drive issued set_lastSenseData w1] in E2, E3.
  set (r2 := fst (testUnitReady (drive w) d (issued w ++ [turHdr d]))) in *.
  cbv zeta. rewrite E1. cbn [fst snd]. rewrite E2. cbn [fst snd].
  unfold refreshStatus, St.bind, checkOpen. rewrite Hopen. cbn [negb].
  rewrite E1.
  destruct (success r1) eqn:S1.
  - rewrite setStatus_spec. unfold St.ret. cbn. settle.
  - unfold St.modify, St.ret.
    destruct (senseKey (senseData r1)) eqn:K;
    [ .. ].
    all: try (rewrite setStatus_spec; cbn; settle).
    + (* NotReady *)
      destruct (Z.eqb_spec (additionalSenseCode (senseData r1)) 58) as [A|A].
      { cbv beta iota. rewrite setStatus_spec; cbn. settle. }
      destruct (Z.eqb_spec (additionalSenseCode (senseData r1)) 4) as [B|B].
      2:{ cbv beta iota. rewrite setStatus_spec; cbn. settle. }
      destruct (additionalSenseCodeQualifier (senseData r1))
        as [|[p|[p|p|]|]|p];
        cbv beta iota; rewrite setStatus_spec; cbn; settle.
    + (* UnitAttention *)
      rewrite E3. cbn [set_lastSenseData scsi status position lastError
                       lastSenseData trace w1].
      destruct (success r2) eqn:S2.
      * rewrite setStatus_spec. unfold emit, St.modify, log.
        cbn [fst snd status issued trace lastSenseData position lastError
             scsi negb andb senseKey_eqb].
        split; [reflexivity |]. split; [discriminate |].
        split.
        2:{ split; [intros [H|H]; [discriminate | congruence] |].
            settle. }
        intros _. repeat split; try discriminate.
        -- rewrite <- List.app_assoc. reflexivity.
        -- exists ([Issued (turHdr d); Issued (turHdr d)]
                   ++ (if status_eqb (status w) Ready then []
                       else [Emitted (statusChanged Ready)])).
           rewrite <- !List.app_assoc. reflexivity.
        -- intros H1 H2 H3. congruence.
      * rewrite setStatus_spec.
        cbn [fst snd status issued trace lastSenseData position lastError
             scsi negb andb senseKey_eqb].
        split; [reflexivity |]. split; [discriminate |].
        split.
        2:{ split; [intros [H|H]; [discriminate | congruence] |].
            settle. }
        intros _. repeat split; try discriminate.
        -- rewrite <- List.app_assoc. reflexivity.
        -- intros H1 H2 H3. congruence.
Qed.


Lemma refreshStatus_mapping_witness :
  scsi (attached emptyDrive 3) = Some (opened 3)
  /\ Scsi.isOpen (opened 3) = true
  /\ status (snd (refreshStatus (attached emptyDrive 3))) = NoMedia.
Proof.
  split; [reflexivity |]. split; [reflexivity |].
  destruct (refreshStatus_mapping (attached emptyDrive 3) (opened 3)
              eq_refl eq_refl) as (_ & _ & H & _).
  destruct (H eq_refl) as (N & _).
  exact (N eq_refl eq_refl).
Defined.

(** C1 as stated fails: the mapping of the specification sends
    everything it does not list to Error, but on TEST UNIT READY failing
    with sense key NotReady and ASC 0x30 [refreshStatus] sets NotReady. *)
Lemma notReady_other_asc_is_not_error :
  let w := attached incompatibleDrive 3 in
  let r := fst (poll w) in
  success r = false
  /\ senseKey (senseData r) = NotReady
  /\ additionalSenseCode (senseData r) = 0x30
  /\ status (snd (refreshStatus w)) = StNotReady
  /\ status (snd (refreshStatus w)) <> Error.
Proof.
  cbv zeta. split; [reflexivity |]. split; [reflexivity |].
  split; [reflexivity |]. split; [reflexivity | discriminate].
Qed.

Lemma call_open {A} (cmd : Drive -> Scsi.Private -> list SgIoHdr ->
                            A * list SgIoHdr) dflt w d h :
  scsi w = Some d ->
  snd (cmd (drive w) d (issued w)) = issued w ++ [h] ->
  call cmd dflt w =
  (fst (cmd (drive w) d (issued w)),
   mkWorld (drive w) (issued w ++ [h]) (scsi w) (status w) (position w)
           (lastError w) (lastSenseData w) (trace w ++ [Issued h])).
Proof.
  intros Hs Hc. unfold call. rewrite Hs.
  destruct (cmd (drive w) d (issued w)) as [a iss']. simpl in *. subst iss'.
  rewrite skipn_app_exact. reflexivity.
Qed.

Lemma senseKey_eqb_eq a b : senseKey_eqb a b = true <-> a = b.
Proof.
  unfold senseKey_eqb. split.
  - destruct a, b; simpl; intros H; try discriminate; reflexivity.
  - intros ->. apply Z.eqb_refl.
Qed.

Lemma setError_spec msg w :
  setError msg w =
  (tt, mkWorld (drive w) (issued w) (scsi w) Error (position w) msg
               (lastSenseData w)
               (trace w ++ (if status_eqb (status w) Error then []
                            else [Emitted (statusChanged Error)])
                        ++ [Emitted (errorOccurred msg)])).
Proof.
  unfold setError, St.bind, emit, St.modify.
  rewrite setStatus_spec. unfold log. cbn [fst snd trace drive issued scsi status position lastError lastSenseData]. rewrite <- List.app_assoc. reflexivity.
Qed.

Lemma resize_length n a : List.length (resize n a) = n.
Proof.
  unfold resize. rewrite List.length_app, List.length_firstn, List.repeat_length.
  lia.
Qed.

(** A successful read returns the bytes the transport counted, as far as
    the count fits an [int]: the buffer is resized to
    [static_cast<int>(bytesTransferred)], which is empty for a count of
    2^31 or more. *)
Lemma completed_read_size buf1 len reply :
  success (fst (completed FromDevice buf1 len reply)) = true ->
  size (Scsi.data (fst (completed FromDevice buf1 len reply)))
  = if bytesTransferred (fst (completed FromDevice buf1 len reply)) <? 2 ^ 31
    then bytesTransferred (fst (completed FromDevice buf1 len reply))
    else 0.
Proof.
  unfold completed. destruct (ioctl_ret reply <? 0); [discriminate |].
  cbn [fst success Scsi.data bytesTransferred]. intros _.
  unfold size. rewrite resize_length.
  unfold wrap32, toInt.
  pose proof (Z.mod_pos_bound (len - resid reply) (2 ^ 32)).
  destruct ((len - resid reply) mod 2 ^ 32 <? 2 ^ 31) eqn:E; lia.
Qed.



(** A success that hands nothing back: on a read of 4 bytes the drive
    reports a residual of 10.  The transport counts 2^32 - 6 bytes, the
    resize to that count as an [int] empties the buffer, and [readBlock]
    returns 0 with the block number moved on. *)
Lemma readBlock_residual_overrun :
  let w := open overrunDrive 3 in
  let r := readOutcome w (opened 3) [] 4 in
  success r = true
  /\ bytesTransferred r = 4294967290
  /\ fst (readBlock [] 4 w) = (0, [])
  /\ blockNumber (position (snd (readBlock [] 4 w)))
     = blockNumber (position w) + 1.
Proof. cbv zeta. repeat split; vm_compute; reflexivity. Qed.

(** The timeout in milliseconds is the [int] product stored in an
    [unsigned int]: a timeout of -1 second reaches the drive as
    4294966296. *)
Lemma negative_timeout_wraps :
  timeout_ms (turHdr (mkPrivate 3 (-1))) = 4294966296.
Proof. reflexivity. Qed.


Lemma locate16_open dr d part blk iss :
  Scsi.isOpen d = true ->
  snd (locate16 dr d part blk iss) = iss ++ [locateHdr d part blk].
Proof.
  intros Ho. unfold locate16. rewrite (execute_open _ _ _ _ _ _ _ Ho).
  destruct (completed _ _ _ _). reflexivity.
Qed.

(** [locate] on an open device: the LOCATE(16) goes out while the status
    is Locating, with the timeout the command object is configured with;
    success stores the requested partition and block and ends in Ready;
    failure records the error, re-runs [refreshStatus] and returns
    false. *)
Lemma locate_outcomes (w : World) (d : Scsi.Private) (part blk : Z) :
  scsi w = Some d -> Scsi.isOpen d = true ->
  let r := locateOutcome w d part blk in
  let w' := snd (locate part blk w) in
  let during :=
    mkWorld (drive w) (issued w ++ [locateHdr d part blk]) (scsi w)
            Locating (position w) (lastError w) (senseData r)
            (trace w ++ (if status_eqb (status w) Locating then []
                         else [Emitted (statusChanged Locating)])
                     ++ [Issued (locateHdr d part blk)]) in
  timeout_ms (locateHdr d part blk) = wrap32 (timeoutSeconds d * 1000)
  /\ cmdp (locateHdr d part blk) = cdb_locate16 part blk
  /\ (success r = true ->
      fst (locate part blk w) = true
      /\ w' = mkWorld (drive w) (issued during) (scsi w) Ready
                      (mkPosition part blk (fileNumber (position w))
                         (beginOfPartition (position w))
                         (endOfPartition (position w))
                         (blockPositionUnknown (position w)))
                      (lastError w) (senseData r)
                      (trace during ++ [Emitted (statusChanged Ready)]))
  /\ (success r = false ->
      fst (locate part blk w) = false
      /\ w' = snd (refreshStatus
                     (snd (setError ("Locate failed: "
                                     ++ Scsi.errorMessage r) during)))).
Proof.
  intros Hs Ho.
  assert (Hopen : isOpen w = true) by (unfold isOpen; rewrite Hs; exact Ho).
  cbv zeta. split; [reflexivity |]. split; [reflexivity |].
  unfold locate, St.bind, checkOpen. rewrite Hopen. cbn [negb].
  rewrite setStatus_spec.
  rewrite (call_open _ _ _ d (locateHdr d part blk)).
  2:{ exact Hs. }
  2:{ apply locate16_open. exact Ho. }
  cbn [drive issued scsi status position lastError lastSenseData trace].
  unfold locateOutcome.
  set (r := fst (locate16 (drive w) d part blk (issued w))).
  unfold St.modify, St.ret.
  destruct (success r) eqn:S1; cbn [negb].
  - split; [| discriminate]. intros _.
    rewrite setStatus_spec.
    cbn [fst snd set_lastSenseData set_position drive issued scsi status
         position lastError lastSenseData trace status_eqb].
    split; [reflexivity |]. rewrite <- !List.app_assoc. reflexivity.
  - split; [discriminate |]. intros _.
    cbn [set_lastSenseData drive issued scsi status
         position lastError lastSenseData trace].
    rewrite <- !List.app_assoc.
    unfold set_lastSenseData.
    cbn [drive issued scsi status position lastError lastSenseData trace].
    match goal with
    | |- context [setError ?m ?x] =>
        destruct (setError m x) as [u e1] eqn:E1
    end.
    cbn [snd]. destruct (refreshStatus e1) as [b e2].
    split; reflexivity.
Qed.

(** C4 (the code departs from the claim).  On a freshly opened device
    [locate 1 100] succeeds, passes through Locating, stores partition 1
    and block 100 and ends in Ready, but the LOCATE(16) is issued with
    the command object's timeout of 60 seconds (60000 ms), not 600. *)
Theorem locate_timeout_is_default :
  let w0 := open goodDrive 3 in
  let hdr := locateHdr (opened 3) 1 100 in
  fst (locate 1 100 w0) = true
  /\ trace (snd (locate 1 100 w0))
     = trace w0 ++ [Emitted (statusChanged Locating); Issued hdr;
                    Emitted (statusChanged Ready)]
  /\ cmdp hdr = cdb_locate16 1 100
  /\ timeout_ms hdr = 60 * 1000
  /\ timeout_ms hdr <> 600 * 1000
  /\ partition (position (snd (locate 1 100 w0))) = 1
  /\ blockNumber (position (snd (locate 1 100 w0))) = 100
  /\ status (snd (locate 1 100 w0)) = Ready.
Proof.
  cbv zeta. repeat split; try reflexivity. discriminate.
Qed.

(** C9 (the code departs from the claim).  [executeRaw] on an open
    device hands a 17-byte CDB to the drive: the command is issued with
    [cmd_len] 17 and comes back as a success. *)
Theorem executeRaw_issues_oversized_cdb :
  let cdb := repeat x00 17 in
  let out := executeRaw goodDrive (opened 3) cdb DirNone [] 0 [] in
  MAX_CDB_LENGTH < size cdb
  /\ snd out = [mkHdr 17 cdb DirNone 0 [] 60000]
  /\ success (fst (fst out)) = true.
Proof.
  cbv zeta. repeat split; reflexivity.
Qed.

(** The only command [execute] rejects is one on a device that is not
    open; whatever the length of the CDB, an open device issues it. *)
Lemma execute_issues_any_cdb dr d cdb dir buf len iss :
  Scsi.isOpen d = true ->
  snd (executeRaw dr d cdb dir buf len iss)
  = iss ++ [sgHeader d cdb dir (prepared dir buf len)]
  /\ cmdp (sgHeader d cdb dir (prepared dir buf len)) = cdb.
Proof.
  intros Ho. unfold executeRaw. rewrite (execute_open _ _ _ _ _ _ _ Ho).
  split; reflexivity.
Qed.

Lemma completed_good dir buf1 len reply :
  ioctl_ret reply = 0 -> host_status reply = 0 -> driver_status reply = 0 ->
  Scsi.status reply = 0 -> resid reply = 0 ->
  success (fst (completed dir buf1 len reply)) = true
  /\ bytesTransferred (fst (completed dir buf1 len reply)) = wrap32 len.
Proof.
  intros H1 H2 H3 H4 H5. unfold completed. rewrite H1, H2, H3, H4, H5.
  cbn. rewrite Z.sub_0_r. split; reflexivity.
Qed.

Ltac run_execute Ho :=
  rewrite (execute_open _ _ _ _ _ _ _ Ho); cbn [prepared];
  match goal with |- context [completed ?a ?b ?c ?e] =>
    destruct (completed a b c e) end; reflexivity.

Lemma locate16_fst dr d part blk iss :
  Scsi.isOpen d = true ->
  fst (locate16 dr d part blk iss)
  = fst (completed DirNone [] 0 (dr iss (locateHdr d part blk))).
Proof. intros Ho. unfold locate16, locateHdr. run_execute Ho. Qed.

Lemma space_fst dr d code count iss :
  Scsi.isOpen d = true ->
  fst (space dr d code count iss)
  = fst (completed DirNone [] 0 (dr iss (spaceHdr d code count))).
Proof. intros Ho. unfold space, spaceHdr. run_execute Ho. Qed.

Lemma space_snd dr d code count iss :
  Scsi.isOpen d = true ->
  snd (space dr d code count iss) = iss ++ [spaceHdr d code count].
Proof. intros Ho. unfold space, spaceHdr. run_execute Ho. Qed.

Lemma write6_fst dr d buf iss :
  Scsi.isOpen d = true ->
  fst (write6 dr d buf false iss)
  = fst (completed ToDevice buf (wrap32 (size buf))
                   (dr iss (writeHdr d buf))).
Proof. intros Ho. unfold write6, writeHdr. run_execute Ho. Qed.

Lemma write6_snd dr d buf iss :
  Scsi.isOpen d = true ->
  snd (write6 dr d buf false iss) = iss ++ [writeHdr d buf].
Proof. intros Ho. unfold write6, writeHdr. run_execute Ho. Qed.

Lemma completes_good dr dir buf1 len hist h :
  completes dr ->
  success (fst (completed dir buf1 len (dr hist h))) = true
  /\ bytesTransferred (fst (completed dir buf1 len (dr hist h)))
     = wrap32 len.
Proof.
  intros Hc. destruct (Hc hist h) as (H1 & H2 & H3 & H4 & H5).
  apply completed_good; assumption.
Qed.

Lemma locate_good w d part blk :
  healthy w d ->
  fst (locate part blk w) = true
  /\ healthy (snd (locate part blk w)) d
  /\ issued (snd (locate part blk w)) = issued w ++ [locateHdr d part blk].
Proof.
  intros (Hs & Ho & Hc).
  destruct (locate_outcomes w d part blk Hs Ho) as (_ & _ & Hok & _).
  assert (S1 : success (locateOutcome w d part blk) = true).
  { unfold locateOutcome. rewrite (locate16_fst _ _ _ _ _ Ho).
    apply completes_good. exact Hc. }
  destruct (Hok S1) as [Hr Hw]. rewrite Hr, Hw.
  split; [reflexivity |]. split; [| reflexivity].
  unfold healthy. cbn [scsi drive]. tauto.
Qed.

Lemma spaceToEndOfData_good w d :
  healthy w d ->
  fst (spaceToEndOfData w) = true
  /\ healthy (snd (spaceToEndOfData w)) d
  /\ issued (snd (spaceToEndOfData w)) = issued w ++ [spaceHdr d 3 0].
Proof.
  intros (Hs & Ho & Hc).
  assert (Hopen : isOpen w = true) by (unfold isOpen; rewrite Hs; exact Ho).
  unfold spaceToEndOfData, St.bind, checkOpen. rewrite Hopen. cbn [negb].
  rewrite (call_open _ _ w d (spaceHdr d 3 0) Hs (space_snd _ _ _ _ _ Ho)).
  rewrite (space_fst _ _ _ _ _ Ho).
  destruct (completes_good (drive w) DirNone [] 0 (issued w)
              (spaceHdr d 3 0) Hc) as [S1 _].
  rewrite S1. cbn [negb]. unfold St.modify, St.ret.
  unfold healthy.
  cbn [fst snd set_lastSenseData set_position drive issued scsi].
  tauto.
Qed.

Lemma seekToEnd_good w d part :
  healthy w d ->
  fst (seekToEnd part w) = true
  /\ healthy (snd (seekToEnd part w)) d
  /\ issued (snd (seekToEnd part w))
     = issued w ++ [locateHdr d part 0; spaceHdr d 3 0].
Proof.
  intros H. unfold seekToEnd, St.bind.
  destruct (locate_good w d part 0 H) as (L1 & L2 & L3).
  destruct (locate part 0 w) as [ok w1]. cbn [fst snd] in *. subst ok.
  cbn [negb].
  destruct (spaceToEndOfData_good w1 d L2) as (S1 & S2 & S3).
  rewrite S3, L3, <- List.app_assoc. tauto.
Qed.

Lemma writeBlock_good w d buf :
  healthy w d -> size buf < 2 ^ 32 ->
  fst (writeBlock buf w) = size buf
  /\ healthy (snd (writeBlock buf w)) d
  /\ issued (snd (writeBlock buf w)) = issued w ++ [writeHdr d buf].
Proof.
  intros (Hs & Ho & Hc) Hlt.
  assert (Hopen : isOpen w = true) by (unfold isOpen; rewrite Hs; exact Ho).
  unfold writeBlock, St.bind, checkOpen. rewrite Hopen. cbn [negb].
  rewrite setStatus_spec.
  erewrite call_open;
    [ | cbn [scsi]; exact Hs | apply write6_snd; exact Ho ].
  cbn [drive issued scsi status position lastError lastSenseData trace].
  rewrite (write6_fst _ _ _ _ Ho).
  destruct (completes_good (drive w) ToDevice buf (wrap32 (size buf))
              (issued w) (writeHdr d buf) Hc) as [S1 B1].
  rewrite S1. cbn [negb]. unfold St.modify, St.ret.
  rewrite setStatus_spec.
  cbn [fst snd set_lastSenseData bump_block set_position drive issued scsi].
  rewrite B1.
  assert (wrap32 (size buf) = size buf).
  { unfold wrap32. apply Z.mod_small. unfold size in *. lia. }
  unfold wrap32 in *. rewrite Z.mod_mod by lia.
  unfold healthy. cbn [scsi drive]. tauto.
Qed.

End TapeFacts.

(** ** The transfer loops *)
Module TransferFacts.
Import Scsi TapeFacts TapeIO.
Import Tape (healthy, completes, spaceHdr, writeHdr).

Lemma pauseWait_running fuel w :
  paused w = false -> pauseWait (S fuel) w = (Some false, w).
Proof. intros H. cbn. rewrite H. reflexivity. Qed.

Lemma firstn_nonempty {A} (n : nat) (l : list A) :
  (0 < n)%nat -> l <> [] -> firstn n l <> [].
Proof. destruct n, l; simpl; intros; try lia; congruence. Qed.

Lemma isEmpty_false (a : QByteArray) : a <> [] -> isEmpty a = false.
Proof. destruct a; [congruence | reflexivity]. Qed.

Lemma size_firstn_le (n : Z) (l : QByteArray) :
  0 <= n -> size (firstn (Z.to_nat n) l) <= n.
Proof.
  intros Hn. unfold size. rewrite List.length_firstn. lia.
Qed.

Lemma writeLoop_step fuel rest n total fileSize item w d :
  rest <> [] -> cancelled w = false -> paused w = false ->
  readFault (env w) n = false ->
  0 < blockSize (options w) < 2 ^ 32 ->
  healthy (device w) d ->
  let buffer := firstn (Z.to_nat (blockSize (options w))) rest in
  let total' := total + size buffer in
  let item' := set_transferred total' item in
  writeLoop (S fuel) rest n total fileSize item w
  = writeLoop fuel (skipn (Z.to_nat (blockSize (options w))) rest) (S n)
              total' fileSize item'
              (stepWorld w buffer item' total' fileSize).
Proof.
  intros Hr Hc Hp Hf Hb Hh. cbv zeta.
  cbn [writeLoop]. rewrite (isEmpty_false rest Hr), Hc.
  rewrite (pauseWait_running _ w Hp). rewrite Hf.
  set (buffer := firstn (Z.to_nat (blockSize (options w))) rest).
  assert (Hne : buffer <> []) by (apply firstn_nonempty; [lia | exact Hr]).
  rewrite (isEmpty_false buffer Hne).
  assert (Hsz : size buffer < 2 ^ 32).
  { pose proof (size_firstn_le (blockSize (options w)) rest). 
    fold buffer in H. lia. }
  destruct (writeBlock_good (device w) d buffer Hh Hsz) as (W1 & W2 & W3).
  unfold onDevice, stepWorld.
  destruct (Tape.writeBlock buffer (device w)) as [written dev'].
  cbn [fst snd] in *. subst written.
  destruct (Z.ltb_spec (size buffer) 0) as [L|L];
    [unfold size in L; lia |].
  destruct (yield _) as [u w4]. reflexivity.
Qed.

Lemma fold_act_keeps_cancel (b : list Action) (w : IoWorld) :
  cancelled w = true ->
  cancelled (fold_left (fun w' a => act a w') b w) = true.
Proof.
  revert w. induction b as [|a b IH]; intros w H; [exact H |].
  cbn [fold_left]. apply IH. destruct a; cbn; [reflexivity |].
  destruct (running w && negb (paused w)); cbn; exact H.
Qed.

Lemma fold_act_cancels (b : list Action) (w : IoWorld) :
  In DoCancel b ->
  cancelled (fold_left (fun w' a => act a w') b w) = true.
Proof.
  revert w. induction b as [|a b IH]; intros w H; [destruct H |].
  cbn [fold_left]. destruct H as [->|H].
  - apply fold_act_keeps_cancel. reflexivity.
  - apply IH. exact H.
Qed.

Lemma fold_act_frame (b : list Action) (w : IoWorld) :
  let w' := fold_left (fun w' a => act a w') b w in
  env w' = env w /\ device w' = device w /\ options w' = options w
  /\ completedBytes w' = completedBytes w /\ files w' = files w
  /\ pending w' = pending w /\ ioLog w' = ioLog w.
Proof.
  revert w. induction b as [|a b IH]; intros w; cbv zeta;
    [cbn; tauto |].
  cbn [fold_left].
  destruct (IH (act a w)) as (A1 & A2 & A3 & A4 & A5 & A6 & A7).
  rewrite A1, A2, A3, A4, A5, A6, A7.
  destruct a; cbn; [tauto |].
  destruct (running w && negb (paused w)); cbn; tauto.
Qed.

(** The projections of [stepWorld] when a batch [b] is due. *)
Lemma stepWorld_spec w buffer item' total' fileSize b ps :
  pending w = b :: ps ->
  let w' := stepWorld w buffer item' total' fileSize in
  env w' = env w
  /\ options w' = options w
  /\ device w' = snd (Tape.writeBlock buffer (device w))
  /\ completedBytes w' = completedBytes w + size buffer
  /\ pending w' = ps
  /\ (In DoCancel b -> cancelled w' = true)
  /\ (b = [] -> cancelled w' = cancelled w /\ paused w' = paused w).
Proof.
  intros Hp. cbv zeta. unfold stepWorld, yield.
  cbn [pending io_log set_completedBytes set_device]. rewrite Hp.
  cbn [snd].
  match goal with |- context [fold_left ?f b ?x] =>
    destruct (fold_act_frame b x) as (A1 & A2 & A3 & A4 & A5 & A6 & A7);
    pose proof (fold_act_cancels b x) as C
  end.
  cbv zeta in *.
  rewrite A1, A2, A3, A4, A6.
  cbn [env options device completedBytes pending set_pending io_log
       set_completedBytes set_device].
  repeat split; try reflexivity.
  - exact C.
  - subst b. reflexivity.
  - subst b. reflexivity.
Qed.
Lemma size_skipn n (l : QByteArray) :
  0 <= n -> n <= size l -> size (skipn (Z.to_nat n) l) = size l - n.
Proof. intros H1 H2. unfold size in *. rewrite List.length_skipn. lia. Qed.

Lemma size_firstn n (l : QByteArray) :
  0 <= n -> n <= size l -> size (firstn (Z.to_nat n) l) = n.
Proof. intros H1 H2. unfold size in *. rewrite List.length_firstn. lia. Qed.

Lemma size_pos_nonempty (l : QByteArray) : 0 < size l -> l <> [].
Proof. destruct l; unfold size; simpl; [lia | congruence]. Qed.

Lemma hashFile_frame path w :
  let w' := snd (hashFile path w) in
  env w' = env w /\ device w' = device w /\ options w' = options w
  /\ paused w' = paused w /\ cancelled w' = cancelled w
  /\ completedBytes w' = completedBytes w /\ pending w' = pending w.
Proof.
  cbv zeta. unfold hashFile.
  destruct (fs_lookup path (files w)); [| cbn; tauto].
  destruct (readable (env w) path); cbn; tauto.
Qed.

(** One round of the write loop that sends a full chunk, followed by the
    batch [b] of outside actions. *)
Lemma writeLoop_full_chunk fuel rest n total fileSize item w d b ps bs :
  0 < bs < 2 ^ 32 -> blockSize (options w) = bs -> bs <= size rest ->
  cancelled w = false -> paused w = false ->
  readFault (env w) n = false ->
  healthy (device w) d ->
  pending w = b :: ps ->
  exists w',
    writeLoop (S fuel) rest n total fileSize item w
    = writeLoop fuel (skipn (Z.to_nat bs) rest) (S n) (total + bs) fileSize
                (set_transferred (total + bs) item) w'
    /\ env w' = env w /\ options w' = options w
    /\ healthy (device w') d
    /\ Tape.issued (device w')
       = Tape.issued (device w) ++ [writeHdr d (firstn (Z.to_nat bs) rest)]
    /\ completedBytes w' = completedBytes w + bs
    /\ pending w' = ps
    /\ (In DoCancel b -> cancelled w' = true)
    /\ (b = [] -> cancelled w' = false /\ paused w' = false).
Proof.
  intros Hbs Hopt Hle Hc Hp Hf Hh Hpend.
  assert (Hne : rest <> []) by (apply size_pos_nonempty; lia).
  assert (Hb' : 0 < blockSize (options w) < 2 ^ 32) by (rewrite Hopt; lia).
  pose proof (writeLoop_step fuel rest n total fileSize item w d
                Hne Hc Hp Hf Hb' Hh) as St.
  cbv zeta in St. rewrite Hopt in St.
  rewrite (size_firstn bs rest) in St by lia.
  eexists. split; [exact St |].
  destruct (stepWorld_spec w (firstn (Z.to_nat bs) rest)
              (set_transferred (total + bs) item) (total + bs) fileSize
              b ps Hpend) as (A1 & A2 & A3 & A4 & A5 & A6 & A7).
  assert (Hsz : size (firstn (Z.to_nat bs) rest) < 2 ^ 32)
    by (rewrite size_firstn; lia).
  destruct (writeBlock_good (device w) d (firstn (Z.to_nat bs) rest)
              Hh Hsz) as (W1 & W2 & W3).
  rewrite (size_firstn bs rest) in A4 by lia.
  rewrite A3.
  split; [exact A1 |]. split; [exact A2 |]. split; [exact W2 |].
  split; [exact W3 |]. split; [exact A4 |]. split; [exact A5 |].
  split; [exact A6 |].
  intros Hb. destruct (A7 Hb) as [X Y]. split; congruence.
Qed.

(** C6.  A 10 MiB file written in 512 KiB chunks on a drive that
    completes every command, with [cancel()] arriving after the third
    chunk and nothing from outside before: [writeFileToTape] returns
    false, the item is Cancelled, its [bytesTransferred] is exactly
    3 x 512 KiB, and the commands issued are LOCATE, SPACE and three
    WRITE(6) of one full chunk each: no WRITE FILEMARKS. *)
Theorem cancel_after_three_chunks (w : IoWorld) (d : Scsi.Private)
    (item : TransferItem) (content : QByteArray)
    (b3 : list Action) (later : list (list Action)) :
  isDirectory item = false ->
  readable (env w) (sourcePath item) = true ->
  fs_lookup (sourcePath item) (files w) = Some content ->
  size content = 10 * MiB ->
  blockSize (options w) = 512 * KiB ->
  (forall n, (n < 3)%nat -> readFault (env w) n = false) ->
  healthy (device w) d ->
  cancelled w = false -> paused w = false ->
  pending w = [] :: [] :: b3 :: later ->
  In DoCancel b3 ->
  let c0 := chunk (512 * KiB) 0 content in
  let c1 := chunk (512 * KiB) 1 content in
  let c2 := chunk (512 * KiB) 2 content in
  let new := [Tape.locateHdr d 1 0; spaceHdr d 3 0;
              writeHdr d c0; writeHdr d c1; writeHdr d c2] in
  exists item' w',
    writeFileToTape item w = (Some (false, item'), w')
    /\ itemStatus item' = Cancelled
    /\ bytesTransferred item' = 3 * (512 * KiB)
    /\ completedBytes w' = completedBytes w + 3 * (512 * KiB)
    /\ size c0 = 512 * KiB /\ size c1 = 512 * KiB /\ size c2 = 512 * KiB
    /\ Tape.issued (device w') = Tape.issued (device w) ++ new
    /\ forallb (fun h => negb (isFilemarkCmd h)) new = true.
Proof.
  intros Hdir Hrd Hfs Hsz Hbs Hrf Hh Hc Hp Hpend Hb3. cbv zeta.
  unfold KiB, MiB in *.
  unfold writeFileToTape. rewrite Hdir, Hrd, Hfs.
  (* the optional source hash *)
  match goal with
  | |- context [let '(i, x) := ?X in @?k i x] =>
      assert (F : let w1 := snd X in
                  env w1 = env w /\ device w1 = device w
                  /\ options w1 = options w
                  /\ paused w1 = paused w /\ cancelled w1 = cancelled w
                  /\ completedBytes w1 = completedBytes w
                  /\ pending w1 = pending w);
      [ | destruct X as [item1 w1] ]
  end.
  { cbv zeta. destruct (verifyAfterWrite (options w)); [| cbn; tauto].
    pose proof (hashFile_frame (sourcePath item) w) as HF. cbv zeta in HF.
    destruct (hashFile (sourcePath item) w) as [h wh].
    destruct (hashSuccess h); exact HF. }
  cbv zeta in F. cbn [snd] in F.
  destruct F as (F1 & F2 & F3 & F4 & F5 & F6 & F7).
  (* seek to the end of the data partition *)
  assert (Hh1 : healthy (device w1) d) by (rewrite F2; exact Hh).
  destruct (seekToEnd_good (device w1) d 1 Hh1) as (K1 & K2 & K3).
  unfold onDevice at 1.
  destruct (Tape.seekToEnd 1 (device w1)) as [ok dev2].
  cbn [fst snd] in K1, K2, K3. subst ok. cbn [negb].
  set (w2 := set_device dev2 w1).
  assert (E2 : env w2 = env w) by exact F1.
  assert (O2 : options w2 = options w) by exact F3.
  set (bs := 512 * 1024) in *.
  assert (Hbs' : 0 < bs < 2 ^ 32) by (unfold bs; lia).
  destruct (List.length content) as [|[|[|l3]]] eqn:EL;
    try (exfalso; unfold size in Hsz; rewrite EL in Hsz; lia).
  assert (Z0 : 0 <= bs) by lia.
  assert (S1 : size (skipn (Z.to_nat bs) content) = 10 * (1024 * 1024) - bs).
  { rewrite size_skipn; unfold bs in *; lia. }
  assert (S2 : size (skipn (Z.to_nat bs) (skipn (Z.to_nat bs) content))
               = 10 * (1024 * 1024) - 2 * bs).
  { rewrite size_skipn; unfold bs in *; lia. }
  assert (S3 : size (skipn (Z.to_nat bs)
                       (skipn (Z.to_nat bs) (skipn (Z.to_nat bs) content)))
               = 10 * (1024 * 1024) - 3 * bs).
  { rewrite size_skipn; unfold bs in *; lia. }
  (* first chunk *)
  destruct (writeLoop_full_chunk (S (S (S l3))) content 0 0 (size content)
              item1 w2 d [] ([] :: b3 :: later) bs Hbs')
    as (w3 & L3 & E3 & O3 & H3 & I3 & B3 & P3 & _ & Q3);
    try (cbn [w2 set_device options cancelled paused env pending device];
         congruence).
  { rewrite Hsz. unfold bs. lia. }
  { rewrite E2. apply Hrf. lia. }
  destruct (Q3 eq_refl) as [C3 Pz3].
  (* second chunk *)
  destruct (writeLoop_full_chunk (S (S l3)) (skipn (Z.to_nat bs) content)
              1 (0 + bs) (size content)
              (set_transferred (0 + bs) item1) w3 d [] (b3 :: later)
              bs Hbs')
    as (w4 & L4 & E4 & O4 & H4 & I4 & B4 & P4 & _ & Q4);
    try congruence.
  { rewrite S1. unfold bs. lia. }
  { rewrite E3, E2. apply Hrf. lia. }
  destruct (Q4 eq_refl) as [C4 Pz4].
  (* third chunk, after which cancel() arrives *)
  destruct (writeLoop_full_chunk (S l3)
              (skipn (Z.to_nat bs) (skipn (Z.to_nat bs) content))
              2 (0 + bs + bs) (size content)
              (set_transferred (0 + bs + bs)
                               (set_transferred (0 + bs) item1))
              w4 d b3 later bs Hbs')
    as (w5 & L5 & E5 & O5 & H5 & I5 & B5 & P5 & Q5 & _);
    try congruence.
  { rewrite S2. unfold bs. lia. }
  { rewrite E4, E3, E2. apply Hrf. lia. }
  specialize (Q5 Hb3).
  rewrite L3, L4, L5.
  (* the round that sees the flag *)
  assert (Hrest :
    skipn (Z.to_nat bs) (skipn (Z.to_nat bs) (skipn (Z.to_nat bs) content))
    <> []).
  { apply size_pos_nonempty. rewrite S3. unfold bs. lia. }
  cbn [writeLoop]. rewrite (isEmpty_false _ Hrest), Q5.
  eexists. eexists. split; [reflexivity |].
  cbn [itemStatus bytesTransferred set_status set_transferred].
  split; [reflexivity |]. split; [unfold bs; lia |].
  split; [rewrite B5, B4, B3; cbn [w2 set_device completedBytes];
          rewrite F6; unfold bs; lia |].
  unfold chunk. cbv [Nat.iter nat_rect]. fold bs.
  split; [apply size_firstn; [lia | rewrite Hsz; unfold bs; lia] |].
  split; [apply size_firstn; [lia | rewrite S1; unfold bs; lia] |].
  split; [apply size_firstn; [lia | rewrite S2; unfold bs; lia] |].
  split.
  - rewrite I5, I4, I3. cbn [w2 set_device device]. rewrite K3, F2.
    rewrite <- !List.app_assoc. reflexivity.
  - reflexivity.
Qed.
Lemma yield_frame w :
  env (snd (yield w)) = env w /\ options (snd (yield w)) = options w
  /\ device (snd (yield w)) = device w
  /\ files (snd (yield w)) = files w /\ ioLog (snd (yield w)) = ioLog w.
Proof.
  unfold yield. destruct (pending w) as [|b ps]; [cbn; tauto |].
  cbn [snd].
  destruct (fold_act_frame b (set_pending ps w))
    as (A1 & A2 & A3 & A4 & A5 & A6 & A7).
  cbv zeta in *. rewrite A1, A2, A3, A5, A7. cbn. tauto.
Qed.

Lemma pauseWait_frame fuel w :
  env (snd (pauseWait fuel w)) = env w
  /\ options (snd (pauseWait fuel w)) = options w
  /\ device (snd (pauseWait fuel w)) = device w
  /\ files (snd (pauseWait fuel w)) = files w
  /\ ioLog (snd (pauseWait fuel w)) = ioLog w.
Proof.
  revert w. induction fuel as [|fuel IH]; intros w; cbn [pauseWait].
  - destruct (negb (paused w)); cbn; tauto.
  - destruct (negb (paused w)); [cbn; tauto |].
    destruct (pending w) as [|b ps] eqn:EP; [cbn; tauto |].
    pose proof (yield_frame w) as Y.
    destruct (yield w) as [u w1]. cbn [snd] in Y.
    destruct Y as (Y1 & Y2 & Y3 & Y4 & Y5).
    destruct (cancelled w1); [cbn; tauto |].
    destruct (IH w1) as (I1 & I2 & I3 & I4 & I5).
    rewrite I1, I2, I3, I4, I5. tauto.
Qed.

Ltac frame_goal :=
  unfold readExit, removeDest;
  cbn [fst snd env options ioLog io_log set_files set_device
       set_completedBytes destPath sourceHash itemStatus errorMessage
       fail set_status set_error].

Lemma readLoop_exit fuel :
  forall n total expected buffer item0 item w,
    destPath item = destPath item0 -> sourceHash item = sourceHash item0 ->
    readExit item0 w (fst (readLoop fuel n total expected buffer item w))
             (snd (readLoop fuel n total expected buffer item w)).
Proof.
  induction fuel as [|fuel IH]; intros n total expected buffer item0 item w
    Hd Hs; cbn [readLoop].
  - frame_goal. split; [reflexivity |]. split; [reflexivity |].
    exists []. rewrite List.app_nil_r. split; [reflexivity | intros []].
  - destruct (negb (total <? expected)).
    { frame_goal. split; [reflexivity |]. split; [reflexivity |].
      exists []. rewrite List.app_nil_r. split; [reflexivity |].
      split; [exact Hd |]. split; [exact Hs |]. intros []. }
    destruct (cancelled w).
    { frame_goal. split; [reflexivity |]. split; [reflexivity |].
      exists [FileRemoved (destPath item)]. split; [reflexivity |].
      split; [exact Hd |]. split; [exact Hs |]. intros _. left. reflexivity. }
    pose proof (pauseWait_frame (S (List.length (pending w))) w) as PF.
    destruct (pauseWait (S (List.length (pending w))) w) as [pw w1].
    cbn [snd] in PF. destruct PF as (P1 & P2 & P3 & P4 & P5).
    destruct pw as [[|]|].
    + frame_goal. rewrite P1, P2, P5.
      split; [reflexivity |]. split; [reflexivity |].
      exists [FileRemoved (destPath item)]. split; [reflexivity |].
      split; [exact Hd |]. split; [exact Hs |]. intros _. left. reflexivity.
    + unfold onDevice.
      destruct (Tape.readBlock buffer _ (device w1))
        as [[bytesRead buffer'] dev2].
      destruct (bytesRead <? 0).
      { frame_goal. rewrite P1, P2, P5.
        split; [reflexivity |]. split; [reflexivity |].
        exists [FileRemoved (destPath item)]. split; [reflexivity |].
        split; [exact Hd |]. split; [exact Hs |]. intros _. right.
        split; [reflexivity |]. eexists. left. reflexivity. }
      destruct (bytesRead =? 0).
      { frame_goal. rewrite P1, P2, P5.
        split; [reflexivity |]. split; [reflexivity |].
        exists []. rewrite List.app_nil_r. split; [reflexivity |].
        split; [exact Hd |]. split; [exact Hs |]. intros []. }
      cbn [env set_device].
      destruct (writeFault (env w1) n).
      { frame_goal. rewrite P1, P2, P5.
        split; [reflexivity |]. split; [reflexivity |].
        exists [FileRemoved (destPath item)]. split; [reflexivity |].
        split; [exact Hd |]. split; [exact Hs |]. intros _. right.
        split; [reflexivity |]. eexists. right. reflexivity. }
      match goal with |- context [yield ?x] =>
        pose proof (yield_frame x) as Y; destruct (yield x) as [u w4]
      end.
      cbn [snd] in Y. destruct Y as (Y1 & Y2 & Y3 & Y4 & Y5).
      cbn [env options ioLog io_log set_completedBytes set_files set_device]
        in Y1, Y2, Y5.
      match goal with |- context [readLoop fuel ?a ?b ?c ?e ?i w4] =>
        pose proof (IH a b c e item0 i w4 Hd Hs) as R;
        destruct (readLoop fuel a b c e i w4) as [ex w5]
      end.
      cbn [fst snd] in *. unfold readExit in *.
      destruct R as (R1 & R2 & new & R3 & R4).
      rewrite R1, R2, Y1, Y2, P1, P2.
      split; [reflexivity |]. split; [reflexivity |].
      rewrite R3, Y5, P5.
      match goal with |- context [(ioLog w ++ [?e]) ++ new] =>
        exists (e :: new)
      end.
      split; [rewrite <- List.app_assoc; reflexivity |].
      destruct ex as [it|it|it].
      * destruct R4 as (Q1 & Q2 & Q3). split; [exact Q1 |].
        split; [exact Q2 |]. intros [C|C]; [discriminate | auto].
      * destruct R4 as (Q1 & Q2 & Q3). split; [exact Q1 |].
        split; [exact Q2 |]. intros [C|C]; [discriminate | auto].
      * intros [C|C]; [discriminate | auto].
    + frame_goal. rewrite P1, P2, P5.
      split; [reflexivity |]. split; [reflexivity |].
      exists []. rewrite List.app_nil_r. split; [reflexivity | intros []].
Qed.
Lemma receiveFile_exit item w :
  readExit item w (fst (receiveFile item w)) (snd (receiveFile item w)).
Proof.
  unfold receiveFile.
  destruct (createDirectories (options w)
            && negb (mkpathOk (env w) (destPath item))).
  { frame_goal. split; [reflexivity |]. split; [reflexivity |].
    exists []. rewrite List.app_nil_r. split; [reflexivity |].
    split; [reflexivity |]. split; [reflexivity |]. intros []. }
  destruct (negb (destWritable (env w) (destPath item))).
  { frame_goal. split; [reflexivity |]. split; [reflexivity |].
    exists []. rewrite List.app_nil_r. split; [reflexivity |].
    split; [reflexivity |]. split; [reflexivity |]. intros []. }
  match goal with |- context [readLoop ?f ?a ?b ?c ?e item ?x] =>
    pose proof (readLoop_exit f a b c e item item x eq_refl eq_refl) as R
  end.
  exact R.
Qed.

Lemma hashFailed_not_io (reason : string) :
  hashFailed <> ("Read error: " ++ reason)%string
  /\ hashFailed <> ("Write error: " ++ reason)%string.
Proof. split; discriminate. Qed.



Lemma completes_goodDrive : completes Tape.goodDrive.
Proof. intros hist h. cbn. tauto. Qed.

Lemma size_tenMiB : size tenMiB = 10 * MiB.
Proof.
  unfold tenMiB, size. rewrite List.repeat_length. apply Z2Nat.id.
  unfold MiB. lia.
Qed.

Lemma cancel_after_three_chunks_witness :
  isDirectory cancelItem = false
  /\ size tenMiB = 10 * MiB
  /\ blockSize (options cancelWorld) = 512 * KiB
  /\ healthy (device cancelWorld) (opened 3)
  /\ pending cancelWorld = [[]; []; [DoCancel]]
  /\ exists item' w',
       writeFileToTape cancelItem cancelWorld = (Some (false, item'), w')
       /\ itemStatus item' = Cancelled
       /\ bytesTransferred item' = 3 * (512 * KiB).
Proof.
  assert (Hh : healthy (device cancelWorld) (opened 3)).
  { split; [reflexivity |]. split; [reflexivity |].
    exact completes_goodDrive. }
  split; [reflexivity |]. split; [exact size_tenMiB |].
  split; [reflexivity |]. split; [exact Hh |]. split; [reflexivity |].
  destruct (cancel_after_three_chunks cancelWorld (opened 3) cancelItem
              tenMiB [DoCancel] [] eq_refl eq_refl eq_refl size_tenMiB
              eq_refl (fun _ _ => eq_refl) Hh eq_refl eq_refl eq_refl
              (or_introl eq_refl))
    as (item' & w' & R & S1 & B1 & _).
  exists item', w'. split; [exact R |]. split; [exact S1 | exact B1].
Defined.



End TransferFacts.

(** ** Text forms *)
Module TextFacts.
Import Ltfs Xml IndexWriter IndexParser WellFormed.

Lemma to_uint_not_nil (p : positive) : Pos.to_uint p <> Decimal.Nil.
Proof.
  intro H.
  pose proof (DecimalPos.Unsigned.of_to p) as E.
  rewrite H in E. discriminate E.
Qed.

Lemma toULongLong_number (v : Z) :
  inU64 v = true -> QStr.toULongLong (QStr.number v) = v.
Proof.
  unfold inU64. intro H. apply andb_true_iff in H. destruct H as [H0 H1].
  apply Z.leb_le in H0.
  unfold QStr.toULongLong, QStr.number.
  destruct v as [|p|p]; [reflexivity| |lia].
  cbn [Z.to_int NilZero.string_of_int].
  rewrite NilZero.usu by apply to_uint_not_nil.
  unfold N.of_uint. rewrite DecimalPos.Unsigned.of_to.
  cbn [Z.of_N]. rewrite H1. reflexivity.
Qed.

Lemma toLongLong_number (v : Z) :
  inI64 v = true -> QStr.toLongLong (QStr.number v) = v.
Proof.
  unfold inI64. intro H.
  unfold QStr.toLongLong, QStr.number.
  rewrite NilZero.isi.
  - rewrite DecimalZ.of_to. rewrite H. reflexivity.
  - destruct v; cbn [Z.to_int]; try discriminate.
    intro E. injection E as E. exact (to_uint_not_nil _ E).
  - destruct v; cbn [Z.to_int]; try discriminate.
    intro E. injection E as E. exact (to_uint_not_nil _ E).
Qed.

Lemma parsePartition_formatPartition (p : PartitionLabel) :
  parsePartition (formatPartition p) = p.
Proof. destruct p; reflexivity. Qed.

Lemma parseBoolean_formatBoolean (b : bool) :
  parseBoolean (formatBoolean b) = b.
Proof. destruct b; reflexivity. Qed.

Lemma append_assoc (a b c : string) :
  ((a ++ b) ++ c = a ++ (b ++ c))%string.
Proof. induction a as [|x a IH]; cbn; [reflexivity | now rewrite IH]. Qed.

Lemma append_nil_r (a : string) : (a ++ "")%string = a.
Proof. induction a as [|x a IH]; cbn; [reflexivity | now rewrite IH]. Qed.

Lemma length_append (a b : string) :
  String.length (a ++ b) = (String.length a + String.length b)%nat.
Proof. induction a as [|x a IH]; cbn; [reflexivity | now rewrite IH]. Qed.

Lemma substring_all (a b : string) :
  substring 0 (String.length a) (a ++ b) = a.
Proof. induction a as [|x a IH]; cbn; [now destruct b | now rewrite IH]. Qed.

Lemma substring_tail (a b : string) :
  substring (String.length a) (String.length b) (a ++ b) = b.
Proof.
  induction a as [|x a IH]; cbn; [|exact IH].
  pose proof (substring_all b "") as E. rewrite append_nil_r in E. exact E.
Qed.

Lemma endsWith_Z (a : string) : QStr.endsWith "Z" (a ++ "Z") = true.
Proof.
  unfold QStr.endsWith. rewrite length_append. cbn [String.length].
  replace (String.length a + 1 - 1)%nat with (String.length a) by lia.
  pose proof (substring_tail a "Z") as E. cbn [String.length] in E.
  rewrite E.
  replace (1 <=? String.length a + 1)%nat with true
    by (symmetry; apply Nat.leb_le; lia).
  reflexivity.
Qed.

Lemma chop_Z (a : string) : QStr.chop 1 (a ++ "Z") = a.
Proof.
  unfold QStr.chop. rewrite length_append. cbn [String.length].
  replace (String.length a + 1 - 1)%nat with (String.length a) by lia.
  apply substring_all.
Qed.


Lemma digitVal_digitChar base v :
  (base = 10 \/ base = 16) -> 0 <= v < base ->
  QText.digitVal base (QText.digitChar v) = Some v.
Proof.
  intros Hb H.
  assert (C : v = 0 \/ v = 1 \/ v = 2 \/ v = 3 \/ v = 4 \/ v = 5 \/ v = 6
          \/ v = 7 \/ v = 8 \/ v = 9 \/ v = 10 \/ v = 11 \/ v = 12 \/ v = 13
          \/ v = 14 \/ v = 15) by lia.
  destruct Hb as [-> | ->];
    repeat (destruct C as [->|C]; [try reflexivity; lia |]);
    subst; try reflexivity; lia.
Qed.

Lemma digits_padded base n : forall v acc rest,
  (base = 10 \/ base = 16) ->
  0 <= v < base ^ Z.of_nat n ->
  QText.digits base n acc (QText.padded base n v ++ rest)
  = Some (acc * base ^ Z.of_nat n + v, rest).
Proof.
  induction n as [|k IH]; intros v acc rest Hb H.
  - cbn in *. f_equal. f_equal. lia.
  - cbn [QText.padded QText.digits append].
    assert (B : 1 < base) by (destruct Hb; lia).
    assert (P : 0 < base ^ Z.of_nat k) by (apply Z.pow_pos_nonneg; lia).
    assert (E : base ^ Z.of_nat (S k) = base * base ^ Z.of_nat k).
    { rewrite Nat2Z.inj_succ, Z.pow_succ_r by lia. reflexivity. }
    rewrite E in H.
    assert (Q : 0 <= v / base ^ Z.of_nat k < base).
    { split; [apply Z.div_pos; lia |]. apply Z.div_lt_upper_bound; nia. }
    rewrite (digitVal_digitChar _ _ Hb Q).
    rewrite IH by (try assumption; apply Z.mod_pos_bound; lia).
    f_equal. f_equal. rewrite E.
    pose proof (Z.div_mod v (base ^ Z.of_nat k)). nia.
Qed.

(** Reading back [n] digits written in front of [rest]. *)
Lemma digits_dec (n : nat) (v : Z) (rest : string) :
  0 <= v < 10 ^ Z.of_nat n ->
  QText.digits 10 n 0 (QText.padded 10 n v ++ rest) = Some (v, rest).
Proof.
  intro H. rewrite digits_padded by (auto; lia). reflexivity.
Qed.

Lemma digits_hex (n : nat) (v : Z) (rest : string) :
  0 <= v < 16 ^ Z.of_nat n ->
  QText.digits 16 n 0 (QText.padded 16 n v ++ rest) = Some (v, rest).
Proof.
  intro H. rewrite digits_padded by (auto; lia). reflexivity.
Qed.

Lemma expect_same (c : ascii) (rest : string) :
  QText.expect c (String c rest) = Some rest.
Proof. unfold QText.expect. now rewrite Ascii.eqb_refl. Qed.

Lemma daysInMonth_le (y m : Z) : daysInMonth y m <= 31.
Proof.
  destruct (Z.leb_spec 1 m) as [L|L].
  - destruct (Z.leb_spec m 12) as [U|U].
    + assert (C : m = 1 \/ m = 2 \/ m = 3 \/ m = 4 \/ m = 5 \/ m = 6 \/ m = 7
               \/ m = 8 \/ m = 9 \/ m = 10 \/ m = 11 \/ m = 12) by lia.
      repeat (destruct C as [->|C]; [cbn; try destruct (isLeapYear y); lia|]).
      subst. cbn. lia.
    + destruct m as [|p|p]; try lia.
      do 4 (destruct p as [p|p|]; try (cbn; lia)).
  - destruct m as [|p|p]; cbn; lia.
Qed.

Lemma wfTime_ranges y mo d h mi s ms :
  wfTime (UtcDateTime y mo d h mi s ms) = true ->
  isValid (UtcDateTime y mo d h mi s ms) = true
  /\ 1 <= y <= 9999 /\ 1 <= mo <= 12 /\ 1 <= d <= 31 /\ 0 <= h < 24
  /\ 0 <= mi < 60 /\ 0 <= s < 60 /\ 0 <= ms < 1000.
Proof.
  unfold wfTime. intro H.
  apply andb_true_iff in H. destruct H as [H Hy2].
  apply andb_true_iff in H. destruct H as [V Hy1].
  split; [exact V|].
  unfold isValid in V.
  repeat (apply andb_true_iff in V; destruct V as [V ?]).
  pose proof (daysInMonth_le y mo).
  repeat match goal with
         | H : (_ <=? _) = true |- _ => apply Z.leb_le in H
         | H : (_ <? _) = true |- _ => apply Z.ltb_lt in H
         end.
  lia.
Qed.

Lemma formatYear_padded (y : Z) :
  1 <= y <= 9999 -> formatYear y = QText.padded 10 4 y.
Proof.
  intro H. unfold formatYear.
  replace (0 <=? y) with true by (symmetry; apply Z.leb_le; lia).
  replace (y <=? 9999) with true by (symmetry; apply Z.leb_le; lia).
  reflexivity.
Qed.

(** A well-formed time comes back from its text form. *)
Lemma parseTimestamp_formatTimestamp (now dt : QDateTime) :
  wfTime dt = true -> parseTimestamp now (formatTimestamp now dt) = dt.
Proof.
  destruct dt as [|y mo d h mi s ms]; [discriminate|].
  intro W. apply wfTime_ranges in W.
  destruct W as (V & Hy & Hmo & Hd & Hh & Hmi & Hs & Hms).
  unfold formatTimestamp. rewrite V. rewrite (formatYear_padded _ Hy).
  set (tail := if 0 <? ms then ("." ++ QText.padded 10 3 ms ++ "")%string
               else ""%string).
  set (body := (QText.padded 10 4 y ++ "-" ++ QText.padded 10 2 mo ++ "-"
                ++ QText.padded 10 2 d ++ "T" ++ QText.padded 10 2 h ++ ":"
                ++ QText.padded 10 2 mi ++ ":" ++ QText.padded 10 2 s
                ++ tail)%string).
  match goal with
  | |- parseTimestamp _ ?t = _ =>
      assert (E : t = (body ++ "Z")%string)
  end.
  { unfold body, tail. rewrite !append_assoc.
    destruct (0 <? ms); rewrite ?append_assoc; cbn [append]; reflexivity. }
  rewrite E. clear E.
  unfold parseTimestamp. rewrite endsWith_Z, chop_Z.
  unfold civilTime, body.
  rewrite digits_dec by (cbn; lia). cbn [append]. rewrite expect_same.
  rewrite digits_dec by (cbn; lia). cbn [append]. rewrite expect_same.
  rewrite digits_dec by (cbn; lia). cbn [append]. rewrite expect_same.
  rewrite digits_dec by (cbn; lia). cbn [append]. rewrite expect_same.
  rewrite digits_dec by (cbn; lia). cbn [append]. rewrite expect_same.
  rewrite digits_dec by (cbn; lia).
  unfold tail. destruct (Z.ltb_spec 0 ms) as [P|P].
  - cbn [append]. rewrite expect_same.
    rewrite digits_dec by (cbn; lia).
    cbn [isEmptyText andb]. rewrite V. reflexivity.
  - assert (ms = 0) by lia. subst ms.
    cbn [isEmptyText andb]. rewrite V. reflexivity.
Qed.

(** A UUID comes back from its text form. *)
Lemma uuidFromString_uuidToString (u : QUuid) :
  wfUuid u = true -> uuidFromString (uuidToString u) = u.
Proof.
  destruct u as [a b c d e]. unfold wfUuid. cbn [timeLow timeMid timeHigh clockSeq node].
  intro W.
  repeat (apply andb_true_iff in W; destruct W as [W ?]).
  repeat match goal with
         | H : (_ <=? _) = true |- _ => apply Z.leb_le in H
         | H : (_ <? _) = true |- _ => apply Z.ltb_lt in H
         end.
  unfold uuidFromString, uuidToString.
  cbn [timeLow timeMid timeHigh clockSeq node].
  rewrite digits_hex by (cbn; lia). cbn [append]. rewrite expect_same.
  rewrite digits_hex by (cbn; lia). cbn [append]. rewrite expect_same.
  rewrite digits_hex by (cbn; lia). cbn [append]. rewrite expect_same.
  rewrite digits_hex by (cbn; lia). cbn [append]. rewrite expect_same.
  rewrite <- (append_nil_r (QText.padded 16 12 e)).
  rewrite digits_hex by (cbn; lia).
  reflexivity.
Qed.

(** *** Texts that the XML form carries *)

Lemma plainChar_writable (c : ascii) : plainChar c = true -> writable c = true.
Proof.
  unfold plainChar, writable. intro H.
  destruct (nat_of_ascii c =? 9)%nat; [reflexivity|].
  destruct (nat_of_ascii c =? 10)%nat; [reflexivity|].
  cbn [orb] in *. rewrite H. apply orb_true_r.
Qed.

Lemma plainChar_not_return (c : ascii) :
  plainChar c = true -> Ascii.eqb c carriageReturn = false.
Proof.
  intro H. destruct (Ascii.eqb_spec c carriageReturn) as [->|]; [|reflexivity].
  discriminate H.
Qed.

Lemma wfText_attributeValue (s : string) :
  wfText s = true -> wfAttributeValue s = true.
Proof.
  induction s as [|c s IH]; [reflexivity|].
  cbn [wfText wfAttributeValue]. intro H.
  apply andb_true_iff in H. destruct H as [Hc Hs].
  rewrite (plainChar_writable _ Hc), (IH Hs). reflexivity.
Qed.

(** An attribute value of writable characters is written as it is. *)
Lemma escaped_wfAttributeValue (s : string) :
  wfAttributeValue s = true -> escaped s = s.
Proof.
  induction s as [|c s IH]; [reflexivity|].
  cbn [wfAttributeValue escaped]. intro H.
  apply andb_true_iff in H. destruct H as [Hc Hs].
  rewrite Hc, (IH Hs). reflexivity.
Qed.

Lemma lineEnds_wfText (s : string) : wfText s = true -> lineEnds s = s.
Proof.
  induction s as [|c s IH]; [reflexivity|].
  cbn [wfText lineEnds]. intro H.
  apply andb_true_iff in H. destruct H as [Hc Hs].
  rewrite (plainChar_not_return _ Hc), (IH Hs). reflexivity.
Qed.

(** A text of plain characters is reported as it was handed over. *)
Lemma received_wfText (s : string) : wfText s = true -> received s = s.
Proof.
  intro H. unfold received.
  rewrite (escaped_wfAttributeValue s (wfText_attributeValue s H)).
  apply lineEnds_wfText. exact H.
Qed.

Lemma wfText_append (a b : string) :
  wfText a = true -> wfText b = true -> wfText (a ++ b) = true.
Proof.
  intros Ha Hb. induction a as [|c a IH]; [exact Hb|].
  cbn [append wfText] in *.
  apply andb_true_iff in Ha. destruct Ha as [Hc Ha].
  rewrite Hc, (IH Ha). reflexivity.
Qed.

Lemma plainChar_digitChar (v : Z) :
  0 <= v < 16 -> plainChar (QText.digitChar v) = true.
Proof.
  intro H.
  assert (C : v = 0 \/ v = 1 \/ v = 2 \/ v = 3 \/ v = 4 \/ v = 5 \/ v = 6
          \/ v = 7 \/ v = 8 \/ v = 9 \/ v = 10 \/ v = 11 \/ v = 12 \/ v = 13
          \/ v = 14 \/ v = 15) by lia.
  repeat (destruct C as [->|C]; [reflexivity |]).
  subst. reflexivity.
Qed.

Lemma wfText_padded base n : forall v,
  (base = 10 \/ base = 16) ->
  0 <= v < base ^ Z.of_nat n ->
  wfText (QText.padded base n v) = true.
Proof.
  induction n as [|k IH]; intros v Hb H; [reflexivity|].
  cbn [QText.padded wfText].
  assert (B : 1 < base) by (destruct Hb; lia).
  assert (P : 0 < base ^ Z.of_nat k) by (apply Z.pow_pos_nonneg; lia).
  assert (E : base ^ Z.of_nat (S k) = base * base ^ Z.of_nat k).
  { rewrite Nat2Z.inj_succ, Z.pow_succ_r by lia. reflexivity. }
  rewrite E in H.
  assert (Q : 0 <= v / base ^ Z.of_nat k < base).
  { split; [apply Z.div_pos; lia |]. apply Z.div_lt_upper_bound; nia. }
  rewrite plainChar_digitChar by (destruct Hb; lia).
  rewrite IH by (try assumption; apply Z.mod_pos_bound; lia).
  reflexivity.
Qed.

Lemma wfText_digits (d : Decimal.uint) :
  wfText (NilEmpty.string_of_uint d) = true.
Proof.
  induction d as [|d IH|d IH|d IH|d IH|d IH|d IH|d IH|d IH|d IH|d IH];
    [reflexivity | ..];
    cbn [NilEmpty.string_of_uint wfText]; rewrite IH; reflexivity.
Qed.

Lemma wfText_uint (d : Decimal.uint) :
  wfText (NilZero.string_of_uint d) = true.
Proof.
  unfold NilZero.string_of_uint.
  destruct d; [reflexivity | ..]; apply wfText_digits.
Qed.

Lemma wfText_number (v : Z) : wfText (QStr.number v) = true.
Proof.
  unfold QStr.number, NilZero.string_of_int.
  destruct (Z.to_int v) as [d|d]; [apply wfText_uint|].
  cbn [wfText]. rewrite wfText_uint. reflexivity.
Qed.

Lemma received_number (v : Z) : received (QStr.number v) = QStr.number v.
Proof. apply received_wfText, wfText_number. Qed.

Lemma received_formatPartition (p : PartitionLabel) :
  received (formatPartition p) = formatPartition p.
Proof. destruct p; reflexivity. Qed.

Lemma received_formatBoolean (b : bool) :
  received (formatBoolean b) = formatBoolean b.
Proof. destruct b; reflexivity. Qed.

Lemma received_formatTimestamp (now dt : QDateTime) :
  wfTime dt = true ->
  received (formatTimestamp now dt) = formatTimestamp now dt.
Proof.
  destruct dt as [|y mo d h mi s ms]; [discriminate|].
  intro W. apply wfTime_ranges in W.
  destruct W as (V & Hy & Hmo & Hd & Hh & Hmi & Hs & Hms).
  apply received_wfText.
  unfold formatTimestamp. rewrite V. rewrite (formatYear_padded _ Hy).
  repeat (apply wfText_append;
          [first [ apply wfText_padded; [auto | cbn; lia] | reflexivity ] |]).
  destruct (0 <? ms); cbn [append]; [|reflexivity].
  cbn [wfText]. apply andb_true_iff. split; [reflexivity|].
  apply wfText_append; [apply wfText_padded; [auto | cbn; lia] | reflexivity].
Qed.

Lemma received_uuidToString (u : QUuid) :
  wfUuid u = true -> received (uuidToString u) = uuidToString u.
Proof.
  destruct u as [a b c d e]. unfold wfUuid.
  cbn [timeLow timeMid timeHigh clockSeq node].
  intro W.
  repeat (apply andb_true_iff in W; destruct W as [W ?]).
  repeat match goal with
         | H : (_ <=? _) = true |- _ => apply Z.leb_le in H
         | H : (_ <? _) = true |- _ => apply Z.ltb_lt in H
         end.
  apply received_wfText. unfold uuidToString.
  cbn [timeLow timeMid timeHigh clockSeq node].
  repeat (apply wfText_append;
          [first [ apply wfText_padded; [auto | cbn; lia] | reflexivity ] |]).
  apply wfText_padded; [auto | cbn; lia].
Qed.

End TextFacts.

(** ** The element loop *)
Module LoopFacts.
Import Ltfs Xml IndexWriter IndexParser WellFormed Progress TextFacts.

Section Loop.
Context {A : Type}.
Variable closes : string -> bool.
Variable finish : A -> A.
Variable handle : nat -> string -> list (string * string) -> Reader -> A ->
                  option (Reader * A).

Abbreviation runs := (Progress.runs (elementLoop closes finish handle)).
Abbreviation finishes :=
  (Progress.returns (elementLoop closes finish handle)).

Lemma runs_refl toks acc : runs toks acc toks acc.
Proof.
  split; [lia|]. intros fuel H. exists fuel. split; [exact H | reflexivity].
Qed.

Lemma runs_trans toks1 acc1 toks2 acc2 toks3 acc3 :
  runs toks1 acc1 toks2 acc2 -> runs toks2 acc2 toks3 acc3 ->
  runs toks1 acc1 toks3 acc3.
Proof.
  intros [L1 R1] [L2 R2]. split; [lia|]. intros fuel H.
  destruct (R1 fuel H) as (fuel1 & H1 & E1).
  destruct (R2 fuel1 H1) as (fuel2 & H2 & E2).
  exists fuel2. split; [exact H2 | congruence].
Qed.

Lemma runs_finishes toks1 acc1 toks2 acc2 r :
  runs toks1 acc1 toks2 acc2 -> finishes toks2 acc2 r ->
  finishes toks1 acc1 r.
Proof.
  intros [L1 R1] [L2 F]. split; [lia|]. intros fuel H.
  destruct (R1 fuel H) as (fuel1 & H1 & E1).
  rewrite E1. apply F. exact H1.
Qed.

Lemma finishes_eq toks acc r r' :
  finishes toks acc r -> r = r' -> finishes toks acc r'.
Proof. intros F <-. exact F. Qed.

(** Text, and the document's start and end, are passed over. *)
Lemma runs_characters text rest acc :
  runs (Characters text :: rest) acc rest acc.
Proof.
  split; [cbn [List.length]; lia|].
  intros [|fuel] H; cbn [List.length] in H; [lia|].
  exists fuel. split; [lia | reflexivity].
Qed.

Lemma runs_startDocument rest acc : runs (StartDocument :: rest) acc rest acc.
Proof.
  split; [cbn [List.length]; lia|].
  intros [|fuel] H; cbn [List.length] in H; [lia|].
  exists fuel. split; [lia | reflexivity].
Qed.


Lemma runs_indent fmt depth rest acc :
  runs (indent fmt depth ++ rest) acc rest acc.
Proof.
  destruct fmt; cbn [indent app]; [apply runs_characters | apply runs_refl].
Qed.

(** A start element goes to the handler, which leaves the reader further
    on. *)
Lemma runs_start name attrs rest acc rest' acc' :
  (forall fuel, (List.length rest < fuel)%nat ->
     handle fuel name attrs (rest, Underway) acc = Some ((rest', Underway), acc')) ->
  (List.length rest' <= List.length rest)%nat ->
  runs (StartElement name attrs :: rest) acc rest' acc'.
Proof.
  intros Hh Hl. split; [cbn [List.length]; lia|].
  intros [|fuel] H; cbn [List.length] in H; [lia|].
  exists fuel. split; [lia|].
  cbn [elementLoop atEnd hasError snd orb readNext].
  rewrite Hh by lia. reflexivity.
Qed.

(** An end element other than the awaited one is passed over. *)
Lemma runs_end name rest acc :
  closes name = false -> runs (EndElement name :: rest) acc rest acc.
Proof.
  intros Hc. split; [cbn [List.length]; lia|].
  intros [|fuel] H; cbn [List.length] in H; [lia|].
  exists fuel. split; [lia|].
  cbn [elementLoop atEnd hasError snd orb readNext].
  rewrite Hc. reflexivity.
Qed.

(** The awaited end element ends the loop. *)
Lemma finishes_end name rest acc :
  closes name = true ->
  finishes (EndElement name :: rest) acc ((rest, Underway), finish acc).
Proof.
  intros Hc. split; [cbn [List.length fst]; lia|].
  intros [|fuel] H; cbn [List.length] in H; [lia|].
  cbn [elementLoop atEnd hasError snd orb readNext].
  rewrite Hc. reflexivity.
Qed.

(** So does the end of the document. *)
Lemma finishes_endDocument rest acc :
  finishes (EndDocument :: rest) acc ((rest, Ended), acc).
Proof.
  split; [cbn [List.length fst]; lia|].
  intros [|[|fuel]] H; cbn [List.length] in H; try lia.
  reflexivity.
Qed.

(** [readElementText] on what [writeTextElement] wrote after the start
    tag. *)
Lemma readElementText_written name text rest :
  readElementText
    ((if isEmptyText (received text) then []
      else [Characters (received text)])
     ++ [EndElement name] ++ rest, Underway)
  = (received text, (rest, Underway)).
Proof.
  unfold readElementText. cbn [snd fst].
  destruct (received text) as [|c t]; reflexivity.
Qed.

(** A text element stored by [set]. *)
Lemma runs_text fmt depth name text set rest acc :
  (forall fuel xml a, handle fuel name [] xml a = textField set xml a) ->
  runs (writeTextElement fmt depth name text ++ rest) acc
       rest (set (received text) acc).
Proof.
  intro Hh. unfold writeTextElement.
  rewrite <- !List.app_assoc.
  eapply runs_trans; [apply runs_indent|].
  cbn [app].
  apply runs_start.
  - intros fuel _. rewrite Hh. unfold textField.
    change (EndElement name :: rest) with ([EndElement name] ++ rest).
    rewrite readElementText_written. reflexivity.
  - rewrite List.length_app. cbn [List.length]. lia.
Qed.

(** A child element with a parsing function of its own. *)
Lemma runs_nested {B : Type} fmt depth name
    (parser : nat -> Reader -> B -> option (Reader * B)) initial
    (store : B -> A -> A) toks rest v acc :
  (forall fuel xml a,
     handle fuel name [] xml a = nested parser fuel xml initial store a) ->
  returns parser toks initial ((rest, Underway), v) ->
  runs (indent fmt depth ++ StartElement name [] :: toks) acc
       rest (store v acc).
Proof.
  intros Hh [L P].
  eapply runs_trans; [apply runs_indent|].
  apply runs_start; [|exact L].
  intros fuel Hf. rewrite Hh. unfold nested. rewrite (P fuel Hf). reflexivity.
Qed.

(** A start tag on which the loop does nothing. *)
Lemma runs_open fmt depth name rest acc :
  (forall fuel xml a, handle fuel name [] xml a = Some (xml, a)) ->
  runs (indent fmt depth ++ StartElement name [] :: rest) acc rest acc.
Proof.
  intro Hh.
  eapply runs_trans; [apply runs_indent|].
  apply runs_start; [|lia].
  intros fuel _. apply Hh.
Qed.

(** An end tag the loop does not wait for. *)
Lemma runs_close fmt depth name rest acc :
  closes name = false ->
  runs (indent fmt depth ++ EndElement name :: rest) acc rest acc.
Proof.
  intro Hc. eapply runs_trans; [apply runs_indent|].
  apply runs_end. exact Hc.
Qed.

(** The end tag of the element being parsed. *)
Lemma finishes_close fmt depth name rest acc :
  closes name = true ->
  finishes (indent fmt depth ++ EndElement name :: rest) acc
           ((rest, Underway), finish acc).
Proof.
  intro Hc. eapply runs_finishes; [apply runs_indent|].
  apply finishes_end. exact Hc.
Qed.

(** An element that is written only on a condition. *)
Lemma runs_if (b : bool) toks rest acc acc' :
  (b = true -> runs (toks ++ rest) acc rest acc') ->
  runs ((if b then toks else []) ++ rest) acc
       rest (if b then acc' else acc).
Proof.
  destruct b; intro H; [apply H; reflexivity | apply runs_refl].
Qed.

(** The elements of a list, one after the other. *)
Lemma runs_each {B : Type} (write : B -> list Token) (step : B -> A -> A)
    (items : list B) :
  forall rest acc,
  (forall b, In b items ->
     forall rest acc, runs (write b ++ rest) acc rest (step b acc)) ->
  runs (flat_map write items ++ rest) acc
       rest (fold_left (fun a b => step b a) items acc).
Proof.
  induction items as [|b items IH]; intros rest acc H.
  - apply runs_refl.
  - cbn [flat_map fold_left]. rewrite <- List.app_assoc.
    eapply runs_trans.
    + apply H. left. reflexivity.
    + apply IH. intros b' Hb. apply H. right. exact Hb.
Qed.

End Loop.

(** One text element read by the loop, and one element closed. *)
Ltac text_step :=
  eapply runs_finishes;
  [ apply runs_text; intros; reflexivity | cbv beta ].

Ltac close_step := apply finishes_close; reflexivity.

Ltac split_andb :=
  repeat match goal with
         | H : (_ && _) = true |- _ =>
             apply andb_true_iff in H; destruct H
         end.

Lemma parseExtent_written fmt depth e rest :
  wfExtent e = true ->
  returns parseExtent
    (writeTextElement fmt (S depth) "partition"
       (formatPartition (extPartition e))
     ++ writeTextElement fmt (S depth) "startblock"
          (QStr.number (extStartBlock e))
     ++ writeTextElement fmt (S depth) "fileoffset"
          (QStr.number (fileOffset e))
     ++ writeTextElement fmt (S depth) "byteoffset"
          (QStr.number (byteOffset e))
     ++ writeTextElement fmt (S depth) "bytecount"
          (QStr.number (byteCount e))
     ++ indent fmt depth ++ EndElement "extent" :: rest)
    defaultExtent ((rest, Underway), e).
Proof.
  intro W. unfold wfExtent in W. split_andb.
  unfold parseExtent.
  eapply finishes_eq.
  - do 5 text_step. close_step.
  - rewrite received_formatPartition, !received_number.
    rewrite parsePartition_formatPartition, toULongLong_number,
      !toLongLong_number by assumption.
    destruct e; reflexivity.
Qed.

Lemma parseExtendedAttribute_written fmt depth a rest :
  wfExtendedAttribute a = true ->
  returns parseExtendedAttribute
    (writeTextElement fmt (S depth) "key" (key a)
     ++ writeTextElement fmt (S depth) "value" (value a)
     ++ indent fmt depth ++ EndElement "extendedattribute" :: rest)
    (mkAttribute "" "") ((rest, Underway), a).
Proof.
  intro W. unfold wfExtendedAttribute in W. split_andb.
  unfold parseExtendedAttribute.
  eapply finishes_eq.
  - do 2 text_step. close_step.
  - rewrite !received_wfText by assumption.
    destruct a; reflexivity.
Qed.

Lemma parseLocation_written fmt depth elementName l rest :
  closesLocation elementName = true ->
  inU64 (startBlock l) = true ->
  returns parseLocation
    (writeTextElement fmt (S depth) "partition"
       (formatPartition (partition l))
     ++ writeTextElement fmt (S depth) "startblock"
          (QStr.number (startBlock l))
     ++ indent fmt depth ++ EndElement elementName :: rest)
    defaultLocation ((rest, Underway), l).
Proof.
  intros C W. unfold parseLocation.
  eapply finishes_eq.
  - do 2 text_step. apply finishes_close. exact C.
  - cbn [partition startBlock].
    rewrite received_formatPartition, received_number.
    rewrite parsePartition_formatPartition, toULongLong_number by assumption.
    destruct l; reflexivity.
Qed.

End LoopFacts.

(** ** Files *)
Module FileFacts.
Import Ltfs Xml IndexWriter IndexParser WellFormed Progress TextFacts.
Import LoopFacts.

Section Children.
Context {A : Type}.
Variable closes : string -> bool.
Variable finish : A -> A.
Variable handle : nat -> string -> list (string * string) -> Reader -> A ->
                  option (Reader * A).

(** An extended attribute, in any loop that parses them. *)
Lemma runs_attribute fmt depth (store : ExtendedAttribute -> A -> A) a
    rest acc :
  wfExtendedAttribute a = true ->
  (forall fuel xml acc,
     handle fuel "extendedattribute" [] xml acc
     = nested parseExtendedAttribute fuel xml (mkAttribute "" "") store
              acc) ->
  runs (elementLoop closes finish handle)
       (writeExtendedAttribute fmt depth a ++ rest) acc rest (store a acc).
Proof.
  intros W Hh. unfold writeExtendedAttribute.
  rewrite <- !List.app_assoc. cbn [app].
  eapply runs_nested;
    [exact Hh | apply parseExtendedAttribute_written; exact W].
Qed.

End Children.

Abbreviation fileLoop now :=
  (elementLoop (String.eqb "file") fileDone (fileElement now)).

Lemma runs_extent now fmt depth e rest fe :
  wfExtent e = true ->
  runs (fileLoop now) (writeExtent fmt depth e ++ rest) fe
       rest (fst fe, snd fe ++ [e]).
Proof.
  intro W. unfold writeExtent.
  rewrite <- !List.app_assoc. cbn [app].
  eapply (runs_nested _ _ _ _ _ _ _ _
            (fun extent fe => (fst fe, snd fe ++ [extent]))).
  - intros. reflexivity.
  - apply parseExtent_written. exact W.
Qed.

Lemma fold_extents (es : list LtfsExtent) :
  forall (fe : LtfsFile * list LtfsExtent),
  fold_left (fun fe e => (fst fe, snd fe ++ [e])) es fe
  = (fst fe, snd fe ++ es).
Proof.
  induction es as [|e es IH]; intros [f xs]; cbn [fold_left fst snd].
  - now rewrite List.app_nil_r.
  - rewrite IH. cbn [fst snd]. now rewrite <- List.app_assoc.
Qed.

Lemma fold_attributes (attrs : list ExtendedAttribute) :
  forall (fe : LtfsFile * list LtfsExtent),
  fold_left
    (fun fe a =>
       (setExtendedAttributes (extendedAttributes (fst fe) ++ [a]) (fst fe),
        snd fe)) attrs fe
  = (setExtendedAttributes (extendedAttributes (fst fe) ++ attrs) (fst fe),
     snd fe).
Proof.
  induction attrs as [|a attrs IH]; intros [f xs]; cbn [fold_left fst snd].
  - rewrite List.app_nil_r. destruct f; reflexivity.
  - rewrite IH. destruct f. cbn. now rewrite <- List.app_assoc.
Qed.

(** The [extentinfo] block of a file: nothing for no extents. *)
Lemma runs_extentinfo now fmt depth es rest fe :
  forallb wfExtent es = true ->
  runs (fileLoop now)
       (match es with
        | [] => []
        | e :: es' =>
            indent fmt (S depth) ++ [StartElement "extentinfo" []]
            ++ flat_map (writeExtent fmt (S (S depth))) (e :: es')
            ++ indent fmt (S depth) ++ [EndElement "extentinfo"]
        end ++ rest) fe
       rest (fst fe, snd fe ++ es).
Proof.
  intro W. destruct es as [|e es'] eqn:E.
  - cbn [app]. rewrite List.app_nil_r. destruct fe. apply runs_refl.
  - rewrite <- E in *. clear E.
    rewrite <- !List.app_assoc. cbn [app].
    eapply runs_trans; [apply runs_open; intros; reflexivity|].
    eapply runs_trans.
    + apply (runs_each _ _ _ _ (fun e fe => (fst fe, snd fe ++ [e]))).
      intros e0 He0 rest0 fe0. apply runs_extent.
      rewrite forallb_forall in W. apply W. exact He0.
    + rewrite fold_extents. apply runs_close. reflexivity.
Qed.


Lemma wfOptTime_valid (dt : QDateTime) :
  wfOptTime dt = true -> isValid dt = true -> wfTime dt = true.
Proof. destruct dt; [discriminate | intros H _; exact H]. Qed.

Lemma wfOptTime_invalid (dt : QDateTime) :
  wfOptTime dt = true -> isValid dt = false -> dt = InvalidDateTime.
Proof.
  destruct dt; [reflexivity|]. cbn [wfOptTime]. unfold wfTime.
  intros H V. rewrite V in H. discriminate H.
Qed.

Lemma inU64_zero (v : Z) : inU64 v = true -> (0 <? v) = false -> v = 0.
Proof.
  unfold inU64. intros H L. split_andb.
  apply Z.ltb_ge in L.
  match goal with H : (0 <=? v) = true |- _ => apply Z.leb_le in H end.
  lia.
Qed.

Ltac pair_text_step := text_step; cbn [fst snd].

(** The tokens behind the start tag of a written element. *)
Lemma behind_start (pre : list Token) (tag : Token) (body toks : list Token) :
  pre ++ [tag] ++ body = pre ++ tag :: toks -> toks = body.
Proof.
  intro E. apply List.app_inv_head in E. injection E as E. now symmetry.
Qed.

(** The loop of [parseFile] on what [writeFile] wrote after the start
    tag. *)
Lemma fileLoop_written now fmt depth f rest toks :
  wfFile f = true ->
  writeFile fmt now depth f ++ rest
  = indent fmt depth ++ StartElement "file" [] :: toks ->
  returns (fileLoop now) toks (defaultFile, [])
          ((rest, Underway), (f, extentInfo f)).
Proof.
  intros W E. unfold writeFile in E.
  rewrite <- !List.app_assoc in E.
  apply behind_start in E. subst toks.
  unfold wfFile in W. split_andb.
  assert (Eu : (0 <? uid f) = false -> uid f = 0)
    by (apply inU64_zero; assumption).
  assert (Eb : isValid (backupTime f) = false -> backupTime f = InvalidDateTime)
    by (apply wfOptTime_invalid; assumption).
  destruct (0 <? uid f) eqn:U; destruct (isValid (backupTime f)) eqn:V;
    cbv iota; rewrite ?List.app_nil_l;
    (eapply finishes_eq;
     [ repeat pair_text_step;
       eapply runs_finishes;
       [ apply (runs_each _ _ _ _
                  (fun a fe =>
                     (setExtendedAttributes
                        (extendedAttributes (fst fe) ++ [a]) (fst fe),
                      snd fe)));
         intros a Ha rest0 fe0;
         apply (runs_attribute _ _ _ _ _
                  (fun a fe =>
                     (setExtendedAttributes
                        (extendedAttributes (fst fe) ++ [a]) (fst fe),
                      snd fe)));
         [ match goal with
           | W : forallb wfExtendedAttribute _ = true |- _ =>
               rewrite forallb_forall in W; apply W; exact Ha
           end
         | intros; reflexivity ]
       | eapply runs_finishes;
         [ apply runs_extentinfo; eassumption | close_step ] ]
     | rewrite fold_attributes; cbn [fst snd];
       rewrite ?received_number, ?received_formatBoolean;
       rewrite ?received_formatTimestamp
         by (assumption || (apply wfOptTime_valid; assumption));
       rewrite ?received_wfText by assumption;
       rewrite ?parseTimestamp_formatTimestamp
         by (assumption || (apply wfOptTime_valid; assumption));
       rewrite ?toULongLong_number, ?toLongLong_number,
         ?parseBoolean_formatBoolean by assumption;
       try specialize (Eu eq_refl); try specialize (Eb eq_refl);
       destruct f;
       cbn [uid backupTime] in Eu, Eb; subst; reflexivity ]).
Qed.

Lemma parseFile_written now fmt depth f rest toks :
  wfFile f = true ->
  writeFile fmt now depth f ++ rest
  = indent fmt depth ++ StartElement "file" [] :: toks ->
  returns (parseFile now) toks defaultFile ((rest, Underway), f).
Proof.
  intros W E.
  destruct (fileLoop_written now fmt depth f rest toks W E) as [L P].
  split; [exact L|].
  intros fuel Hf. unfold parseFile. rewrite (P fuel Hf). reflexivity.
Qed.

End FileFacts.

(** ** Directories *)
Module DirectoryFacts.
Import Ltfs Xml IndexWriter IndexParser WellFormed Progress TextFacts.
Import LoopFacts FileFacts.

Abbreviation directoryLoop now nest :=
  (elementLoop (String.eqb "directory") (fun d => d)
     (directoryElement now (parseDirectory now nest))).

Lemma fold_directory_attributes (attrs : list ExtendedAttribute) :
  forall d : LtfsDirectory,
  fold_left
    (fun d a =>
       setDirExtendedAttributes (dirExtendedAttributes d ++ [a]) d) attrs d
  = setDirExtendedAttributes (dirExtendedAttributes d ++ attrs) d.
Proof.
  induction attrs as [|a attrs IH]; intros d; cbn [fold_left].
  - rewrite List.app_nil_r. destruct d; reflexivity.
  - rewrite IH. destruct d. cbn. now rewrite <- List.app_assoc.
Qed.

Lemma fold_files (fs : list LtfsFile) :
  forall d : LtfsDirectory,
  fold_left (fun d f => addFile f d) fs d
  = mkDirectory (dirName d) (dirUid d) (dirReadonly d) (dirCreationTime d)
      (dirChangeTime d) (dirModifyTime d) (dirAccessTime d)
      (dirBackupTime d) (dirExtendedAttributes d) (files d ++ fs)
      (subdirectories d).
Proof.
  induction fs as [|f fs IH]; intros d; cbn [fold_left].
  - rewrite List.app_nil_r. destruct d; reflexivity.
  - rewrite IH. destruct d. cbn. now rewrite <- List.app_assoc.
Qed.

Lemma fold_subdirectories (subs : list LtfsDirectory) :
  forall d : LtfsDirectory,
  fold_left (fun d s => addSubdirectory s d) subs d
  = mkDirectory (dirName d) (dirUid d) (dirReadonly d) (dirCreationTime d)
      (dirChangeTime d) (dirModifyTime d) (dirAccessTime d)
      (dirBackupTime d) (dirExtendedAttributes d) (files d)
      (subdirectories d ++ subs).
Proof.
  induction subs as [|s subs IH]; intros d; cbn [fold_left].
  - rewrite List.app_nil_r. destruct d; reflexivity.
  - rewrite IH. destruct d. cbn. now rewrite <- List.app_assoc.
Qed.

Lemma writeFile_starts fmt now depth f rest :
  exists toks,
    writeFile fmt now depth f ++ rest
    = indent fmt depth ++ StartElement "file" [] :: toks.
Proof.
  unfold writeFile. rewrite <- !List.app_assoc. eexists. reflexivity.
Qed.

(** One step of [writeDirectory]. *)
Lemma writeDirectory_unfold fmt now depth d :
  writeDirectory fmt now depth d
  = indent fmt depth ++ [StartElement "directory" []]
    ++ writeTextElement fmt (S depth) "name" (dirName d)
    ++ (if 0 <? dirUid d
        then writeTextElement fmt (S depth) "uid" (QStr.number (dirUid d))
        else [])
    ++ writeTextElement fmt (S depth) "readonly"
         (formatBoolean (dirReadonly d))
    ++ writeTextElement fmt (S depth) "creationtime"
         (formatTimestamp now (dirCreationTime d))
    ++ writeTextElement fmt (S depth) "changetime"
         (formatTimestamp now (dirChangeTime d))
    ++ writeTextElement fmt (S depth) "modifytime"
         (formatTimestamp now (dirModifyTime d))
    ++ writeTextElement fmt (S depth) "accesstime"
         (formatTimestamp now (dirAccessTime d))
    ++ (if isValid (dirBackupTime d)
        then writeTextElement fmt (S depth) "backuptime"
               (formatTimestamp now (dirBackupTime d))
        else [])
    ++ flat_map (writeExtendedAttribute fmt (S depth))
                (dirExtendedAttributes d)
    ++ flat_map (writeFile fmt now (S depth)) (files d)
    ++ flat_map (writeDirectory fmt now (S depth)) (subdirectories d)
    ++ indent fmt depth ++ [EndElement "directory"].
Proof. destruct d; reflexivity. Qed.

Lemma writeDirectory_starts fmt now depth d rest :
  exists toks,
    writeDirectory fmt now depth d ++ rest
    = indent fmt depth ++ StartElement "directory" [] :: toks.
Proof.
  rewrite writeDirectory_unfold. rewrite <- !List.app_assoc.
  eexists. reflexivity.
Qed.

Lemma wfDirectory_unfold d :
  wfDirectory d
  = wfText (dirName d)
    && inU64 (dirUid d)
    && wfTime (dirCreationTime d) && wfTime (dirChangeTime d)
    && wfTime (dirModifyTime d) && wfTime (dirAccessTime d)
    && wfOptTime (dirBackupTime d)
    && forallb wfExtendedAttribute (dirExtendedAttributes d)
    && forallb wfFile (files d)
    && forallb wfDirectory (subdirectories d).
Proof. destruct d; reflexivity. Qed.

Lemma nesting_unfold d :
  nesting d = S (list_max (map nesting (subdirectories d))).
Proof. destruct d; reflexivity. Qed.

Lemma nesting_sub d s n :
  (nesting d <= S n)%nat -> In s (subdirectories d) -> (nesting s <= n)%nat.
Proof.
  rewrite nesting_unfold. intros H Hs.
  assert (L : (list_max (map nesting (subdirectories d)) <= n)%nat) by lia.
  rewrite List.list_max_le in L. rewrite List.Forall_forall in L.
  apply L. apply List.in_map. exact Hs.
Qed.

(** [parseDirectory] on what [writeDirectory] wrote after the start tag. *)
Lemma parseDirectory_written now fmt :
  forall n d depth rest toks,
  (nesting d <= n)%nat ->
  wfDirectory d = true ->
  writeDirectory fmt now depth d ++ rest
  = indent fmt depth ++ StartElement "directory" [] :: toks ->
  returns (parseDirectory now n) toks defaultDirectory ((rest, Underway), d).
Proof.
  induction n as [|n IH]; intros d depth rest toks N W E.
  - rewrite nesting_unfold in N. lia.
  - rewrite writeDirectory_unfold in E.
    rewrite <- !List.app_assoc in E.
    apply behind_start in E. subst toks.
    rewrite wfDirectory_unfold in W. split_andb.
    assert (Eu : (0 <? dirUid d) = false -> dirUid d = 0)
      by (apply inU64_zero; assumption).
    assert (Eb : isValid (dirBackupTime d) = false
                 -> dirBackupTime d = InvalidDateTime)
      by (apply wfOptTime_invalid; assumption).
    cbn [parseDirectory].
    destruct (0 <? dirUid d) eqn:U; destruct (isValid (dirBackupTime d)) eqn:V;
      cbv iota; rewrite ?List.app_nil_l;
      (eapply finishes_eq;
       [ repeat text_step;
         eapply runs_finishes;
         [ apply (runs_each _ _ _ _
                    (fun a d =>
                       setDirExtendedAttributes
                         (dirExtendedAttributes d ++ [a]) d));
           intros a Ha rest0 d0;
           apply (runs_attribute _ _ _ _ _
                    (fun a d =>
                       setDirExtendedAttributes
                         (dirExtendedAttributes d ++ [a]) d));
           [ match goal with
             | W : forallb wfExtendedAttribute _ = true |- _ =>
                 rewrite forallb_forall in W; apply W; exact Ha
             end
           | intros; reflexivity ]
         | eapply runs_finishes;
           [ apply (runs_each _ _ _ _ addFile);
             intros f Hf rest0 d0;
             destruct (writeFile_starts fmt now (S depth) f rest0)
               as (toks & Et);
             rewrite Et;
             apply (runs_nested _ _ _ _ _ _ (parseFile now) defaultFile
                      addFile);
             [ intros; reflexivity
             | apply (parseFile_written now fmt (S depth) f rest0 toks);
               [ match goal with
                 | H : forallb wfFile _ = true |- _ =>
                     rewrite forallb_forall in H; apply H; exact Hf
                 end
               | exact Et ] ]
           | eapply runs_finishes;
             [ apply (runs_each _ _ _ _ addSubdirectory);
               intros s Hs rest0 d0;
               destruct (writeDirectory_starts fmt now (S depth) s rest0)
                 as (toks & Et);
               rewrite Et;
               apply (runs_nested _ _ _ _ _ _ (parseDirectory now n)
                        defaultDirectory addSubdirectory);
               [ intros; reflexivity
               | apply (IH s (S depth) rest0 toks);
                 [ apply (nesting_sub d); assumption
                 | match goal with
                   | H : forallb wfDirectory _ = true |- _ =>
                       rewrite forallb_forall in H; apply H; exact Hs
                   end
                 | exact Et ] ]
             | close_step ] ] ]
       | rewrite fold_subdirectories, fold_files, fold_directory_attributes;
         rewrite ?received_number, ?received_formatBoolean;
         rewrite ?received_formatTimestamp
           by (assumption || (apply wfOptTime_valid; assumption));
         rewrite ?received_wfText by assumption;
         rewrite ?parseTimestamp_formatTimestamp
           by (assumption || (apply wfOptTime_valid; assumption));
         rewrite ?toULongLong_number, ?parseBoolean_formatBoolean
           by assumption;
         destruct d;
         cbn [dirUid dirBackupTime] in Eu, Eb;
         try rewrite Eu by reflexivity; try rewrite Eb by reflexivity;
         reflexivity ]).
Qed.

End DirectoryFacts.

(** ** The index document *)
Module IndexFacts.
Import Ltfs Xml IndexWriter IndexParser WellFormed Progress TextFacts.
Import LoopFacts FileFacts DirectoryFacts.

Lemma wfPrevious_written (l : LocationData) :
  wfPrevious l = true -> (0 <? startBlock l) = true ->
  inU64 (startBlock l) = true.
Proof.
  destruct l as [p b]. cbn [startBlock]. intros W P.
  destruct p; destruct b as [|q|q]; try discriminate P;
    cbn [wfPrevious] in W; apply andb_true_iff in W; apply W.
Qed.

Lemma wfPrevious_default (l : LocationData) :
  wfPrevious l = true -> (0 <? startBlock l) = false -> l = defaultLocation.
Proof.
  destruct l as [p b]. cbn [startBlock]. intros W P.
  destruct p; destruct b as [|q|q]; try discriminate P;
    try reflexivity; cbn [wfPrevious] in W;
    apply andb_true_iff in W; destruct W as [W _]; discriminate W.
Qed.

(** Directories nest no deeper than they take tokens to write. *)
Lemma nesting_le_length fmt now :
  forall n d depth,
  (nesting d <= n)%nat ->
  (nesting d <= List.length (writeDirectory fmt now depth d))%nat.
Proof.
  induction n as [|n IH]; intros d depth N.
  - rewrite nesting_unfold in N. lia.
  - rewrite writeDirectory_unfold. rewrite nesting_unfold.
    rewrite !List.length_app. cbn [List.length].
    assert (L : (list_max (map nesting (subdirectories d))
                 <= List.length
                      (flat_map (writeDirectory fmt now (S depth))
                                (subdirectories d)))%nat).
    { assert (Hsub : forall s, In s (subdirectories d) -> (nesting s <= n)%nat)
        by (intros s Hs; apply (nesting_sub d); assumption).
      induction (subdirectories d) as [|s subs IHs].
      - cbn. lia.
      - cbn [map flat_map]. rewrite List.length_app.
        change (list_max (nesting s :: map nesting subs))
          with (Nat.max (nesting s) (list_max (map nesting subs))).
        assert ((nesting s
                 <= List.length (writeDirectory fmt now (S depth) s))%nat)
          by (apply IH; apply Hsub; left; reflexivity).
        assert ((list_max (map nesting subs)
                 <= List.length
                      (flat_map (writeDirectory fmt now (S depth)) subs))%nat)
          by (apply IHs; intros s' Hs'; apply Hsub; right; exact Hs').
        lia. }
    lia.
Qed.

Lemma behind_first (tag tag' : Token) (body toks : list Token) :
  [tag] ++ body = tag' :: toks -> toks = body.
Proof. intro E. injection E as _ E. now symmetry. Qed.

Abbreviation indexLoop now nest :=
  (elementLoop (String.eqb "ltfsindex") (fun i => i) (indexElement now nest)).

Ltac location_step store :=
  eapply runs_finishes;
  [ apply (runs_nested _ _ _ _ _ _ parseLocation defaultLocation store);
    [ intros; reflexivity
    | apply parseLocation_written; [reflexivity | auto] ]
  | ].

(** [parseIndex] on what [writeIndex] wrote after the start tag. *)
Lemma parseIndex_written now fmt nest idx rest attrs toks :
  wellFormed idx = true ->
  (nesting (rootDirectory idx) <= nest)%nat ->
  writeIndex fmt now idx ++ rest = StartElement "ltfsindex" attrs :: toks ->
  returns (parseIndex now nest) toks (setVersion (version idx) defaultIndex)
          ((rest, Underway), idx).
Proof.
  intros W N E. unfold writeIndex in E.
  rewrite <- !List.app_assoc in E.
  apply behind_first in E. subst toks.
  unfold wellFormed in W. split_andb.
  assert (Ep : (0 <? startBlock (previousGenerationLocation idx)) = false
               -> previousGenerationLocation idx = defaultLocation)
    by (apply wfPrevious_default; assumption).
  assert (Ew : (0 <? startBlock (previousGenerationLocation idx)) = true
               -> inU64 (startBlock (previousGenerationLocation idx)) = true)
    by (apply wfPrevious_written; assumption).
  destruct (writeDirectory_starts fmt now 1 (rootDirectory idx)
              (indent fmt 0 ++ [EndElement "ltfsindex"] ++ rest))
    as (dirToks & Ed).
  rewrite Ed.
  unfold parseIndex.
  destruct (0 <? startBlock (previousGenerationLocation idx)) eqn:P;
    cbv iota; rewrite ?List.app_nil_l;
    (eapply finishes_eq;
     [ do 4 text_step;
       unfold writeLocation; rewrite <- ?List.app_assoc; cbn [app];
       location_step setSelfLocation;
       lazymatch goal with
       | P : true = true -> _ |- _ =>
           location_step setPreviousGenerationLocation
       | _ => idtac
       end;
       do 2 text_step;
       eapply runs_finishes;
       [ apply (runs_nested _ _ _ _ _ _ (parseDirectory now nest)
                  defaultDirectory setRootDirectory);
         [ intros; reflexivity
         | apply (parseDirectory_written now fmt nest (rootDirectory idx) 1
                    (indent fmt 0 ++ [EndElement "ltfsindex"] ++ rest)
                    dirToks);
           [ exact N | assumption | exact Ed ] ]
       | close_step ]
     | rewrite ?received_number, ?received_formatBoolean;
       rewrite ?received_formatTimestamp, ?received_uuidToString,
         ?received_wfText by assumption;
       rewrite ?parseTimestamp_formatTimestamp by assumption;
       rewrite ?toULongLong_number, ?parseBoolean_formatBoolean,
         ?uuidFromString_uuidToString by assumption;
       destruct idx;
       cbn [previousGenerationLocation] in Ep;
       try rewrite Ep by reflexivity;
       reflexivity ]).
Qed.

(** Parsing what the writer wrote, for a well-formed index. *)
Lemma parse_write now fmt idx :
  wellFormed idx = true -> parse now (write fmt now idx) = Parsed idx.
Proof.
  intro W.
  assert (V : isEmptyText (version idx) = false).
  { unfold wellFormed in W. split_andb.
    match goal with H : negb _ = true |- _ => apply negb_true_iff in H end.
    assumption. }
  unfold parse.
  assert (A : escaped (version idx) = version idx).
  { unfold wellFormed in W. split_andb.
    apply escaped_wfAttributeValue. assumption. }
  set (bound := S (S (List.length (write fmt now idx)))).
  assert (N : (nesting (rootDirectory idx) <= bound)%nat).
  { pose proof (nesting_le_length fmt now _ (rootDirectory idx) 1 (le_n _))
      as L.
    unfold bound, write, writeIndex. rewrite !List.length_app.
    cbn [List.length]. lia. }
  assert (R : returns
                (elementLoop (fun _ => false) (fun i => i)
                             (documentElement now bound))
                (write fmt now idx) defaultIndex (([], Ended), idx)).
  { unfold write.
    eapply runs_finishes; [apply runs_startDocument|].
    assert (Hstart : exists toks,
              writeIndex fmt now idx ++ [EndDocument]
              = StartElement "ltfsindex" [("version"%string, version idx)]
                :: toks).
    { unfold writeIndex. rewrite V, A. rewrite <- !List.app_assoc.
      eexists. reflexivity. }
    destruct Hstart as (toks & Et). rewrite Et.
    pose proof (parseIndex_written now fmt bound idx [EndDocument] _ toks
                  W N Et) as [L P].
    eapply runs_finishes.
    { apply runs_start; [|exact L].
      intros fuel Hf. unfold documentElement.
      cbn [String.eqb Ascii.eqb Bool.eqb attributeValue].
      apply P. exact Hf. }
    apply finishes_endDocument. }
  destruct R as [_ R]. rewrite R by (unfold bound; lia).
  reflexivity.
Qed.

End IndexFacts.

(** ** The index round trip *)
Module RoundTrip.
Import Ltfs Xml IndexWriter IndexParser WellFormed IndexExamples.




(** Texts outside the well-formed ones do not come back.  A carriage
    return is written as it is and reported as a line feed; a control
    character that XML does not allow is left out by the writer. *)
Lemma carriage_return_comes_back_as_line_feed :
  let idx := setCreator (String "a" (String carriageReturn "b"))
                        exampleIndex in
  wellFormed idx = false
  /\ parse clock (write true clock idx)
     = Parsed (setCreator (String "a" (String lineFeed "b")) exampleIndex).
Proof. cbv zeta. split; vm_compute; reflexivity. Qed.

Lemma control_character_is_left_out :
  let idx := setCreator (String "a" (String (ascii_of_nat 1) "b"))
                        exampleIndex in
  wellFormed idx = false
  /\ parse clock (write true clock idx)
     = Parsed (setCreator "ab" exampleIndex).
Proof. cbv zeta. split; vm_compute; reflexivity. Qed.

End RoundTrip.

(** ** Block tracking *)
Module BlockTracking.
Import BlockManager.

Lemma create_valid (blockSize : Z) :
  isValidBlockSize (m_blockSize (create blockSize)) = true.
Proof.
  unfold create. cbn [m_blockSize].
  destruct (isValidBlockSize blockSize) eqn:V; [exact V | reflexivity].
Qed.

Lemma perform_blockSize (m : t) (c : Call) :
  isValidBlockSize (m_blockSize m) = true ->
  isValidBlockSize (m_blockSize (perform m c)) = true.
Proof.
  intro V. destruct c as [sz | p | b | n | | blocks bytes | | |];
    cbn [perform]; try exact V.
  - unfold setBlockSize.
    destruct (isValidBlockSize sz) eqn:S; cbn [negb snd m_blockSize];
      assumption.
  - unfold beginExtent, endExtent.
    destruct (m_extentActive m); cbn [snd m_blockSize]; exact V.
  - unfold addToExtent.
    destruct (m_extentActive m); cbn [negb m_blockSize]; exact V.
  - unfold endExtent.
    destruct (m_extentActive m); cbn [snd m_blockSize]; exact V.
Qed.

(** X1.  Whatever block size a manager is constructed with and whatever is
    called on it afterwards, its block size is a valid one: the
    constructor replaces an invalid size by the default, and
    [setBlockSize] refuses one. *)
Theorem blockSize_stays_valid (blockSize : Z) (calls : list Call) :
  isValidBlockSize (m_blockSize (performAll calls (create blockSize)))
  = true.
Proof.
  unfold performAll.
  generalize (create_valid blockSize).
  generalize (create blockSize) as m.
  induction calls as [|c calls IH]; intros m V; cbn [fold_left].
  - exact V.
  - apply IH. apply perform_blockSize. exact V.
Qed.

Lemma valid_range (size : Z) :
  isValidBlockSize size = true -> 4096 <= size <= 4194304.
Proof.
  unfold isValidBlockSize, MIN_BLOCK_SIZE, MAX_BLOCK_SIZE.
  destruct (Z.ltb_spec size (4 * 1024)); cbn [orb]; [discriminate|].
  destruct (Z.ltb_spec (4 * 1024 * 1024) size); [discriminate|].
  intros _. lia.
Qed.

(** X2.  With a valid block size the recommended number of buffers is
    defined, and lies between 8 and 64: 32 MiB worth of blocks, at most
    64. *)
Theorem recommendedBufferCount_range (m : t) :
  isValidBlockSize (m_blockSize m) = true ->
  exists count,
    recommendedBufferCount m = Some count
    /\ 8 <= count <= 64
    /\ count = Z.min 64 (33554432 / m_blockSize m).
Proof.
  intro V. apply valid_range in V.
  unfold recommendedBufferCount.
  destruct (Z.eqb_spec (m_blockSize m) 0) as [E|_]; [lia|].
  eexists. split; [reflexivity|].
  change (32 * 1024 * 1024) with 33554432.
  assert (Q : 8 <= 33554432 / m_blockSize m <= 8192).
  { split.
    - apply Z.div_le_lower_bound; lia.
    - apply Z.div_le_upper_bound; lia. }
  unfold wrap32. rewrite Z.mod_small by lia.
  unfold toInt.
  destruct (Z.ltb_spec (33554432 / m_blockSize m) (2 ^ 31)); [|lia].
  unfold qBound. lia.
Qed.

Lemma recommendedBufferCount_range_witness :
  isValidBlockSize (m_blockSize (create 524288)) = true
  /\ exists count,
       recommendedBufferCount (create 524288) = Some count
       /\ 8 <= count <= 64
       /\ count = Z.min 64 (33554432 / m_blockSize (create 524288)).
Proof.
  split; [reflexivity|].
  apply (recommendedBufferCount_range (create 524288)). reflexivity.
Defined.

(** X3.  [bytesToBlocks] rounds up: with a valid block size, and a byte count
    that leaves room for one more block below 2^64, the blocks it gives
    hold the bytes with less than one block to spare. *)
Theorem bytesToBlocks_rounds_up (m : t) (bytes : Z) :
  isValidBlockSize (m_blockSize m) = true ->
  0 <= bytes -> bytes + m_blockSize m <= 2 ^ 64 ->
  bytes <= blocksToBytes (bytesToBlocks bytes m) m < bytes + m_blockSize m.
Proof.
  intros V H0 H1. apply valid_range in V.
  unfold bytesToBlocks, blocksToBytes.
  destruct (Z.eqb_spec (m_blockSize m) 0) as [E|_]; [lia|].
  set (bs := m_blockSize m) in *.
  unfold wrap64. rewrite (Z.mod_small (bytes + bs - 1)) by lia.
  pose proof (Z.div_mod (bytes + bs - 1) bs ltac:(lia)) as D.
  pose proof (Z.mod_pos_bound (bytes + bs - 1) bs ltac:(lia)) as B.
  assert (K : 0 <= (bytes + bs - 1) / bs) by (apply Z.div_pos; lia).
  rewrite Z.mod_small by nia.
  nia.
Qed.

Lemma bytesToBlocks_rounds_up_witness :
  isValidBlockSize (m_blockSize (create 524288)) = true
  /\ 0 <= 1000000 /\ 1000000 + m_blockSize (create 524288) <= 2 ^ 64
  /\ 1000000
     <= blocksToBytes (bytesToBlocks 1000000 (create 524288))
                      (create 524288)
     < 1000000 + m_blockSize (create 524288).
Proof.
  assert (V : isValidBlockSize (m_blockSize (create 524288)) = true)
    by reflexivity.
  assert (H0 : 0 <= 1000000) by lia.
  assert (H1 : 1000000 + m_blockSize (create 524288) <= 2 ^ 64)
    by (cbn; lia).
  split; [exact V|]. split; [exact H0|]. split; [exact H1|].
  exact (bytesToBlocks_rounds_up (create 524288) 1000000 V H0 H1).
Defined.

(** X4.  Near the top of [uint64_t] the sum in [bytesToBlocks] wraps: a byte
    count less than a block below 2^64 is given zero blocks. *)
Theorem bytesToBlocks_wraps (m : t) (bytes : Z) :
  isValidBlockSize (m_blockSize m) = true ->
  2 ^ 64 - m_blockSize m < bytes < 2 ^ 64 ->
  bytesToBlocks bytes m = 0.
Proof.
  intros V H. apply valid_range in V.
  unfold bytesToBlocks.
  destruct (Z.eqb_spec (m_blockSize m) 0) as [E|_]; [lia|].
  set (bs := m_blockSize m) in *.
  unfold wrap64.
  replace (bytes + bs - 1) with ((bytes + bs - 1 - 2 ^ 64) + 1 * 2 ^ 64)
    by lia.
  rewrite Z.mod_add by lia.
  rewrite Z.mod_small by lia.
  apply Z.div_small. lia.
Qed.

Lemma bytesToBlocks_wraps_witness :
  isValidBlockSize (m_blockSize (create 4096)) = true
  /\ 2 ^ 64 - m_blockSize (create 4096) < 2 ^ 64 - 1 < 2 ^ 64
  /\ bytesToBlocks (2 ^ 64 - 1) (create 4096) = 0.
Proof.
  assert (V : isValidBlockSize (m_blockSize (create 4096)) = true)
    by reflexivity.
  assert (H : 2 ^ 64 - m_blockSize (create 4096) < 2 ^ 64 - 1 < 2 ^ 64)
    by (cbn; lia).
  split; [exact V|]. split; [exact H|].
  exact (bytesToBlocks_wraps (create 4096) (2 ^ 64 - 1) V H).
Defined.


Lemma sum_blocks_app (l1 l2 : list BlockAllocation) :
  fold_right (fun e acc => blockCount e + acc) 0 (l1 ++ l2)
  = fold_right (fun e acc => blockCount e + acc) 0 l1
    + fold_right (fun e acc => blockCount e + acc) 0 l2.
Proof.
  induction l1 as [|e l1 IH]; cbn [app fold_right]; [lia | rewrite IH; lia].
Qed.

Lemma sum_bytes_app (l1 l2 : list BlockAllocation) :
  fold_right (fun e acc => byteCount e + acc) 0 (l1 ++ l2)
  = fold_right (fun e acc => byteCount e + acc) 0 l1
    + fold_right (fun e acc => byteCount e + acc) 0 l2.
Proof.
  induction l1 as [|e l1 IH]; cbn [app fold_right]; [lia | rewrite IH; lia].
Qed.

Lemma wrap64_add_l (a b : Z) : wrap64 (wrap64 a + b) = wrap64 (a + b).
Proof. unfold wrap64. apply Zplus_mod_idemp_l. Qed.

Lemma wrap64_add_r (a b : Z) : wrap64 (a + wrap64 b) = wrap64 (a + b).
Proof. unfold wrap64. apply Zplus_mod_idemp_r. Qed.

Lemma accounted_create (blockSize : Z) : accounted (create blockSize).
Proof. repeat split. Qed.

Lemma accounted_endExtent (m : t) :
  accounted m -> accounted (snd (endExtent m)).
Proof.
  intros I. unfold endExtent.
  destruct (m_extentActive m) eqn:A; cbn [snd]; [|exact I].
  destruct I as (Z0 & B & Y).
  unfold accounted, recordedBlocks, recordedBytes in *.
  cbn [m_extentActive m_currentExtent m_extents m_totalBlocksWritten
       m_totalBytesWritten].
  rewrite sum_blocks_app, sum_bytes_app. cbn [fold_right blockCount
    byteCount zeroAllocation].
  split; [reflexivity|].
  rewrite <- B, <- Y. split; f_equal; lia.
Qed.

Lemma accounted_perform (m : t) (c : Call) :
  keepsRecords c = true -> accounted m -> accounted (perform m c).
Proof.
  intros K I. destruct c as [sz | p | b | n | | blocks bytes | | |];
    try discriminate K; cbn [perform].
  - unfold setBlockSize.
    destruct (isValidBlockSize sz); cbn [negb snd]; exact I.
  - exact I.
  - exact I.
  - exact I.
  - assert (I1 : exists m1,
              (if m_extentActive m then snd (endExtent m) else m) = m1
              /\ accounted m1 /\ m_extentActive m1 = false).
    { destruct (m_extentActive m) eqn:A.
      - exists (snd (endExtent m)). split; [reflexivity|].
        split; [apply accounted_endExtent; exact I|].
        unfold endExtent. rewrite A. reflexivity.
      - exists m. split; [reflexivity|]. split; assumption. }
    destruct I1 as (m1 & E1 & (Z1 & B1 & Y1) & A1). specialize (Z1 A1).
    unfold beginExtent. rewrite E1.
    unfold accounted, recordedBlocks, recordedBytes in *.
    cbn [snd m_extentActive m_currentExtent m_extents m_totalBlocksWritten
         m_totalBytesWritten blockCount byteCount].
    rewrite Z1 in B1, Y1. cbn [zeroAllocation blockCount byteCount] in B1, Y1.
    split; [discriminate|]. split; assumption.
  - unfold addToExtent.
    destruct (m_extentActive m) eqn:A; cbn [negb]; [|exact I].
    destruct I as (Z0 & B & Y).
    unfold accounted, recordedBlocks, recordedBytes in *.
    cbn [m_extentActive m_currentExtent m_extents m_totalBlocksWritten
         m_totalBytesWritten blockCount byteCount].
    split; [discriminate|].
    rewrite <- B, <- Y, !wrap64_add_r, !wrap64_add_l.
    split; f_equal; lia.
  - apply accounted_endExtent. exact I.
Qed.

(** X5.  No block written into an extent goes unrecorded: from construction
    on, as long as the extents are not cleared and the counters not
    reset, the counters of blocks and bytes written equal, in [uint64_t],
    what the recorded extents and the extent being written add up to; and
    when no extent is being written the current extent is all zero. *)
Theorem counters_match_extents (blockSize : Z) (calls : list Call) :
  forallb keepsRecords calls = true ->
  let m := performAll calls (create blockSize) in
  m_totalBlocksWritten m = wrap64 (recordedBlocks m)
  /\ m_totalBytesWritten m = wrap64 (recordedBytes m)
  /\ (m_extentActive m = false -> m_currentExtent m = zeroAllocation).
Proof.
  intros K m.
  assert (I : accounted m).
  { unfold m, performAll.
    generalize (accounted_create blockSize).
    generalize (create blockSize) as m0.
    induction calls as [|c calls IH]; intros m0 I0; cbn [fold_left].
    - exact I0.
    - cbn [forallb] in K. apply andb_true_iff in K. destruct K as [Kc Ks].
      apply (IH Ks). apply accounted_perform; assumption. }
  destruct I as (Z0 & B & Y). repeat split; auto.
Qed.

Lemma counters_match_extents_witness :
  let calls := [CallBeginExtent; CallAddToExtent 3 1500000;
                CallBeginExtent; CallAddToExtent 1 17; CallEndExtent] in
  forallb keepsRecords calls = true
  /\ m_totalBlocksWritten (performAll calls (create 524288)) = 4
  /\ m_totalBlocksWritten (performAll calls (create 524288))
     = wrap64 (recordedBlocks (performAll calls (create 524288))).
Proof.
  cbv zeta.
  assert (K : forallb keepsRecords
                [CallBeginExtent; CallAddToExtent 3 1500000;
                 CallBeginExtent; CallAddToExtent 1 17; CallEndExtent]
              = true) by reflexivity.
  split; [exact K|]. split; [reflexivity|].
  exact (proj1 (counters_match_extents 524288 _ K)).
Defined.

Lemma wrap64_small (v : Z) : 0 <= v < 2 ^ 64 -> wrap64 v = v.
Proof. intro H. unfold wrap64. apply Z.mod_small. exact H. Qed.

Lemma wrap64_range (v : Z) : 0 <= wrap64 v < 2 ^ 64.
Proof. unfold wrap64. apply Z.mod_pos_bound. lia. Qed.

Lemma addAll_active (writes : list (Z * Z)) :
  forall m, m_extentActive m = true ->
  0 <= m_currentBlock m < 2 ^ 64 ->
  0 <= blockCount (m_currentExtent m) < 2 ^ 64 ->
  0 <= byteCount (m_currentExtent m) < 2 ^ 64 ->
  m_extentActive (addAll writes m) = true
  /\ m_extents (addAll writes m) = m_extents m
  /\ m_currentBlock (addAll writes m)
     = wrap64 (m_currentBlock m + blocksOf writes)
  /\ m_currentExtent (addAll writes m)
     = mkAllocation (startBlock (m_currentExtent m))
         (wrap64 (blockCount (m_currentExtent m) + blocksOf writes))
         (partition (m_currentExtent m)) (fileOffset (m_currentExtent m))
         (wrap64 (byteCount (m_currentExtent m) + bytesOf writes)).
Proof.
  induction writes as [|[b y] writes IH]; intros m A Hc Hb Hy.
  - cbn [addAll fold_left blocksOf bytesOf fold_right].
    rewrite !Z.add_0_r, !wrap64_small by assumption.
    repeat split; try assumption. destruct (m_currentExtent m); reflexivity.
  - change (addAll ((b, y) :: writes) m)
      with (addAll writes (addToExtent b y m)).
    assert (E : addToExtent b y m
                = mkManager (m_blockSize m) (m_currentPartition m)
                    (wrap64 (m_currentBlock m + b))
                    (mkAllocation (startBlock (m_currentExtent m))
                       (wrap64 (blockCount (m_currentExtent m) + b))
                       (partition (m_currentExtent m))
                       (fileOffset (m_currentExtent m))
                       (wrap64 (byteCount (m_currentExtent m) + y)))
                    true (m_extents m)
                    (wrap64 (m_totalBlocksWritten m + b))
                    (wrap64 (m_totalBytesWritten m + y)))
      by (unfold addToExtent; rewrite A; reflexivity).
    rewrite E.
    match goal with |- context [addAll writes ?m1] =>
      destruct (IH m1 eq_refl (wrap64_range _) (wrap64_range _)
                   (wrap64_range _)) as (A' & X' & C' & E')
    end.
    rewrite A', X', C', E'.
    cbn [m_extents m_currentBlock m_currentExtent startBlock blockCount
         partition fileOffset byteCount blocksOf bytesOf fold_right
         fst snd].
    rewrite !wrap64_add_l.
    unfold blocksOf, bytesOf.
    repeat split; f_equal; try lia; f_equal; lia.
Qed.

(** X6.  An extent from beginning to end: [beginExtent], any number of
    [addToExtent], [endExtent].  The allocation returned starts at the
    block position the manager had, on its partition, at file offset 0,
    and counts the blocks and bytes added, in [uint64_t]; it is stored
    in the list of extents under the number [beginExtent] returned; and
    the block position has moved on by the blocks added. *)
Theorem extent_lifecycle (m : t) (writes : list (Z * Z)) :
  0 <= m_currentBlock m < 2 ^ 64 ->
  let begun := beginExtent m in
  let ended := endExtent (addAll writes (snd begun)) in
  fst ended
  = mkAllocation (m_currentBlock m) (wrap64 (blocksOf writes))
                 (m_currentPartition m) 0 (wrap64 (bytesOf writes))
  /\ nth_error (m_extents (snd ended)) (Z.to_nat (fst begun))
     = Some (fst ended)
  /\ m_currentBlock (snd ended)
     = wrap64 (m_currentBlock m + blocksOf writes)
  /\ m_extentActive (snd ended) = false.
Proof.
  intros Hc begun ended.
  assert (B : exists m1,
            (if m_extentActive m then snd (endExtent m) else m) = m1
            /\ m_currentBlock m1 = m_currentBlock m
            /\ m_currentPartition m1 = m_currentPartition m).
  { unfold endExtent. destruct (m_extentActive m); eexists;
      (split; [reflexivity|]); split; reflexivity. }
  destruct B as (m1 & E1 & C1 & P1).
  assert (Eb : begun
               = (Z.of_nat (List.length (m_extents m1)),
                  mkManager (m_blockSize m1) (m_currentPartition m)
                    (m_currentBlock m)
                    (mkAllocation (m_currentBlock m) 0
                                  (m_currentPartition m) 0 0)
                    true (m_extents m1) (m_totalBlocksWritten m1)
                    (m_totalBytesWritten m1)))
    by (unfold begun, beginExtent; rewrite E1, C1, P1; reflexivity).
  unfold ended. rewrite Eb. cbn [fst snd].
  match goal with |- context [addAll writes ?m2] =>
    destruct (addAll_active writes m2 eq_refl Hc ltac:(cbn; lia)
                ltac:(cbn; lia)) as (A' & X' & C' & E');
    set (m3 := addAll writes m2) in *
  end.
  cbn [m_extents m_currentBlock m_currentExtent startBlock blockCount
       partition fileOffset byteCount] in X', C', E'.
  rewrite !Z.add_0_l in E'.
  unfold endExtent. rewrite A'. cbn [fst snd m_extents m_currentBlock
    m_extentActive].
  rewrite E', X', C', Nat2Z.id.
  split; [reflexivity|].
  split; [|split; reflexivity].
  rewrite nth_error_app2 by lia. rewrite Nat.sub_diag. reflexivity.
Qed.

Lemma extent_lifecycle_witness :
  let m := setBlockPosition 100 (create 524288) in
  let writes := [(2, 1048576); (1, 17)] in
  0 <= m_currentBlock m < 2 ^ 64
  /\ fst (endExtent (addAll writes (snd (beginExtent m))))
     = mkAllocation 100 3 0 0 1048593.
Proof.
  cbv zeta.
  assert (H : 0 <= m_currentBlock (setBlockPosition 100 (create 524288))
              < 2 ^ 64) by (cbn; lia).
  split; [exact H|].
  exact (proj1 (extent_lifecycle (setBlockPosition 100 (create 524288))
                  [(2, 1048576); (1, 17)] H)).
Defined.

End BlockTracking.

(** ** Command descriptor blocks *)
Module CdbFacts.
Import Scsi.

Lemma u8_to_char_mod (v : Z) : u8 (to_char v) = v mod 256.
Proof.
  assert (E : to_char v = to_char (v mod 256))
    by (unfold to_char; rewrite Z.mod_mod by lia; reflexivity).
  rewrite E. apply u8_to_char. apply Z.mod_pos_bound. lia.
Qed.

Lemma byte_of (v : Z) (k : Z) :
  0 <= k -> u8 (to_char (Z.land (Z.shiftr v k) 0xFF)) = (v / 2 ^ k) mod 256.
Proof.
  intro Hk. rewrite u8_to_char_mod.
  change 0xFF with (Z.ones 8). rewrite Z.land_ones by lia.
  rewrite Z.shiftr_div_pow2 by lia.
  change (2 ^ 8) with 256. apply Z.mod_mod. lia.
Qed.

Lemma low_byte_of (v : Z) : u8 (to_char (Z.land v 0xFF)) = v mod 256.
Proof.
  rewrite u8_to_char_mod.
  change 0xFF with (Z.ones 8). rewrite Z.land_ones by lia.
  change (2 ^ 8) with 256. apply Z.mod_mod. lia.
Qed.

Lemma setByte_length (i : nat) (v : Z) (cdb : QByteArray) :
  List.length (setByte i v cdb) = List.length cdb.
Proof.
  revert i. induction cdb as [|h t IH]; intros [|j]; cbn; auto.
Qed.

(** X7.  No command the class builds is longer than the 16 bytes of
    [MAX_CDB_LENGTH]: each is 6, 10 or 16 bytes, with its operation code
    in byte 0, whatever the arguments. *)
Theorem built_cdb_within_limit (b : BuiltCdb) :
  (size (builtCdb b) = 6 \/ size (builtCdb b) = 10
   \/ size (builtCdb b) = 16)
  /\ size (builtCdb b) <= MAX_CDB_LENGTH
  /\ byteAt (builtCdb b) 0 = opCode b.
Proof.
  destruct b; (split; [|split]);
    try (left; reflexivity); try (right; left; reflexivity);
    try (right; right; reflexivity);
    try (cbv; discriminate); reflexivity.
Qed.

(** One step of reading a number off its bytes. *)
Lemma shift_step (v k : Z) :
  0 <= k -> v / 2 ^ k = 256 * (v / 2 ^ (k + 8)) + (v / 2 ^ k) mod 256.
Proof.
  intro Hk.
  rewrite Z.pow_add_r by lia. change (2 ^ 8) with 256.
  rewrite <- Z.div_div by (try apply Z.pow_pos_nonneg; lia).
  apply Z.div_mod. lia.
Qed.

(** X8.  LOCATE(16) carries the partition in byte 3 and the whole 64-bit block
    number in bytes 4 to 11, most significant byte first; the other bytes
    are the operation code, the flags byte 0x02 and zeros. *)
Theorem locate16_encodes_block (part blk : Z) :
  0 <= part < 256 -> 0 <= blk < 2 ^ 64 ->
  size (cdb_locate16 part blk) = 16
  /\ byteAt (cdb_locate16 part blk) 0 = OP_Locate16
  /\ byteAt (cdb_locate16 part blk) 1 = 0x02
  /\ byteAt (cdb_locate16 part blk) 2 = 0
  /\ byteAt (cdb_locate16 part blk) 3 = part
  /\ bigEndian (field 4 8 (cdb_locate16 part blk)) = blk
  /\ bigEndian (field 12 4 (cdb_locate16 part blk)) = 0.
Proof.
  intros Hp Hb.
  split; [reflexivity|]. split; [reflexivity|]. split; [reflexivity|].
  split; [reflexivity|].
  split; [cbn [cdb_locate16 zeroCdb repeat setByte byteAt nth_error];
          apply u8_to_char; exact Hp|].
  split; [|reflexivity].
  cbn [cdb_locate16 zeroCdb repeat setByte field skipn firstn bigEndian
       fold_left].
  rewrite !byte_of by lia. rewrite low_byte_of.
  pose proof (shift_step blk 0 ltac:(lia)) as S0.
  pose proof (shift_step blk 8 ltac:(lia)) as S1.
  pose proof (shift_step blk 16 ltac:(lia)) as S2.
  pose proof (shift_step blk 24 ltac:(lia)) as S3.
  pose proof (shift_step blk 32 ltac:(lia)) as S4.
  pose proof (shift_step blk 40 ltac:(lia)) as S5.
  pose proof (shift_step blk 48 ltac:(lia)) as S6.
  pose proof (shift_step blk 56 ltac:(lia)) as S7.
  cbn [Z.add Pos.add Pos.succ Pos.add_carry] in *.
  assert (T : blk / 2 ^ 64 = 0) by (apply Z.div_small; lia).
  rewrite Z.pow_0_r, Z.div_1_r in S0.
  lia.
Qed.

Lemma locate16_encodes_block_witness :
  0 <= 1 < 256 /\ 0 <= 2 ^ 40 + 5 < 2 ^ 64
  /\ bigEndian (field 4 8 (cdb_locate16 1 (2 ^ 40 + 5))) = 2 ^ 40 + 5.
Proof.
  assert (Hp : 0 <= 1 < 256) by lia.
  assert (Hb : 0 <= 2 ^ 40 + 5 < 2 ^ 64) by lia.
  split; [exact Hp|]. split; [exact Hb|].
  exact (proj1 (proj2 (proj2 (proj2 (proj2 (proj2
           (locate16_encodes_block 1 (2 ^ 40 + 5) Hp Hb))))))).
Defined.

(** Three bytes written from the low 24 bits of a number. *)
Lemma three_bytes (v : Z) :
  bigEndian [to_char (Z.land (Z.shiftr v 16) 0xFF);
             to_char (Z.land (Z.shiftr v 8) 0xFF);
             to_char (Z.land v 0xFF)]
  = v mod 2 ^ 24.
Proof.
  cbn [bigEndian fold_left].
  rewrite !byte_of by lia. rewrite low_byte_of.
  pose proof (shift_step v 0 ltac:(lia)) as S0.
  pose proof (shift_step v 8 ltac:(lia)) as S1.
  cbn [Z.add Pos.add Pos.succ Pos.add_carry] in *.
  rewrite Z.pow_0_r, Z.div_1_r in S0.
  pose proof (Z.div_mod v (2 ^ 24) ltac:(lia)) as D.
  pose proof (Z.mod_pos_bound v (2 ^ 24) ltac:(lia)) as B.
  pose proof (Z.mod_pos_bound (v / 2 ^ 16) 256 ltac:(lia)) as B2.
  pose proof (Z.mod_pos_bound (v / 2 ^ 8) 256 ltac:(lia)) as B1.
  pose proof (Z.mod_pos_bound v 256 ltac:(lia)) as B0.
  assert (Q : v / 2 ^ 24 = (v / 2 ^ 16) / 256).
  { change (2 ^ 24) with (2 ^ 16 * 256).
    rewrite Z.div_div by lia. reflexivity. }
  pose proof (Z.div_mod (v / 2 ^ 16) 256 ltac:(lia)) as D2.
  lia.
Qed.

Lemma space_field (code count : Z) :
  bigEndian (field 2 3 (cdb_space code count)) = count mod 2 ^ 24.
Proof. apply three_bytes. Qed.

Lemma write6_field (count : Z) (fixedBlock : bool) :
  bigEndian (field 2 3 (cdb_write6 count fixedBlock)) = count mod 2 ^ 24.
Proof. apply three_bytes. Qed.

Lemma read6_field (count : Z) (fixedBlock : bool) :
  bigEndian (field 2 3 (cdb_read6 count fixedBlock)) = count mod 2 ^ 24.
Proof. apply three_bytes. Qed.

Lemma space_same (code count : Z) :
  cdb_space code (count + 2 ^ 24) = cdb_space code count.
Proof.
  cbn [cdb_space zeroCdb repeat setByte].
  assert (A : forall k, 0 <= k <= 16 ->
            to_char (Z.land (Z.shiftr (count + 2 ^ 24) k) 0xFF)
            = to_char (Z.land (Z.shiftr count k) 0xFF)).
  { intros k Hk. f_equal.
    change 0xFF with (Z.ones 8). rewrite !Z.land_ones by lia.
    rewrite !Z.shiftr_div_pow2 by lia.
    replace (2 ^ 24) with (2 ^ (24 - k) * 2 ^ k)
      by (rewrite <- Z.pow_add_r by lia; f_equal; lia).
    rewrite Z.div_add by (apply Z.pow_nonzero; lia).
    replace (2 ^ (24 - k)) with (2 ^ (16 - k) * 2 ^ 8)
      by (rewrite <- Z.pow_add_r by lia; f_equal; lia).
    rewrite Z.mod_add by lia. reflexivity. }
  rewrite (A 16), (A 8) by lia.
  pose proof (A 0 ltac:(lia)) as A0. rewrite !Z.shiftr_0_r in A0.
  rewrite A0. reflexivity.
Qed.

Lemma signed24_mod (count : Z) :
  - 2 ^ 23 <= count < 2 ^ 23 -> signed24 (count mod 2 ^ 24) = count.
Proof.
  intro R. unfold signed24.
  destruct (Z.leb_spec 0 count) as [P|N].
  - rewrite Z.mod_small by lia.
    destruct (Z.ltb_spec count (2 ^ 23)); lia.
  - assert (M : count mod 2 ^ 24 = count + 2 ^ 24).
    { replace count with ((count + 2 ^ 24) + (-1) * 2 ^ 24) at 1 by lia.
      rewrite Z.mod_add by lia. apply Z.mod_small. lia. }
    rewrite M.
    destruct (Z.ltb_spec (count + 2 ^ 24) (2 ^ 23)); lia.
Qed.

(** X9.  SPACE carries its count in bytes 2 to 4 as a signed number of 24
    bits: a count from -2^23 to 2^23 - 1 is read back from the command
    as it was given. *)
Theorem space_encodes_count (code count : Z) :
  - 2 ^ 23 <= count < 2 ^ 23 ->
  size (cdb_space code count) = 6
  /\ byteAt (cdb_space code count) 0 = OP_Space
  /\ byteAt (cdb_space code count) 1 = Z.land code 0x07
  /\ byteAt (cdb_space code count) 5 = 0
  /\ signed24 (bigEndian (field 2 3 (cdb_space code count))) = count.
Proof.
  intro R.
  split; [reflexivity|]. split; [reflexivity|].
  split.
  { cbn [cdb_space zeroCdb repeat setByte byteAt nth_error].
    rewrite u8_to_char_mod. apply Z.mod_small.
    change 0x07 with (Z.ones 3). rewrite Z.land_ones by lia.
    pose proof (Z.mod_pos_bound code (2 ^ 3) ltac:(lia)). lia. }
  split; [reflexivity|].
  rewrite space_field. apply signed24_mod. exact R.
Qed.

Lemma space_encodes_count_witness :
  - 2 ^ 23 <= -5 < 2 ^ 23
  /\ signed24 (bigEndian (field 2 3 (cdb_space 0 (-5)))) = -5.
Proof.
  assert (R : - 2 ^ 23 <= -5 < 2 ^ 23) by lia.
  split; [exact R|].
  exact (proj2 (proj2 (proj2 (proj2 (space_encodes_count 0 (-5) R))))).
Defined.

End CdbFacts.

(** ** Operations of the tape device *)
Module DeviceFacts.
Import Scsi Tape TapeFacts CdbFacts.
Local Open Scope st_scope.

Lemma checkOpen_closed op w :
  isOpen w = false ->
  checkOpen op w
  = (false, set_lastError ("Device not open for operation: " ++ op) w).
Proof. intro H. unfold checkOpen. rewrite H. reflexivity. Qed.

(** X10.  On a device that is not open every operation fails, with [false] or
    [-1], before anything else happens: no command reaches the drive, no
    signal is emitted, status and position stay, and the only change is
    the error text, which names the operation ([seekToBeginning] and
    [seekToEnd] are named as the [locate] they begin with). *)
Theorem closed_device_refuses (o : Operation) (w : World) :
  isOpen w = false ->
  failure (fst (perform o w)) = true
  /\ snd (perform o w)
     = set_lastError
         ("Device not open for operation: " ++ operationName o) w.
Proof.
  intro H.
  destruct o; cbn [perform operationName];
    unfold flag, refreshStatus, testReady, load, unload, rewind, lockMedia,
      unlockMedia, locate, spaceBlocks, spaceFilemarks, spaceToEndOfData,
      seekToBeginning, seekToEnd, locate, readBlock, writeBlock, readBlocks,
      writeBlocks, Tape.writeFilemark, St.bind;
    rewrite (checkOpen_closed _ _ H); cbn [negb St.ret fst snd failure];
    split; reflexivity.
Qed.

Lemma closed_device_refuses_witness :
  let w := snd (close (open goodDrive 3)) in
  isOpen w = false
  /\ failure (fst (perform (DoWriteBlock [x01; x02]) w)) = true
  /\ lastError (snd (perform (DoWriteBlock [x01; x02]) w))
     = "Device not open for operation: writeBlock"%string
  /\ issued (snd (perform (DoWriteBlock [x01; x02]) w)) = issued w.
Proof.
  cbv zeta.
  assert (H : isOpen (snd (close (open goodDrive 3))) = false)
    by reflexivity.
  split; [exact H|].
  destruct (closed_device_refuses (DoWriteBlock [x01; x02]) _ H) as [F E].
  split; [exact F|]. rewrite E. split; reflexivity.
Defined.


Lemma lastTold_app (known : TapeStatus) (t1 t2 : list Event) :
  lastTold known (t1 ++ t2) = lastTold (lastTold known t1) t2.
Proof.
  revert known. induction t1 as [|e t1 IH]; intro known; [reflexivity|].
  destruct e as [[| | |]|]; cbn [app lastTold]; apply IH.
Qed.

Lemma lastTold_issued (known : TapeStatus) (hs : list SgIoHdr) :
  lastTold known (map Issued hs) = known.
Proof. induction hs as [|h hs IH]; [reflexivity | exact IH]. Qed.

Lemma syncs_ret {A} (a : A) : syncs (St.ret a).
Proof. intros w H. exact H. Qed.

Lemma syncs_bind {A B} (m : Dev A) (k : A -> Dev B) :
  syncs m -> (forall a, syncs (k a)) -> syncs (St.bind m k).
Proof.
  intros Hm Hk w H. unfold St.bind.
  specialize (Hm w H). destruct (m w) as [a w1]. apply Hk. exact Hm.
Qed.

Lemma syncs_setStatus st : syncs (setStatus st).
Proof.
  intros w H. rewrite setStatus_spec. unfold inSync in *.
  cbn [snd status trace]. rewrite lastTold_app, <- H.
  destruct (status_eqb (status w) st) eqn:E; [|reflexivity].
  apply status_eqb_eq in E. symmetry. exact E.
Qed.

Lemma syncs_modify (f : World -> World) :
  (forall w, status (f w) = status w /\ trace (f w) = trace w) ->
  syncs (St.modify f).
Proof.
  intros Hf w H. unfold inSync, St.modify in *. cbn [snd].
  destruct (Hf w) as [-> ->]. exact H.
Qed.

Lemma syncs_emit_error msg : syncs (emit (errorOccurred msg)).
Proof.
  intros w H. unfold inSync, emit, St.modify, log in *.
  cbn [snd status trace]. rewrite lastTold_app. cbn [lastTold]. exact H.
Qed.

Lemma syncs_emit_media present : syncs (emit (mediaChanged present)).
Proof.
  intros w H. unfold inSync, emit, St.modify, log in *.
  cbn [snd status trace]. rewrite lastTold_app. cbn [lastTold]. exact H.
Qed.

Lemma syncs_call {A} (cmd : Drive -> Scsi.Private -> list SgIoHdr ->
                             A * list SgIoHdr) dflt :
  syncs (call cmd dflt).
Proof.
  intros w H. unfold call. destruct (scsi w); [|exact H].
  destruct (cmd (drive w) p (issued w)) as [a iss].
  unfold inSync in *. cbn [snd status trace].
  rewrite lastTold_app, lastTold_issued. exact H.
Qed.

Lemma syncs_checkOpen op : syncs (checkOpen op).
Proof.
  intros w H. unfold checkOpen. destruct (negb (isOpen w)); exact H.
Qed.

Lemma syncs_setError msg : syncs (setError msg).
Proof.
  unfold setError. apply syncs_bind; [|intros _; apply syncs_bind].
  - apply syncs_modify. intro w. split; reflexivity.
  - apply syncs_setStatus.
  - intros _. apply syncs_emit_error.
Qed.

Ltac sync_step :=
  first
    [ apply syncs_ret
    | apply syncs_setStatus
    | apply syncs_setError
    | apply syncs_checkOpen
    | apply syncs_call
    | apply syncs_emit_media
    | apply syncs_modify; intro; split; reflexivity
    | apply syncs_bind; [|intro]
    | match goal with
      | |- syncs (if ?b then _ else _) => destruct b
      | |- syncs (match ?x with _ => _ end) => destruct x
      | |- syncs (let '(_, _) := ?x in _) => destruct x
      end ].

Lemma syncs_refreshStatus : syncs refreshStatus.
Proof. repeat sync_step. Qed.

Lemma syncs_perform (o : Operation) : syncs (perform o).
Proof. destruct o; cbn [perform]; unfold flag; repeat sync_step. Qed.

Lemma perform_closed (o : Operation) (w : World) :
  isOpen w = false ->
  snd (perform o w)
  = set_lastError ("Device not open for operation: " ++ operationName o) w.
Proof.
  intro H.
  destruct o; cbn [perform operationName];
    unfold flag, refreshStatus, testReady, load, unload, rewind, lockMedia,
      unlockMedia, locate, spaceBlocks, spaceFilemarks, spaceToEndOfData,
      seekToBeginning, seekToEnd, locate, readBlock, writeBlock, readBlocks,
      writeBlocks, Tape.writeFilemark, St.bind;
    rewrite (checkOpen_closed _ _ H); cbn [negb St.ret fst snd];
    reflexivity.
Qed.

Lemma keepsHandle_ret {A} (a : A) : keepsHandle (St.ret a).
Proof. intro w. reflexivity. Qed.

Lemma keepsHandle_bind {A B} (m : Dev A) (k : A -> Dev B) :
  keepsHandle m -> (forall a, keepsHandle (k a)) ->
  keepsHandle (St.bind m k).
Proof.
  intros Hm Hk w. unfold St.bind.
  specialize (Hm w). destruct (m w) as [a w1].
  rewrite <- Hm. apply Hk.
Qed.

Lemma keepsHandle_setStatus st : keepsHandle (setStatus st).
Proof. intro w. rewrite setStatus_spec. reflexivity. Qed.

Lemma keepsHandle_modify (f : World -> World) :
  (forall w, scsi (f w) = scsi w) -> keepsHandle (St.modify f).
Proof.
  intros Hf w. unfold St.modify, isOpen. cbn [snd]. rewrite Hf.
  reflexivity.
Qed.

Lemma keepsHandle_call {A} (cmd : Drive -> Scsi.Private -> list SgIoHdr ->
                                   A * list SgIoHdr) dflt :
  keepsHandle (call cmd dflt).
Proof.
  intro w. unfold call, isOpen. destruct (scsi w) eqn:E.
  - destruct (cmd (drive w) p (issued w)) as [a iss].
    cbn [snd scsi]. reflexivity.
  - cbn [snd]. rewrite E. reflexivity.
Qed.

Lemma keepsHandle_checkOpen op : keepsHandle (checkOpen op).
Proof.
  intro w. unfold checkOpen. destruct (negb (isOpen w)); reflexivity.
Qed.

Lemma keepsHandle_setError msg : keepsHandle (setError msg).
Proof.
  unfold setError.
  apply keepsHandle_bind; [|intros _; apply keepsHandle_bind].
  - apply keepsHandle_modify. intro w. reflexivity.
  - apply keepsHandle_setStatus.
  - intros _. apply keepsHandle_modify. intro w. reflexivity.
Qed.

Ltac handle_step :=
  first
    [ apply keepsHandle_ret
    | apply keepsHandle_setStatus
    | apply keepsHandle_setError
    | apply keepsHandle_checkOpen
    | apply keepsHandle_call
    | apply keepsHandle_modify; intro; reflexivity
    | apply keepsHandle_bind; [|intro]
    | match goal with
      | |- keepsHandle (if ?b then _ else _) => destruct b
      | |- keepsHandle (match ?x with _ => _ end) => destruct x
      | |- keepsHandle (let '(_, _) := ?x in _) => destruct x
      end ].

Lemma keepsHandle_refreshStatus : keepsHandle refreshStatus.
Proof. repeat handle_step. Qed.

Lemma keepsHandle_perform (o : Operation) : keepsHandle (perform o).
Proof. destruct o; cbn [perform]; unfold flag; repeat handle_step. Qed.

Lemma quiet_call {A} (cmd : Drive -> Scsi.Private -> list SgIoHdr ->
                             A * list SgIoHdr) dflt :
  quiet (call cmd dflt).
Proof.
  intro w. unfold call. destruct (scsi w); [|split; reflexivity].
  destruct (cmd (drive w) p (issued w)) as [a iss].
  cbn [snd status trace]. split; [reflexivity|].
  rewrite lastTold_app, lastTold_issued. reflexivity.
Qed.

Lemma quiet_modify (f : World -> World) :
  (forall w, status (f w) = status w /\ trace (f w) = trace w) ->
  quiet (St.modify f).
Proof.
  intros Hf w. unfold St.modify. cbn [snd].
  destruct (Hf w) as [-> ->]. split; reflexivity.
Qed.

Lemma announces_setStatus st : st <> Unknown -> announces (setStatus st).
Proof.
  intros N w H. rewrite setStatus_spec. unfold inSync.
  cbn [snd status trace]. rewrite lastTold_app, H.
  destruct (status_eqb Unknown st) eqn:E.
  - apply status_eqb_eq in E. congruence.
  - reflexivity.
Qed.

Lemma announces_after {A B} (m : Dev A) (k : A -> Dev B) :
  quiet m -> (forall a, announces (k a)) -> announces (St.bind m k).
Proof.
  intros Hm Hk w H. unfold St.bind.
  destruct (Hm w) as [Hs _]. destruct (m w) as [a w1].
  apply Hk. cbn [snd] in Hs. congruence.
Qed.

Lemma announces_then {A B} (m : Dev A) (k : A -> Dev B) :
  announces m -> (forall a, syncs (k a)) -> announces (St.bind m k).
Proof.
  intros Hm Hk w H. unfold St.bind.
  specialize (Hm w H). destruct (m w) as [a w1]. apply Hk. exact Hm.
Qed.

(** The status refresh that ends [TapeDevice::open] announces the status
    it finds, whatever was announced before the device was closed. *)
Lemma refreshStatus_announces (w : World) :
  isOpen w = true -> status w = Unknown -> inSync (snd (refreshStatus w)).
Proof.
  intros Ho Hu.
  unfold refreshStatus. unfold St.bind at 1. unfold checkOpen.
  rewrite Ho. cbn [negb].
  revert w Hu Ho. 
  match goal with
  | |- forall w, _ -> _ -> inSync (snd (?m w)) =>
      enough (Ha : announces m) by (intros w Hu _; exact (Ha w Hu))
  end.
  apply announces_after; [apply quiet_call | intro result].
  destruct (success result).
  - apply announces_then; [apply announces_setStatus; discriminate|].
    intros _. apply syncs_ret.
  - apply announces_after;
      [apply quiet_modify; intro; split; reflexivity | intros _].
    apply announces_then; [| intros _; apply syncs_ret].
    destruct (senseKey (senseData result));
      try (apply announces_setStatus; discriminate).
    + destruct (additionalSenseCode (senseData result) =? 58);
        [apply announces_setStatus; discriminate |].
      destruct (additionalSenseCode (senseData result) =? 4);
        [| apply announces_setStatus; discriminate].
      destruct (additionalSenseCodeQualifier (senseData result))
        as [|[p|[p|p|]|]|p];
        apply announces_setStatus; discriminate.
    + apply announces_after; [apply quiet_call | intro result2].
      destruct (success result2).
      * apply announces_then; [apply announces_setStatus; discriminate|].
        intros _. apply syncs_emit_media.
      * apply announces_setStatus; discriminate.
Qed.

Lemma settled_open (w : World) : isOpen w = true -> inSync w -> settled w.
Proof. intros Ho H. unfold settled. rewrite Ho. exact H. Qed.

Lemma settled_closed (w : World) :
  isOpen w = false -> status w = Unknown -> settled w.
Proof. intros Ho H. unfold settled. rewrite Ho. exact H. Qed.

Lemma settled_perform (o : Operation) (w : World) :
  settled w -> settled (snd (perform o w)).
Proof.
  intro H. unfold settled in *.
  rewrite (keepsHandle_perform o w).
  destruct (isOpen w) eqn:Ho.
  - apply syncs_perform. exact H.
  - rewrite (perform_closed o w Ho). exact H.
Qed.

Lemma settled_openDevice (devicePath : string) (os_fd : Z) (w : World) :
  settled w -> settled (snd (openDevice devicePath os_fd w)).
Proof.
  intro H. unfold openDevice.
  destruct (isOpen w) eqn:Ho; [exact H|].
  unfold settled in H. rewrite Ho in H.
  destruct (Scsi.isOpen (opened os_fd)) eqn:Hd; cbn [negb snd].
  - assert (Ho2 : isOpen (snd (emit (openChanged true)
                                 (set_scsi (Some (opened os_fd)) w))) = true)
      by (unfold isOpen; cbn; exact Hd).
    apply settled_open.
    + rewrite keepsHandle_refreshStatus. exact Ho2.
    + apply refreshStatus_announces; [exact Ho2 | exact H].
  - apply settled_closed; [reflexivity | exact H].
Qed.

Lemma settled_close (w : World) : settled w -> settled (snd (close w)).
Proof.
  intro H. unfold close. destruct (scsi w) eqn:E.
  - apply settled_closed; reflexivity.
  - exact H.
Qed.

Lemma settled_setTimeout (seconds : Z) (w : World) :
  settled w -> settled (snd (setTimeout seconds w)).
Proof.
  intro H. unfold setTimeout, settled, isOpen in *.
  destruct (scsi w) eqn:E; cbn [snd]; [|rewrite E; exact H].
  cbn [scsi set_scsi status trace]. exact H.
Qed.

Lemma settled_clearError (w : World) :
  settled w -> settled (snd (clearError w)).
Proof. intro H. exact H. Qed.

Lemma settled_invoke (devicePath : string) (m : Method) (w : World) :
  settled w -> settled (invoke devicePath m w).
Proof.
  intro H. destruct m; cbn [invoke].
  - apply settled_perform. exact H.
  - apply settled_openDevice. exact H.
  - apply settled_close. exact H.
  - apply settled_setTimeout. exact H.
  - apply settled_clearError. exact H.
Qed.

(** [open] is [TapeDevice::open] on a device just constructed, where the
    operating system grants the descriptor. *)
Lemma openDevice_created (dr : Drive) (devicePath : string) (os_fd : Z) :
  0 <= os_fd ->
  openDevice devicePath os_fd (created dr) = (true, open dr os_fd).
Proof.
  intro H. unfold openDevice, created, open, attached.
  cbn [isOpen scsi]. unfold Scsi.isOpen, opened. cbn [fd].
  destruct (Z.leb_spec 0 os_fd) as [_|N]; [reflexivity | lia].
Qed.

(** X11.  Through the whole life of a [TapeDevice], from its construction
    on, under any sequence of calls of [open] (granted or refused),
    [close], [setTimeout], [clearError] and the operations that begin
    with [checkOpen], and whatever the drive answers: while the device
    is open the status it holds is the one its [statusChanged] signal
    last announced, and while it is not open the status is Unknown.
    Every method but [close] changes the status through [setStatus];
    [close] assigns Unknown without announcing it, and the status
    refresh that ends the next [open] announces the status it finds. *)
Theorem status_is_last_announced (dr : Drive) (devicePath : string)
    (ms : list Method) :
  let w := invokeAll devicePath ms (created dr) in
  if isOpen w then status w = lastTold Unknown (trace w)
  else status w = Unknown.
Proof.
  cbv zeta.
  assert (I : settled (created dr)) by reflexivity.
  revert I. generalize (created dr) as w.
  induction ms as [|m ms IH]; intros w I; cbn [invokeAll].
  - exact I.
  - apply IH. apply settled_invoke. exact I.
Qed.

(** What [close] leaves behind: the status is Unknown, while the last
    [statusChanged] the observers received still says Ready. *)
Lemma close_is_not_announced :
  let w := invokeAll "/dev/nst0" [DoOpen 3; DoClose] (created goodDrive) in
  isOpen w = false
  /\ status w = Unknown
  /\ lastTold Unknown (trace w) = Ready.
Proof. cbv zeta. split; [|split]; reflexivity. Qed.

(** A device closed and opened again is in step with its signal. *)
Lemma reopened_is_announced :
  let w := invokeAll "/dev/nst0" [DoOpen 3; DoClose; DoOpen 4]
             (created goodDrive) in
  isOpen w = true
  /\ status w = Ready
  /\ lastTold Unknown (trace w) = Ready.
Proof. cbv zeta. split; [|split]; reflexivity. Qed.


Lemma plainCommand_fst dr d cdb iss :
  Scsi.isOpen d = true ->
  fst (plainCommand dr d cdb iss)
  = fst (completed DirNone [] 0 (dr iss (sgHeader d cdb DirNone []))).
Proof. intros Ho. unfold plainCommand. run_execute Ho. Qed.

Lemma plainCommand_snd dr d cdb iss :
  Scsi.isOpen d = true ->
  snd (plainCommand dr d cdb iss) = iss ++ [sgHeader d cdb DirNone []].
Proof. intros Ho. unfold plainCommand. run_execute Ho. Qed.

(** X12.  [rewind] on an open device whose drive completes the command.  With
    [wait] the command is sent without the immediate bit, and afterwards
    the device is Ready at block 0, file 0, at the beginning of the
    partition it was on; without [wait] the immediate bit is set, the
    status stays Rewinding and the position is not touched.  Either way
    one command is issued and the call returns [true]. *)
Theorem rewind_outcome (w : World) (d : Scsi.Private) (wait : bool) :
  healthy w d ->
  let w' := snd (rewind wait w) in
  fst (rewind wait w) = true
  /\ issued w' = issued w ++ [rewindHdr d (negb wait)]
  /\ byteAt (cmdp (rewindHdr d (negb wait))) 1 = (if wait then 0 else 1)
  /\ status w' = (if wait then Ready else Rewinding)
  /\ position w'
     = (if wait
        then mkPosition (partition (position w)) 0 0 true false
                        (blockPositionUnknown (position w))
        else position w).
Proof.
  intros (Hs & Ho & Hc).
  assert (Hopen : isOpen w = true) by (unfold isOpen; rewrite Hs; exact Ho).
  cbv zeta. unfold rewind, St.bind, checkOpen. rewrite Hopen. cbn [negb].
  rewrite setStatus_spec.
  erewrite call_open;
    [ | cbn [scsi]; exact Hs
      | apply (plainCommand_snd _ _ (cdb_rewind (negb wait))); exact Ho ].
  cbn [drive issued scsi status position lastError lastSenseData trace].
  unfold Scsi.rewind. rewrite (plainCommand_fst _ _ _ _ Ho).
  destruct (completes_good (drive w) DirNone [] 0 (issued w)
              (sgHeader d (cdb_rewind (negb wait)) DirNone []) Hc)
    as [S1 _].
  rewrite S1. cbn [negb]. unfold St.modify, St.ret.
  destruct wait; cbn [negb]; rewrite ?setStatus_spec;
    cbn [fst snd set_lastSenseData set_position drive issued scsi status
         position];
    repeat split; reflexivity.
Qed.

Lemma rewind_outcome_witness :
  healthy (open goodDrive 3) (opened 3)
  /\ status (snd (rewind true (open goodDrive 3))) = Ready
  /\ blockNumber (position (snd (rewind true (open goodDrive 3)))) = 0.
Proof.
  assert (H : healthy (open goodDrive 3) (opened 3)).
  { split; [reflexivity|]. split; [reflexivity|].
    intros hist h. cbn. tauto. }
  split; [exact H|].
  destruct (rewind_outcome (open goodDrive 3) (opened 3) true H)
    as (_ & _ & _ & S & P).
  split; [exact S|]. rewrite P. reflexivity.
Defined.


(** X13.  [spaceBlocks] on an open device whose drive completes the command:
    the SPACE command carries only the low 24 bits of the count, while
    the block number the device keeps moves by the whole count, in
    [quint64].  For a count outside -2^23 .. 2^23 - 1 the two differ, and
    nothing reports it. *)
Theorem spaceBlocks_count_cut (w : World) (d : Scsi.Private) (count : Z) :
  healthy w d ->
  let w' := snd (spaceBlocks count w) in
  fst (spaceBlocks count w) = true
  /\ issued w' = issued w ++ [spaceHdr d 0 count]
  /\ bigEndian (field 2 3 (cmdp (spaceHdr d 0 count))) = count mod 2 ^ 24
  /\ blockNumber (position w')
     = wrap64 (blockNumber (position w) + count)
  /\ spaceHdr d 0 (count + 2 ^ 24) = spaceHdr d 0 count.
Proof.
  intros (Hs & Ho & Hc).
  assert (Hopen : isOpen w = true) by (unfold isOpen; rewrite Hs; exact Ho).
  cbv zeta. unfold spaceBlocks, St.bind, checkOpen. rewrite Hopen.
  cbn [negb].
  rewrite (call_open _ _ w d (spaceHdr d 0 count) Hs
             (space_snd _ _ _ _ _ Ho)).
  rewrite (space_fst _ _ _ _ _ Ho).
  destruct (completes_good (drive w) DirNone [] 0 (issued w)
              (spaceHdr d 0 count) Hc) as [S1 _].
  rewrite S1. cbn [negb]. unfold St.modify, St.ret.
  cbn [fst snd set_lastSenseData set_position drive issued scsi position
       blockNumber].
  split; [reflexivity|]. split; [reflexivity|].
  split; [apply space_field|]. split; [reflexivity|].
  unfold spaceHdr. f_equal. apply space_same.
Qed.


Lemma spaceBlocks_count_cut_witness :
  healthy (open goodDrive 3) (opened 3)
  /\ bigEndian (field 2 3 (cmdp (spaceHdr (opened 3) 0 (2 ^ 24 + 1)))) = 1
  /\ blockNumber (position (snd (spaceBlocks (2 ^ 24 + 1)
                                             (open goodDrive 3))))
     = 2 ^ 24 + 1.
Proof.
  assert (H : healthy (open goodDrive 3) (opened 3)).
  { split; [reflexivity|]. split; [reflexivity|].
    intros hist h. cbn. tauto. }
  split; [exact H|].
  destruct (spaceBlocks_count_cut (open goodDrive 3) (opened 3)
              (2 ^ 24 + 1) H) as (_ & _ & F & P & _).
  split; [rewrite F; reflexivity | rewrite P; reflexivity].
Defined.

Lemma fixed_write6_fst dr d buf iss :
  Scsi.isOpen d = true ->
  fst (write6 dr d buf true iss)
  = fst (completed ToDevice buf (wrap32 (size buf))
                   (dr iss (writeBlocksHdr d buf))).
Proof. intros Ho. unfold write6, writeBlocksHdr. run_execute Ho. Qed.

Lemma fixed_write6_snd dr d buf iss :
  Scsi.isOpen d = true ->
  snd (write6 dr d buf true iss) = iss ++ [writeBlocksHdr d buf].
Proof. intros Ho. unfold write6, writeBlocksHdr. run_execute Ho. Qed.

(** X14.  [writeBlocks] on an open device whose drive completes the command.
    The WRITE(6) it issues has the fixed-block bit set, and its transfer
    length is the number of bytes of [data] (its low 24 bits), not the
    number of blocks; the block number the device keeps moves by the
    number of blocks, [data.size() / blockSize]. *)
Theorem writeBlocks_length_in_bytes (w : World) (d : Scsi.Private)
    (data0 : QByteArray) (blockSize : Z) :
  healthy w d -> blockSize <> 0 -> size data0 < 2 ^ 32 ->
  let w' := snd (writeBlocks data0 blockSize w) in
  fst (writeBlocks data0 blockSize w) = Some (size data0)
  /\ issued w' = issued w ++ [writeBlocksHdr d data0]
  /\ byteAt (cmdp (writeBlocksHdr d data0)) 0 = OP_Write6
  /\ byteAt (cmdp (writeBlocksHdr d data0)) 1 = 1
  /\ bigEndian (field 2 3 (cmdp (writeBlocksHdr d data0)))
     = size data0 mod 2 ^ 24
  /\ blockNumber (position w')
     = wrap64 (blockNumber (position w) + size data0 / blockSize)
  /\ status w' = Ready.
Proof.
  intros (Hs & Ho & Hc) Hb Hlt.
  assert (Hopen : isOpen w = true) by (unfold isOpen; rewrite Hs; exact Ho).
  assert (W : wrap32 (size data0) = size data0).
  { unfold wrap32. apply Z.mod_small. unfold size in *. lia. }
  cbv zeta. unfold writeBlocks, St.bind, checkOpen. rewrite Hopen.
  cbn [negb].
  destruct (Z.eqb_spec blockSize 0) as [E|_]; [contradiction|].
  rewrite setStatus_spec.
  erewrite call_open;
    [ | cbn [scsi]; exact Hs | apply fixed_write6_snd; exact Ho ].
  cbn [drive issued scsi status position lastError lastSenseData trace].
  rewrite (fixed_write6_fst _ _ _ _ Ho).
  destruct (completes_good (drive w) ToDevice data0 (wrap32 (size data0))
              (issued w) (writeBlocksHdr d data0) Hc) as [S1 B1].
  rewrite S1. cbn [negb]. unfold St.modify, St.ret.
  rewrite setStatus_spec.
  cbn [fst snd set_lastSenseData advance_block set_position drive issued
       scsi status position blockNumber].
  rewrite B1, !W.
  split; [reflexivity|]. split; [reflexivity|].
  split; [reflexivity|]. split; [reflexivity|].
  split; [|split; reflexivity].
  unfold writeBlocksHdr, sgHeader. cbn [cmdp].
  rewrite write6_field, W. reflexivity.
Qed.

Lemma writeBlocks_length_in_bytes_witness :
  let data0 := repeat x00 (Z.to_nat 8192) in
  healthy (open goodDrive 3) (opened 3) /\ 4096 <> 0
  /\ size data0 < 2 ^ 32
  /\ bigEndian (field 2 3 (cmdp (writeBlocksHdr (opened 3) data0))) = 8192
  /\ blockNumber (position (snd (writeBlocks data0 4096
                                             (open goodDrive 3)))) = 2.
Proof.
  cbv zeta.
  assert (H : healthy (open goodDrive 3) (opened 3)).
  { split; [reflexivity|]. split; [reflexivity|].
    intros hist h. cbn. tauto. }
  assert (Hb : 4096 <> 0) by discriminate.
  assert (Hl : size (repeat x00 (Z.to_nat 8192)) < 2 ^ 32) by (vm_compute; reflexivity).
  split; [exact H|]. split; [exact Hb|]. split; [exact Hl|].
  destruct (writeBlocks_length_in_bytes (open goodDrive 3) (opened 3)
              (repeat x00 (Z.to_nat 8192)) 4096 H Hb Hl)
    as (_ & _ & _ & _ & F & P & _).
  split; [rewrite F; vm_compute; reflexivity
         | rewrite P; vm_compute; reflexivity].
Defined.

End DeviceFacts.

(** ** Position data *)
Module DecodeFacts.
Import Scsi Tape TapeDecode.

Lemma lor_shiftl_add (hi lo n : Z) :
  0 <= n -> 0 <= lo < 2 ^ n -> Z.lor (Z.shiftl hi n) lo = hi * 2 ^ n + lo.
Proof.
  intros Hn Hl.
  rewrite <- Z.shiftl_mul_pow2 by lia.
  rewrite <- Z.add_lor_land.
  assert (E : Z.land (Z.shiftl hi n) lo = 0).
  { apply Z.bits_inj'. intros k Hk.
    rewrite Z.land_spec, Z.bits_0.
    destruct (Z.ltb_spec k n) as [L|G].
    - rewrite Z.shiftl_spec_low by lia. reflexivity.
    - destruct (Z.eqb_spec lo 0) as [->|Nz].
      + rewrite Z.bits_0. apply andb_false_r.
      + rewrite (Z.bits_above_log2 lo k); [apply andb_false_r | lia |].
        apply Z.log2_lt_pow2; [lia|].
        apply Z.lt_le_trans with (2 ^ n); [lia|].
        apply Z.pow_le_mono_r; lia. }
  rewrite E. lia.
Qed.

Lemma word32_value (b0 b1 b2 b3 : Z) :
  0 <= b0 < 256 -> 0 <= b1 < 256 -> 0 <= b2 < 256 -> 0 <= b3 < 256 ->
  word32 b0 b1 b2 b3 = ((b0 * 256 + b1) * 256 + b2) * 256 + b3.
Proof.
  intros H0 H1 H2 H3. unfold word32.
  assert (S1 : Z.lor (Z.shiftl b0 24) (Z.shiftl b1 16)
               = Z.shiftl (b0 * 256 + b1) 16).
  { replace (b0 * 256 + b1) with (Z.lor (Z.shiftl b0 8) b1)
      by (rewrite lor_shiftl_add by lia; reflexivity).
    rewrite Z.shiftl_lor, Z.shiftl_shiftl by lia. reflexivity. }
  rewrite S1.
  assert (S2 : Z.lor (Z.shiftl (b0 * 256 + b1) 16) (Z.shiftl b2 8)
               = Z.shiftl ((b0 * 256 + b1) * 256 + b2) 8).
  { replace ((b0 * 256 + b1) * 256 + b2)
      with (Z.lor (Z.shiftl (b0 * 256 + b1) 8) b2)
      by (rewrite lor_shiftl_add by lia; reflexivity).
    rewrite Z.shiftl_lor, Z.shiftl_shiftl by lia. reflexivity. }
  rewrite S2.
  rewrite lor_shiftl_add by lia. reflexivity.
Qed.

Lemma bit_of_mask (v k : Z) :
  0 <= k -> negb (Z.land v (2 ^ k) =? 0) = Z.testbit v k.
Proof.
  intro Hk.
  destruct (Z.testbit v k) eqn:T.
  - apply negb_true_iff. apply Z.eqb_neq. intro E.
    assert (B : Z.testbit (Z.land v (2 ^ k)) k = true)
      by (rewrite Z.land_spec, T, Z.pow2_bits_true by lia; reflexivity).
    rewrite E, Z.bits_0 in B. discriminate B.
  - apply negb_false_iff. apply Z.eqb_eq.
    apply Z.bits_inj'. intros j Hj.
    rewrite Z.land_spec, Z.bits_0.
    destruct (Z.eq_dec j k) as [->|N].
    + rewrite T. reflexivity.
    + rewrite Z.pow2_bits_false by lia. apply andb_false_r.
Qed.

Lemma size_nat (data : QByteArray) : size data = Z.of_nat (List.length data).
Proof. reflexivity. Qed.

Lemma byteAt_nth (data : QByteArray) (i : nat) :
  (i < List.length data)%nat ->
  exists b, nth_error data i = Some b /\ byteAt data i = u8 b.
Proof.
  intro H. destruct (nth_error data i) as [b|] eqn:E.
  - exists b. split; [reflexivity|]. unfold byteAt. rewrite E. reflexivity.
  - apply nth_error_None in E. lia.
Qed.

(** X15.  [parsePositionData] stays inside its input.  Fewer than 20 bytes are
    refused without a byte being read and without a change to the
    position.  Otherwise every index read is below 20, so inside the
    array; the partition is byte 1; block and file number are the
    big-endian values of bytes 4 to 7 and 8 to 11, so below 2^32; the
    flags are bits 7, 6 and 2 of byte 0. *)
Theorem parsePositionData_in_bounds (p : TapePosition) (data : QByteArray) :
  if size data <? 20
  then parsePositionData p data = (false, p)
       /\ parsePositionData_reads p data = []
  else fst (parsePositionData p data) = true
       /\ Forall (fun i => (i < List.length data)%nat)
                 (parsePositionData_reads p data)
       /\ partition (snd (parsePositionData p data)) = byteAt data 1
       /\ blockNumber (snd (parsePositionData p data))
          = bigEndian (field 4 4 data)
       /\ fileNumber (snd (parsePositionData p data))
          = bigEndian (field 8 4 data)
       /\ 0 <= blockNumber (snd (parsePositionData p data)) < 2 ^ 32
       /\ beginOfPartition (snd (parsePositionData p data))
          = Z.testbit (byteAt data 0) 7
       /\ endOfPartition (snd (parsePositionData p data))
          = Z.testbit (byteAt data 0) 6
       /\ blockPositionUnknown (snd (parsePositionData p data))
          = Z.testbit (byteAt data 0) 2.
Proof.
  unfold parsePositionData, parsePositionData_reads, parsePositionData_rd,
    Access.bind, Access.len, Access.rd, Access.ret.
  destruct (Z.ltb_spec (size data) 20) as [S|L]; cbn [fst snd app].
  - split; reflexivity.
  - rewrite size_nat in L.
    cbn [partition blockNumber fileNumber beginOfPartition endOfPartition
         blockPositionUnknown].
    split; [reflexivity|].
    split; [repeat (constructor; [lia|]); constructor|].
    split; [reflexivity|].
    assert (W : forall i, (i + 4 <= List.length data)%nat ->
              word32 (byteAt data i) (byteAt data (S i))
                     (byteAt data (S (S i))) (byteAt data (S (S (S i))))
              = bigEndian (field i 4 data)
              /\ 0 <= bigEndian (field i 4 data) < 2 ^ 32).
    { intros i Hi.
      rewrite word32_value by apply byteAt_range.
      unfold field.
      destruct (byteAt_nth data i ltac:(lia)) as (c0 & N0 & E0).
      destruct (byteAt_nth data (S i) ltac:(lia)) as (c1 & N1 & E1).
      destruct (byteAt_nth data (S (S i)) ltac:(lia)) as (c2 & N2 & E2).
      destruct (byteAt_nth data (S (S (S i))) ltac:(lia)) as (c3 & N3 & E3).
      pose proof (u8_range c0). pose proof (u8_range c1).
      pose proof (u8_range c2). pose proof (u8_range c3).
      assert (F : firstn 4 (skipn i data) = [c0; c1; c2; c3]).
      { clear - N0 N1 N2 N3. revert data N0 N1 N2 N3.
        induction i as [|i IH]; intros data N0 N1 N2 N3.
        - destruct data as [|x0 [|x1 [|x2 [|x3 r]]]]; cbn in *;
            try discriminate. congruence.
        - destruct data as [|x r]; [discriminate|]. cbn [skipn].
          apply IH; assumption. }
      rewrite F, E0, E1, E2, E3. cbn [bigEndian fold_left].
      split; lia. }
    destruct (W 4%nat ltac:(lia)) as [W4 R4].
    destruct (W 8%nat ltac:(lia)) as [W8 _].
    split; [exact W4|]. split; [exact W8|].
    split; [rewrite W4; exact R4|].
    split; [apply (bit_of_mask _ 7); lia|].
    split; [apply (bit_of_mask _ 6); lia| apply (bit_of_mask _ 2); lia].
Qed.

End DecodeFacts.

Module HashFacts.
Import XXHash64 XXHashModel.

Lemma peek (p : QByteArray) (k j : nat) :
  (k + j < 32)%nat -> byteAt (skipn k p) j = byteAt (firstn 32 p) (k + j).
Proof.
  intro H. unfold byteAt.
  rewrite nth_error_skipn, nth_error_firstn.
  destruct (Nat.ltb_spec (k + j) 32) as [_ | L]; [reflexivity | lia].
Qed.

Lemma laneStep_prefix (p q : QByteArray) v :
  firstn 32 p = firstn 32 q -> laneStep p v = laneStep q v.
Proof.
  intro E. destruct v as [[[v1 v2] v3] v4]. unfold laneStep, readLE64.
  change (byteAt p) with (byteAt (skipn 0 p)).
  change (byteAt q) with (byteAt (skipn 0 q)).
  rewrite !peek by lia. rewrite E. reflexivity.
Qed.

Lemma laneBlocks_fuel (f : nat) : forall (g : nat) (p : QByteArray) v,
  (List.length p <= f)%nat -> (List.length p <= g)%nat ->
  laneBlocks f p v = laneBlocks g p v.
Proof.
  induction f as [| f IH]; intros g p v Hf Hg.
  - destruct p; [| simpl in Hf; lia]. destruct g; reflexivity.
  - destruct g as [| g].
    + destruct p; [| simpl in Hg; lia]. reflexivity.
    + cbn [laneBlocks]. destruct (32 <=? size p) eqn:E; [| reflexivity].
      apply Z.leb_le in E. unfold size in E.
      apply IH; rewrite length_skipn; lia.
Qed.

Lemma laneBlocks_short (f : nat) (p : QByteArray) v :
  size p < 32 -> laneBlocks f p v = (p, v).
Proof.
  intro H. destruct f; [reflexivity |]. cbn [laneBlocks].
  destruct (32 <=? size p) eqn:E; [apply Z.leb_le in E; lia | reflexivity].
Qed.

Lemma laneBlocks_long (f : nat) (p : QByteArray) v :
  32 <= size p -> (List.length p <= f)%nat ->
  laneBlocks f p v =
  laneBlocks (List.length (skipn 32 p)) (skipn 32 p) (laneStep p v).
Proof.
  intros H L. destruct f as [| f].
  - unfold size in H. lia.
  - cbn [laneBlocks]. destruct (32 <=? size p) eqn:E; [| apply Z.leb_gt in E; lia].
    unfold size in H. apply laneBlocks_fuel; rewrite ?length_skipn; lia.
Qed.

Lemma laneBlocks_rest (f : nat) : forall (p : QByteArray) v,
  (List.length p <= f)%nat -> size (fst (laneBlocks f p v)) < 32.
Proof.
  induction f as [| f IH]; intros p v L.
  - destruct p; [| simpl in L; lia]. simpl. unfold size. simpl. lia.
  - cbn [laneBlocks]. destruct (32 <=? size p) eqn:E.
    + apply Z.leb_le in E. unfold size in E.
      apply IH. rewrite length_skipn. lia.
    + apply Z.leb_gt in E. exact E.
Qed.

Lemma laneBlocks_app (n : nat) : forall (x y : QByteArray) v,
  (List.length x <= n)%nat ->
  laneBlocks (List.length (x ++ y)) (x ++ y) v =
  laneBlocks (List.length (fst (laneBlocks (List.length x) x v) ++ y))
    (fst (laneBlocks (List.length x) x v) ++ y)
    (snd (laneBlocks (List.length x) x v)).
Proof.
  induction n as [| n IH]; intros x y v L.
  - destruct x; [| simpl in L; lia]. reflexivity.
  - destruct (Z_lt_ge_dec (size x) 32) as [S | S].
    + rewrite (laneBlocks_short _ x) by exact S. reflexivity.
    + assert (Lx : (32 <= List.length x)%nat) by (unfold size in S; lia).
      rewrite (laneBlocks_long _ x) by (try lia; apply Nat.le_refl).
      rewrite (laneBlocks_long _ (x ++ y))
        by (try apply Nat.le_refl; unfold size; rewrite length_app; lia).
      rewrite skipn_app.
      replace (32 - List.length x)%nat with 0%nat by lia.
      change (skipn 0 y) with y.
      rewrite (laneStep_prefix (x ++ y) x).
      * apply IH. rewrite length_skipn. lia.
      * rewrite firstn_app.
        replace (32 - List.length x)%nat with 0%nat by lia.
        simpl. apply List.app_nil_r.
Qed.

Lemma absorb_absorb (a b : QByteArray) x :
  absorb b (absorb a x) = absorb (a ++ b) x.
Proof.
  destruct x as [[[seed v] total] waiting]. unfold absorb.
  rewrite List.app_assoc.
  rewrite (laneBlocks_app _ (waiting ++ a) b v (Nat.le_refl _)).
  destruct (laneBlocks (List.length (waiting ++ a)) (waiting ++ a) v)
    as [rest v1].
  cbn [fst snd].
  destruct (laneBlocks (List.length (rest ++ b)) (rest ++ b) v1)
    as [rest' v2].
  f_equal. f_equal. unfold wrap64, size.
  rewrite length_app, Nat2Z.inj_add, Zplus_mod_idemp_l. f_equal. lia.
Qed.

Lemma absorb_nothing (s : t) :
  settled s -> absorb [] (visible s) = visible s.
Proof.
  intros (B & S & T). unfold visible, absorb.
  rewrite List.app_nil_r, laneBlocks_short.
  - unfold wrap64, size. simpl. rewrite Z.add_0_r, Z.mod_small by lia.
    reflexivity.
  - unfold size. rewrite length_firstn. lia.
Qed.

Lemma blocks_lanes (f : nat) : forall (p : QByteArray) (s : t),
  blocks f p s =
  (fst (laneBlocks f p (m_v1 s, m_v2 s, m_v3 s, m_v4 s)),
   let '(v1, v2, v3, v4) :=
     snd (laneBlocks f p (m_v1 s, m_v2 s, m_v3 s, m_v4 s)) in
   mk (m_seed s) v1 v2 v3 v4 (m_totalLen s) (m_buffer s) (m_bufferSize s)).
Proof.
  induction f as [| f IH]; intros p s.
  - destruct s; reflexivity.
  - cbn [blocks laneBlocks]. destruct (32 <=? size p); [| destruct s; reflexivity].
    rewrite IH. reflexivity.
Qed.

Lemma memcpy_length (dst src : QByteArray) (at_ n : Z) :
  List.length dst = 32%nat -> 0 <= at_ -> 0 <= n -> at_ + n <= 32 ->
  n <= size src -> List.length (memcpy dst at_ src n) = 32%nat.
Proof.
  unfold memcpy, size. intros D A N L S.
  rewrite !length_app, !length_firstn, length_skipn. lia.
Qed.

Lemma memcpy_live (dst src : QByteArray) (at_ n : Z) :
  List.length dst = 32%nat -> 0 <= at_ -> 0 <= n -> at_ + n <= 32 ->
  n <= size src ->
  firstn (Z.to_nat (at_ + n)) (memcpy dst at_ src n) =
  firstn (Z.to_nat at_) dst ++ firstn (Z.to_nat n) src.
Proof.
  unfold memcpy, size. intros D A N L S.
  rewrite List.app_assoc. rewrite firstn_app.
  rewrite length_app, !length_firstn.
  replace (Z.to_nat (at_ + n) -
           (Nat.min (Z.to_nat at_) (List.length dst) +
            Nat.min (Z.to_nat n) (List.length src)))%nat with 0%nat by lia.
  rewrite firstn_all2 by (rewrite length_app, !length_firstn; lia).
  simpl. apply List.app_nil_r.
Qed.

Ltac fields :=
  cbn [setTotalLen setBufferSize setBuffer processBlock m_bufferSize
       m_buffer m_seed m_v1 m_v2 m_v3 m_v4 m_totalLen fst snd] in *.

Lemma firstn_size (p : QByteArray) : firstn (Z.to_nat (size p)) p = p.
Proof.
  unfold size. rewrite Nat2Z.id. apply firstn_all.
Qed.

Lemma empty_rest (rest : QByteArray) : size rest <= 0 -> rest = [].
Proof.
  destruct rest; [reflexivity | unfold size; simpl; lia].
Qed.

Lemma update_absorbs (data : QByteArray) (s : t) :
  settled s ->
  visible (update data s) = absorb data (visible s) /\
  settled (update data s).
Proof.
  destruct s as [seed v1 v2 v3 v4 total buf bs].
  unfold settled. fields. intros (B & S & T).
  assert (R : 0 <= wrap64 (total + size data) < 2 ^ 64)
    by (apply Z.mod_pos_bound; lia).
  assert (D : 0 <= size data) by (unfold size; lia).
  unfold update, absorb, visible. fields.
  set (live := firstn (Z.to_nat bs) buf).
  assert (Ll : List.length live = Z.to_nat bs)
    by (unfold live; rewrite length_firstn; lia).
  destruct (bs + size data <? 32) eqn:E.
  - apply Z.ltb_lt in E.
    rewrite laneBlocks_short
      by (unfold size in *; rewrite length_app; lia).
    fields. rewrite memcpy_live, firstn_size by lia.
    split; [reflexivity |].
    rewrite memcpy_length by lia. lia.
  - apply Z.ltb_ge in E.
    assert (La : 32 <= size (live ++ data))
      by (unfold size in *; rewrite length_app; lia).
    destruct (0 <? bs) eqn:W.
    + apply Z.ltb_lt in W. fields.
      set (full := memcpy buf bs data (32 - bs)).
      assert (Lf : List.length full = 32%nat)
        by (apply memcpy_length; lia).
      assert (Ef : full = live ++ firstn (Z.to_nat (32 - bs)) data).
      { rewrite <- (firstn_all full), Lf.
        change 32%nat with (Z.to_nat 32).
        replace 32 with (bs + (32 - bs)) at 1 by lia.
        apply memcpy_live; lia. }
      set (tail := skipn (Z.to_nat (32 - bs)) data).
      rewrite blocks_lanes. fields.
      rewrite (laneBlocks_long _ (live ++ data))
        by (try lia; apply Nat.le_refl).
      assert (Et : skipn 32 (live ++ data) = tail).
      { rewrite skipn_app, Ll. unfold tail.
        rewrite (skipn_all2 live) by lia. cbn [app]. f_equal. lia. }
      rewrite Et.
      assert (Es : laneStep (live ++ data) (v1, v2, v3, v4) =
                   laneStep full (v1, v2, v3, v4)).
      { apply laneStep_prefix. rewrite firstn_app, Ll.
        rewrite (firstn_all2 live) by lia.
        rewrite (firstn_all2 full) by lia.
        rewrite Ef. f_equal. f_equal. lia. }
      rewrite Es. cbn [laneStep].
      pose proof (laneBlocks_rest (List.length tail) tail
        (round v1 (readLE64 full), round v2 (readLE64 (skipn 8 full)),
         round v3 (readLE64 (skipn 16 full)),
         round v4 (readLE64 (skipn 24 full))) (Nat.le_refl _)) as Rs.
      destruct (laneBlocks _ tail _) as [rest [[[w1 w2] w3] w4]].
      fields.
      assert (Rn : 0 <= size rest) by (unfold size; lia).
      destruct (0 <? size rest) eqn:P.
      * fields.
        pose proof (memcpy_live full rest 0 (size rest) Lf) as ML.
        rewrite Z.add_0_l in ML. rewrite ML, firstn_size by lia.
        split; [reflexivity |].
        rewrite memcpy_length by lia. lia.
      * apply Z.ltb_ge in P. rewrite (empty_rest rest P). fields.
        split; [reflexivity | lia].
    + apply Z.ltb_ge in W.
      assert (Z0 : bs = 0) by lia. subst bs.
      change live with (@nil byte) in *. cbn [app] in *.
      rewrite blocks_lanes. fields.
      pose proof (laneBlocks_rest (List.length data) data
        (v1, v2, v3, v4) (Nat.le_refl _)) as Rs.
      destruct (laneBlocks _ data _) as [rest [[[w1 w2] w3] w4]].
      fields.
      assert (Rn : 0 <= size rest) by (unfold size; lia).
      destruct (0 <? size rest) eqn:P.
      * fields.
        pose proof (memcpy_live buf rest 0 (size rest) B) as ML.
        rewrite Z.add_0_l in ML. rewrite ML, firstn_size by lia.
        split; [reflexivity |].
        rewrite memcpy_length by lia. lia.
      * apply Z.ltb_ge in P. rewrite (empty_rest rest P). fields.
        split; [reflexivity | lia].
Qed.

Lemma updateAll_absorbs (chunks : list QByteArray) : forall s : t,
  settled s ->
  visible (updateAll chunks s) = absorb (List.concat chunks) (visible s) /\
  settled (updateAll chunks s).
Proof.
  induction chunks as [| c cs IH]; intros s I.
  - simpl. split; [symmetry; apply absorb_nothing; exact I | exact I].
  - destruct (update_absorbs c s I) as [V I'].
    destruct (IH (update c s) I') as [V' I''].
    change (updateAll (c :: cs) s) with (updateAll cs (update c s)).
    split; [| exact I''].
    rewrite V', V.
    change (List.concat (c :: cs)) with (c ++ List.concat cs).
    apply absorb_absorb.
Qed.

Lemma finalize_visible (s s' : t) :
  visible s = visible s' -> finalize s = finalize s'.
Proof.
  unfold visible. intro E. injection E as E1 E2 E3 E4 E5 E6 E7.
  unfold finalize. rewrite E1, E2, E3, E4, E5, E6, E7. reflexivity.
Qed.

Lemma create_settled (seed : Z) (raw : QByteArray) :
  List.length raw = 32%nat -> settled (create seed raw).
Proof.
  intro L. unfold settled, create, reset. cbn [m_buffer m_bufferSize m_totalLen].
  lia.
Qed.

(** X16.  The digest of the chunks of a file fed one after another is the
    digest of the whole file in one piece, whatever the chunk sizes and
    whatever the arrays of the two objects held before. *)
Theorem digest_ignores_chunking (seed : Z) (raw raw' : QByteArray)
  (chunks : list QByteArray) :
  List.length raw = 32%nat -> List.length raw' = 32%nat ->
  finalize (updateAll chunks (create seed raw)) =
  hash (List.concat chunks) seed raw'.
Proof.
  intros L L'. unfold hash. apply finalize_visible.
  destruct (updateAll_absorbs chunks _ (create_settled seed raw L)) as [V _].
  destruct (update_absorbs (List.concat chunks) _ (create_settled seed raw' L'))
    as [V' _].
  rewrite V, V'. reflexivity.
Qed.


Lemma digest_ignores_chunking_witness :
  List.length (repeat x00 32) = 32%nat
  /\ List.length (repeat xff 32) = 32%nat
  /\ finalize (updateAll [[x61]; [x62; x63]] (create 0 (repeat x00 32))) =
     hash (List.concat [[x61]; [x62; x63]]) 0 (repeat xff 32).
Proof.
  split; [reflexivity |]. split; [reflexivity |].
  apply (digest_ignores_chunking 0 (repeat x00 32) (repeat xff 32)
           [[x61]; [x62; x63]]); reflexivity.
Defined.

Lemma laneBlocks_tail (n : nat) : forall (p : QByteArray) v,
  (List.length p <= n)%nat ->
  fst (laneBlocks (List.length p) p v) =
  skipn (List.length p - List.length p mod 32) p.
Proof.
  induction n as [| n IH]; intros p v L.
  - destruct p; [reflexivity | simpl in L; lia].
  - destruct (Z_lt_ge_dec (size p) 32) as [S | S].
    + rewrite laneBlocks_short by exact S. cbn [fst].
      unfold size in S.
      rewrite Nat.mod_small, Nat.sub_diag by lia. reflexivity.
    + unfold size in S.
      rewrite laneBlocks_long by (unfold size; try lia; apply Nat.le_refl).
      rewrite IH by (rewrite length_skipn; lia).
      rewrite skipn_skipn, length_skipn. f_equal.
      assert (M : ((List.length p - 32) mod 32 = List.length p mod 32)%nat).
      { replace (List.length p) with ((List.length p - 32) + 1 * 32)%nat
          at 2 by lia.
        rewrite Nat.Div0.mod_add. reflexivity. }
      rewrite M.
      pose proof (Nat.Div0.mod_le (List.length p - 32) 32) as Q.
      rewrite M in Q. lia.
Qed.

(** X17.  After any chunks fed to a fresh object, the array still has its 32
    bytes, the count of waiting bytes is the number of bytes fed modulo 32,
    the waiting bytes are the last bytes fed, and the length is the number
    of bytes fed modulo 2^64. *)
Theorem waiting_bytes_are_the_tail (seed : Z) (raw : QByteArray)
  (chunks : list QByteArray) :
  List.length raw = 32%nat ->
  let s := updateAll chunks (create seed raw) in
  let all := List.concat chunks in
  List.length (m_buffer s) = 32%nat
  /\ m_bufferSize s = size all mod 32
  /\ firstn (Z.to_nat (m_bufferSize s)) (m_buffer s) =
     skipn (Z.to_nat (size all - size all mod 32)) all
  /\ m_totalLen s = wrap64 (size all).
Proof.
  intros L s all.
  destruct (updateAll_absorbs chunks _ (create_settled seed raw L))
    as [V (B & S & T)].
  fold s in V, B, S, T. fold all in V.
  unfold visible, absorb, create, reset in V.
  cbn [m_seed m_v1 m_v2 m_v3 m_v4 m_totalLen m_buffer m_bufferSize
       Z.to_nat firstn app] in V.
  pose proof (laneBlocks_tail (List.length all) all
    (wrap64 (wrap64 (seed + PRIME1) + PRIME2), wrap64 (seed + PRIME2), seed,
     wrap64 (seed - PRIME1)) (Nat.le_refl _)) as R.
  destruct (laneBlocks _ all _) as [rest v]. cbn [fst] in R.
  injection V as _ _ Vt Vw.
  assert (Lw : List.length (firstn (Z.to_nat (m_bufferSize s)) (m_buffer s))
               = Z.to_nat (m_bufferSize s))
    by (rewrite length_firstn; lia).
  assert (Lr : List.length rest = (List.length all mod 32)%nat).
  { rewrite R, length_skipn.
    pose proof (Nat.Div0.mod_le (List.length all) 32). lia. }
  assert (Mz : size all mod 32 = Z.of_nat (List.length all mod 32)).
  { unfold size. rewrite Nat2Z.inj_mod. reflexivity. }
  assert (Bz : m_bufferSize s = size all mod 32).
  { rewrite Mz, <- Lr, <- Vw, Lw. lia. }
  split; [exact B |]. split; [exact Bz |]. split.
  - rewrite Vw, R. f_equal. rewrite Mz. unfold size.
    pose proof (Nat.Div0.mod_le (List.length all) 32). lia.
  - rewrite Vt. reflexivity.
Qed.

Lemma waiting_bytes_are_the_tail_witness :
  List.length (repeat x00 32) = 32%nat
  /\ m_bufferSize
       (updateAll [repeat x61 (Z.to_nat 30); repeat x62 (Z.to_nat 5)]
          (create 0 (repeat x00 32))) = 3.
Proof.
  split; [reflexivity |].
  destruct (waiting_bytes_are_the_tail 0 (repeat x00 32)
              [repeat x61 (Z.to_nat 30); repeat x62 (Z.to_nat 5)] eq_refl)
    as (_ & B & _).
  rewrite B. reflexivity.
Defined.

End HashFacts.

Module ModeFacts.
Import TapeIO HashCalculator.

(** X18.  Every hash mode is read back from the name it is written under. *)
Theorem mode_name_round_trip (mode : HashMode) :
  stringToMode (modeToString mode) = mode.
Proof.
  destruct mode; reflexivity.
Qed.

End ModeFacts.

Module StatsFacts.
Import TransferStats.

Lemma toInt_small (v : Z) : 0 <= v <= 100 -> toInt v = v.
Proof.
  intro H. unfold toInt. rewrite Z.mod_small by lia.
  destruct (v <? 2 ^ 31) eqn:E; [reflexivity | apply Z.ltb_ge in E; lia].
Qed.

Lemma percent_of (done total : Z) :
  0 <= done <= total -> 0 < total ->
  0 <= Z.quot (done * 100) total <= 100
  /\ (Z.quot (done * 100) total = 100 <-> done = total).
Proof.
  intros D T. rewrite Z.quot_div_nonneg by lia.
  assert (L : 0 <= done * 100 / total) by (apply Z.div_pos; lia).
  assert (U : done * 100 / total <= 100).
  { apply Z.div_le_upper_bound; lia. }
  split; [lia |]. split.
  - intro E.
    assert (total * (done * 100 / total) <= done * 100)
      by (apply Z.mul_div_le; lia).
    nia.
  - intros ->. replace (total * 100) with (100 * total) by lia.
    apply Z.div_mul. lia.
Qed.

(** X19.  While the completed count lies between zero and the total and its
    hundredfold fits 64 bits, the percentage lies between 0 and 100, and it
    is 100 exactly when a positive total is reached. *)
Theorem progressPercent_range (s : t) :
  0 <= fst (measured s) <= snd (measured s) ->
  fst (measured s) * 100 < 2 ^ 63 ->
  exists p, progressPercent s = Some p /\ 0 <= p <= 100
            /\ (p = 100 <->
                fst (measured s) = snd (measured s) /\ 0 < snd (measured s)).
Proof.
  unfold measured, progressPercent, times100.
  destruct (totalBytes s <=? 0) eqn:B; cbn [fst snd]; intros D F.
  - destruct (0 <? totalFiles s) eqn:T.
    + apply Z.ltb_lt in T.
      replace ((- 2 ^ 63 <=? completedFiles s * 100)
               && (completedFiles s * 100 <? 2 ^ 63)) with true
        by (symmetry; apply andb_true_iff; split;
            [apply Z.leb_le | apply Z.ltb_lt]; lia).
      destruct (percent_of _ _ D T) as [R E].
      eexists. split; [reflexivity |]. rewrite toInt_small by exact R.
      split; [exact R |]. rewrite E. split; [intro; split; lia | tauto].
    + apply Z.ltb_ge in T. exists 0. split; [reflexivity |].
      split; [lia |]. split; [lia | intros [_ P]; lia].
  - apply Z.leb_gt in B.
    replace ((- 2 ^ 63 <=? completedBytes s * 100)
             && (completedBytes s * 100 <? 2 ^ 63)) with true
      by (symmetry; apply andb_true_iff; split;
          [apply Z.leb_le | apply Z.ltb_lt]; lia).
    destruct (percent_of _ _ D B) as [R E].
    eexists. split; [reflexivity |]. rewrite toInt_small by exact R.
    split; [exact R |]. rewrite E. split; [intro; split; lia | tauto].
Qed.

Lemma progressPercent_range_witness :
  let s := mk 4 1000 1 333 0 0 0 0 in
  0 <= fst (measured s) <= snd (measured s)
  /\ fst (measured s) * 100 < 2 ^ 63
  /\ exists p, progressPercent s = Some p /\ 0 <= p <= 100
               /\ (p = 100 <->
                   fst (measured s) = snd (measured s)
                   /\ 0 < snd (measured s)).
Proof.
  cbv zeta.
  assert (D : 0 <= fst (measured (mk 4 1000 1 333 0 0 0 0))
              <= snd (measured (mk 4 1000 1 333 0 0 0 0)))
    by (cbn; lia).
  assert (F : fst (measured (mk 4 1000 1 333 0 0 0 0)) * 100 < 2 ^ 63)
    by (cbn; lia).
  split; [exact D |]. split; [exact F |].
  exact (progressPercent_range (mk 4 1000 1 333 0 0 0 0) D F).
Defined.

End StatsFacts.

(** ** A whole file on its way to tape *)
Module WriteFacts.
Import Scsi TapeFacts TapeIO TransferFacts WriteModel.
Import Tape (healthy, completes, spaceHdr, writeHdr, locateHdr).

Lemma concat_chunks (n : Z) (fuel : nat) : forall rest : QByteArray,
  0 < n -> (List.length rest <= fuel)%nat ->
  List.concat (chunks fuel n rest) = rest.
Proof.
  induction fuel as [| fuel IH]; intros rest N L.
  - destruct rest; [reflexivity | simpl in L; lia].
  - cbn [chunks]. destruct rest as [| b rest]; [reflexivity |].
    cbn [isEmpty List.concat].
    rewrite IH; [apply firstn_skipn | exact N |].
    rewrite length_skipn. cbn [List.length] in *. lia.
Qed.

Lemma chunks_sizes (n : Z) (fuel : nat) : forall rest : QByteArray,
  0 < n -> Forall (fun c => 0 < size c <= n) (chunks fuel n rest).
Proof.
  induction fuel as [| fuel IH]; intros rest N; cbn [chunks].
  - constructor.
  - destruct rest as [| b rest]; cbn [isEmpty]; [constructor |].
    constructor; [| apply IH; exact N].
    unfold size. rewrite length_firstn. cbn [List.length]. lia.
Qed.

Lemma writeHdr_carries (d : Scsi.Private) (c : QByteArray) :
  0 < size c -> dxferp (writeHdr d c) = c.
Proof.
  intro P. unfold writeHdr, sgHeader. cbn [dxferp].
  destruct (size c =? 0) eqn:E; [apply Z.eqb_eq in E; lia | reflexivity].
Qed.

Lemma writeFilemark_good (w : Tape.World) (d : Scsi.Private) (count : Z) :
  healthy w d ->
  fst (Tape.writeFilemark count w) = true
  /\ healthy (snd (Tape.writeFilemark count w)) d
  /\ Tape.issued (snd (Tape.writeFilemark count w))
     = Tape.issued w ++ [filemarkHdr d count].
Proof.
  intros (Hs & Ho & Hc).
  assert (Hopen : Tape.isOpen w = true)
    by (unfold Tape.isOpen; rewrite Hs; exact Ho).
  assert (F1 : forall iss,
    fst (Scsi.writeFilemark (Tape.drive w) d count false false iss)
    = fst (completed DirNone [] 0
             (Tape.drive w iss (filemarkHdr d count)))).
  { intro iss. unfold Scsi.writeFilemark, filemarkHdr. run_execute Ho. }
  assert (F2 : forall iss,
    snd (Scsi.writeFilemark (Tape.drive w) d count false false iss)
    = iss ++ [filemarkHdr d count]).
  { intro iss. unfold Scsi.writeFilemark, filemarkHdr. run_execute Ho. }
  unfold Tape.writeFilemark, St.bind, Tape.checkOpen. rewrite Hopen.
  cbn [negb].
  rewrite (call_open _ _ w d (filemarkHdr d count) Hs (F2 _)).
  rewrite F1.
  destruct (completes_good (Tape.drive w) DirNone [] 0 (Tape.issued w)
              (filemarkHdr d count) Hc) as [S1 _].
  rewrite S1. cbn [negb]. unfold St.modify, St.ret, healthy.
  cbn [fst snd Tape.set_lastSenseData Tape.set_position Tape.drive
       Tape.issued Tape.scsi].
  tauto.
Qed.

Lemma writeLoop_whole (d : Scsi.Private) (fileSize : Z) (fuel : nat) :
  forall (rest : QByteArray) (n : nat) (total : Z) (item : TransferItem)
         (w : IoWorld),
  (List.length rest < fuel)%nat -> undisturbed w ->
  healthy (device w) d ->
  exists w',
    writeLoop fuel rest n total fileSize item w
    = (Fell (if isEmpty rest then item
             else set_transferred (total + size rest) item), w')
    /\ undisturbed w' /\ healthy (device w') d
    /\ env w' = env w /\ options w' = options w
    /\ Tape.issued (device w')
       = Tape.issued (device w)
         ++ map (writeHdr d)
                (chunks (List.length rest) (blockSize (options w)) rest)
    /\ completedBytes w' = completedBytes w + size rest.
Proof.
  induction fuel as [| fuel IH]; intros rest n total item w L U H;
    [lia |].
  destruct rest as [| b rest'].
  - exists w. cbn [writeLoop isEmpty List.length chunks map].
    rewrite List.app_nil_r. unfold size. cbn [List.length].
    split; [reflexivity |]. split; [exact U |]. split; [exact H |].
    split; [reflexivity |]. split; [reflexivity |].
    split; [reflexivity | lia].
  - set (rest := b :: rest') in *.
    assert (Hne : rest <> []) by discriminate.
    destruct U as (Uc & Up & Uq & Uf & Ub).
    rewrite (writeLoop_step fuel rest n total fileSize item w d
               Hne Uc Up (Uf n) Ub H).
    set (bs := blockSize (options w)) in *.
    set (buffer := firstn (Z.to_nat bs) rest).
    set (w1 := stepWorld w buffer
                 (set_transferred (total + size buffer) item)
                 (total + size buffer) fileSize).
    assert (Hsz : size buffer < 2 ^ 32).
    { pose proof (size_firstn_le bs rest). fold buffer in H0. lia. }
    destruct (writeBlock_good (device w) d buffer H Hsz) as (W1 & W2 & W3).
    assert (E1 : w1 = io_log (FileProgress
                       (set_transferred (total + size buffer) item)
                       (total + size buffer) fileSize)
                   (set_completedBytes (completedBytes w + size buffer)
                      (set_device (snd (Tape.writeBlock buffer (device w)))
                         w))).
    { unfold w1, stepWorld, yield.
      cbn [pending io_log set_completedBytes set_device]. rewrite Uq.
      reflexivity. }
    assert (U1 : undisturbed w1).
    { rewrite E1. unfold undisturbed.
      cbn [cancelled paused pending env options io_log set_completedBytes
           set_device].
      repeat split; try assumption; apply Ub. }
    assert (H1 : healthy (device w1) d).
    { rewrite E1. cbn [device io_log set_completedBytes set_device].
      exact W2. }
    assert (L1 : (List.length (skipn (Z.to_nat bs) rest) < fuel)%nat).
    { rewrite length_skipn. unfold rest in *. cbn [List.length] in *. lia. }
    destruct (IH (skipn (Z.to_nat bs) rest) (S n) (total + size buffer)
                (set_transferred (total + size buffer) item) w1 L1 U1 H1)
      as (w' & R & U' & H' & Ee & Eo & Ei & Ec).
    exists w'. rewrite R.
    assert (Sz : size buffer + size (skipn (Z.to_nat bs) rest) = size rest).
    { unfold size, buffer. rewrite <- Nat2Z.inj_add, <- length_app,
        firstn_skipn. reflexivity. }
    assert (Eo1 : options w1 = options w) by (rewrite E1; reflexivity).
    assert (Ee1 : env w1 = env w) by (rewrite E1; reflexivity).
    split.
    { f_equal. f_equal. cbn [isEmpty rest].
      destruct (skipn (Z.to_nat bs) rest) eqn:K.
      - cbn [isEmpty]. f_equal. unfold size in Sz |- *.
        cbn [List.length] in Sz. fold rest. lia.
      - cbn [isEmpty]. unfold set_transferred.
        cbn [sourcePath destPath relativePath itemSize itemStatus
             errorMessage bytesTransferred sourceHash destHash hashVerified
             isDirectory].
        f_equal. fold rest. lia. }
    split; [exact U' |]. split; [exact H' |].
    split; [congruence |]. split; [congruence |]. split.
    { rewrite Ei, Eo1. fold bs.
      assert (Id : Tape.issued (device w1)
                   = Tape.issued (device w) ++ [writeHdr d buffer]).
      { rewrite E1. cbn [device io_log set_completedBytes set_device].
        exact W3. }
      rewrite Id, <- List.app_assoc. f_equal.
      change (List.length rest) with (S (List.length rest')).
      cbn [chunks isEmpty rest map app]. fold rest. fold buffer.
      f_equal. f_equal.
      assert (C : forall f g r, (List.length r <= f)%nat ->
                  (List.length r <= g)%nat -> 0 < bs ->
                  chunks f bs r = chunks g bs r).
      { induction f as [| f IHf]; intros g r Lf Lg B.
        - destruct r; [| simpl in Lf; lia]. destruct g; reflexivity.
        - destruct g as [| g].
          + destruct r; [| simpl in Lg; lia]. reflexivity.
          + cbn [chunks]. destruct r as [| x r]; [reflexivity |].
            cbn [isEmpty]. f_equal.
            apply IHf; try exact B; rewrite length_skipn;
              cbn [List.length] in *; lia. }
      apply C; try lia; rewrite ?length_skipn; unfold rest;
        cbn [List.length]; lia. }
    { rewrite Ec. rewrite E1.
      cbn [completedBytes io_log set_completedBytes]. lia. }
Qed.

(** X20.  A file written with nothing in the way reaches the tape whole.
    With a readable source, no read fault, no cancel or pause, and a drive
    that completes every command, [writeFileToTape] returns true with
    the item Completed and, for a file that is not empty, all its bytes
    counted.  The commands issued are a LOCATE to block 0 of partition 1
    and a SPACE to the end of data, then one WRITE(6) for each chunk of
    the file in order, then one WRITE FILEMARKS; the data of the writes
    put end to end is the file. *)
Theorem whole_file_reaches_tape (item : TransferItem) (w : IoWorld)
    (d : Scsi.Private) (content : QByteArray) :
  isDirectory item = false ->
  readable (env w) (sourcePath item) = true ->
  fs_lookup (sourcePath item) (files w) = Some content ->
  undisturbed w -> healthy (device w) d ->
  let sent := chunks (List.length content) (blockSize (options w)) content in
  exists item' w',
    writeFileToTape item w = (Some (true, item'), w')
    /\ itemStatus item' = Completed
    /\ (content <> [] -> bytesTransferred item' = size content)
    /\ completedBytes w' = completedBytes w + size content
    /\ Tape.issued (device w')
       = Tape.issued (device w)
         ++ [locateHdr d 1 0; spaceHdr d 3 0]
         ++ map (writeHdr d) sent ++ [filemarkHdr d 1]
    /\ List.concat (map dxferp (map (writeHdr d) sent)) = content
    /\ Forall (fun c => 0 < size c <= blockSize (options w)) sent.
Proof.
  intros Hd Hr Hf U H sent.
  assert (Ub : 0 < blockSize (options w) < 2 ^ 32) by apply U.
  unfold writeFileToTape. rewrite Hd, Hr, Hf.
  set (start := if verifyAfterWrite (options w)
                then let '(h, w') := hashFile (sourcePath item) w in
                     if hashSuccess h
                     then (set_sourceHash (hexString h) item, w')
                     else (item, w')
                else (item, w)).
  assert (S0 : isDirectory (fst start) = false
               /\ undisturbed (snd start) /\ device (snd start) = device w
               /\ options (snd start) = options w
               /\ completedBytes (snd start) = completedBytes w).
  { unfold start. destruct (verifyAfterWrite (options w)).
    - pose proof (hashFile_frame (sourcePath item) w) as F.
      cbv zeta in F. destruct (hashFile (sourcePath item) w) as [h w0].
      cbn [snd] in F. destruct F as (F1 & F2 & F3 & F4 & F5 & F6 & F7).
      assert (U0 : undisturbed w0).
      { unfold undisturbed. rewrite F1, F3, F4, F5, F7. exact U. }
      destruct (hashSuccess h); cbn [fst snd]; repeat split;
        try assumption; apply U0.
    - cbn [fst snd]. repeat split; try assumption; try apply U;
        reflexivity. }
  destruct start as [item1 w1]. cbn [fst snd] in S0.
  destruct S0 as (D1 & U1 & Dv & Op & Cb).
  assert (H1 : healthy (device w1) d) by (rewrite Dv; exact H).
  destruct (seekToEnd_good (device w1) d 1 H1) as (K1 & K2 & K3).
  unfold onDevice at 1.
  destruct (Tape.seekToEnd 1 (device w1)) as [ok dev2].
  cbn [fst snd] in K1, K2, K3. subst ok. cbn [negb].
  set (w2 := set_device dev2 w1).
  assert (U2 : undisturbed w2) by exact U1.
  assert (H2 : healthy (device w2) d) by exact K2.
  destruct (writeLoop_whole d (size content) (S (List.length content))
              content 0 0 item1 w2 (Nat.lt_succ_diag_r _) U2 H2)
    as (w3 & R & U3 & H3 & Ee & Eo & Ei & Ec).
  rewrite R.
  destruct (writeFilemark_good (device w3) d 1 H3) as (M1 & M2 & M3).
  unfold onDevice.
  destruct (Tape.writeFilemark 1 (device w3)) as [fm dev4].
  cbn [fst snd] in M1, M2, M3. subst fm. cbn [negb].
  eexists. eexists. split; [reflexivity |].
  split; [reflexivity |].
  split.
  { intro Ne. destruct content as [| b c]; [congruence |].
    cbn [isEmpty]. cbn. lia. }
  split.
  { cbn [completedBytes set_device]. rewrite Ec.
    change (completedBytes w2) with (completedBytes w1). lia. }
  split.
  { cbn [device set_device]. rewrite M3, Ei.
    change (device w2) with dev2. rewrite K3, Dv.
    change (options w2) with (options w1). rewrite Op.
    fold sent. rewrite <- !List.app_assoc. reflexivity. }
  assert (Sz : Forall (fun c => 0 < size c <= blockSize (options w)) sent)
    by (apply chunks_sizes; lia).
  split; [| exact Sz].
  transitivity (List.concat sent);
    [| apply concat_chunks; [lia | apply Nat.le_refl]].
  f_equal.
  induction Sz as [| c cs P _ IHs]; [reflexivity |].
  cbn [map]. rewrite writeHdr_carries by lia. f_equal. exact IHs.
Qed.

Lemma whole_file_reaches_tape_witness :
  let item := mkItem "/data/a.bin" "a.bin" "a.bin" 3 Pending "" 0 "" ""
                     false false in
  let w := mkIo quietEnv (Tape.open Tape.goodDrive 3)
                (mkOptions SHA256 true true false true true true 3 2)
                true false false 0
                [("/data/a.bin"%string, [x01; x02; x03])] [] [] in
  isDirectory item = false
  /\ readable (env w) (sourcePath item) = true
  /\ fs_lookup (sourcePath item) (files w) = Some [x01; x02; x03]
  /\ undisturbed w
  /\ healthy (device w) (Scsi.opened 3)
  /\ exists item' w',
       writeFileToTape item w = (Some (true, item'), w')
       /\ bytesTransferred item' = 3.
Proof.
  cbv zeta.
  set (item := mkItem "/data/a.bin" "a.bin" "a.bin" 3 Pending "" 0 "" ""
                      false false).
  set (w := mkIo quietEnv (Tape.open Tape.goodDrive 3)
                 (mkOptions SHA256 true true false true true true 3 2)
                 true false false 0
                 [("/data/a.bin"%string, [x01; x02; x03])] [] []).
  assert (H1 : isDirectory item = false) by reflexivity.
  assert (H2 : readable (env w) (sourcePath item) = true) by reflexivity.
  assert (H3 : fs_lookup (sourcePath item) (files w) = Some [x01; x02; x03])
    by reflexivity.
  assert (H4 : undisturbed w).
  { split; [reflexivity |]. split; [reflexivity |].
    split; [reflexivity |]. split; [intro n; reflexivity |].
    unfold w. cbn [options blockSize]. lia. }
  assert (H5 : healthy (device w) (Scsi.opened 3)).
  { split; [reflexivity |]. split; [reflexivity |].
    intros hist h. cbn. tauto. }
  split; [exact H1 |]. split; [exact H2 |]. split; [exact H3 |].
  split; [exact H4 |]. split; [exact H5 |].
  destruct (whole_file_reaches_tape item w (Scsi.opened 3) [x01; x02; x03]
              H1 H2 H3 H4 H5) as (item' & w' & E & _ & B & _).
  exists item', w'. split; [exact E |]. apply B. discriminate.
Defined.

End WriteFacts.

(** ** The transfer queue *)
Module QueueFacts.
Import Scsi TapeFacts TapeIO TransferFacts Queue.

Lemma fold_act_calm (b : list Action) : forall w : IoWorld,
  ~ In DoPause b -> paused w = false ->
  paused (fold_left (fun w' a => act a w') b w) = false.
Proof.
  induction b as [| a b IH]; intros w N P; [exact P |].
  cbn [fold_left]. apply IH.
  - intro I. apply N. right. exact I.
  - destruct a; [reflexivity |]. exfalso. apply N. left. reflexivity.
Qed.

Lemma yield_calm (w : IoWorld) : calm w -> calm (snd (yield w)).
Proof.
  intros [P F]. unfold yield.
  destruct (pending w) as [| b ps] eqn:E;
    [split; [exact P | cbn [snd]; rewrite E; exact F] |].
  cbn [snd]. inversion F as [| ? ? Nb Fp]; subst.
  destruct (fold_act_frame b (set_pending ps w))
    as (_ & _ & _ & _ & _ & A6 & _).
  cbv zeta in A6. split.
  - apply fold_act_calm; [exact Nb | exact P].
  - rewrite A6. exact Fp.
Qed.

Lemma writeLoop_returns (fileSize : Z) (fuel : nat) :
  forall (rest : QByteArray) (n : nat) (total : Z) (item : TransferItem)
         (w : IoWorld),
  (List.length rest < fuel)%nat -> calm w ->
  exists ex w',
    writeLoop fuel rest n total fileSize item w = (ex, w')
    /\ calm w' /\ options w' = options w
    /\ match ex with
       | Hung _ => False
       | Returned it => itemStatus it = Cancelled \/ itemStatus it = Failed
       | Fell it => itemStatus it = itemStatus item
       end.
Proof.
  induction fuel as [| fuel IH]; intros rest n total item w L C; [lia |].
  cbn [writeLoop].
  destruct (isEmpty rest) eqn:Er.
  { exists (Fell item), w. repeat split; try apply C. }
  destruct (cancelled w) eqn:Ec.
  { exists (Returned (set_status Cancelled item)), w.
    split; [reflexivity |]. split; [exact C |]. split; [reflexivity |].
    left. reflexivity. }
  rewrite (pauseWait_running _ w (proj1 C)).
  destruct (readFault (env w) n) eqn:Ef.
  { cbn [isEmpty].
    eexists (Returned _), w. split; [reflexivity |].
    split; [exact C |]. split; [reflexivity |]. right. reflexivity. }
  destruct (isEmpty (firstn (Z.to_nat (blockSize (options w))) rest))
    eqn:Eb.
  { exists (Fell item), w. repeat split; try apply C. }
  unfold onDevice.
  destruct (Tape.writeBlock
              (firstn (Z.to_nat (blockSize (options w))) rest) (device w))
    as [written dev'].
  destruct (written <? 0).
  { eexists (Returned _), _. split; [reflexivity |].
    split; [exact C |]. split; [reflexivity |]. right. reflexivity. }
  match goal with |- context [yield ?x] => set (w3 := x) end.
  assert (C3 : calm w3) by exact C.
  pose proof (yield_calm w3 C3) as C4.
  pose proof (yield_frame w3) as (_ & O4 & _).
  destruct (yield w3) as [u w4]. cbn [snd] in C4, O4.
  assert (L' : (List.length
                  (skipn (Z.to_nat (blockSize (options w))) rest)
                < fuel)%nat).
  { rewrite length_skipn.
    destruct rest as [| b rest']; [discriminate Er |].
    destruct (Z.to_nat (blockSize (options w))) as [| k];
      [discriminate Eb |].
    cbn [List.length] in *. lia. }
  destruct (IH _ (S n) (total + written)
              (set_transferred (total + written) item) w4 L' C4)
    as (ex & w' & R & C' & O' & S').
  exists ex, w'. split; [exact R |]. split; [exact C' |].
  split; [rewrite O', O4; reflexivity |].
  destruct ex; exact S'.
Qed.

Lemma writeFileToTape_ends (item : TransferItem) (w : IoWorld) :
  calm w ->
  exists ok item' w',
    writeFileToTape item w = (Some (ok, item'), w')
    /\ (if ok then itemStatus item' = Completed
        else itemStatus item' = Failed \/ itemStatus item' = Cancelled)
    /\ calm w' /\ options w' = options w.
Proof.
  intro C. unfold writeFileToTape.
  destruct (isDirectory item).
  { exists true, (set_status Completed item), w. repeat split; apply C. }
  destruct (if readable (env w) (sourcePath item)
            then fs_lookup (sourcePath item) (files w) else None)
    as [content |].
  2: { eexists false, _, w. split; [reflexivity |].
       split; [left; reflexivity |]. split; [exact C | reflexivity]. }
  set (start := if verifyAfterWrite (options w)
                then let '(h, w') := hashFile (sourcePath item) w in
                     if hashSuccess h
                     then (set_sourceHash (hexString h) item, w')
                     else (item, w')
                else (item, w)).
  assert (S0 : calm (snd start) /\ options (snd start) = options w).
  { unfold start. destruct (verifyAfterWrite (options w));
      [| split; [exact C | reflexivity]].
    pose proof (hashFile_frame (sourcePath item) w) as F.
    cbv zeta in F. destruct (hashFile (sourcePath item) w) as [h w0].
    cbn [snd] in F. destruct F as (_ & _ & F3 & F4 & _ & _ & F7).
    assert (C0 : calm w0) by (unfold calm; rewrite F4, F7; exact C).
    destruct (hashSuccess h); split; assumption. }
  destruct start as [item1 w1]. cbn [snd] in S0. destruct S0 as [C1 O1].
  unfold onDevice at 1.
  destruct (Tape.seekToEnd 1 (device w1)) as [ok dev2].
  destruct ok; cbn [negb].
  2: { eexists false, _, _. split; [reflexivity |].
       split; [left; reflexivity |]. split; [exact C1 | exact O1]. }
  destruct (writeLoop_returns (size content) (S (List.length content))
              content 0 0 item1 (set_device dev2 w1)
              (Nat.lt_succ_diag_r _) C1)
    as (ex & w3 & R & C3 & O3 & S3).
  rewrite R. destruct ex as [it | it | it]; [| | destruct S3].
  - exists false, it, w3. split; [reflexivity |].
    split; [tauto |]. split; [exact C3 |]. rewrite O3. exact O1.
  - unfold onDevice.
    destruct (Tape.writeFilemark 1 (device w3)) as [fm dev4].
    destruct fm; cbn [negb].
    + eexists true, _, _. split; [reflexivity |].
      split; [reflexivity |]. split; [exact C3 |].
      cbn [options set_device]. rewrite O3. exact O1.
    + eexists false, _, _. split; [reflexivity |].
      split; [left; reflexivity |]. split; [exact C3 |].
      cbn [options set_device]. rewrite O3. exact O1.
Qed.

(** X21.  Unless a pause is on or still to come, [writeFileToTape] returns,
    whatever the drive, the disk and the options do: with true and the item
    Completed, or with false and the item Failed or Cancelled.  It leaves
    the options as they were, and no pause behind. *)
Theorem writeFileToTape_returns (item : TransferItem) (w : IoWorld) :
  calm w ->
  exists ok item' w',
    writeFileToTape item w = (Some (ok, item'), w')
    /\ (if ok then itemStatus item' = Completed
        else itemStatus item' = Failed \/ itemStatus item' = Cancelled)
    /\ calm w' /\ options w' = options w.
Proof.
  intro C.
  destruct (writeFileToTape_ends item w C) as (ok & item' & w' & E & R).
  exists ok, item', w'. split; [exact E | exact R].
Qed.

Lemma writeFileToTape_returns_witness :
  calm cancelWorld
  /\ exists ok item' w',
       writeFileToTape cancelItem cancelWorld = (Some (ok, item'), w')
       /\ (if ok then itemStatus item' = Completed
           else itemStatus item' = Failed \/ itemStatus item' = Cancelled)
       /\ calm w' /\ options w' = options cancelWorld.
Proof.
  assert (C : calm cancelWorld).
  { split; [reflexivity |]. unfold cancelWorld. cbn [pending].
    repeat constructor; intro I; cbn in I; intuition discriminate. }
  split; [exact C |].
  exact (writeFileToTape_returns cancelItem cancelWorld C).
Defined.

Lemma unchanged (l : list TransferItem) :
  Forall2 step l l /\ tally l l = (0, 0) /\ haltsAtFailure l l.
Proof.
  induction l as [| b l (F & T & H)]; [repeat split; constructor |].
  assert (O : outcome b b = (0, 0)).
  { unfold outcome. destruct (itemStatus b); reflexivity. }
  split; [constructor; [left; reflexivity | exact F] |].
  cbn [tally haltsAtFailure]. rewrite O, T.
  split; [reflexivity |]. split; [reflexivity | exact H].
Qed.

Lemma store_at (A B : list TransferItem) (a x : TransferItem) (i : nat) :
  List.length A = i ->
  firstn i (A ++ a :: B) = A
  /\ skipn i (A ++ a :: B) = a :: B
  /\ store i x (A ++ a :: B) = A ++ x :: B
  /\ firstn (S i) (A ++ x :: B) = A ++ [x]
  /\ skipn (S i) (A ++ x :: B) = B.
Proof.
  intro L. subst i.
  assert (F : firstn (List.length A) (A ++ a :: B) = A).
  { rewrite firstn_app, Nat.sub_diag, firstn_all. cbn [firstn].
    apply List.app_nil_r. }
  assert (K : forall y, skipn (S (List.length A)) (A ++ y :: B) = B).
  { intro y. rewrite skipn_app, skipn_all2 by lia.
    replace (S (List.length A) - List.length A)%nat with 1%nat by lia.
    reflexivity. }
  split; [exact F |]. split.
  { rewrite skipn_app, skipn_all, Nat.sub_diag. reflexivity. }
  split.
  { unfold store. rewrite F, K. reflexivity. }
  split; [| apply K].
  rewrite firstn_app, firstn_all2 by lia.
  replace (S (List.length A) - List.length A)%nat with 1%nat by lia.
  reflexivity.
Qed.

Lemma queueLoop_accounts (fuel : nat) : forall (i : nat) (q : World),
  calm (io q) ->
  exists q' todo',
    queueLoop fuel i q = Some q'
    /\ queue q' = firstn i (queue q) ++ todo'
    /\ Forall2 step (skipn i (queue q)) todo'
    /\ completedFiles q'
       = completedFiles q + fst (tally (skipn i (queue q)) todo')
    /\ failedFiles q'
       = failedFiles q + snd (tally (skipn i (queue q)) todo')
    /\ (continueOnError (options (io q)) = false ->
        haltsAtFailure (skipn i (queue q)) todo').
Proof.
  assert (Stay : forall (i : nat) (q q' : World),
            queue q' = queue q -> completedFiles q' = completedFiles q ->
            failedFiles q' = failedFiles q ->
            queue q' = firstn i (queue q) ++ skipn i (queue q)
            /\ Forall2 step (skipn i (queue q)) (skipn i (queue q))
            /\ completedFiles q'
               = completedFiles q
                 + fst (tally (skipn i (queue q)) (skipn i (queue q)))
            /\ failedFiles q'
               = failedFiles q
                 + snd (tally (skipn i (queue q)) (skipn i (queue q)))
            /\ (continueOnError (options (io q)) = false ->
                haltsAtFailure (skipn i (queue q)) (skipn i (queue q)))).
  { intros i q q' Eq Ec Ef.
    destruct (unchanged (skipn i (queue q))) as (F & T & H).
    rewrite T, firstn_skipn. cbn [fst snd].
    split; [exact Eq |]. split; [exact F |]. split; [lia |].
    split; [lia |]. intros _. exact H. }
  induction fuel as [| fuel IH]; intros i q C.
  { exists q, (skipn i (queue q)). split; [reflexivity |].
    apply Stay; reflexivity. }
  cbn [queueLoop].
  destruct (nth_error (queue q) i) as [item |] eqn:En.
  2: { exists q, (skipn i (queue q)). split; [reflexivity |].
       apply Stay; reflexivity. }
  destruct (cancelled (io q)) eqn:Ec.
  { exists q, (skipn i (queue q)). split; [reflexivity |].
    apply Stay; reflexivity. }
  rewrite (pauseWait_running _ (io q) (proj1 C)). rewrite Ec.
  destruct (nth_error_split _ _ En) as (A & B & EQ & LA).
  destruct (isPending (itemStatus item)) eqn:Ep; cbn [negb].
  - (* the item is written *)
    set (started := set_status InProgress item).
    match goal with |- context [writeFileToTape started (io ?x)] =>
      set (q2 := x) end.
    assert (C2 : calm (io q2)) by exact C.
    destruct (writeFileToTape_ends started (io q2) C2)
      as (ok & item' & io3 & E & R & C3 & O3).
    rewrite E.
    assert (Q3 : store i item' (queue q2) = A ++ item' :: B).
    { unfold q2. cbn [queue emit set_queue set_currentItemIndex set_io].
      rewrite EQ.
      destruct (store_at A B item started i LA) as (_ & _ & S1 & _).
      rewrite S1.
      destruct (store_at A B started item' i LA) as (_ & _ & S2 & _).
      exact S2. }
    rewrite Q3.
    destruct (store_at A B item item' i LA) as (F0 & K0 & _ & F1 & K1).
    assert (Pn : itemStatus item = Pending)
      by (destruct (itemStatus item); try discriminate Ep; reflexivity).
    assert (O2 : options io3 = options (io q)) by (rewrite O3; reflexivity).
    destruct ok.
    + (* completed *)
      match goal with |- context [queueLoop fuel (S i) ?x] =>
        set (qn := x) end.
      destruct (IH (S i) qn C3) as (q' & todo & L & Eq & F & Nc & Nf & H).
      change (queue qn) with (A ++ item' :: B) in Eq, F, Nc, Nf, H.
      rewrite F1 in Eq. rewrite K1 in F, Nc, Nf, H.
      change (completedFiles qn) with (completedFiles q + 1) in Nc.
      change (failedFiles qn) with (failedFiles q) in Nf.
      change (io qn) with io3 in H.
      exists q', (item' :: todo). rewrite EQ, F0, K0.
      assert (Oc : outcome item item' = (1, 0)).
      { unfold outcome. rewrite Ep, R. reflexivity. }
      cbn [tally haltsAtFailure]. rewrite Oc. cbn [fst snd].
      split; [exact L |].
      split; [rewrite Eq, <- List.app_assoc; reflexivity |].
      split; [constructor; [right; split; [exact Pn | left; exact R]
                           | exact F] |].
      split; [lia |]. split; [lia |].
      intro Co. split; [intro X; discriminate X |].
      apply H. rewrite O2. exact Co.
    + (* failed or cancelled *)
      assert (Oc : outcome item item' = (0, 1)).
      { unfold outcome. rewrite Ep. destruct R as [-> | ->]; reflexivity. }
      assert (St : step item item').
      { right. split; [exact Pn | right; exact R]. }
      cbn [io emit set_failedFiles set_queue set_io].
      rewrite O2.
      destruct (continueOnError (options (io q))) eqn:Co; cbn [negb].
      * match goal with |- context [queueLoop fuel (S i) ?x] =>
          set (qn := x) end.
        destruct (IH (S i) qn C3) as (q' & todo & L & Eq & F & Nc & Nf & H).
        change (queue qn) with (A ++ item' :: B) in Eq, F, Nc, Nf, H.
        rewrite F1 in Eq. rewrite K1 in F, Nc, Nf, H.
        change (completedFiles qn) with (completedFiles q) in Nc.
        change (failedFiles qn) with (failedFiles q + 1) in Nf.
        exists q', (item' :: todo). rewrite EQ, F0, K0.
        cbn [tally haltsAtFailure]. rewrite Oc. cbn [fst snd].
        split; [exact L |].
        split; [rewrite Eq, <- List.app_assoc; reflexivity |].
        split; [constructor; [exact St | exact F] |].
        split; [lia |]. split; [lia |].
        intro X; discriminate X.
      * match goal with |- exists q' todo', Some ?x = Some q' /\ _ =>
          exists x, (item' :: B) end.
        rewrite EQ, F0, K0.
        destruct (unchanged B) as (F & T & H).
        cbn [tally haltsAtFailure]. rewrite Oc, T. cbn [fst snd].
        split; [reflexivity |].
        cbn [queue completedFiles failedFiles emit set_failedFiles
             set_queue set_io].
        split; [reflexivity |].
        split; [constructor; [exact St | exact F] |].
        split; [unfold q2; cbn; lia |]. split; [unfold q2; cbn; lia |].
        intros _. split; [intros _; reflexivity | exact H].
  - (* the item is passed over *)
    match goal with |- context [queueLoop fuel (S i) ?x] =>
      set (qn := x) end.
    destruct (IH (S i) qn C) as (q' & todo & L & Eq & F & Nc & Nf & H).
    change (queue qn) with (queue q) in Eq, F, Nc, Nf, H.
    change (completedFiles qn) with (completedFiles q) in Nc.
    change (failedFiles qn) with (failedFiles q) in Nf.
    change (io qn) with (io q) in H.
    rewrite EQ in Eq, F, Nc, Nf, H.
    destruct (store_at A B item item i LA) as (F0 & K0 & _ & F1 & K1).
    rewrite F1 in Eq. rewrite K1 in F, Nc, Nf, H.
    exists q', (item :: todo). rewrite EQ, F0, K0.
    assert (Oc : outcome item item = (0, 0)).
    { unfold outcome. rewrite Ep. reflexivity. }
    cbn [tally haltsAtFailure]. rewrite Oc. cbn [fst snd].
    split; [exact L |].
    split; [rewrite Eq, <- List.app_assoc; reflexivity |].
    split; [constructor; [left; reflexivity | exact F] |].
    split; [lia |]. split; [lia |].
    intro Co. split; [intro X; discriminate X | exact (H Co)].
Qed.

(** X22.  Unless a pause is on or still to come, [processQueue] returns,
    leaving the transfer not running.  Every item that was not pending is
    as it was; a pending one is as it was or has ended Completed, Failed
    or Cancelled.  The counter of completed files has grown by the items
    that ended Completed and the counter of failed files by those that
    ended Failed or Cancelled; and with [continueOnError] off nothing
    behind the first such item has been touched. *)
Theorem processQueue_accounts (q : World) :
  calm (io q) ->
  exists q',
    processQueue q = Some q'
    /\ running (io q') = false /\ currentItemIndex q' = -1
    /\ Forall2 step (queue q) (queue q')
    /\ completedFiles q'
       = completedFiles q + fst (tally (queue q) (queue q'))
    /\ failedFiles q' = failedFiles q + snd (tally (queue q) (queue q'))
    /\ (continueOnError (options (io q)) = false ->
        haltsAtFailure (queue q) (queue q')).
Proof.
  intro C. unfold processQueue.
  destruct (queueLoop_accounts (List.length (queue q)) 0 q C)
    as (q1 & todo & L & Eq & F & Nc & Nf & H).
  cbn [firstn skipn app] in Eq, F, Nc, Nf, H. rewrite L.
  eexists. split; [reflexivity |].
  cbn [io queue completedFiles failedFiles currentItemIndex emit
       set_currentItemIndex set_io running set_running].
  rewrite Eq. repeat split; assumption.
Qed.

Lemma processQueue_accounts_witness :
  let q := mk cancelWorld [cancelItem] 1 (10 * MiB) 0 0 (-1) [] in
  calm (io q)
  /\ exists q',
       processQueue q = Some q'
       /\ running (io q') = false
       /\ failedFiles q' = failedFiles q + snd (tally (queue q) (queue q')).
Proof.
  cbv zeta.
  assert (C : calm (io (mk cancelWorld [cancelItem] 1 (10 * MiB) 0 0 (-1)
                           []))).
  { split; [reflexivity |]. unfold cancelWorld. cbn [io pending].
    repeat constructor; intro I; cbn in I; intuition discriminate. }
  split; [exact C |].
  destruct (processQueue_accounts _ C) as (q' & E & R & _ & _ & _ & Nf & _).
  exists q'. split; [exact E |]. split; [exact R | exact Nf].
Defined.

End QueueFacts.

(** ** A restore that meets the end of the data *)
Module RestoreFacts.
Import Scsi TapeFacts TapeIO TransferFacts.
Import Tape (readOutcome, readHdr).

Lemma fs_lookup_store (path : string) (c : QByteArray) (fs : Fs) :
  fs_lookup path (fs_store path c fs) = Some c.
Proof.
  unfold fs_store. cbn [fs_lookup]. rewrite String.eqb_refl. reflexivity.
Qed.

Lemma readBlock_blank (w : Tape.World) (d : Scsi.Private)
    (data0 : QByteArray) (maxSize : Z) :
  Tape.scsi w = Some d -> Scsi.isOpen d = true ->
  success (readOutcome w d data0 maxSize) = false ->
  senseKey (senseData (readOutcome w d data0 maxSize)) = BlankCheck ->
  fst (fst (Tape.readBlock data0 maxSize w)) = 0.
Proof.
  intros Hs Ho Hf Hk.
  assert (Hopen : Tape.isOpen w = true)
    by (unfold Tape.isOpen; rewrite Hs; exact Ho).
  unfold Tape.readBlock, St.bind, Tape.checkOpen. rewrite Hopen.
  cbn [negb].
  set (data1 := resize (Z.to_nat (toInt maxSize)) data0).
  rewrite (call_open _ _ w d (readHdr d data0 maxSize) Hs).
  2:{ unfold read6, readHdr. fold data1.
      rewrite (execute_open _ _ _ _ _ _ _ Ho).
      destruct (completed _ _ _ _). reflexivity. }
  unfold readOutcome in Hf, Hk. fold data1 in Hf, Hk.
  destruct (read6 (Tape.drive w) d data1 1 false (Tape.issued w))
    as [[r b] iss'].
  cbn [fst snd] in *. unfold St.modify, St.ret.
  rewrite Hf. cbn [negb].
  rewrite (proj2 (senseKey_eqb_eq _ _) Hk). reflexivity.
Qed.

(** X23.  A restore cut short is reported as complete.  When the first
    READ of a file of positive size ends in BlankCheck (the end of the
    recorded data), and no hash is there to be compared (verification is
    off or the item has no source hash), [readFileFromTape] returns true
    with the item Completed: no byte has been counted, the destination
    file exists and is empty, and nothing compares what was read with the
    size that was expected. *)
Theorem short_restore_is_reported_complete (item : TransferItem)
    (w : IoWorld) (d : Scsi.Private) :
  (createDirectories (options w) = true ->
   mkpathOk (env w) (destPath item) = true) ->
  destWritable (env w) (destPath item) = true ->
  cancelled w = false -> paused w = false ->
  0 < itemSize item ->
  Tape.scsi (device w) = Some d -> Scsi.isOpen d = true ->
  let toRead := wrap32 (qMin (blockSize (options w)) (itemSize item)) in
  success (readOutcome (device w) d [] toRead) = false ->
  senseKey (senseData (readOutcome (device w) d [] toRead)) = BlankCheck ->
  verifyAfterWrite (options w) = false \/ sourceHash item = ""%string ->
  exists item' w',
    readFileFromTape item w = (Some (true, item'), w')
    /\ itemStatus item' = Completed
    /\ bytesTransferred item' = bytesTransferred item
    /\ completedBytes w' = completedBytes w
    /\ fs_lookup (destPath item) (files w') = Some [].
Proof.
  intros Hm Hw Hc Hp Hsz Hs Ho toRead Hf Hk Hv.
  unfold readFileFromTape, St.bind, receiveFile.
  assert (M : createDirectories (options w)
              && negb (mkpathOk (env w) (destPath item)) = false).
  { destruct (createDirectories (options w)); [| reflexivity].
    rewrite (Hm eq_refl). reflexivity. }
  rewrite M, Hw. cbn [negb].
  set (w1 := set_files (fs_store (destPath item) [] (files w)) w).
  cbn [readLoop].
  assert (L : (0 <? itemSize item) = true) by (apply Z.ltb_lt; exact Hsz).
  rewrite L. cbn [negb].
  change (cancelled w1) with (cancelled w). rewrite Hc.
  rewrite (pauseWait_running _ w1 Hp).
  rewrite Z.sub_0_r.
  change (options w1) with (options w). fold toRead.
  unfold onDevice. change (device w1) with (device w).
  pose proof (readBlock_blank (device w) d [] toRead Hs Ho Hf Hk) as B.
  destruct (Tape.readBlock [] toRead (device w)) as [[bytesRead buf] dev'].
  cbn [fst] in B. subst bytesRead.
  cbn [Z.ltb Z.eqb Z.compare St.ret].
  assert (V : verifyAfterWrite (options (set_device dev' w1))
              && negb (String.eqb (sourceHash item) "") = false).
  { cbn [options set_device set_files w1].
    destruct Hv as [-> | ->]; [reflexivity |].
    apply andb_false_r. }
  rewrite V.
  eexists. eexists. split; [reflexivity |].
  split; [reflexivity |]. split; [reflexivity |].
  split; [reflexivity |].
  cbn [files set_device set_files w1]. apply fs_lookup_store.
Qed.

Lemma short_restore_is_reported_complete_witness :
  let w := mismatchWorld uncheckedOptions in
  let w := mkIo (env w) (Tape.open Tape.blankDrive 3) (options w)
                (running w) (paused w) (cancelled w) (completedBytes w)
                (files w) (pending w) (ioLog w) in
  cancelled w = false /\ 0 < itemSize mismatchItem
  /\ exists item' w',
       readFileFromTape mismatchItem w = (Some (true, item'), w')
       /\ itemStatus item' = Completed
       /\ bytesTransferred item' = 0.
Proof.
  cbv zeta.
  set (w := mkIo _ _ _ _ _ _ _ _ _ _).
  assert (Hc : cancelled w = false) by reflexivity.
  assert (Hz : 0 < itemSize mismatchItem) by (cbn; lia).
  split; [exact Hc |]. split; [exact Hz |].
  destruct (short_restore_is_reported_complete mismatchItem w
              (Scsi.opened 3) (fun _ => eq_refl) eq_refl Hc eq_refl Hz
              eq_refl eq_refl eq_refl eq_refl (or_introl eq_refl))
    as (item' & w' & E & S & B & _).
  exists item', w'. split; [exact E |]. split; [exact S | exact B].
Defined.

End RestoreFacts.

(** ** The parser comes to an end *)
Module ParserFacts.
Import Ltfs Xml IndexParser Termination.

Lemma accounts_refl (low : nat) (toks : list Token) :
  accounts low toks (toks, Underway).
Proof.
  split; [apply Nat.le_refl|]. cbn [snd fst].
  split; [reflexivity|]. intros d _ H. exists d. exact H.
Qed.

Lemma accounts_weaken (low : nat) (toks : list Token) (xml' : Reader) :
  accounts 0 toks xml' -> accounts low toks xml'.
Proof.
  destruct xml' as [t ph]. intros [L H]. split; [exact L|].
  cbn [fst snd] in *. destruct ph.
  - destruct H as [E C]. split; [exact E|]. intros d _. apply C. lia.
  - exact H.
  - intros d _. apply H. lia.
Qed.

(** A reader that has come to [toks1], and what is done from there. *)
Lemma accounts_via (low : nat) (toks toks1 : list Token) (xml' : Reader) :
  accounts low toks (toks1, Underway) -> accounts 0 toks1 xml' ->
  accounts low toks xml'.
Proof.
  destruct xml' as [t ph]. intros [L1 [E1 C1]] [L2 H2].
  unfold accounts. cbn [fst snd] in *. split; [lia|]. destruct ph.
  - destruct H2 as [E2 C2]. split; [congruence|].
    intros d Hd Hc. destruct (C1 d Hd Hc) as [d1 H1].
    apply (C2 d1); [lia | exact H1].
  - congruence.
  - intros d Hd. destruct (closesAll d toks) eqn:Hc; [|reflexivity].
    destruct (C1 d Hd Hc) as [d1 H1].
    rewrite (H2 d1) in H1 by lia. discriminate H1.
Qed.

Lemma accounts_startDocument (rest : list Token) :
  accounts 0 (StartDocument :: rest) (rest, Underway).
Proof.
  split; [cbn [fst List.length]; lia|]. cbn [snd fst].
  split; [reflexivity|]. intros d _ H. exists d. exact H.
Qed.

Lemma accounts_characters (text : string) (rest : list Token) :
  accounts 0 (Characters text :: rest) (rest, Underway).
Proof.
  split; [cbn [fst List.length]; lia|]. cbn [snd fst].
  split; [reflexivity|]. intros d _ H. exists d. exact H.
Qed.

Lemma accounts_endElement (name : string) (rest : list Token) :
  accounts 0 (EndElement name :: rest) (rest, Underway).
Proof.
  split; [cbn [fst List.length]; lia|]. cbn [snd fst].
  split; [reflexivity|]. intros [|d] _ H; [discriminate H|].
  exists d. exact H.
Qed.

(** Behind a start element the tokens are inside one element more. *)
Lemma accounts_startElement (name : string) (attrs : list (string * string))
    (rest : list Token) (xml' : Reader) :
  accounts 1 rest xml' -> accounts 0 (StartElement name attrs :: rest) xml'.
Proof.
  destruct xml' as [t ph]. intros [L H]. cbn [fst snd] in *.
  split; [cbn [fst List.length]; lia|]. cbn [snd fst]. destruct ph.
  - destruct H as [E C]. split; [exact E|].
    intros d _ Hc. apply (C (S d)); [lia | exact Hc].
  - exact H.
  - intros d _. apply (H (S d)). lia.
Qed.

(** [readElementText] leaves the reader behind the end element that
    closes the element it was called on, or in error. *)
Lemma readText_accounts (toks : list Token) : forall skipping acc,
  (List.length (fst (snd (readText skipping acc toks)))
   <= List.length toks)%nat
  /\ match snd (snd (readText skipping acc toks)) with
     | Underway =>
         endsCleanly (fst (snd (readText skipping acc toks)))
         = endsCleanly toks
         /\ forall d, closesAll d toks = true ->
            exists d',
              closesAll d' (fst (snd (readText skipping acc toks))) = true
     | Ended => False
     | Erred => forall d, (skipping < d)%nat -> closesAll d toks = false
     end.
Proof.
  induction toks as [| tok rest IH]; intros skipping acc.
  { split; [apply Nat.le_refl|]. intros d _. reflexivity. }
  destruct tok as [| | name attrs | name | text |].
  - (* StartDocument *)
    destruct skipping as [|k]; cbn [readText];
      [ destruct (IH 0%nat acc) as [L H]
      | destruct (IH (S k) acc) as [L H] ];
      (split; [cbn [List.length]; lia | exact H]).
  - (* EndDocument *)
    destruct skipping; cbn [readText fst snd List.length];
      (split; [lia|]; intros [|d] Hd; [lia | reflexivity]).
  - (* StartElement *)
    assert (G : forall k,
      (List.length (fst (snd (readText (S k) acc rest)))
       <= List.length (StartElement name attrs :: rest))%nat
      /\ match snd (snd (readText (S k) acc rest)) with
         | Underway =>
             endsCleanly (fst (snd (readText (S k) acc rest)))
             = endsCleanly (StartElement name attrs :: rest)
             /\ forall d, closesAll d (StartElement name attrs :: rest) = true ->
                exists d',
                  closesAll d' (fst (snd (readText (S k) acc rest))) = true
         | Ended => False
         | Erred => forall d, (k < d)%nat ->
                    closesAll d (StartElement name attrs :: rest) = false
         end).
    { intro k. destruct (IH (S k) acc) as [L H].
      split; [cbn [List.length]; lia|].
      destruct (snd (snd (readText (S k) acc rest))).
      - destruct H as [E C]. split; [exact E|].
        intros d Hc. apply (C (S d)). exact Hc.
      - exact H.
      - intros d Hd. apply (H (S d)). lia. }
    destruct skipping; cbn [readText]; apply G.
  - (* EndElement *)
    destruct skipping as [|k]; cbn [readText fst snd].
    + split; [cbn [List.length]; lia|]. split; [reflexivity|].
      intros [|d] H; [discriminate H|]. exists d. exact H.
    + destruct (IH k acc) as [L H]. split; [cbn [List.length]; lia|].
      destruct (snd (snd (readText k acc rest))).
      * destruct H as [E C]. split; [exact E|].
        intros [|d] Hc; [discriminate Hc|]. apply (C d). exact Hc.
      * exact H.
      * intros [|d] Hd; [reflexivity|]. apply (H d). lia.
  - (* Characters *)
    destruct skipping; cbn [readText];
      (match goal with
       | |- context [readText ?k ?a rest] => destruct (IH k a) as [L H]
       end;
       split; [cbn [List.length]; lia|]; exact H).
  - (* Invalid *)
    destruct skipping; cbn [readText fst snd List.length];
      (split; [lia|]; intros d _; reflexivity).
Qed.

Lemma ends_textField {A : Type} (set : string -> A -> A) (n : nat) :
  ends (fun _ xml acc => textField set xml acc) n.
Proof.
  intros fuel toks acc _ _. unfold textField, readElementText.
  cbn [fst snd].
  pose proof (readText_accounts toks 0 EmptyString) as [L H].
  destruct (readText 0 EmptyString toks) as [text [t ph]].
  cbn [fst snd] in *.
  exists (t, ph), (set text acc). split; [reflexivity|].
  split; [exact L|]. cbn [fst snd]. destruct ph.
  - destruct H as [E C]. split; [exact E|]. intros d _. apply C.
  - destruct H.
  - intros d Hd. apply H. lia.
Qed.

Lemma ends_skip {A : Type} (n : nat) :
  ends (fun (_ : nat) (xml : Reader) (acc : A) => Some (xml, acc)) n.
Proof.
  intros fuel toks acc _ _. exists (toks, Underway), acc.
  split; [reflexivity | apply accounts_refl].
Qed.

Lemma ends_nested {A B : Type}
    (parser : nat -> Reader -> B -> option (Reader * B)) (initial : B)
    (store : B -> A -> A) (n : nat) :
  ends parser n ->
  ends (fun fuel xml acc => nested parser fuel xml initial store acc) n.
Proof.
  intros P fuel toks acc L1 L2. unfold nested.
  destruct (P fuel toks initial L1 L2) as (xml' & v & E & S).
  rewrite E. exists xml', (store v acc). split; [reflexivity | exact S].
Qed.

(** A reader at the end or in error ends the loop. *)
Lemma elementLoop_stops {A : Type} (closes : string -> bool)
    (finish : A -> A)
    (handle : nat -> string -> list (string * string) -> Reader -> A ->
              option (Reader * A)) (fuel : nat) (xml : Reader) (acc : A) :
  atEnd xml = true ->
  elementLoop closes finish handle (S fuel) xml acc = Some (xml, acc).
Proof. intro H. cbn [elementLoop]. rewrite H. reflexivity. Qed.

Lemma elementLoop_ends {A : Type} (closes : string -> bool)
    (finish : A -> A)
    (handle : nat -> string -> list (string * string) -> Reader -> A ->
              option (Reader * A)) (n : nat) :
  (forall name attrs,
     ends (fun fuel xml acc => handle fuel name attrs xml acc) n) ->
  forall fuel toks acc,
    (List.length toks + 1 < fuel)%nat -> (List.length toks <= n)%nat ->
    exists xml' acc',
      elementLoop closes finish handle fuel (toks, Underway) acc
      = Some (xml', acc')
      /\ accounts 0 toks xml'.
Proof.
  intro H. induction fuel as [| fuel IH]; intros toks acc L1 L2; [lia |].
  cbn [elementLoop atEnd hasError snd orb].
  destruct toks as [| tok rest].
  { cbn [readNext]. destruct fuel as [|fuel]; [cbn in L1; lia|].
    rewrite elementLoop_stops by reflexivity.
    exists ([], Erred), acc. split; [reflexivity|].
    split; [apply Nat.le_refl|]. intros d _. reflexivity. }
  cbn [List.length] in L1, L2.
  assert (Next : forall acc0,
            exists xml' acc',
              elementLoop closes finish handle fuel (rest, Underway) acc0
              = Some (xml', acc')
              /\ accounts 0 rest xml')
    by (intro acc0; apply IH; lia).
  assert (Stop : forall (xml : Reader) (acc0 : A),
            atEnd xml = true ->
            elementLoop closes finish handle fuel xml acc0
            = Some (xml, acc0)).
  { intros xml acc0 T. destruct fuel as [|fuel]; [lia|].
    apply elementLoop_stops. exact T. }
  destruct tok as [| | name attrs | name | text |]; cbn [readNext].
  - destruct (Next acc) as (x & a & Ex & Ax). exists x, a.
    split; [exact Ex|].
    exact (accounts_via _ _ _ _ (accounts_startDocument rest) Ax).
  - rewrite Stop by reflexivity. exists (rest, Ended), acc.
    split; [reflexivity|]. split; [cbn [fst List.length]; lia | reflexivity].
  - destruct (H name attrs fuel rest acc) as (x1 & a1 & E1 & A1); try lia.
    rewrite E1. destruct x1 as [toks1 ph1].
    pose proof (proj1 A1) as S1. cbn [fst] in S1.
    destruct ph1.
    + destruct (IH toks1 a1) as (x & a & Ex & Ax); try lia.
      exists x, a. split; [exact Ex|].
      apply accounts_startElement.
      exact (accounts_via _ _ _ _ A1 Ax).
    + rewrite Stop by reflexivity. exists (toks1, Ended), a1.
      split; [reflexivity|]. apply accounts_startElement. exact A1.
    + rewrite Stop by reflexivity. exists (toks1, Erred), a1.
      split; [reflexivity|]. apply accounts_startElement. exact A1.
  - destruct (closes name).
    + exists (rest, Underway), (finish acc).
      split; [reflexivity | apply accounts_endElement].
    + destruct (Next acc) as (x & a & Ex & Ax). exists x, a.
      split; [exact Ex|].
      exact (accounts_via _ _ _ _ (accounts_endElement name rest) Ax).
  - destruct (Next acc) as (x & a & Ex & Ax). exists x, a.
    split; [exact Ex|].
    exact (accounts_via _ _ _ _ (accounts_characters text rest) Ax).
  - rewrite Stop by reflexivity. exists (rest, Erred), acc.
    split; [reflexivity|]. split; [cbn [fst List.length]; lia|].
    intros d _. reflexivity.
Qed.

Lemma ends_elementLoop {A : Type} (closes : string -> bool)
    (finish : A -> A)
    (handle : nat -> string -> list (string * string) -> Reader -> A ->
              option (Reader * A)) (n : nat) :
  (forall name attrs,
     ends (fun fuel xml acc => handle fuel name attrs xml acc) n) ->
  ends (elementLoop closes finish handle) (S n).
Proof.
  intros H fuel toks acc L1 L2.
  destruct (elementLoop_ends closes finish handle n H fuel toks acc)
    as (x & a & E & Ac); [exact L1 | lia |].
  exists x, a. split; [exact E | apply accounts_weaken; exact Ac].
Qed.

(** The loop of [parse] waits for no end element: it ends only with the
    reader at the end or in error. *)
Lemma elementLoop_unclosed {A : Type} (finish : A -> A)
    (handle : nat -> string -> list (string * string) -> Reader -> A ->
              option (Reader * A)) :
  forall fuel xml acc xml' acc',
  elementLoop (fun _ => false) finish handle fuel xml acc
  = Some (xml', acc') ->
  atEnd xml' = true.
Proof.
  induction fuel as [|fuel IH]; intros xml acc xml' acc' E; [discriminate E|].
  cbn [elementLoop] in E.
  destruct (atEnd xml || hasError xml) eqn:T.
  - injection E as <- <-.
    destruct xml as [t [| |]]; [discriminate T | reflexivity | reflexivity].
  - destruct (readNext xml) as [tok xml1].
    destruct tok as [| | name attrs | name | text |];
      try (eapply IH; exact E).
    destruct (handle fuel name attrs xml1 acc) as [[x a]|];
      [eapply IH; exact E | discriminate E].
Qed.

Ltac by_cases :=
  repeat match goal with
         | |- context [if String.eqb ?a ?b then _ else _] =>
             destruct (String.eqb a b)
         end.

Lemma ends_extent (n : nat) : ends parseExtent n.
Proof.
  intros fuel toks acc L1 L2.
  apply (ends_elementLoop _ _ extentElement (List.length toks));
    [| exact L1 | lia].
  intros name attrs f t a M1 M2. unfold extentElement. by_cases;
    first [ exact (ends_textField _ _ f t a M1 M2)
          | exact (ends_skip _ f t a M1 M2) ].
Qed.

Lemma ends_attribute (n : nat) : ends parseExtendedAttribute n.
Proof.
  intros fuel toks acc L1 L2.
  apply (ends_elementLoop _ _ attributeElement (List.length toks));
    [| exact L1 | lia].
  intros name attrs f t a M1 M2. unfold attributeElement. by_cases;
    first [ exact (ends_textField _ _ f t a M1 M2)
          | exact (ends_skip _ f t a M1 M2) ].
Qed.

Lemma ends_location (n : nat) : ends parseLocation n.
Proof.
  intros fuel toks acc L1 L2.
  apply (ends_elementLoop _ _ locationElement (List.length toks));
    [| exact L1 | lia].
  intros name attrs f t a M1 M2. unfold locationElement. by_cases;
    first [ exact (ends_textField _ _ f t a M1 M2)
          | exact (ends_skip _ f t a M1 M2) ].
Qed.

Lemma ends_file (now : QDateTime) (n : nat) : ends (parseFile now) n.
Proof.
  intros fuel toks acc L1 L2. unfold parseFile.
  destruct (ends_elementLoop (String.eqb "file") fileDone (fileElement now)
              (List.length toks)) with (fuel := fuel) (toks := toks)
              (acc := (acc, @nil LtfsExtent))
    as (xml' & fe & E & S); [| exact L1 | lia |].
  - intros name attrs f t a M1 M2. unfold fileElement. by_cases;
      first [ exact (ends_textField _ _ f t a M1 M2)
            | exact (ends_skip _ f t a M1 M2)
            | exact (ends_nested _ _ _ _ (ends_extent _) f t a M1 M2)
            | exact (ends_nested _ _ _ _ (ends_attribute _) f t a M1 M2) ].
  - rewrite E. exists xml', (fst fe). split; [reflexivity | exact S].
Qed.

Lemma ends_directory (now : QDateTime) (nest : nat) :
  ends (parseDirectory now nest) nest.
Proof.
  induction nest as [| nest IH]; intros fuel toks acc L1 L2; [lia |].
  cbn [parseDirectory].
  apply (ends_elementLoop _ _ _ nest); [| exact L1 | exact L2].
  intros name attrs f t a M1 M2. unfold directoryElement. by_cases;
    first [ exact (ends_textField _ _ f t a M1 M2)
          | exact (ends_skip _ f t a M1 M2)
          | exact (ends_nested _ _ _ _ (ends_file now _) f t a M1 M2)
          | exact (ends_nested _ _ _ _ IH f t a M1 M2)
          | exact (ends_nested _ _ _ _ (ends_attribute _) f t a M1 M2) ].
Qed.

Lemma ends_index (now : QDateTime) (nest : nat) :
  ends (parseIndex now nest) (S nest).
Proof.
  apply ends_elementLoop.
  intros name attrs f t a M1 M2. unfold indexElement. by_cases;
    first [ exact (ends_textField _ _ f t a M1 M2)
          | exact (ends_skip _ f t a M1 M2)
          | exact (ends_nested _ _ _ _ (ends_location _) f t a M1 M2)
          | exact (ends_nested _ _ _ _ (ends_directory now nest)
                     f t a M1 M2) ].
Qed.

(** X24.  [IndexParser::parse] comes to an end on every document, well
    formed or not; the rounds the model allows are never used up.  It
    returns an index only when the reader has come to the end of the
    document with no error before it, so that a document that is empty,
    that breaks off, or in which the reader reports an error gives the
    null pointer; and it returns the null pointer only on a document
    that is not well formed: where every end element closes an open
    element and the end of the document is reported with none open, the
    result is an index. *)
Theorem parse_ends (now : QDateTime) (xmlData : list Token) :
  (exists index,
     parse now xmlData = Parsed index /\ endsCleanly xmlData = true)
  \/ (parse now xmlData = NullPointer /\ closesAll 0 xmlData = false).
Proof.
  unfold parse.
  set (bound := S (S (List.length xmlData))).
  destruct (elementLoop_ends (fun _ => false) (fun i => i)
              (documentElement now bound) bound) with
      (fuel := bound) (toks := xmlData) (acc := defaultIndex)
    as (xml' & index & E & Ac).
  - intros name attrs f t a M1 M2. unfold documentElement.
    destruct (String.eqb name "ltfsindex").
    + apply (ends_index now bound f t _ M1). lia.
    + exact (ends_skip _ f t a M1 M2).
  - unfold bound. lia.
  - unfold bound. lia.
  - rewrite E.
    pose proof (elementLoop_unclosed _ _ _ _ _ _ _ E) as T.
    destruct xml' as [t ph]. destruct Ac as [_ Ac]. cbn [fst snd] in Ac.
    destruct ph; [discriminate T | left | right].
    + exists index. split; [reflexivity | exact Ac].
    + split; [reflexivity | apply Ac; lia].
Qed.

(** A document that breaks off, and the empty one, give the null
    pointer. *)
Lemma parse_truncated :
  parse IndexExamples.clock [] = NullPointer
  /\ parse IndexExamples.clock
       [StartDocument; StartElement "ltfsindex" [("version", "2.4.0")];
        StartElement "creator" []; Characters "QLTOTapeMan"]%string
     = NullPointer.
Proof. split; reflexivity. Qed.

End ParserFacts.
